(** * DynamicPGMIndex: a shallow embedding of [include/pgm_index_dynamic.hpp]

    The container keeps its entries in a vector of sorted levels.  Level
    [min_level] is a small sorted buffer that is updated in place; deeper
    levels are only ever written as the output of a cascade of pairwise
    merges.  Deletions are written as tombstone entries.

    Conventions of the embedding:
    - keys are integers ([K := Z]); entries are compared by key only, as the
      source does through [Item::operator K()];
    - a level ([LevelType]) is a [list Item]; the vector [data] is a list of
      levels, element [i - min_level] holding level [i];
    - the learned index of a level is always rebuilt from the contents of that
      level, so [get_pgm(i).search(key)] is a function [pgm_search] of the
      level's contents and of the key; [PGMType] itself lives outside this
      header and is a parameter of the development;
    - [std::lower_bound] and [std::upper_bound] are modelled by their
      specification (the partition point of the range);
    - operations whose behaviour the language leaves undefined (indexing
      [data] out of range, writing past the end of a scratch buffer, a
      merge that takes its input from a scratch slot before it is written)
      and failing assertions evaluate to [None];
    - [LevelType] allocates with [DefaultInitAllocator], so a scratch buffer
      starts out with slots that hold nothing determined; a cascade can
      hand such slots, never written, to a level, and what they hold is a
      parameter of the development ([uninit_slot]);
    - [reserve] and [shrink_to_fit] only change capacities, which are not
      part of the state; [reserve] is modelled as far as it indexes [data];
      [uint8_t]/[size_t] counters are unbounded, except where the source
      subtracts unsigned sizes, which is written out modulo [2^64]. *)

From Stdlib Require Import ZArith List Bool Arith Lia Sorted.
From Stdlib Require String.
Import ListNotations.

Set Implicit Arguments.

(** ** Option monad for partial operations *)

Definition obind {A B : Type} (m : option A) (f : A -> option B) : option B :=
  match m with
  | Some a => f a
  | None => None
  end.

Notation "x <- m ;; k" := (obind m (fun x => k))
  (at level 61, m at next level, right associativity).
Notation "' p <- m ;; k" := (obind m (fun x => match x with p => k end))
  (at level 61, p pattern, m at next level, right associativity).

(** ** Entries *)

Definition K := Z.

(** The two base classes [BaseItemA] and [BaseItemB] offer the same
    interface; [BaseItem] is whichever [std::conditional_t] selects. *)
Class BaseItem (V : Type) := {
  base : Type;
  base_default : base;               (* BaseItem()            *)
  base_of_value : V -> base;         (* BaseItem(const V&)    *)
  base_deleted : base -> bool;       (* deleted()             *)
  base_set_deleted : base -> base;   (* set_deleted()         *)
  base_second : base -> V            (* the member [second]   *)
}.

(** [BaseItemA]: used when [V] is a pointer type.  The only member is
    [second]; an entry is deleted when [second] equals the static
    [tombstone].  [indet] stands for the value a defaulted member holds. *)
Definition BaseItemA (V : Type) (V_eqb : V -> V -> bool) (tombstone indet : V)
  : BaseItem V :=
  {| base := V;
     base_default := indet;
     base_of_value := fun v => v;
     base_deleted := fun second => V_eqb second tombstone;
     base_set_deleted := fun _ => tombstone;
     base_second := fun second => second |}.

(** [BaseItemB]: a value and a separate flag. *)
Definition BaseItemB (V : Type) (indet : V) (indet_flag : bool) : BaseItem V :=
  {| base := (V * bool)%type;
     base_default := (indet, indet_flag);
     base_of_value := fun v => (v, false);
     base_deleted := fun b => snd b;
     base_set_deleted := fun b => (fst b, true);
     base_second := fun b => fst b |}.

Section Items.

Context {V : Type} {BI : BaseItem V}.

Record Item : Type := mkItem { item_base : base; first : K }.

(** [Item(const K &key)]: a tombstone for [key]. *)
Definition Item_k (k : K) : Item :=
  mkItem (base_set_deleted base_default) k.

(** [Item(const K &key, const V &value)]. *)
Definition Item_kv (k : K) (v : V) : Item :=
  mkItem (base_of_value v) k.

(** [Item(const std::pair<K, V> &p)]. *)
Definition Item_pair (p : K * V) : Item :=
  mkItem (base_of_value (snd p)) (fst p).

Definition deleted (x : Item) : bool := base_deleted (item_base x).
Definition key (x : Item) : K := first x.
Definition value (x : Item) : V := base_second (item_base x).

Definition LevelType : Type := list Item.

(** ** Binary searches, by specification *)

(** [std::lower_bound(l.begin(), l.end(), k) - l.begin()]. *)
Fixpoint lower_bound_pos (l : LevelType) (k : K) : nat :=
  match l with
  | [] => 0
  | x :: t => if (key x <? k)%Z then S (lower_bound_pos t k) else 0
  end.

(** [std::upper_bound(l.begin(), l.end(), k) - l.begin()]. *)
Fixpoint upper_bound_pos (l : LevelType) (k : K) : nat :=
  match l with
  | [] => 0
  | x :: t => if (k <? key x)%Z then 0 else S (upper_bound_pos t k)
  end.

(** The same searches on the sub-range [[lo, hi)] of a level. *)
Definition sub_range (l : LevelType) (lo hi : nat) : LevelType :=
  firstn (hi - lo) (skipn lo l).

Definition lower_bound_in (l : LevelType) (lo hi : nat) (k : K) : nat :=
  lo + lower_bound_pos (sub_range l lo hi) k.

Definition upper_bound_in (l : LevelType) (lo hi : nat) (k : K) : nat :=
  lo + upper_bound_pos (sub_range l lo hi) k.

(** ** The merge of two sorted runs *)

(** [merge<SkipDeleted>(first1, last1, first2, last2, result)]: [l1] is the
    running (newer) sequence and [l2] the level being absorbed. *)
Fixpoint merge (SkipDeleted : bool) (l1 : list Item) : list Item -> list Item :=
  fix merge_l2 (l2 : list Item) : list Item :=
    match l1, l2 with
    | [], _ => l2
    | _, [] => l1
    | x1 :: t1, x2 :: t2 =>
        if (key x2 <? key x1)%Z then x2 :: merge_l2 t2
        else if (key x1 <? key x2)%Z then x1 :: merge SkipDeleted t1 l2
        else if SkipDeleted && deleted x1 then merge SkipDeleted t1 t2
        else x1 :: merge SkipDeleted t1 t2
    end.

(** ** The container *)

Definition min_level : nat := 6.
Definition init_levels : nat := 15.
Definition max_fully_allocated_level : nat := Nat.max 15 (min_level + 1).

(** [MinIndexedLevel] is a template parameter (18 by default); the
    [static_assert] of the class requires [min_level < MinIndexedLevel]. *)
Variable MinIndexedLevel : nat.

(** [PGMType(level.begin(), level.end()).search(key)], as the pair
    [(range.lo, range.hi)]. *)
Variable pgm_search : LevelType -> K -> nat * nat.

(** The member [pgm] is determined by [data] (see the header of this file),
    so the state consists of [used_levels] and [data]. *)
Record DynamicPGMIndex : Type := mkIndex {
  used_levels : nat;
  data : list LevelType
}.

(** [get_level(level)] for reading.  Every read of the source is at a level
    below [used_levels], which is allocated in every reachable state (see
    [levels_allocated]); outside [data] the model reads an empty level. *)
Definition get_level (st : DynamicPGMIndex) (level : nat) : LevelType :=
  nth (level - min_level) (data st) [].

Fixpoint set_nth {A : Type} (n : nat) (x : A) (l : list A) : list A :=
  match l, n with
  | [], _ => []
  | _ :: t, O => x :: t
  | h :: t, S n' => h :: set_nth n' x t
  end.

Arguments set_nth : simpl never.

(** Assignment through [get_level(level)] / [data[...]]; the slot must exist. *)
Definition assign_level (d : list LevelType) (level : nat) (l : LevelType)
  : option (list LevelType) :=
  if level <? min_level then None
  else match nth_error d (level - min_level) with
       | Some _ => Some (set_nth (level - min_level) l d)
       | None => None
       end.

(** Subtraction of two [size_t] values. *)
Definition size_sub (a b : Z) : Z := ((a - b) mod 2 ^ 64)%Z.

(** *** Scratch buffers of the cascade

    A scratch buffer is a vector of default-initialised entries; a slot is
    [None] until the cascade writes it. *)
Definition Buf : Type := list (option Item).

(** Writing [out] through an output iterator that starts at [buf.begin()]. *)
Definition store (buf : Buf) (out : list Item) : option Buf :=
  if length out <=? length buf
  then Some (map Some out ++ skipn (length out) buf)
  else None.

(** Reading all slots of a buffer; they must have been written. *)
Fixpoint written (buf : Buf) : option (list Item) :=
  match buf with
  | [] => Some []
  | Some x :: t => r <- written t ;; Some (x :: r)
  | None :: _ => None
  end.

(** Reading the range [[buf.begin(), buf.begin() + n)]. *)
Definition load (buf : Buf) (n : nat) : option (list Item) :=
  if n <=? length buf then written (firstn n buf) else None.

(** [buf.resize(n)]. *)
Definition resize (buf : Buf) (n : nat) : Buf :=
  firstn n buf ++ repeat None (n - length buf).

(** *** Slots that were never written

    [DefaultInitAllocator] default-initialises the entries of a new vector:
    what a slot of a scratch buffer holds before the cascade writes it is
    not determined by the program.  [uninit_slot st j] stands for the
    content of slot [j] of a scratch buffer allocated in state [st]. *)
Class Uninit : Type := uninit_slot : DynamicPGMIndex -> nat -> Item.

Context {U : Uninit}.

(** The entries of a buffer from slot [j] on, as a level that is handed
    the buffer reads them: [fill] gives the content of the slots that were
    never written. *)
Fixpoint handed_out (fill : nat -> Item) (j : nat) (buf : Buf) : list Item :=
  match buf with
  | [] => []
  | Some x :: t => x :: handed_out fill (S j) t
  | None :: t => fill j :: handed_out fill (S j) t
  end.

(** The state of the merge loop: both scratch buffers, [actual_size] and the
    levels. *)
Record MergeLoop : Type := mkLoop {
  tmp_a : Buf;
  tmp_b : Buf;
  actual_size : nat;
  loop_data : list LevelType
}.

(** One iteration of the loop "Merge subsequent levels", for level [i]. *)
Definition merge_level (used : nat) (mod2 : nat) (s : MergeLoop) (i : nat)
  : option MergeLoop :=
  let alternate := ((i - min_level) mod 2 =? mod2) in
  level_data <- nth_error (loop_data s) (i - min_level) ;;
  run <- load (if alternate then tmp_a s else tmp_b s) (actual_size s) ;;
  let can_delete_permanently := (i =? used - 1) in
  let out := merge can_delete_permanently run level_data in
  d <- assign_level (loop_data s) i [] ;;
  if alternate
  then b <- store (tmp_b s) out ;; Some (mkLoop (tmp_a s) b (length out) d)
  else a <- store (tmp_a s) out ;; Some (mkLoop a (tmp_b s) (length out) d).

Fixpoint merge_levels (used : nat) (mod2 : nat) (s : MergeLoop)
  (levels : list nat) : option MergeLoop :=
  match levels with
  | [] => Some s
  | i :: rest => s' <- merge_level used mod2 s i ;; merge_levels used mod2 s' rest
  end.

(** [pairwise_logarithmic_merge(new_item, up_to_level, size_hint,
    insertion_point)]; [insertion_point] is an offset into [data[0]]. *)
Definition pairwise_logarithmic_merge (st : DynamicPGMIndex) (new_item : Item)
  (up_to_level size_hint insertion_point : nat) : option DynamicPGMIndex :=
  let target_level := up_to_level + 1 in
  target_level_data <- nth_error (data st) (target_level - min_level) ;;
  let actual_size0 := 2 ^ (1 + min_level) in
  if (size_sub (2 ^ Z.of_nat target_level) (Z.of_nat (length target_level_data))
        <? Z.of_nat actual_size0)%Z
  then None (* the assertion fails *)
  else
    let a0 : Buf := repeat None size_hint in
    let b0 : Buf := repeat None (size_hint + length target_level_data) in
    let mod2 := (up_to_level - min_level) mod 2 in
    level0 <- nth_error (data st) 0 ;;
    let seeded :=
      firstn insertion_point level0 ++ new_item :: skipn insertion_point level0 in
    s0 <- (if mod2 =? 0
           then b <- store b0 seeded ;; Some (mkLoop a0 b actual_size0 (data st))
           else a <- store a0 seeded ;; Some (mkLoop a b0 actual_size0 (data st))) ;;
    let limit :=
      match target_level_data with [] => up_to_level | _ => up_to_level + 1 end in
    s <- merge_levels (used_levels st) mod2 s0
           (seq (1 + min_level) (limit - min_level)) ;;
    let new_target_data :=
      handed_out (uninit_slot st) 0 (resize (tmp_b s) (actual_size s)) in
    d0 <- assign_level (loop_data s) min_level [] ;;
    d <- assign_level d0 target_level new_target_data ;;
    Some (mkIndex (used_levels st) d).

(** The loop of [insert] that looks for a level with enough free slots;
    it returns the final [i] and [slots_required]. *)
Fixpoint find_free_level (st : DynamicPGMIndex) (fuel i : nat)
  (slots_required : nat) : nat * nat :=
  match fuel with
  | O => (i, slots_required)
  | S fuel' =>
      if i <? used_levels st then
        let sz := length (get_level st i) in
        let slots_left := size_sub (2 ^ Z.of_nat i) (Z.of_nat sz) in
        if (Z.of_nat slots_required <=? slots_left)%Z
        then (i, slots_required)
        else find_free_level st fuel' (S i) (slots_required + sz)
      else (i, slots_required)
  end.

(** The part of [insert] that runs when the key is not in [data[0]]. *)
Definition insert_new (st : DynamicPGMIndex) (new_item : Item)
  (level0 : LevelType) (insertion_point : nat) : option DynamicPGMIndex :=
  let first_level_max_size := 2 ^ (min_level + 1) - 1 in
  let first_level_has_slots_left := length level0 <? first_level_max_size in
  if first_level_has_slots_left then
    let level0' :=
      firstn insertion_point level0 ++ new_item :: skipn insertion_point level0 in
    Some (mkIndex
            (if used_levels st =? min_level then min_level + 1 else used_levels st)
            (set_nth 0 level0' (data st)))
  else
    let '(i, slots_required) :=
      find_free_level st (used_levels st - (min_level + 1)) (min_level + 1)
        (first_level_max_size + 1) in
    let need_new_level := (i =? used_levels st) in
    let st' :=
      if need_new_level
      then mkIndex (S (used_levels st)) (data st ++ [[]])
      else st in
    pairwise_logarithmic_merge st' new_item (i - 1) slots_required insertion_point.

(** [insert(const Item &new_item)]. *)
Definition insert (st : DynamicPGMIndex) (new_item : Item)
  : option DynamicPGMIndex :=
  level0 <- nth_error (data st) 0 ;;
  let insertion_point := lower_bound_pos level0 (key new_item) in
  match nth_error level0 insertion_point with
  | Some x =>
      if (key x =? key new_item)%Z
      then Some (mkIndex (used_levels st)
                   (set_nth 0 (set_nth insertion_point new_item level0) (data st)))
      else insert_new st new_item level0 insertion_point
  | None => insert_new st new_item level0 insertion_point
  end.

(** [insert(const K &key, const V &value)] and [erase(const K &key)]. *)
Definition insert_kv (st : DynamicPGMIndex) (k : K) (v : V)
  : option DynamicPGMIndex := insert st (Item_kv k v).

Definition erase (st : DynamicPGMIndex) (k : K) : option DynamicPGMIndex :=
  insert st (Item_k k).

(** The members as the initialiser list of [DynamicPGMIndex()] sets them:
    [used_levels(min_level), data(init_levels - min_level)]. *)
Definition empty_index : DynamicPGMIndex :=
  mkIndex min_level (repeat [] (init_levels - min_level)).

(** [get_level(level).reserve(n)]: the level has to exist. *)
Definition reserve (d : list LevelType) (level : nat)
  : option (list LevelType) :=
  if level <? min_level then None
  else match nth_error d (level - min_level) with
       | Some _ => Some d
       | None => None
       end.

Fixpoint reserve_levels (d : list LevelType) (levels : list nat)
  : option (list LevelType) :=
  match levels with
  | [] => Some d
  | i :: rest => d' <- reserve d i ;; reserve_levels d' rest
  end.

(** The [reserve] statements of both constructors, for the levels
    [min_level .. max_fully_allocated_level]. *)
Definition reserve_all (d : list LevelType) : option (list LevelType) :=
  reserve_levels d (seq min_level (max_fully_allocated_level - min_level + 1)).

(** [DynamicPGMIndex()]: the initialiser list, then the body.  [data] has
    the [init_levels - min_level] slots of the levels [min_level .. 14],
    and the body reserves up to level [max_fully_allocated_level]. *)
Definition default_constructor : option DynamicPGMIndex :=
  d <- reserve_all (data empty_index) ;;
  Some (mkIndex (used_levels empty_index) d).

(** [operator<] on values: [std::is_sorted] in the bulk constructor
    compares the pairs of its input, keys first and values second. *)
Class ValueLess : Type := value_ltb : V -> V -> bool.

Context {VL : ValueLess}.

(** [operator<] of [std::pair<K, V>]. *)
Definition pair_ltb (p q : K * V) : bool :=
  (fst p <? fst q)%Z
  || (negb (fst q <? fst p)%Z && value_ltb (snd p) (snd q)).

(** [std::is_sorted(first, last)]: no element is less than the one before
    it. *)
Fixpoint is_sorted (input : list (K * V)) : bool :=
  match input with
  | [] => true
  | p :: t =>
      match t with
      | [] => true
      | q :: _ => negb (pair_ltb q p) && is_sorted t
      end
  end.

(** The copy loop of the bulk constructor: [prev] is [*std::prev(out)]. *)
Fixpoint copy_first_of_each (prev : Item) (rest : list (K * V)) : list Item :=
  match rest with
  | [] => []
  | p :: t =>
      if (fst p =? key prev)%Z then copy_first_of_each prev t
      else Item_pair p :: copy_first_of_each (Item_pair p) t
  end.

(** [DynamicPGMIndex(Iterator first, Iterator last)].
    [std::ceil(std::log2(n))] is [Z.log2_up n] for [n >= 1]; for an empty
    range the source dereferences [first] and converts an infinite value. *)
Definition build (input : list (K * V)) : option DynamicPGMIndex :=
  if negb (is_sorted input) then None (* the assertion fails *)
  else
    match input with
    | [] => None
    | p :: rest =>
        let n := length input in
        let used := Z.to_nat (Z.log2_up (Z.of_nat n)) + 1 in
        d <- reserve_all
               (repeat [] (Nat.max used max_fully_allocated_level
                           - min_level + 1)) ;;
        let target := Item_pair p :: copy_first_of_each (Item_pair p) rest in
        d' <- assign_level d (used - 1) target ;;
        Some (mkIndex used d')
    end.

(** ** Lookups *)

(** A [LevelType::const_iterator]: the level it points into and the offset
    in that level. *)
Definition internal_iterator : Type := (nat * nat)%type.

(** [end()], that is [data.back().end()]. *)
Definition end_it (st : DynamicPGMIndex) : internal_iterator :=
  (min_level + (length (data st) - 1), length (last (data st) [])).

(** The position at which a level is probed for [k]: a binary search on the
    whole level below [MinIndexedLevel], and on the range given by the
    learned index from there on. *)
Definition probe (i : nat) (level : LevelType) (k : K) : nat :=
  if i <? MinIndexedLevel then lower_bound_pos level k
  else let '(lo, hi) := pgm_search level k in lower_bound_in level lo hi k.

(** The two loops of [find], over the levels [min_level .. used_levels - 1]. *)
Fixpoint find_from (st : DynamicPGMIndex) (k : K) (levels : list nat)
  : internal_iterator :=
  match levels with
  | [] => end_it st
  | i :: rest =>
      let level := get_level st i in
      match level with
      | [] => find_from st k rest
      | _ =>
          match nth_error level (probe i level k) with
          | Some x =>
              if (key x =? k)%Z
              then (if deleted x then end_it st else (i, probe i level k))
              else find_from st k rest
          | None => find_from st k rest
          end
      end
  end.

Definition find (st : DynamicPGMIndex) (k : K) : internal_iterator :=
  find_from st k (seq min_level (used_levels st - min_level)).

(** Dereferencing an iterator. *)
Definition deref (st : DynamicPGMIndex) (it : internal_iterator) : option Item :=
  nth_error (get_level st (fst it)) (snd it).

(** What a caller reads off [find]: the entry found, or nothing for [end()]. *)
Definition find_entry (st : DynamicPGMIndex) (k : K) : option Item :=
  let it := find st k in
  if (fst it =? fst (end_it st)) && (snd it =? snd (end_it st)) then None
  else deref st it.

(** [count(key)]. *)
Definition count (st : DynamicPGMIndex) (k : K) : nat :=
  let it := find st k in
  if (fst it =? fst (end_it st)) && (snd it =? snd (end_it st)) then 0 else 1.

(** [*it] for an iterator that points at an entry; every iterator the
    source dereferences does. *)
Definition entry_at (st : DynamicPGMIndex) (it : internal_iterator) : Item :=
  nth (snd it) (get_level st (fst it)) (mkItem base_default 0%Z).

(** [while (it != level.end() && it->deleted()) ++it], as the number of
    steps taken from the start of [suffix]. *)
Fixpoint skip_deleted (suffix : LevelType) : nat :=
  match suffix with
  | [] => 0
  | x :: t => if deleted x then S (skip_deleted t) else 0
  end.

(** The two loops of [lower_bound]; [lo] is [None] while [lo_is_set] is
    false. *)
Fixpoint lower_bound_from (st : DynamicPGMIndex) (k : K) (levels : list nat)
  (lo : option internal_iterator) : option internal_iterator :=
  match levels with
  | [] => lo
  | i :: rest =>
      let level := get_level st i in
      match level with
      | [] => lower_bound_from st k rest lo
      | _ =>
          let pos0 := probe i level k in
          let pos := pos0 + skip_deleted (skipn pos0 level) in
          match nth_error level pos with
          | Some x =>
              if (k <=? key x)%Z &&
                 match lo with
                 | None => true
                 | Some l => (key x <? key (entry_at st l))%Z
                 end
              then lower_bound_from st k rest (Some (i, pos))
              else lower_bound_from st k rest lo
          | None => lower_bound_from st k rest lo
          end
      end
  end.

Definition lower_bound (st : DynamicPGMIndex) (k : K) : internal_iterator :=
  match lower_bound_from st k (seq min_level (used_levels st - min_level)) None with
  | Some lo => lo
  | None => end_it st
  end.

(** ** The forward iterator *)

(** [std::numeric_limits<K>::min()]. *)
Variable K_min : K.

Definition queue_pair : Type := (internal_iterator * nat)%type.

Record DynamicPGMIndexIterator : Type := mkIter {
  it : internal_iterator;
  initialized : bool;
  queue : list queue_pair
}.

(** [iterator(this, it)]. *)
Definition iterator (i : internal_iterator) : DynamicPGMIndexIterator :=
  mkIter i false [].

Definition iter_eqb (a b : DynamicPGMIndexIterator) : bool :=
  (fst (it a) =? fst (it b)) && (snd (it a) =? snd (it b)).

Definition begin_ (st : DynamicPGMIndex) : DynamicPGMIndexIterator :=
  iterator (lower_bound st K_min).

Definition end_ (st : DynamicPGMIndex) : DynamicPGMIndexIterator :=
  iterator (end_it st).

Definition queue_cmp (st : DynamicPGMIndex) (e1 e2 : queue_pair) : bool :=
  (key (entry_at st (fst e2)) <? key (entry_at st (fst e1)))%Z
  || ((key (entry_at st (fst e1)) =? key (entry_at st (fst e2)))%Z
      && (snd e2 <? snd e1)).

(** The priority queue is kept as the list of its elements; [queue.top()] is
    the element that no other element precedes under [queue_cmp]. *)
Fixpoint queue_top_from (st : DynamicPGMIndex) (best : queue_pair)
  (q : list queue_pair) : queue_pair :=
  match q with
  | [] => best
  | e :: q' =>
      if queue_cmp st best e then queue_top_from st e q'
      else queue_top_from st best q'
  end.

Definition queue_pair_eqb (e1 e2 : queue_pair) : bool :=
  (fst (fst e1) =? fst (fst e2)) && (snd (fst e1) =? snd (fst e2))
  && (snd e1 =? snd e2).

(** [queue.pop()] when [e] is the top. *)
Fixpoint queue_remove (e : queue_pair) (q : list queue_pair) : list queue_pair :=
  match q with
  | [] => []
  | e' :: q' => if queue_pair_eqb e e' then q' else e' :: queue_remove e q'
  end.

(** The lambda [queue_step] of [advance]; the queue must not be empty. *)
Definition queue_step (st : DynamicPGMIndex) (q : list queue_pair)
  : option (internal_iterator * list queue_pair) :=
  match q with
  | [] => None
  | e :: q' =>
      let top := queue_top_from st e q' in
      let level_it := fst top in
      let level_idx := snd top in
      let popped := queue_remove top q in
      let next := (fst level_it, S (snd level_it)) in
      if snd next =? length (get_level st level_idx)
      then Some (level_it, popped)
      else Some (level_it, (next, level_idx) :: popped)
  end.

(** The loop of [lazy_initialize_queue], building [initial_pairs];
    [cur] is [*it]. *)
Fixpoint initial_pairs (st : DynamicPGMIndex) (cur : Item) (levels : list nat)
  : list queue_pair :=
  match levels with
  | [] => []
  | i :: rest =>
      let level := get_level st i in
      match level with
      | [] => initial_pairs st cur rest
      | _ =>
          let '(lo, hi) :=
            if MinIndexedLevel <=? i then pgm_search level (key cur)
            else (0, length level) in
          let pos := upper_bound_in level lo hi (key cur) in
          if pos =? length level then initial_pairs st cur rest
          else ((i, pos), i) :: initial_pairs st cur rest
      end
  end.

(** [lazy_initialize_queue()]; the iterator must point at an entry. *)
Definition lazy_initialize_queue (st : DynamicPGMIndex)
  (i : DynamicPGMIndexIterator) : option DynamicPGMIndexIterator :=
  if initialized i then Some i
  else
    cur <- deref st (it i) ;;
    Some (mkIter (it i) true
            (initial_pairs st cur (seq min_level (used_levels st - min_level)))).

(** The inner loop of [advance]: steps the queue while its top has key [k]. *)
Fixpoint skip_same_key (st : DynamicPGMIndex) (fuel : nat) (k : K)
  (q : list queue_pair) : option (list queue_pair) :=
  match q with
  | [] => Some []
  | e :: q' =>
      if (key (entry_at st (fst (queue_top_from st e q'))) =? k)%Z then
        match fuel with
        | O => None
        | S fuel' =>
            '(_, q1) <- queue_step st q ;; skip_same_key st fuel' k q1
        end
      else Some q
  end.

(** The [do ... while] loop of [advance]: the entry it stops at and the
    queue left. *)
Fixpoint advance_loop (st : DynamicPGMIndex) (fuel : nat) (q : list queue_pair)
  : option (internal_iterator * list queue_pair) :=
  match fuel with
  | O => None
  | S fuel' =>
      '(tmp_it, q1) <- queue_step st q ;;
      q2 <- skip_same_key st fuel' (key (entry_at st tmp_it)) q1 ;;
      match q2 with
      | _ :: _ =>
          if deleted (entry_at st tmp_it) then advance_loop st fuel' q2
          else Some (tmp_it, q2)
      | [] => Some (tmp_it, q2)
      end
  end.

(** The number of entries the cursors of a queue still have to visit. *)
Fixpoint queue_weight (st : DynamicPGMIndex) (q : list queue_pair) : nat :=
  match q with
  | [] => 0
  | e :: q' =>
      (length (get_level st (snd e)) - snd (fst e)) + queue_weight st q'
  end.

(** [advance()]. *)
Definition advance (st : DynamicPGMIndex) (i : DynamicPGMIndexIterator)
  : option DynamicPGMIndexIterator :=
  match queue i with
  | [] => Some (end_ st)
  | _ =>
      '(tmp_it, q) <- advance_loop st (S (queue_weight st (queue i))) (queue i) ;;
      if deleted (entry_at st tmp_it) then Some (end_ st)
      else Some (mkIter tmp_it (initialized i) q)
  end.

(** [operator++()]. *)
Definition increment (st : DynamicPGMIndex) (i : DynamicPGMIndexIterator)
  : option DynamicPGMIndexIterator :=
  i' <- lazy_initialize_queue st i ;; advance st i'.

(** The entries seen by [for (it = begin(); it != end(); ++it)]. *)
Fixpoint traverse_from (st : DynamicPGMIndex) (fuel : nat)
  (i : DynamicPGMIndexIterator) : option (list Item) :=
  if iter_eqb i (end_ st) then Some []
  else
    match fuel with
    | O => None
    | S fuel' =>
        i' <- increment st i ;;
        r <- traverse_from st fuel' i' ;;
        Some (entry_at st (it i) :: r)
    end.

Definition total_size (st : DynamicPGMIndex) : nat :=
  fold_right (fun l n => length l + n) 0 (data st).

(** The traversal, given enough steps for every entry of the container. *)
Definition traverse (st : DynamicPGMIndex) : option (list Item) :=
  traverse_from st (S (total_size st)) (begin_ st).

(** ** Well-formed and reachable states *)

(** Keys strictly ascending. *)
Definition key_lt (x y : Item) : Prop := (key x < key y)%Z.

Definition sorted (l : LevelType) : Prop := StronglySorted key_lt l.

(** Some entry of [l] has key [k]. *)
Definition has_key (l : LevelType) (k : K) : Prop :=
  exists y, In y l /\ key y = k.

(** A scratch buffer whose written slots are exactly a leading run [r]. *)
Definition holds (buf : Buf) (r : list Item) : Prop :=
  exists n, buf = map Some r ++ repeat None n.

(** The sizes of the given levels of [d], added up. *)
Fixpoint sum_sizes (d : list LevelType) (levels : list nat) : nat :=
  match levels with
  | [] => 0
  | i :: rest => length (nth (i - min_level) d []) + sum_sizes d rest
  end.

(** [x] is the entry of [level] with the smallest key among the entries
    that are not tombstones and whose key is at least [k]. *)
Definition level_lower_bound (level : LevelType) (k : K) (x : Item) : Prop :=
  In x level /\ deleted x = false /\ (k <= key x)%Z /\
  forall y, In y level -> deleted y = false -> (k <= key y)%Z ->
            (key x <= key y)%Z.

(** Where an insert has put [x]: the levels above level [T] are empty,
    level [T] has no other entry with the key of [x], and [x] is in level
    [T] unless [T] is the deepest level. *)
Definition written_at (st : DynamicPGMIndex) (x : Item) (T : nat) : Prop :=
  min_level <= T < used_levels st /\
  (forall i, min_level <= i < T -> get_level st i = []) /\
  (forall y, In y (get_level st T) -> key y = key x -> y = x) /\
  (In x (get_level st T) \/ T + 1 = used_levels st).

(** The cursors of a queue point at entries of their own level. *)
Definition queue_valid (st : DynamicPGMIndex) (q : list queue_pair) : Prop :=
  forall e, In e q ->
    fst (fst e) = snd e /\ snd (fst e) < length (get_level st (snd e)).

(** The cursors of a queue point at keys above, or not below, [c]. *)
Definition queue_above (st : DynamicPGMIndex) (c : K) (q : list queue_pair)
  : Prop :=
  forall e, In e q -> (c < key (entry_at st (fst e)))%Z.

Definition queue_from (st : DynamicPGMIndex) (c : K) (q : list queue_pair)
  : Prop :=
  forall e, In e q -> (c <= key (entry_at st (fst e)))%Z.

(** Every level below [used_levels] has a slot in [data], and [data[0]]
    exists. *)
Definition levels_allocated (st : DynamicPGMIndex) : Prop :=
  min_level <= used_levels st /\
  1 <= length (data st) /\
  used_levels st - min_level <= length (data st).

(** Levels from [used_levels] on hold no entries. *)
Definition unused_levels_empty (st : DynamicPGMIndex) : Prop :=
  forall level, used_levels st <= level -> get_level st level = [].

(** Capacity accounting. *)
Definition capacity_ok (st : DynamicPGMIndex) : Prop :=
  length (get_level st min_level) <= 2 ^ (min_level + 1) - 1 /\
  forall level, min_level < level -> length (get_level st level) <= 2 ^ level.

Definition levels_sorted (st : DynamicPGMIndex) : Prop :=
  forall level, sorted (get_level st level).

Record well_formed (st : DynamicPGMIndex) : Prop := mkWF {
  wf_allocated : levels_allocated st;
  wf_unused : unused_levels_empty st;
  wf_capacity : capacity_ok st;
  wf_sorted : levels_sorted st
}.

(** Keys in non-decreasing order, which the assertion of the bulk
    constructor implies. *)
Definition sorted_input (input : list (K * V)) : Prop :=
  Sorted (fun p q => (fst p <= fst q)%Z) input.

(** The public mutators. *)
Inductive Op : Type :=
| OpInsert (k : K) (v : V)
| OpErase (k : K).

Definition apply_op (st : DynamicPGMIndex) (o : Op) : option DynamicPGMIndex :=
  match o with
  | OpInsert k v => insert_kv st k v
  | OpErase k => erase st k
  end.

Fixpoint apply_ops (st : DynamicPGMIndex) (ops : list Op)
  : option DynamicPGMIndex :=
  match ops with
  | [] => Some st
  | o :: rest => st' <- apply_op st o ;; apply_ops st' rest
  end.

(** States reached by runs of the mutators from a state that a constructor
    has returned.  The body of the default constructor reserves a level
    past the end of [data], so states are also counted from [empty_index],
    the members that its initialiser list has set and with which a build
    without bounds checks carries on. *)
Inductive reachable : DynamicPGMIndex -> Prop :=
| reach_default : forall st, default_constructor = Some st -> reachable st
| reach_empty : reachable empty_index
| reach_build : forall input st, build input = Some st -> reachable st
| reach_op : forall st o st',
    reachable st -> apply_op st o = Some st' -> reachable st'.

(** The last write to [k] in a sequence of operations: [Some (Some v)] for
    an insert of [v], [Some None] for an erase, [None] if [k] is never
    written. *)
Fixpoint last_write (k : K) (ops : list Op) : option (option V) :=
  match ops with
  | [] => None
  | o :: rest =>
      match last_write k rest with
      | Some w => Some w
      | None =>
          match o with
          | OpInsert k' v => if (k' =? k)%Z then Some (Some v) else None
          | OpErase k' => if (k' =? k)%Z then Some None else None
          end
      end
  end.

(** The highest level index whose size is nonzero, if any, looking at the
    slots of [d] (slot [j] is level [min_level + j]). *)
Fixpoint highest_nonempty (d : list LevelType) (level : nat) : option nat :=
  match d with
  | [] => None
  | l :: rest =>
      match highest_nonempty rest (S level) with
      | Some h => Some h
      | None => match l with [] => None | _ => Some level end
      end
  end.

(** The value [used_levels] is documented to have. *)
Definition documented_used_levels (st : DynamicPGMIndex) : nat :=
  match highest_nonempty (data st) min_level with
  | Some h => 1 + h
  | None => min_level
  end.

(** Number of entries whose deletion flag is clear. *)
Definition live_count (l : list Item) : nat :=
  length (filter (fun x => negb (deleted x)) l).

(** The contract assumed of the learned index, which lives outside this
    header: on a sorted level the range [[lo, hi)] brackets the position of
    the key.  For a key the level holds, this says that the range contains
    the position of its entry; for any other key, that it contains the
    position a binary search for the key has to return. *)
Definition search_brackets : Prop :=
  forall (level : LevelType) (k : K),
    sorted level ->
    fst (pgm_search level k) <= lower_bound_pos level k /\
    upper_bound_pos level k <= snd (pgm_search level k) /\
    snd (pgm_search level k) <= length level.

(** ** Further operations and their reading *)

(** [empty()]: whether [begin() == end()]. *)
Definition empty (st : DynamicPGMIndex) : bool :=
  iter_eqb (begin_ st) (end_ st).

(** The loop [for (it = lower_bound(k); it != end(); ++it)] of a caller. *)
Definition scan_from (st : DynamicPGMIndex) (k : K) : option (list Item) :=
  traverse_from st (S (total_size st)) (iterator (lower_bound st k)).

(** The entry of a run for key [k], if the run has one. *)
Definition level_entry (level : LevelType) (k : K) : option Item :=
  List.find (fun y => (key y =? k)%Z) level.

(** The entry for [k] of the first run that has one. *)
Fixpoint first_entry (runs : list LevelType) (k : K) : option Item :=
  match runs with
  | [] => None
  | r :: rest =>
      match level_entry r k with
      | Some y => Some y
      | None => first_entry rest k
      end
  end.

(** The entry for [k] of the shallowest of the given levels that has one. *)
Definition shallowest_entry (st : DynamicPGMIndex) (k : K) (levels : list nat)
  : option Item :=
  first_entry (map (get_level st) levels) k.

(** What a lookup shows of an entry: nothing, if it is a tombstone. *)
Definition visible (o : option Item) : option Item :=
  match o with
  | Some y => if deleted y then None else Some y
  | None => None
  end.

(** The level [insert] picks as the target of a cascade. *)
Definition cascade_target (st : DynamicPGMIndex) : nat :=
  fst (find_free_level st (used_levels st - (min_level + 1)) (min_level + 1)
         (2 ^ (min_level + 1) - 1 + 1)).

(** [insert(x)] does not cascade into a level that holds data: the buffer
    has the key or a free slot, or the target of the cascade is empty. *)
Definition lands_in_empty_level (st : DynamicPGMIndex) (x : Item) : Prop :=
  has_key (get_level st min_level) (key x) \/
  length (get_level st min_level) < 2 ^ (min_level + 1) - 1 \/
  get_level st (cascade_target st) = [].

(** The entry an operation writes. *)
Definition item_of (o : Op) : Item :=
  match o with
  | OpInsert k v => Item_kv k v
  | OpErase k => Item_k k
  end.

(** No operation of the run cascades into a level that holds data. *)
Fixpoint clean_run (st : DynamicPGMIndex) (ops : list Op) : Prop :=
  match ops with
  | [] => True
  | o :: rest =>
      lands_in_empty_level st (item_of o) /\
      forall st', apply_op st o = Some st' -> clean_run st' rest
  end.

(** The entry the last operation on key [k] wrote, if there is one. *)
Fixpoint last_item (k : K) (ops : list Op) : option Item :=
  match ops with
  | [] => None
  | o :: rest =>
      match last_item k rest with
      | Some x => Some x
      | None => if (key (item_of o) =? k)%Z then Some (item_of o) else None
      end
  end.

(** ** Workloads of fresh keys *)

(** Every level under the buffer is empty or filled to its capacity. *)
Definition levels_empty_or_full (st : DynamicPGMIndex) : Prop :=
  forall level, min_level < level ->
    get_level st level = [] \/ length (get_level st level) = 2 ^ level.

(** No key is held by two levels. *)
Definition keys_disjoint (st : DynamicPGMIndex) : Prop :=
  forall i j y z, min_level <= i -> min_level <= j -> i <> j ->
    In y (get_level st i) -> In z (get_level st j) -> key y <> key z.

(** No level holds the key. *)
Definition fresh_key (st : DynamicPGMIndex) (k : K) : Prop :=
  forall level, ~ has_key (get_level st level) k.

(** The states that inserts of fresh keys keep to. *)
Record tidy (st : DynamicPGMIndex) : Prop := mkTidy {
  tidy_wf : well_formed st;
  tidy_full : levels_empty_or_full st;
  tidy_disjoint : keys_disjoint st
}.

(** No key is held by two of the runs. *)
Fixpoint disjoint_runs (runs : list LevelType) : Prop :=
  match runs with
  | [] => True
  | r :: rest =>
      (forall y z, In y r -> In z (concat rest) -> key y <> key z) /\
      disjoint_runs rest
  end.

(** The operations write pairwise different keys, none of them held by the
    state. *)
Definition fresh_run (st : DynamicPGMIndex) (ops : list Op) : Prop :=
  NoDup (map (fun o => key (item_of o)) ops) /\
  forall o, In o ops -> fresh_key st (key (item_of o)).

(** ** The scratch buffer a merge reads *)

(** The buffer that the iteration for level [i] reads, and the one it
    writes. *)
Definition current_buffer (mod2 i : nat) (s : MergeLoop) : Buf :=
  if (i - min_level) mod 2 =? mod2 then tmp_a s else tmp_b s.

Definition other_buffer (mod2 i : nat) (s : MergeLoop) : Buf :=
  if (i - min_level) mod 2 =? mod2 then tmp_b s else tmp_a s.

(** Before the iteration for level [i]: the buffer it reads holds the
    running sequence, of [actual_size] entries, the buffer it writes holds
    no more than that, and both have [size] slots or more. *)
Definition loop_ready (mod2 size i : nat) (s : MergeLoop) : Prop :=
  exists R other,
    holds (current_buffer mod2 i s) R /\
    holds (other_buffer mod2 i s) other /\
    length R = actual_size s /\
    length other <= actual_size s /\
    size <= length (tmp_a s) /\
    size <= length (tmp_b s).

(** The number of levels in use is bounded by the number of entries: a
    level beyond the first is only made when the levels above it are
    full. *)
Definition levels_bounded (st : DynamicPGMIndex) : Prop :=
  used_levels st <= 1 + min_level \/
  (2 ^ Z.of_nat (used_levels st - 1) <= Z.of_nat (total_size st))%Z.

(** ** The cursors of the iterator *)

(** A cursor of level [snd e] that stands at an entry of its level: at the
    first one with a key of at least [c], or at the first one with a key
    above [c]. *)
Definition cursor_at (st : DynamicPGMIndex) (c : K) (e : queue_pair) : Prop :=
  fst (fst e) = snd e /\
  min_level <= snd e < used_levels st /\
  snd (fst e) < length (get_level st (snd e)) /\
  (snd (fst e) = lower_bound_pos (get_level st (snd e)) c \/
   snd (fst e) = upper_bound_pos (get_level st (snd e)) c).

(** The queue while the iterator passes the key [c]: one cursor per level
    at most, and a level without a cursor has no key above [c]. *)
Definition queue_at (st : DynamicPGMIndex) (c : K) (q : list queue_pair)
  : Prop :=
  NoDup (map snd q) /\
  (forall e, In e q -> cursor_at st c e) /\
  (forall i, min_level <= i < used_levels st ->
     (forall e, In e q -> snd e <> i) ->
     upper_bound_pos (get_level st i) c = length (get_level st i)).

(** What a lookup shows for the key [k]: the entry of the shallowest level
    below [used_levels] that has the key, unless it is a tombstone. *)
Definition shown (st : DynamicPGMIndex) (k : K) : option Item :=
  visible (shallowest_entry st k (seq min_level (used_levels st - min_level))).

(** ** The running sequence of a cascade *)

(** The sequence the merge loop has built from [seeded], the buffer with
    the new entry, once it has absorbed [levels] with [SkipDeleted] off. *)
Definition running_sequence (d : list LevelType) (seeded : list Item)
  (levels : list nat) : list Item :=
  fold_left (fun run i => merge false run (nth (i - min_level) d []))
    levels seeded.

(** The running sequence of the cascade that [insert(x)] starts on a full
    buffer: the buffer with [x] at its place, merged with the levels above
    the target, one after the other. *)
Definition cascade_run (st : DynamicPGMIndex) (x : Item) : list Item :=
  let level0 := get_level st min_level in
  let insertion_point := lower_bound_pos level0 (key x) in
  running_sequence (data st)
    (firstn insertion_point level0 ++ x :: skipn insertion_point level0)
    (seq (1 + min_level) (cascade_target st - 1 - min_level)).

(** ** What a cascade hands out *)

(** The entries that a cascade installs as its target level, [run] being
    the running sequence of the levels above the target.  With an empty
    target that is [run].  With a target that holds data the loop merges
    the target as well, into the scratch buffer that is not installed, and
    the installed buffer is cut to the length [n] of that last output: the
    first [n] entries of [run] and, beyond its end, slots that were never
    written. *)
Definition installed (fill : nat -> Item) (SkipDeleted : bool)
  (run target : list Item) : list Item :=
  match target with
  | [] => run
  | _ =>
      let n := length (merge SkipDeleted run target) in
      firstn n run ++ map fill (seq (length run) (n - length run))
  end.

Definition cascade_output (st : DynamicPGMIndex) (x : Item) : list Item :=
  installed (uninit_slot st) (cascade_target st =? used_levels st - 1)
    (cascade_run st x) (get_level st (cascade_target st)).

(** [insert(x)] hands out no slot that was never written: it does not
    cascade into a level that holds data, or the last merge of its cascade
    is no longer than the running sequence. *)
Definition hands_out_written (st : DynamicPGMIndex) (x : Item) : Prop :=
  lands_in_empty_level st x \/
  length (merge (cascade_target st =? used_levels st - 1) (cascade_run st x)
            (get_level st (cascade_target st)))
  <= length (cascade_run st x).

(** No operation of the run hands out a slot that was never written. *)
Fixpoint written_run (st : DynamicPGMIndex) (ops : list Op) : Prop :=
  match ops with
  | [] => True
  | o :: rest =>
      hands_out_written st (item_of o) /\
      forall st', apply_op st o = Some st' -> written_run st' rest
  end.

(** ** States by shape *)

(** What every insert keeps, sorted levels or not. *)
Record shaped (st : DynamicPGMIndex) : Prop := mkShaped {
  sh_allocated : levels_allocated st;
  sh_unused : unused_levels_empty st;
  sh_capacity : capacity_ok st
}.

(** [well_formed], decided. *)
Fixpoint sorted_b (l : LevelType) : bool :=
  match l with
  | [] => true
  | x :: t =>
      match t with
      | [] => true
      | y :: _ => (key x <? key y)%Z && sorted_b t
      end
  end.

Definition well_formed_b (st : DynamicPGMIndex) : bool :=
  (min_level <=? used_levels st) && (1 <=? length (data st))
  && (used_levels st - min_level <=? length (data st))
  && forallb (fun l => match l with [] => true | _ => false end)
       (skipn (used_levels st - min_level) (data st))
  && (length (nth 0 (data st) []) <=? 2 ^ (min_level + 1) - 1)
  && forallb (fun j => length (nth j (data st) []) <=? 2 ^ (j + min_level))
       (seq 1 (length (data st) - 1))
  && forallb sorted_b (data st).

End Items.

(** ** A concrete instantiation, for running the model *)

Module Run.

Open Scope Z_scope.

(** Values are integers, entries carry a separate flag ([BaseItemB]). *)
Definition BI : BaseItem Z := BaseItemB 0 false.
#[export] Existing Instance BI.

(** Values compare as integers. *)
#[global] Instance VL : @ValueLess Z := Z.ltb.

(** In the runs evaluated below, a slot that was never written reads as
    zeroed memory. *)
#[global] Instance U : @Uninit Z BI := fun _ _ => Item_kv 0 0.

Definition Index : Type := @DynamicPGMIndex Z BI.

(** A learned index that returns the whole level as its range. *)
Definition whole_level (l : @LevelType Z BI) (k : K) : nat * nat :=
  (0%nat, length l).

Definition MinIndexedLevel : nat := 18.

(** [std::numeric_limits<int64_t>::min()]. *)
Definition K_min : K := - 2 ^ 63.

Definition run (ops : list (@Op Z)) : option Index :=
  apply_ops empty_index ops.

Definition find_value (st : Index) (k : K) : option Z :=
  option_map value (find_entry MinIndexedLevel whole_level st k).

Definition iterate (st : Index) : option (list Item) :=
  traverse MinIndexedLevel whole_level K_min st.

(** [insert(from, v); insert(from + 1, v); ...], [n] keys. *)
Definition insert_range (from n : nat) (v : Z) : list (@Op Z) :=
  map (fun i => OpInsert (Z.of_nat i) v) (seq from n).

Definition erase_range (from n : nat) : list (@Op Z) :=
  map (fun i => @OpErase Z (Z.of_nat i)) (seq from n).

(** Seven rounds of inserting the keys 1..128, then erasing them all. *)
Definition erase_everything : list (@Op Z) :=
  insert_range 1 128 1 ++ insert_range 1 128 2 ++ insert_range 1 128 3 ++
  insert_range 1 128 4 ++ insert_range 1 128 5 ++ insert_range 1 128 6 ++
  insert_range 1 128 7 ++ erase_range 1 128.

(** Erase 2..65 and insert 201..264 with value [v]. *)
Definition churn (v : Z) : list (@Op Z) :=
  erase_range 2 64 ++ insert_range 201 64 v.

(** Four rounds of inserting 1..128 bring these keys to level 9; four
    rounds of [churn] then make level 9 the non-empty target of a cascade. *)
Definition into_occupied_target : list (@Op Z) :=
  insert_range 1 128 1 ++ insert_range 1 128 2 ++ insert_range 1 128 3 ++
  insert_range 1 128 4 ++ churn 5 ++ churn 6 ++ churn 7 ++ churn 8.

(** Four rounds of inserting 1..128, then four rounds of inserting
    201..328: 1024 inserts and no erase.  The last insert cascades into
    level 9, which holds the keys 1..128. *)
Definition plain_inserts : list (@Op Z) :=
  insert_range 1 128 1 ++ insert_range 1 128 2 ++ insert_range 1 128 3 ++
  insert_range 1 128 4 ++ insert_range 201 128 5 ++ insert_range 201 128 6 ++
  insert_range 201 128 7 ++ insert_range 201 128 8.

Definition level_sizes (st : Index) : list nat :=
  map (@length _) (data st).

(** The pairs [(1, 1), (2, 1), ..., (128, 1)], an input of the bulk
    constructor. *)
Definition ascending_pairs : list (K * Z) :=
  map (fun i => (Z.of_nat i, 1)) (seq 1 128).

(** The state after [insert(5, 1)] on an empty container. *)
Definition one_entry : Index :=
  mkIndex 7 ([Item_kv 5 1] :: repeat [] 8).

(** A state with a tombstone for key 1 in the buffer, above level 7 holding
    the keys 1 and 3. *)
Definition two_levels : Index :=
  mkIndex 8 ([Item_k 1; Item_kv 2 20] :: [Item_kv 1 10; Item_kv 3 30]
             :: repeat [] 7).

End Run.

(** ** A bulk load with string values *)

Module Bulk.

Import String.StringSyntax.
Local Open Scope string_scope.
Local Open Scope Z_scope.

Definition BI : BaseItem String.string := BaseItemB String.EmptyString false.

(** Values compare as strings. *)
#[global] Instance VL : @ValueLess String.string := String.ltb.

(** Three pairs, the key 1 twice. *)
Definition duplicated_input : list (K * String.string) :=
  [(1, "a"); (1, "b"); (2, "c")].

(** Forty pairs with keys 1, 1, 2, 3, ..., 39: enough entries for the bulk
    constructor to choose level [min_level]. *)
Definition long_duplicated_input : list (K * String.string) :=
  (1, "a") :: (1, "b") :: map (fun i => (Z.of_nat i, "c")) (seq 2 38).

Definition find_value (st : @DynamicPGMIndex String.string BI) (k : K)
  : option String.string :=
  option_map value
    (find_entry Run.MinIndexedLevel (fun l _ => (0%nat, length l)) st k).

(** A slot that was never written reads as zeroed memory. *)
#[global] Instance U : @Uninit String.string BI :=
  fun _ _ => Item_kv 0 String.EmptyString.

(** [insert(100, d); ...; insert(188, d)]: 89 keys that the input lacks. *)
Definition more_inserts : list (@Op String.string) :=
  map (fun i => OpInsert (Z.of_nat i) "d") (seq 100 89).

End Bulk.

(** ** Pointer values *)

Module Pointers.

Local Open Scope Z_scope.

(** Pointers as numbers, the sentinel at address 4096; [BaseItemA] is the
    base class of the entries. *)
Definition sentinel : nat := 4096.

Definition BI : BaseItem nat := BaseItemA Nat.eqb sentinel 0%nat.

#[global] Instance U : @Uninit nat BI := fun _ _ => Item_kv 0 0%nat.

(** The state after [insert(1, p) ... insert(127, p)] on an empty
    container, [p] the address 8: the buffer is full. *)
Definition full_buffer : @DynamicPGMIndex nat BI :=
  mkIndex 7 (map (fun i => Item_kv (Z.of_nat i) 8%nat) (seq 1 127)
             :: repeat [] 8).

(** A learned index that returns the whole level as its range. *)
Definition whole_level (l : @LevelType nat BI) (k : K) : nat * nat :=
  (0%nat, length l).

End Pointers.

(** ** States used to exercise the operations *)

Module Shapes.

Local Open Scope Z_scope.

(** The state after [insert(1, 1) ... insert(127, 1)] on an empty
    container: the buffer is full. *)
Definition full_buffer : Run.Index :=
  mkIndex 7 (map (fun i => Item_kv (Z.of_nat i) 1) (seq 1 127) :: repeat [] 8).

(** The state after one more insert, of the key 128: the first cascade has
    made level 7. *)
Definition after_cascade : Run.Index :=
  mkIndex 8 ([] :: map (fun i => Item_kv (Z.of_nat i) 1) (seq 1 128)
             :: repeat [] 8).

(** The state the bulk constructor builds from forty pairs. *)
Definition bulk_loaded : @DynamicPGMIndex String.string Bulk.BI :=
  match @build String.string Bulk.BI Bulk.VL Bulk.long_duplicated_input with
  | Some st => st
  | None => empty_index
  end.

(** The state after [Bulk.more_inserts] on [bulk_loaded]: the buffer, to
    which the bulk constructor had given 39 entries, has filled up, and the
    last insert has cascaded into a new level 7. *)
Definition bulk_cascaded : @DynamicPGMIndex String.string Bulk.BI :=
  match apply_ops bulk_loaded Bulk.more_inserts with
  | Some st => st
  | None => empty_index
  end.

(** The state after [insert(1, 1) ... insert(300, 1)] on an empty
    container: two cascades have run. *)
Definition after_fresh_run : Run.Index :=
  match Run.run (Run.insert_range 1 300 1) with
  | Some st => st
  | None => empty_index
  end.

(** The state before the last insert of [Run.into_occupied_target]: the
    buffer is full, and level 9, the target of the next cascade, holds the
    keys 1..128. *)
Definition occupied_target : Run.Index :=
  match Run.run (removelast Run.into_occupied_target) with
  | Some st => st
  | None => empty_index
  end.

(** The state after that insert, of the key 264. *)
Definition after_occupied_cascade : Run.Index :=
  match Run.run Run.into_occupied_target with
  | Some st => st
  | None => empty_index
  end.

(** The state before the last insert of [Run.plain_inserts]: the buffer is
    full, the levels 7 and 8 hold the keys 201..328, and level 9, the
    target of the next cascade, holds the keys 1..128. *)
Definition before_unwritten : Run.Index :=
  match Run.run (removelast Run.plain_inserts) with
  | Some st => st
  | None => empty_index
  end.

(** The state after that insert, of the key 328. *)
Definition after_unwritten : Run.Index :=
  match Run.run Run.plain_inserts with
  | Some st => st
  | None => empty_index
  end.

(** The states before and after the last erase of [Run.erase_everything],
    which cascades into level 9. *)
Definition before_last_erase : Run.Index :=
  match Run.run (removelast Run.erase_everything) with
  | Some st => st
  | None => empty_index
  end.

Definition after_last_erase : Run.Index :=
  match Run.run Run.erase_everything with
  | Some st => st
  | None => empty_index
  end.

End Shapes.

(** * Properties *)

Unset Implicit Arguments.

Section Proofs.

Context {V : Type} {BI : BaseItem V} {U : Uninit} {VL : @ValueLess V}.

Local Open Scope Z_scope.

(** ** Sorted runs *)

Lemma sorted_inv {x : Item} {l : LevelType} :
  sorted (x :: l) -> sorted l /\ Forall (key_lt x) l.
Proof. apply StronglySorted_inv. Qed.

Lemma sorted_cons (x : Item) (l : LevelType) :
  sorted l -> Forall (key_lt x) l -> sorted (x :: l).
Proof. intros; constructor; assumption. Qed.

Lemma sorted_head_lt {x y : Item} {l : LevelType} :
  sorted (x :: l) -> In y l -> key x < key y.
Proof.
  intros Hs Hy. apply sorted_inv in Hs as [_ Hf].
  rewrite Forall_forall in Hf. exact (Hf y Hy).
Qed.

Lemma sorted_app (l1 l2 : LevelType) :
  sorted l1 -> sorted l2 ->
  (forall x y, In x l1 -> In y l2 -> key x < key y) ->
  sorted (l1 ++ l2).
Proof.
  induction l1 as [|a l1 IH]; simpl; intros H1 H2 Hlt; [assumption|].
  apply sorted_inv in H1 as [H1 Ha].
  apply sorted_cons.
  - apply IH; auto.
  - apply Forall_app; split; [assumption|].
    apply Forall_forall; intros y Hy. apply Hlt; auto.
Qed.

Lemma In_firstn (n : nat) (l : LevelType) (x : Item) :
  In x (firstn n l) -> In x l.
Proof.
  revert n; induction l as [|a l IH]; intros [|n]; simpl; try tauto.
  intros [->|H']; eauto.
Qed.

Lemma sorted_firstn (n : nat) (l : LevelType) : sorted l -> sorted (firstn n l).
Proof.
  revert n; induction l as [|a l IH]; intros [|n] Hs; simpl;
    try constructor.
  - apply IH. apply sorted_inv in Hs; tauto.
  - apply sorted_inv in Hs as [_ Hf]. rewrite Forall_forall in *.
    intros y Hy. apply Hf. eapply In_firstn; eauto.
Qed.

Lemma sorted_skipn (n : nat) (l : LevelType) : sorted l -> sorted (skipn n l).
Proof.
  revert n; induction l as [|a l IH]; intros [|n] Hs; simpl; auto.
  apply IH. apply sorted_inv in Hs; tauto.
Qed.

Lemma sorted_key_inj (l : LevelType) (x y : Item) :
  sorted l -> In x l -> In y l -> key x = key y -> x = y.
Proof.
  induction l as [|a l IH]; simpl; intros Hs Hx Hy Hk; [contradiction|].
  destruct Hx as [->|Hx], Hy as [->|Hy]; auto.
  - pose proof (sorted_head_lt Hs Hy). lia.
  - pose proof (sorted_head_lt Hs Hx). lia.
  - apply IH; auto. apply sorted_inv in Hs; tauto.
Qed.

(** ** The merge *)

Lemma merge_nil_l (s : bool) (l2 : list Item) : merge s [] l2 = l2.
Proof. destruct l2; reflexivity. Qed.

Lemma merge_nil_r (s : bool) (l1 : list Item) : merge s l1 [] = l1.
Proof. destruct l1; reflexivity. Qed.

Lemma merge_cons (s : bool) (x1 x2 : Item) (t1 t2 : list Item) :
  merge s (x1 :: t1) (x2 :: t2) =
  if key x2 <? key x1 then x2 :: merge s (x1 :: t1) t2
  else if key x1 <? key x2 then x1 :: merge s t1 (x2 :: t2)
  else if s && deleted x1 then merge s t1 t2
  else x1 :: merge s t1 t2.
Proof. reflexivity. Qed.

(** Case analysis on one step of the merge of two non-empty runs. *)
Ltac merge_step x1 x2 :=
  rewrite merge_cons;
  destruct (Z.ltb_spec (key x2) (key x1));
  [| destruct (Z.ltb_spec (key x1) (key x2)) ].

Lemma merge_In (s : bool) (l1 l2 : list Item) (x : Item) :
  In x (merge s l1 l2) -> In x l1 \/ In x l2.
Proof.
  revert l2; induction l1 as [|x1 t1 IH1]; intros l2; [rewrite merge_nil_l; tauto|].
  induction l2 as [|x2 t2 IH2]; [rewrite merge_nil_r; tauto|].
  merge_step x1 x2.
  - simpl. intros [->|H']; [auto|]. destruct (IH2 H'); simpl in *; tauto.
  - simpl. intros [->|H']; [auto|]. destruct (IH1 _ H'); simpl in *; tauto.
  - destruct (s && deleted x1); simpl.
    + intros H'. destruct (IH1 _ H'); tauto.
    + intros [->|H']; [auto|]. destruct (IH1 _ H'); tauto.
Qed.

Lemma merge_sorted (s : bool) (l1 l2 : list Item) :
  sorted l1 -> sorted l2 -> sorted (merge s l1 l2).
Proof.
  revert l2; induction l1 as [|x1 t1 IH1]; intros l2 H1 H2; [rewrite merge_nil_l; auto|].
  induction l2 as [|x2 t2 IH2]; [rewrite merge_nil_r; auto|].
  pose proof (sorted_inv H1) as [H1t H1f].
  pose proof (sorted_inv H2) as [H2t H2f].
  rewrite Forall_forall in H1f, H2f.
  merge_step x1 x2.
  - apply sorted_cons; [auto|]. apply Forall_forall; intros y Hy.
    apply merge_In in Hy as [Hy|Hy].
    + destruct Hy as [<-|Hy]; [assumption|].
      specialize (H1f y Hy). unfold key_lt in *. lia.
    + auto.
  - apply sorted_cons; [auto|]. apply Forall_forall; intros y Hy.
    apply merge_In in Hy as [Hy|Hy].
    + auto.
    + destruct Hy as [<-|Hy]; [assumption|].
      specialize (H2f y Hy). unfold key_lt in *. lia.
  - assert (Hm : sorted (x1 :: merge s t1 t2)).
    { apply sorted_cons; [auto|]. apply Forall_forall; intros y Hy.
      apply merge_In in Hy as [Hy|Hy]; [auto|].
      specialize (H2f y Hy). unfold key_lt in *. lia. }
    destruct (s && deleted x1); [|assumption].
    apply sorted_inv in Hm; tauto.
Qed.

Lemma merge_length_le (s : bool) (l1 l2 : list Item) :
  (length (merge s l1 l2) <= length l1 + length l2)%nat.
Proof.
  revert l2; induction l1 as [|x1 t1 IH1]; intros l2; [rewrite merge_nil_l; simpl; lia|].
  induction l2 as [|x2 t2 IH2]; [rewrite merge_nil_r; simpl; lia|].
  merge_step x1 x2.
  - simpl in *. lia.
  - specialize (IH1 (x2 :: t2)). simpl in *. lia.
  - specialize (IH1 t2). destruct (s && deleted x1); simpl in *; lia.
Qed.

Lemma merge_false_length_ge (l1 l2 : list Item) :
  (length l1 <= length (merge false l1 l2))%nat.
Proof.
  revert l2; induction l1 as [|x1 t1 IH1]; intros l2; [rewrite merge_nil_l; simpl; lia|].
  induction l2 as [|x2 t2 IH2]; [rewrite merge_nil_r; simpl; lia|].
  merge_step x1 x2.
  - simpl in *. lia.
  - specialize (IH1 (x2 :: t2)). simpl in *. lia.
  - specialize (IH1 t2). simpl in *. lia.
Qed.

Lemma has_key_nil (k : K) : ~ has_key [] k.
Proof. intros (y & [] & _). Qed.

Lemma has_key_cons (a : Item) (l : LevelType) (k : K) :
  has_key (a :: l) k <-> key a = k \/ has_key l k.
Proof.
  unfold has_key; split.
  - intros (y & [<-|Hy] & Hk); eauto.
  - intros [Hk|(y & Hy & Hk)]; [exists a | exists y]; simpl; auto.
Qed.

Lemma sorted_head_lt_key {x : Item} {l : LevelType} {k : K} :
  sorted (x :: l) -> has_key l k -> key x < k.
Proof. intros Hs (y & Hy & <-). exact (sorted_head_lt Hs Hy). Qed.

Lemma In_has_key {x : Item} {l : LevelType} : In x l -> has_key l (key x).
Proof. intros Hx; exists x; auto. Qed.

Lemma merge_false_In_l1 (l1 l2 : list Item) (x : Item) :
  In x l1 -> In x (merge false l1 l2).
Proof.
  revert l2; induction l1 as [|x1 t1 IH1]; intros l2 Hx; [contradiction|].
  induction l2 as [|x2 t2 IH2]; [rewrite merge_nil_r; assumption|].
  merge_step x1 x2.
  - right. assumption.
  - destruct Hx as [->|Hx]; [left; reflexivity|right; apply IH1; assumption].
  - simpl andb. cbv iota.
    destruct Hx as [->|Hx]; [left; reflexivity|right; apply IH1; assumption].
Qed.

(** ** Vectors updated by index *)

Lemma length_set_nth {A : Type} (n : nat) (x : A) (l : list A) :
  length (set_nth n x l) = length l.
Proof.
  revert n; induction l as [|a l IH]; intros [|n]; simpl; auto.
Qed.

Lemma nth_error_set_nth_eq {A : Type} (n : nat) (x : A) (l : list A) :
  (n < length l)%nat -> nth_error (set_nth n x l) n = Some x.
Proof.
  revert n; induction l as [|a l IH]; intros [|n]; simpl; intros Hn;
    try lia; auto.
  apply IH; lia.
Qed.

Lemma nth_error_set_nth_neq {A : Type} (n m : nat) (x : A) (l : list A) :
  n <> m -> nth_error (set_nth n x l) m = nth_error l m.
Proof.
  revert n m; induction l as [|a l IH]; intros [|n] [|m] Hnm; simpl; auto;
    try congruence.
Qed.

Lemma nth_set_nth_eq {A : Type} (n : nat) (x d : A) (l : list A) :
  (n < length l)%nat -> nth n (set_nth n x l) d = x.
Proof.
  intros Hn. apply nth_error_nth. apply nth_error_set_nth_eq; assumption.
Qed.

Lemma nth_set_nth_neq {A : Type} (n m : nat) (x d : A) (l : list A) :
  n <> m -> nth m (set_nth n x l) d = nth m l d.
Proof.
  revert n m; induction l as [|a l IH]; intros [|n] [|m] Hnm; simpl; auto;
    try congruence.
Qed.

(** ** Binary searches on sorted levels *)

Lemma lower_bound_pos_le (l : LevelType) (k : K) :
  (lower_bound_pos l k <= length l)%nat.
Proof.
  induction l as [|a l IH]; simpl; [lia|].
  destruct (key a <? k); simpl; lia.
Qed.

(** On a sorted level the lower bound of a key the level holds is the
    position of its entry. *)
Lemma lower_bound_pos_found (l : LevelType) (y : Item) :
  sorted l -> In y l -> nth_error l (lower_bound_pos l (key y)) = Some y.
Proof.
  induction l as [|a l IH]; simpl; intros Hs Hy; [contradiction|].
  destruct (Z.ltb_spec (key a) (key y)) as [Hlt|Hge].
  - simpl. apply IH.
    + apply sorted_inv in Hs; tauto.
    + destruct Hy as [->|Hy]; [lia|assumption].
  - destruct Hy as [->|Hy]; [reflexivity|].
    pose proof (sorted_head_lt Hs Hy). lia.
Qed.

(** Whatever the lower bound points at has a key that is not smaller. *)
Lemma lower_bound_pos_ge (l : LevelType) (k : K) (x : Item) :
  nth_error l (lower_bound_pos l k) = Some x -> k <= key x.
Proof.
  induction l as [|a l IH]; simpl; [discriminate|].
  destruct (Z.ltb_spec (key a) k); simpl; auto.
  intros [= <-]. lia.
Qed.

(** On a sorted level that does not hold the key, the lower bound points at
    an entry with another key, or at the end. *)
Lemma lower_bound_pos_absent (l : LevelType) (k : K) (x : Item) :
  ~ has_key l k -> nth_error l (lower_bound_pos l k) = Some x -> key x <> k.
Proof.
  intros Hno Hx Hk. apply Hno. exists x; split; [|assumption].
  eapply nth_error_In; eassumption.
Qed.

(** C9: update in place.  When the buffer (sorted, as it always is) holds an
    entry for the key of [new_item], [insert] overwrites that entry and
    nothing else: [used_levels], the number of levels, every deeper level,
    the size of the buffer and all its other entries are what they were, so
    no cascade took place. *)
Theorem insert_existing_key_updates_in_place
  (st : DynamicPGMIndex) (new_item : Item) (level0 : LevelType) :
  nth_error (data st) 0 = Some level0 ->
  sorted level0 ->
  has_key level0 (key new_item) ->
  exists (pos : nat) (old : Item) (st' : DynamicPGMIndex),
    nth_error level0 pos = Some old /\ key old = key new_item /\
    insert st new_item = Some st' /\
    used_levels st' = used_levels st /\
    length (data st') = length (data st) /\
    (forall level, (min_level < level)%nat ->
       get_level st' level = get_level st level) /\
    length (get_level st' min_level) = length level0 /\
    nth_error (get_level st' min_level) pos = Some new_item /\
    (forall j, j <> pos ->
       nth_error (get_level st' min_level) j = nth_error level0 j).
Proof.
  intros H0 Hs (old & Hin & Hk).
  pose proof (lower_bound_pos_found level0 old Hs Hin) as Hpos.
  rewrite Hk in Hpos.
  assert (Hlen : (lower_bound_pos level0 (key new_item) < length level0)%nat).
  { apply nth_error_Some. rewrite Hpos. discriminate. }
  assert (Hd : (0 < length (data st))%nat).
  { apply nth_error_Some. rewrite H0. discriminate. }
  exists (lower_bound_pos level0 (key new_item)), old.
  exists (mkIndex (used_levels st)
            (set_nth 0
               (set_nth (lower_bound_pos level0 (key new_item)) new_item level0)
               (data st))).
  split; [exact Hpos|]. split; [exact Hk|].
  split.
  { unfold insert. rewrite H0. cbn [obind]. rewrite Hpos.
    rewrite (proj2 (Z.eqb_eq _ _) Hk). reflexivity. }
  cbn [used_levels data]. split; [reflexivity|].
  split; [apply length_set_nth|].
  split.
  { intros level Hl. unfold get_level; cbn [data].
    apply nth_set_nth_neq. unfold min_level in *. lia. }
  unfold get_level; cbn [data]. rewrite Nat.sub_diag.
  rewrite (nth_set_nth_eq 0 _ _ _ Hd).
  split; [apply length_set_nth|].
  split; [apply nth_error_set_nth_eq; assumption|].
  intros j Hj. apply nth_error_set_nth_neq. congruence.
Qed.

(** ** Scratch buffers *)

Lemma firstn_repeat {A : Type} (x : A) (k m : nat) :
  firstn k (repeat x m) = repeat x (Nat.min k m).
Proof.
  revert m; induction k as [|k IH]; intros [|m]; simpl; auto.
  f_equal. apply IH.
Qed.

Lemma skipn_repeat {A : Type} (x : A) (k m : nat) :
  skipn k (repeat x m) = repeat x (m - k).
Proof.
  revert m; induction k as [|k IH]; intros [|m]; simpl; auto.
Qed.

Lemma written_map_Some (r : list Item) : written (map Some r) = Some r.
Proof.
  induction r as [|x r IH]; simpl; [reflexivity|]. rewrite IH. reflexivity.
Qed.

Lemma written_app (r : list Item) (tail : Buf) (l : list Item) :
  written (map Some r ++ tail) = Some l ->
  exists l', written tail = Some l' /\ l = r ++ l'.
Proof.
  revert l; induction r as [|x r IH]; simpl; intros l H.
  - exists l; auto.
  - destruct (written (map Some r ++ tail)) as [l0|] eqn:E; simpl in H;
      [|discriminate].
    injection H as <-. destruct (IH l0 eq_refl) as (l' & Hl' & ->).
    exists l'; auto.
Qed.

Lemma written_repeat_None (n : nat) (l : list Item) :
  written (repeat None n) = Some l -> n = 0%nat.
Proof. destruct n; simpl; [reflexivity|discriminate]. Qed.

(** Reading [n] slots of a buffer that holds the run [r] succeeds only
    within the run. *)
Lemma written_firstn_holds (buf : Buf) (r : list Item) (n : nat) (l : list Item) :
  holds buf r ->
  written (firstn n buf ++ repeat None (n - length buf)) = Some l ->
  (n <= length r)%nat /\ l = firstn n r.
Proof.
  intros [m ->] H.
  rewrite length_app, length_map, repeat_length in H.
  destruct (Nat.le_gt_cases n (length r)) as [Hle|Hgt].
  - split; [assumption|].
    rewrite firstn_app, length_map in H.
    replace (n - length r)%nat with 0%nat in H by lia.
    replace (n - (length r + m))%nat with 0%nat in H by lia.
    simpl in H. rewrite !app_nil_r, firstn_map, written_map_Some in H.
    congruence.
  - exfalso.
    rewrite firstn_app, length_map in H.
    rewrite firstn_all2 in H by (rewrite length_map; lia).
    rewrite <- app_assoc in H.
    apply written_app in H as (l' & Hl' & _).
    rewrite firstn_repeat, <- repeat_app in Hl'.
    apply written_repeat_None in Hl'. lia.
Qed.

Lemma load_holds (buf : Buf) (r : list Item) (n : nat) (l : list Item) :
  holds buf r -> load buf n = Some l ->
  (n <= length r)%nat /\ l = firstn n r.
Proof.
  unfold load. intros Hh H.
  destruct (Nat.leb_spec n (length buf)); [|discriminate].
  apply (written_firstn_holds buf r n l Hh).
  replace (n - length buf)%nat with 0%nat by lia.
  simpl. rewrite app_nil_r. assumption.
Qed.

Lemma holds_repeat_None (n : nat) : holds (repeat None n) [].
Proof. exists n. reflexivity. Qed.

(** Storing a run that is at least as long as the run already held. *)
Lemma store_holds (buf buf' : Buf) (r out : list Item) :
  holds buf r -> (length r <= length out)%nat ->
  store buf out = Some buf' -> holds buf' out.
Proof.
  intros [m ->] Hlen. unfold store.
  destruct (Nat.leb_spec (length out) (length (map Some r ++ repeat None m)));
    [|discriminate].
  intros [= <-].
  exists (m - (length out - length r))%nat. f_equal.
  rewrite skipn_app, length_map.
  rewrite skipn_all2 by (rewrite length_map; lia).
  simpl. apply skipn_repeat.
Qed.

(** ** One iteration of the merge loop *)

Lemma obind_Some {A B : Type} (m : option A) (f : A -> option B) (b : B) :
  obind m f = Some b -> exists a, m = Some a /\ f a = Some b.
Proof. destruct m as [a|]; simpl; [eauto|discriminate]. Qed.

Lemma assign_level_Some (d d' : list LevelType) (i : nat) (l : LevelType) :
  assign_level d i l = Some d' ->
  (min_level <= i)%nat /\ (i - min_level < length d)%nat /\
  d' = set_nth (i - min_level) l d.
Proof.
  unfold assign_level.
  destruct (Nat.ltb_spec i min_level); [discriminate|].
  destruct (nth_error d (i - min_level)) eqn:E; [|discriminate].
  intros [= <-]. repeat split; auto.
  apply nth_error_Some. rewrite E. discriminate.
Qed.

(** The pieces of a successful iteration. *)
Lemma merge_level_Some (used mod2 : nat) (s s' : MergeLoop) (i : nat) :
  merge_level used mod2 s i = Some s' ->
  exists (level_data run : list Item),
    nth_error (loop_data s) (i - min_level) = Some level_data /\
    assign_level (loop_data s) i [] = Some (loop_data s') /\
    actual_size s' =
      length (merge (Nat.eqb i (used - 1)) run level_data) /\
    ((load (tmp_a s) (actual_size s) = Some run /\
      store (tmp_b s) (merge (Nat.eqb i (used - 1)) run level_data)
        = Some (tmp_b s') /\
      tmp_a s' = tmp_a s)
     \/
     (load (tmp_b s) (actual_size s) = Some run /\
      store (tmp_a s) (merge (Nat.eqb i (used - 1)) run level_data)
        = Some (tmp_a s') /\
      tmp_b s' = tmp_b s)).
Proof.
  unfold merge_level. intros H.
  apply obind_Some in H as (level_data & Hl & H).
  apply obind_Some in H as (run & Hr & H).
  apply obind_Some in H as (d & Hd & H).
  exists level_data, run.
  destruct (Nat.eqb ((i - min_level) mod 2) mod2).
  - apply obind_Some in H as (b & Hb & [= <-]). simpl. tauto.
  - apply obind_Some in H as (a & Ha & [= <-]). simpl. tauto.
Qed.

(** C2, as the code has it: what a merge keeps and what it drops.  [l1] is the
    running sequence of the cascade and [l2] the level being absorbed, both
    sorted.  An entry of [l1] is in the output unless [SkipDeleted] is set,
    the entry is a tombstone and [l2] holds an entry with the same key (then
    both are dropped); an entry of [l2] is in the output exactly when [l1]
    holds no entry with its key.  In particular, without [SkipDeleted] every
    tombstone of the running sequence is retained, and with [SkipDeleted] a
    tombstone is retained when the level holds no entry for its key.  The
    iteration of the cascade for level [i] merges with [SkipDeleted] set
    exactly when [i = used_levels - 1]. *)
Theorem merge_drops_only_cancelled_tombstones
  (SkipDeleted : bool) (l1 l2 : list Item) (x : Item) :
  sorted l1 -> sorted l2 ->
  (In x (merge SkipDeleted l1 l2) <->
   (In x l1 /\
    ~ (SkipDeleted = true /\ deleted x = true /\ has_key l2 (key x)))
   \/ (In x l2 /\ ~ has_key l1 (key x)))
  /\
  (forall (used mod2 : nat) (s s' : MergeLoop) (i : nat),
     merge_level used mod2 s i = Some s' ->
     exists level_data run,
       nth_error (loop_data s) (i - min_level) = Some level_data /\
       (load (tmp_a s) (actual_size s) = Some run \/
        load (tmp_b s) (actual_size s) = Some run) /\
       actual_size s'
       = length (merge (Nat.eqb i (used - 1)) run level_data)).
Proof.
  intros H1 H2. split.
  - revert H1 H2. revert l2.
    induction l1 as [|x1 t1 IH1]; intros l2 H1 H2.
    { rewrite merge_nil_l. pose proof (has_key_nil (key x)). simpl. tauto. }
    induction l2 as [|x2 t2 IH2].
    { rewrite merge_nil_r. pose proof (has_key_nil (key x)). simpl. tauto. }
    pose proof (sorted_inv H1) as [H1t _].
    pose proof (sorted_inv H2) as [H2t _].
    specialize (IH2 H2t).
    pose proof (IH1 (x2 :: t2) H1t H2) as IHa.
    pose proof (IH1 t2 H1t H2t) as IHb.
    clear IH1.
    pose proof (@sorted_head_lt x1 x t1 H1) as F1.
    pose proof (@sorted_head_lt x2 x t2 H2) as F2.
    pose proof (@sorted_head_lt_key x1 t1 (key x) H1) as G1.
    pose proof (@sorted_head_lt_key x2 t2 (key x) H2) as G2.
    pose proof (@In_has_key x t1) as I1.
    pose proof (@In_has_key x t2) as I2.
    assert (E1 : x1 = x -> key x1 = key x) by (intros ->; reflexivity).
    assert (E2 : x2 = x -> key x2 = key x) by (intros ->; reflexivity).
    assert (D1 : x1 = x -> deleted x = deleted x1) by (intros ->; reflexivity).
    rewrite !has_key_cons in *.
    merge_step x1 x2.
    + simpl In in *. rewrite IH2. clear IH2 IHa IHb.
      intuition lia.
    + simpl In in *. rewrite IHa. clear IH2 IHa IHb.
      intuition lia.
    + clear IH2 IHa.
      assert (E3 : key x1 = key x -> key x2 = key x) by lia.
      assert (E4 : key x2 = key x -> key x1 = key x) by lia.
      destruct SkipDeleted; destruct (deleted x1) eqn:Ed; simpl andb; cbv iota;
        simpl In in *; rewrite IHb; clear IHb.
      all: intuition (try lia; try congruence).
  - intros used mod2 s s' i H.
    apply merge_level_Some in H as (ld & run & Hnth & _ & Hsize & Hcase).
    exists ld, run. split; [exact Hnth|]. split; [|exact Hsize].
    destruct Hcase as [(Hload & _)|(Hload & _)]; auto.
Qed.

(** ** The whole merge loop *)

Lemma merge_levels_app (used mod2 : nat) (s s' : MergeLoop) (l1 l2 : list nat) :
  merge_levels used mod2 s (l1 ++ l2) = Some s' ->
  exists s1, merge_levels used mod2 s l1 = Some s1 /\
             merge_levels used mod2 s1 l2 = Some s'.
Proof.
  revert s; induction l1 as [|i l1 IH]; simpl; intros s H; [eauto|].
  apply obind_Some in H as (s0 & H0 & H).
  destruct (IH _ H) as (s1 & H1 & H2).
  exists s1. rewrite H0. simpl. auto.
Qed.

Lemma sum_sizes_app (d : list LevelType) (l1 l2 : list nat) :
  sum_sizes d (l1 ++ l2) = (sum_sizes d l1 + sum_sizes d l2)%nat.
Proof. induction l1 as [|i l1 IH]; simpl; [reflexivity|]. rewrite IH. lia. Qed.

(** Inserting at the lower bound keeps a level sorted when the level does
    not hold the key. *)
Lemma insert_at_lower_bound_sorted (l : LevelType) (new_item : Item) :
  sorted l ->
  (forall x, nth_error l (lower_bound_pos l (key new_item)) = Some x ->
             key x <> key new_item) ->
  sorted (firstn (lower_bound_pos l (key new_item)) l
          ++ new_item :: skipn (lower_bound_pos l (key new_item)) l).
Proof.
  induction l as [|a l IH]; simpl; intros Hs Hne.
  - repeat constructor.
  - destruct (Z.ltb_spec (key a) (key new_item)) as [Hlt|Hge]; simpl.
    + pose proof (sorted_inv Hs) as [Hs' Hf].
      apply sorted_cons; [apply IH; assumption|].
      rewrite Forall_forall in *. intros y Hy.
      apply in_app_or in Hy as [Hy|[<-|Hy]].
      * apply Hf. eapply In_firstn; eassumption.
      * exact Hlt.
      * apply Hf. clear - Hy. revert Hy. generalize (lower_bound_pos l (key new_item)).
        intros n; revert l; induction n as [|n IHn]; intros [|b l]; simpl; auto.
    + specialize (Hne a eq_refl).
      apply sorted_cons; [assumption|].
      pose proof (sorted_inv Hs) as [_ Hf]. rewrite Forall_forall in *.
      intros y [<-|Hy]; unfold key_lt in *; [lia|].
      specialize (Hf y Hy). unfold key_lt in Hf. lia.
Qed.

(** ** The cascade *)

Lemma store_fresh (n : nat) (out : list Item) (buf : Buf) :
  store (repeat None n) out = Some buf -> holds buf out.
Proof.
  intros H. eapply store_holds; [apply holds_repeat_None| |exact H].
  simpl. lia.
Qed.

(** Replaces the state [y] by the state [x] it is equal to, from
    [H : Some x = Some y]. *)
Ltac some_inv H :=
  match type of H with
  | Some ?x = Some ?y =>
      let E := fresh "E" in
      assert (E : x = y) by congruence; clear H; subst y
  end.

(** *** What a level is handed *)

Lemma handed_out_app (fill : nat -> Item) (a b : Buf) :
  forall j, handed_out fill j (a ++ b)
            = handed_out fill j a ++ handed_out fill (j + length a) b.
Proof.
  induction a as [|slot a IH]; intros j; cbn [app handed_out length].
  - rewrite Nat.add_0_r. reflexivity.
  - replace (j + S (length a))%nat with (S j + length a)%nat by lia.
    destruct slot; rewrite IH; reflexivity.
Qed.

Lemma handed_out_written (fill : nat -> Item) (r : list Item) :
  forall j, handed_out fill j (map Some r) = r.
Proof.
  induction r as [|x r IH]; intros j; cbn [map handed_out]; [reflexivity|].
  rewrite IH. reflexivity.
Qed.

Lemma handed_out_unwritten (fill : nat -> Item) (m : nat) :
  forall j, handed_out fill j (repeat None m) = map fill (seq j m).
Proof.
  induction m as [|m IH]; intros j; cbn [repeat handed_out seq map];
    [reflexivity|].
  rewrite IH. reflexivity.
Qed.

Lemma holds_length (buf : Buf) (r : list Item) :
  holds buf r -> (length r <= length buf)%nat.
Proof.
  intros (n & ->). rewrite length_app, length_map. lia.
Qed.

Lemma holds_firstn (buf : Buf) (r : list Item) (n : nat) :
  holds buf r -> (n <= length r)%nat ->
  firstn n buf = map Some (firstn n r).
Proof.
  intros (m & ->) Hn.
  rewrite firstn_app, length_map.
  replace (n - length r)%nat with 0%nat by lia.
  cbn [firstn]. rewrite app_nil_r. apply firstn_map.
Qed.

(** A buffer that holds the run [r], cut or grown to [n] slots and handed
    out: the first [n] entries of [r], then slots that were never
    written. *)
Lemma handed_out_resize (fill : nat -> Item) (buf : Buf) (r : list Item)
  (n : nat) :
  holds buf r ->
  handed_out fill 0 (resize buf n)
  = firstn n r ++ map fill (seq (length r) (n - length r)).
Proof.
  intros Hh. unfold resize.
  destruct (Nat.le_gt_cases n (length r)) as [Hle|Hgt].
  - pose proof (holds_length buf r Hh).
    rewrite (holds_firstn buf r n Hh Hle).
    replace (n - length buf)%nat with 0%nat by lia.
    replace (n - length r)%nat with 0%nat by lia.
    cbn [repeat seq map]. rewrite !app_nil_r. apply handed_out_written.
  - destruct Hh as (m & ->).
    rewrite firstn_app, length_map, firstn_repeat.
    rewrite firstn_all2 by (rewrite length_map; lia).
    rewrite length_app, length_map, repeat_length.
    rewrite <- app_assoc, <- repeat_app.
    replace (Nat.min (n - length r) m + (n - (length r + m)))%nat
      with (n - length r)%nat by lia.
    rewrite handed_out_app, handed_out_written, length_map.
    rewrite handed_out_unwritten. rewrite firstn_all2 by lia. reflexivity.
Qed.

(** *** The buffer a merge reads *)

Lemma succ_mod2 (k : nat) : (S k mod 2 = 1 - k mod 2)%nat.
Proof.
  pose proof (Nat.div_mod_eq k 2). pose proof (Nat.div_mod_eq (S k) 2).
  pose proof (Nat.mod_upper_bound k 2 ltac:(lia)).
  pose proof (Nat.mod_upper_bound (S k) 2 ltac:(lia)). lia.
Qed.

(** Consecutive iterations read different buffers. *)
Lemma buffers_alternate (mod2 i : nat) (s : MergeLoop) :
  (min_level <= i)%nat -> (mod2 < 2)%nat ->
  current_buffer mod2 (S i) s = other_buffer mod2 i s /\
  other_buffer mod2 (S i) s = current_buffer mod2 i s.
Proof.
  intros Hi Hm. unfold current_buffer, other_buffer.
  replace (S i - min_level)%nat with (S (i - min_level)) by lia.
  rewrite succ_mod2.
  pose proof (Nat.mod_upper_bound (i - min_level) 2 ltac:(lia)).
  destruct (Nat.eqb_spec ((i - min_level) mod 2) mod2);
    destruct (Nat.eqb_spec (1 - (i - min_level) mod 2) mod2);
    try lia; split; reflexivity.
Qed.

(** The pieces of a successful iteration, by the buffer it reads. *)
Lemma merge_level_at (used mod2 : nat) (s s' : MergeLoop) (i : nat) :
  merge_level used mod2 s i = Some s' ->
  exists (level_data run : list Item),
    nth_error (loop_data s) (i - min_level) = Some level_data /\
    assign_level (loop_data s) i [] = Some (loop_data s') /\
    actual_size s' = length (merge (Nat.eqb i (used - 1)) run level_data) /\
    load (current_buffer mod2 i s) (actual_size s) = Some run /\
    store (other_buffer mod2 i s) (merge (Nat.eqb i (used - 1)) run level_data)
      = Some (other_buffer mod2 i s') /\
    current_buffer mod2 i s' = current_buffer mod2 i s.
Proof.
  unfold merge_level, current_buffer, other_buffer. intros H.
  apply obind_Some in H as (level_data & Hl & H).
  apply obind_Some in H as (run & Hr & H).
  apply obind_Some in H as (d & Hd & H).
  exists level_data, run.
  destruct (Nat.eqb ((i - min_level) mod 2) mod2).
  - apply obind_Some in H as (b & Hb & [= <-]). simpl. tauto.
  - apply obind_Some in H as (a & Ha & [= <-]). simpl. tauto.
Qed.

(** *** The running sequence *)

Lemma running_sequence_ext (d d' : list LevelType) (levels : list nat) :
  (forall i, In i levels -> nth (i - min_level) d [] = nth (i - min_level) d' []) ->
  forall r, running_sequence d r levels = running_sequence d' r levels.
Proof.
  unfold running_sequence.
  induction levels as [|i levels IH]; intros H r; [reflexivity|].
  cbn [fold_left]. rewrite (H i (or_introl eq_refl)).
  apply IH. intros j Hj. apply H. right. assumption.
Qed.

Lemma running_sequence_In (d : list LevelType) (levels : list nat) (y : Item) :
  forall r, In y (running_sequence d r levels) ->
            In y r \/ exists i, In i levels /\ In y (nth (i - min_level) d []).
Proof.
  unfold running_sequence.
  induction levels as [|i levels IH]; intros r H; [left; exact H|].
  cbn [fold_left] in H. apply IH in H as [H|(j & Hj & H)].
  - apply merge_In in H as [H|H]; [left; exact H|].
    right. exists i. split; [left; reflexivity|exact H].
  - right. exists j. split; [right; exact Hj|exact H].
Qed.

Lemma running_sequence_keeps (d : list LevelType) (levels : list nat) (y : Item) :
  forall r, In y r -> In y (running_sequence d r levels).
Proof.
  unfold running_sequence.
  induction levels as [|i levels IH]; intros r H; [exact H|].
  cbn [fold_left]. apply IH. apply merge_false_In_l1. exact H.
Qed.

Lemma running_sequence_sorted (d : list LevelType) (levels : list nat) :
  (forall j, sorted (nth j d [])) ->
  forall r, sorted r -> sorted (running_sequence d r levels).
Proof.
  intros Hd. unfold running_sequence.
  induction levels as [|i levels IH]; intros r Hr; [exact Hr|].
  cbn [fold_left]. apply IH. apply merge_sorted; [exact Hr|apply Hd].
Qed.

Lemma running_sequence_length (d : list LevelType) (levels : list nat) :
  forall r, (length r <= length (running_sequence d r levels)
             <= length r + sum_sizes d levels)%nat.
Proof.
  unfold running_sequence.
  induction levels as [|i levels IH]; intros r; cbn [fold_left sum_sizes];
    [lia|].
  specialize (IH (merge false r (nth (i - min_level) d []))).
  pose proof (merge_length_le false r (nth (i - min_level) d [])).
  pose proof (merge_false_length_ge r (nth (i - min_level) d [])). lia.
Qed.

(** The loop over the levels [i .. i + n - 1], none of them the deepest in
    use: the buffer that the next iteration reads holds the running
    sequence, and the levels absorbed are empty. *)
Lemma merge_levels_run (used mod2 : nat) :
  (mod2 < 2)%nat ->
  forall (n i : nat) (s s' : MergeLoop) (R other : list Item),
    (min_level <= i)%nat ->
    holds (current_buffer mod2 i s) R ->
    holds (other_buffer mod2 i s) other ->
    length R = actual_size s ->
    (length other <= actual_size s)%nat ->
    (forall j, (i <= j < i + n)%nat -> j <> (used - 1)%nat) ->
    merge_levels used mod2 s (seq i n) = Some s' ->
    exists other',
      holds (current_buffer mod2 (i + n) s')
        (running_sequence (loop_data s) R (seq i n)) /\
      holds (other_buffer mod2 (i + n) s') other' /\
      length (running_sequence (loop_data s) R (seq i n)) = actual_size s' /\
      (length other' <= actual_size s')%nat /\
      length (loop_data s') = length (loop_data s) /\
      (i + n - min_level <= length (loop_data s) \/ n = 0)%nat /\
      (forall j, (i - min_level <= j < i + n - min_level)%nat ->
                 nth j (loop_data s') [] = []) /\
      (forall j, (j < i - min_level \/ i + n - min_level <= j)%nat ->
                 nth j (loop_data s') [] = nth j (loop_data s) []).
Proof.
  intros Hmod. induction n as [|n IH];
    intros i s s' R other Hi HR Hother HlR Hlo Hne H.
  - cbn [seq merge_levels] in H. some_inv H. rewrite Nat.add_0_r.
    exists other. unfold running_sequence. cbn [seq fold_left].
    repeat split; try assumption; try (right; reflexivity).
    intros j Hj. lia.
  - cbn [seq merge_levels] in H. apply obind_Some in H as (s1 & H1 & H).
    apply merge_level_at in H1
      as (ld & run & Hld & Hassign & Hact & Hload & Hstore & Hcur).
    assert (Hflag : Nat.eqb i (used - 1) = false)
      by (apply Nat.eqb_neq; apply Hne; lia).
    rewrite Hflag in *.
    apply (load_holds _ R) in Hload as [_ ->]; [|exact HR].
    rewrite <- HlR, firstn_all in *.
    pose proof (merge_false_length_ge R ld) as Hge.
    apply assign_level_Some in Hassign as (_ & Hslot & Hd1).
    assert (Eld : nth (i - min_level) (loop_data s) [] = ld)
      by (apply nth_error_nth; exact Hld).
    destruct (buffers_alternate mod2 i s1 Hi Hmod) as [Ecur Eoth].
    destruct (IH (S i) s1 s' (merge false R ld) R) as (other' & IH');
      try assumption.
    + lia.
    + rewrite Ecur. eapply store_holds; [exact Hother| |exact Hstore]. lia.
    + rewrite Eoth, Hcur. exact HR.
    + symmetry. exact Hact.
    + lia.
    + intros j Hj. apply Hne. lia.
    + destruct IH' as (H1 & H2 & H3 & H4 & H5 & H6 & H7 & H8).
      assert (Hlen1 : length (loop_data s1) = length (loop_data s))
        by (rewrite Hd1; apply length_set_nth).
      assert (E : running_sequence (loop_data s) R (i :: seq (S i) n)
                  = running_sequence (loop_data s1) (merge false R ld)
                      (seq (S i) n)).
      { unfold running_sequence at 1. cbn [fold_left]. rewrite Eld.
        apply running_sequence_ext. intros j Hj. apply in_seq in Hj.
        rewrite Hd1. symmetry. apply nth_set_nth_neq. lia. }
      cbn [seq]. rewrite E.
      replace (i + S n)%nat with (S i + n)%nat by lia.
      exists other'. split; [exact H1|]. split; [exact H2|].
      split; [exact H3|]. split; [exact H4|].
      split; [rewrite H5; exact Hlen1|].
      split; [left; rewrite <- Hlen1; destruct H6 as [H6| ->]; lia|].
      split.
      * intros j Hj.
        destruct (Nat.eq_dec j (i - min_level)) as [->|Hj'].
        -- rewrite H8 by lia. rewrite Hd1. apply nth_set_nth_eq. exact Hslot.
        -- apply H7. lia.
      * intros j Hj. rewrite H8 by lia. rewrite Hd1.
        apply nth_set_nth_neq. lia.
Qed.

(** *** What is installed *)

Lemma length_installed (fill : nat -> Item) (flag : bool)
  (run target : list Item) :
  (length (installed fill flag run target) <= length run + length target)%nat.
Proof.
  unfold installed. destruct target as [|t0 target]; [lia|].
  pose proof (merge_length_le flag run (t0 :: target)).
  rewrite length_app, length_firstn, length_map, length_seq. lia.
Qed.

(** Without slots that were never written, a prefix of the running
    sequence is installed. *)
Lemma installed_written (fill : nat -> Item) (flag : bool)
  (run target : list Item) :
  target = [] \/ (length (merge flag run target) <= length run)%nat ->
  installed fill flag run target
  = firstn (length (merge flag run target)) run.
Proof.
  intros H. unfold installed. destruct target as [|t0 target].
  - rewrite merge_nil_r, firstn_all. reflexivity.
  - destruct H as [H|H]; [discriminate|].
    replace (length (merge flag run (t0 :: target)) - length run)%nat
      with 0%nat by lia.
    cbn [seq map]. apply app_nil_r.
Qed.

Lemma In_installed (fill : nat -> Item) (flag : bool)
  (run target : list Item) (y : Item) :
  In y (installed fill flag run target) ->
  In y run \/ exists j, y = fill j.
Proof.
  unfold installed. destruct target as [|t0 target]; [auto|].
  intros H. apply in_app_or in H as [H|H].
  - left. eapply In_firstn. exact H.
  - right. apply in_map_iff in H as (j & <- & _). exists j. reflexivity.
Qed.

(** *** The cascade *)

(** What [pairwise_logarithmic_merge] leaves: the levels up to the target
    are empty, the levels beyond it are as they were, and the target is
    what the installed scratch buffer hands out. *)
Lemma cascade_result (st st' : DynamicPGMIndex) (new_item : Item)
  (up_to_level size_hint ip : nat) (level0 : LevelType) :
  nth_error (data st) 0 = Some level0 ->
  length level0 = (2 ^ (min_level + 1) - 1)%nat ->
  (min_level <= up_to_level)%nat ->
  (up_to_level + 1 < used_levels st)%nat ->
  pairwise_logarithmic_merge st new_item up_to_level size_hint ip = Some st' ->
  used_levels st' = used_levels st /\
  length (data st') = length (data st) /\
  (up_to_level + 1 - min_level < length (data st))%nat /\
  (forall j, (j < up_to_level + 1 - min_level)%nat -> nth j (data st') [] = []) /\
  (forall j, (up_to_level + 1 - min_level < j)%nat ->
             nth j (data st') [] = nth j (data st) []) /\
  nth (up_to_level + 1 - min_level) (data st') []
  = installed (uninit_slot st)
      (Nat.eqb (up_to_level + 1) (used_levels st - 1))
      (running_sequence (data st)
         (firstn ip level0 ++ new_item :: skipn ip level0)
         (seq (1 + min_level) (up_to_level - min_level)))
      (nth (up_to_level + 1 - min_level) (data st) []).
Proof.
  intros H0 Hlen0 Hup Hused H.
  unfold pairwise_logarithmic_merge in H.
  apply obind_Some in H as (tl & Htl & H).
  assert (Etl : nth (up_to_level + 1 - min_level) (data st) [] = tl)
    by (apply nth_error_nth; exact Htl).
  assert (Hslot : (up_to_level + 1 - min_level < length (data st))%nat)
    by (apply nth_error_Some; rewrite Htl; discriminate).
  rewrite Etl.
  destruct (_ <? _) in H; [discriminate|].
  apply obind_Some in H as (level0' & H0' & H).
  rewrite H0 in H0'. injection H0' as <-.
  apply obind_Some in H as (s0 & Hs0 & H).
  apply obind_Some in H as (s & Hloop & H).
  cbv zeta in H.
  apply obind_Some in H as (d1 & Hd1 & H).
  apply obind_Some in H as (d2 & Hd2 & H).
  injection H as <-. cbn [used_levels data].
  set (seeded := firstn ip level0 ++ new_item :: skipn ip level0) in *.
  set (mod2 := ((up_to_level - min_level) mod 2)%nat) in *.
  assert (Hmod : (mod2 < 2)%nat) by (apply Nat.mod_upper_bound; lia).
  assert (Hseedlen : length seeded = (2 ^ (1 + min_level))%nat).
  { unfold seeded. rewrite length_app. cbn [length].
    rewrite length_firstn, length_skipn, Hlen0.
    change (2 ^ (min_level + 1))%nat with 128%nat.
    change (2 ^ (1 + min_level))%nat with 128%nat. lia. }
  (* the loop starts with the seeded buffer as the one to read *)
  assert (Hinit : holds (current_buffer mod2 (1 + min_level) s0) seeded /\
                  holds (other_buffer mod2 (1 + min_level) s0) [] /\
                  actual_size s0 = (2 ^ (1 + min_level))%nat /\
                  loop_data s0 = data st).
  { unfold current_buffer, other_buffer.
    change ((1 + min_level - min_level) mod 2)%nat with 1%nat.
    destruct (Nat.eqb_spec mod2 0) as [E|E].
    - apply obind_Some in Hs0 as (b & Hb & [= <-]).
      cbn [tmp_a tmp_b actual_size loop_data]. rewrite E. cbn [Nat.eqb].
      split; [eapply store_fresh; exact Hb|].
      split; [apply holds_repeat_None|]. split; reflexivity.
    - apply obind_Some in Hs0 as (a & Ha & [= <-]).
      cbn [tmp_a tmp_b actual_size loop_data].
      replace mod2 with 1%nat by lia. cbn [Nat.eqb].
      split; [eapply store_fresh; exact Ha|].
      split; [apply holds_repeat_None|]. split; reflexivity. }
  destruct Hinit as (Hcur0 & Hoth0 & Hact0 & Hdata0).
  set (R := running_sequence (data st) seeded
              (seq (1 + min_level) (up_to_level - min_level))).
  (* the buffer that is installed is the one read at the target *)
  assert (Etmp : forall s2, current_buffer mod2 (up_to_level + 1) s2 = tmp_b s2).
  { intros s2. unfold current_buffer.
    replace (up_to_level + 1 - min_level)%nat
      with (S (up_to_level - min_level)) by lia.
    rewrite succ_mod2. fold mod2.
    destruct (Nat.eqb_spec (1 - mod2) mod2); [lia|reflexivity]. }
  assert (Hfinal :
    holds (tmp_b s) R /\
    actual_size s
    = (match tl with
       | [] => length R
       | _ => length (merge (Nat.eqb (up_to_level + 1) (used_levels st - 1))
                        R tl)
       end) /\
    length (loop_data s) = length (data st) /\
    (forall j, (1 <= j < up_to_level + 1 - min_level)%nat ->
               nth j (loop_data s) [] = []) /\
    (forall j, (up_to_level + 1 - min_level < j)%nat ->
               nth j (loop_data s) [] = nth j (data st) [])).
  { destruct tl as [|t0 tl0].
    - (* the target is empty: the loop stops before it *)
      destruct (merge_levels_run (used_levels st) mod2 Hmod
                  (up_to_level - min_level) (1 + min_level) s0 s seeded []
                  ltac:(lia) Hcur0 Hoth0 ltac:(lia) ltac:(simpl; lia)
                  ltac:(intros j Hj; lia) Hloop)
        as (other & HR & _ & HlR & _ & Hlen1 & _ & Hclear & Hrest).
      rewrite Hdata0 in *. fold R in HR, HlR.
      replace (1 + min_level + (up_to_level - min_level))%nat
        with (up_to_level + 1)%nat in * by lia.
      rewrite Etmp in HR.
      split; [exact HR|]. split; [symmetry; exact HlR|].
      split; [exact Hlen1|].
      split; [intros j Hj; apply Hclear; lia|].
      intros j Hj. apply Hrest. lia.
    - (* the target holds data: the loop runs for the target as well *)
      replace (up_to_level + 1 - min_level)%nat
        with (S (up_to_level - min_level)) in Hloop by lia.
      rewrite seq_S in Hloop.
      apply merge_levels_app in Hloop as (s1 & Hloop1 & Hlast).
      cbn [merge_levels] in Hlast.
      apply obind_Some in Hlast as (s2 & Hlast & [= ->]).
      destruct (merge_levels_run (used_levels st) mod2 Hmod
                  (up_to_level - min_level) (1 + min_level) s0 s1 seeded []
                  ltac:(lia) Hcur0 Hoth0 ltac:(lia) ltac:(simpl; lia)
                  ltac:(intros j Hj; lia) Hloop1)
        as (other & HR & _ & HlR & _ & Hlen1 & _ & Hclear & Hrest).
      rewrite Hdata0 in *. fold R in HR, HlR.
      replace (1 + min_level + (up_to_level - min_level))%nat
        with (up_to_level + 1)%nat in * by lia.
      apply merge_level_at in Hlast
        as (ld & run & Hld & Hassign & Hact & Hload & _ & Hcur).
      apply (load_holds _ R) in Hload as [_ ->]; [|exact HR].
      rewrite <- HlR, firstn_all in Hact.
      assert (Eld : ld = t0 :: tl0).
      { apply (nth_error_nth _ _ []) in Hld.
        rewrite Hrest in Hld by lia. congruence. }
      subst ld.
      apply assign_level_Some in Hassign as (_ & _ & Hd).
      rewrite <- Hcur, Etmp in HR.
      split; [exact HR|]. split; [exact Hact|].
      split; [rewrite Hd, length_set_nth; exact Hlen1|].
      split.
      + intros j Hj. rewrite Hd, nth_set_nth_neq by lia. apply Hclear. lia.
      + intros j Hj. rewrite Hd, nth_set_nth_neq by lia. apply Hrest. lia. }
  destruct Hfinal as (HR & Hact & Hlen & Hclear & Hrest).
  apply assign_level_Some in Hd1 as (_ & Hlt1 & ->).
  apply assign_level_Some in Hd2 as (_ & Hlt2 & ->).
  rewrite Nat.sub_diag in *.
  split; [reflexivity|].
  split; [rewrite !length_set_nth; exact Hlen|].
  split; [exact Hslot|].
  split.
  { intros j Hj. rewrite nth_set_nth_neq by lia.
    destruct j as [|j].
    - apply nth_set_nth_eq. exact Hlt1.
    - rewrite nth_set_nth_neq by lia. apply Hclear. lia. }
  split.
  { intros j Hj. rewrite !nth_set_nth_neq by lia. apply Hrest. exact Hj. }
  rewrite nth_set_nth_eq by exact Hlt2.
  rewrite (handed_out_resize _ _ R _ HR). rewrite Hact.
  unfold installed. destruct tl as [|t0 tl0]; [|reflexivity].
  rewrite firstn_all, Nat.sub_diag. cbn [seq map]. apply app_nil_r.
Qed.

(** The shape a cascade leaves, whatever the levels hold. *)
Lemma cascade_shape (st st' : DynamicPGMIndex) (new_item : Item)
  (up_to_level size_hint ip : nat) (level0 : LevelType) :
  nth_error (data st) 0 = Some level0 ->
  length level0 = (2 ^ (min_level + 1) - 1)%nat ->
  (min_level <= up_to_level)%nat ->
  (up_to_level + 1 < used_levels st)%nat ->
  pairwise_logarithmic_merge st new_item up_to_level size_hint ip = Some st' ->
  used_levels st' = used_levels st /\
  length (data st') = length (data st) /\
  (forall j, (j < up_to_level + 1 - min_level)%nat -> nth j (data st') [] = []) /\
  (forall j, (up_to_level + 1 - min_level < j)%nat ->
             nth j (data st') [] = nth j (data st) []) /\
  (length (nth (up_to_level + 1 - min_level) (data st') [])
   <= 2 ^ (1 + min_level)
      + sum_sizes (data st) (seq (1 + min_level) (up_to_level - min_level))
      + length (nth (up_to_level + 1 - min_level) (data st) []))%nat.
Proof.
  intros H0 Hlen0 Hup Hused H.
  destruct (cascade_result st st' new_item up_to_level size_hint ip level0
              H0 Hlen0 Hup Hused H) as (Hu & Hl & _ & Hlow & Hhigh & Ht).
  split; [exact Hu|]. split; [exact Hl|]. split; [exact Hlow|].
  split; [exact Hhigh|].
  rewrite Ht.
  etransitivity; [apply length_installed|].
  pose proof (running_sequence_length (data st)
                (seq (1 + min_level) (up_to_level - min_level))
                (firstn ip level0 ++ new_item :: skipn ip level0)) as Hr.
  rewrite length_app in Hr. cbn [length] in Hr.
  rewrite length_firstn, length_skipn, Hlen0 in Hr.
  change (2 ^ (min_level + 1))%nat with 128%nat in Hr.
  change (2 ^ (1 + min_level))%nat with 128%nat. lia.
Qed.

(** ** Choosing the target level *)

Lemma size_sub_le (a b : Z) : 0 <= a - b -> size_sub a b <= a - b.
Proof.
  intros H. unfold size_sub. apply Z.mod_le; [assumption|].
  apply Z.pow_pos_nonneg; lia.
Qed.

Lemma find_free_level_spec (st : DynamicPGMIndex) (fuel : nat) :
  forall (i r i' r' : nat),
    (i <= used_levels st)%nat -> fuel = (used_levels st - i)%nat ->
    find_free_level st fuel i r = (i', r') ->
    (i <= i' <= used_levels st)%nat /\
    r' = (r + sum_sizes (data st) (seq i (i' - i)))%nat /\
    ((i' < used_levels st)%nat ->
     Z.of_nat r' <=
       size_sub (2 ^ Z.of_nat i') (Z.of_nat (length (get_level st i')))).
Proof.
  induction fuel as [|fuel IH]; intros i r i' r' Hi Hfuel H; simpl in H.
  - injection H as <- <-. rewrite Nat.sub_diag. simpl.
    split; [lia|]. split; [lia|]. intros; lia.
  - destruct (Nat.ltb_spec i (used_levels st)); [|lia].
    destruct (Z.leb_spec (Z.of_nat r)
                (size_sub (2 ^ Z.of_nat i) (Z.of_nat (length (get_level st i))))).
    + injection H as <- <-. rewrite Nat.sub_diag. simpl.
      split; [lia|]. split; [lia|]. intros; assumption.
    + apply IH in H as (Hi' & -> & Hfree); [|lia|lia].
      split; [lia|]. split; [|assumption].
      replace (i' - i)%nat with (S (i' - S i)) by lia.
      simpl. unfold get_level. lia.
Qed.

(** Full levels [1 + min_level .. 1 + min_level + n - 1] and a full buffer
    fit into the next level. *)
Lemma full_levels_fit (d : list LevelType) (n : nat) :
  (forall level, (min_level < level)%nat ->
     (length (nth (level - min_level) d []) <= 2 ^ level)%nat) ->
  (2 ^ (1 + min_level) + sum_sizes d (seq (1 + min_level) n)
   <= 2 ^ (1 + min_level + n))%nat.
Proof.
  intros Hcap. induction n as [|n IH].
  - simpl sum_sizes. rewrite !Nat.add_0_r. lia.
  - rewrite seq_S, sum_sizes_app. simpl sum_sizes.
    specialize (Hcap (1 + min_level + n)%nat ltac:(lia)).
    replace (1 + min_level + n - min_level)%nat with (S n) in Hcap by lia.
    replace (1 + min_level + S n)%nat with (S (1 + min_level + n)) by lia.
    rewrite (Nat.pow_succ_r' 2 (1 + min_level + n)).
    change (1 + min_level)%nat with (S min_level) in *. lia.
Qed.

(** Overwriting an entry with one of the same key keeps a level sorted. *)
Lemma set_nth_sorted (l : LevelType) (p : nat) (old x : Item) :
  sorted l -> nth_error l p = Some old -> key old = key x ->
  sorted (set_nth p x l).
Proof.
  revert p; induction l as [|a l IH]; intros [|p] Hs Hp Hk; simpl in *;
    try discriminate.
  - injection Hp as ->. apply sorted_inv in Hs as [Hs Hf].
    apply sorted_cons; [assumption|].
    rewrite Forall_forall in *. intros y Hy. specialize (Hf y Hy).
    unfold key_lt in *. lia.
  - pose proof (sorted_inv Hs) as [Hs' Hf].
    apply sorted_cons; [eapply IH; eassumption|].
    rewrite Forall_forall in *. intros y Hy.
    assert (Hy' : y = x \/ In y l).
    { clear - Hy. revert p Hy. induction l as [|b l IHl]; intros [|p]; simpl;
        try tauto.
      - intros [<-|Hy]; auto.
      - intros [<-|Hy]; auto. destruct (IHl p Hy); auto. }
    destruct Hy' as [->|Hy'].
    + apply nth_error_In in Hp. specialize (Hf old Hp).
      unfold key_lt in *. lia.
    + auto.
Qed.

(** ** Well-formed states, slot by slot *)

Lemma well_formed_of_slots (st : DynamicPGMIndex) :
  (min_level <= used_levels st)%nat ->
  (1 <= length (data st))%nat ->
  (used_levels st - min_level <= length (data st))%nat ->
  (forall j, (used_levels st - min_level <= j)%nat -> nth j (data st) [] = []) ->
  (length (nth 0 (data st) []) <= 2 ^ (min_level + 1) - 1)%nat ->
  (forall j, (1 <= j)%nat ->
     (length (nth j (data st) []) <= 2 ^ (j + min_level))%nat) ->
  (forall j, sorted (nth j (data st) [])) ->
  well_formed st.
Proof.
  intros Hu Hl Ha He Hc0 Hc Hs. constructor.
  - repeat split; assumption.
  - intros level Hlevel. apply He. lia.
  - split.
    + unfold get_level. rewrite Nat.sub_diag. assumption.
    + intros level Hlevel. unfold get_level.
      replace level with (level - min_level + min_level)%nat at 2 by lia.
      apply Hc. lia.
  - intros level. apply Hs.
Qed.

Lemma well_formed_slots (st : DynamicPGMIndex) :
  well_formed st ->
  (min_level <= used_levels st)%nat /\
  (1 <= length (data st))%nat /\
  (used_levels st - min_level <= length (data st))%nat /\
  (forall j, (used_levels st - min_level <= j)%nat -> nth j (data st) [] = []) /\
  (length (nth 0 (data st) []) <= 2 ^ (min_level + 1) - 1)%nat /\
  (forall j, (1 <= j)%nat ->
     (length (nth j (data st) []) <= 2 ^ (j + min_level))%nat) /\
  (forall j, sorted (nth j (data st) [])).
Proof.
  intros [(Hu & Hl & Ha) He [Hc0 Hc] Hs].
  split; [assumption|]. split; [assumption|]. split; [assumption|].
  split.
  { intros j Hj. specialize (He (j + min_level)%nat ltac:(lia)).
    unfold get_level in He.
    replace (j + min_level - min_level)%nat with j in He by lia. assumption. }
  split.
  { unfold get_level in Hc0. rewrite Nat.sub_diag in Hc0. assumption. }
  split.
  { intros j Hj. specialize (Hc (j + min_level)%nat ltac:(lia)).
    unfold get_level in Hc.
    replace (j + min_level - min_level)%nat with j in Hc by lia. assumption. }
  intros j. specialize (Hs (j + min_level)%nat). unfold get_level in Hs.
  replace (j + min_level - min_level)%nat with j in Hs by lia. assumption.
Qed.

Lemma nth_app_nil (d : list LevelType) (j : nat) :
  nth j (d ++ [[]]) [] = nth j d [].
Proof.
  destruct (Nat.lt_ge_cases j (length d)) as [Hlt|Hge].
  - apply app_nth1. assumption.
  - rewrite app_nth2 by assumption. rewrite (nth_overflow d) by assumption.
    destruct (j - length d)%nat as [|[|k]]; reflexivity.
Qed.

Lemma sum_sizes_app_nil (d : list LevelType) (levels : list nat) :
  sum_sizes (d ++ [[]]) levels = sum_sizes d levels.
Proof.
  induction levels as [|i levels IH]; simpl; [reflexivity|].
  rewrite nth_app_nil, IH. reflexivity.
Qed.

(** ** [insert], path by path *)

Lemma length_insert_at (l : LevelType) (p : nat) (x : Item) :
  length (firstn p l ++ x :: skipn p l) = S (length l).
Proof.
  rewrite length_app. simpl. rewrite length_firstn, length_skipn. lia.
Qed.

Lemma absent_at_lower_bound (l : LevelType) (k : K) :
  sorted l ->
  (~ has_key l k <->
   forall y, nth_error l (lower_bound_pos l k) = Some y -> key y <> k).
Proof.
  intros Hs. split.
  - intros Hno y Hy. eapply lower_bound_pos_absent; eassumption.
  - intros Hno (y & Hin & Hk). apply (Hno y); [|assumption].
    rewrite <- Hk. apply lower_bound_pos_found; assumption.
Qed.

Lemma well_formed_shaped (st : DynamicPGMIndex) : well_formed st -> shaped st.
Proof. intros [Ha He Hc _]. constructor; assumption. Qed.

Lemma shaped_sorted_wf (st : DynamicPGMIndex) :
  shaped st -> levels_sorted st -> well_formed st.
Proof. intros [Ha He Hc] Hs. constructor; assumption. Qed.

Lemma shaped_of_slots (st : DynamicPGMIndex) :
  (min_level <= used_levels st)%nat ->
  (1 <= length (data st))%nat ->
  (used_levels st - min_level <= length (data st))%nat ->
  (forall j, (used_levels st - min_level <= j)%nat -> nth j (data st) [] = []) ->
  (length (nth 0 (data st) []) <= 2 ^ (min_level + 1) - 1)%nat ->
  (forall j, (1 <= j)%nat ->
     (length (nth j (data st) []) <= 2 ^ (j + min_level))%nat) ->
  shaped st.
Proof.
  intros Hu Hl Ha He Hc0 Hc. constructor.
  - repeat split; assumption.
  - intros level Hlevel. apply He. lia.
  - split.
    + unfold get_level. rewrite Nat.sub_diag. assumption.
    + intros level Hlevel. unfold get_level.
      replace level with (level - min_level + min_level)%nat at 2 by lia.
      apply Hc. lia.
Qed.

Lemma shaped_slots (st : DynamicPGMIndex) :
  shaped st ->
  (min_level <= used_levels st)%nat /\
  (1 <= length (data st))%nat /\
  (used_levels st - min_level <= length (data st))%nat /\
  (forall j, (used_levels st - min_level <= j)%nat -> nth j (data st) [] = []) /\
  (length (nth 0 (data st) []) <= 2 ^ (min_level + 1) - 1)%nat /\
  (forall j, (1 <= j)%nat ->
     (length (nth j (data st) []) <= 2 ^ (j + min_level))%nat).
Proof.
  intros [(Hu & Hl & Ha) He [Hc0 Hc]].
  split; [assumption|]. split; [assumption|]. split; [assumption|].
  split.
  { intros j Hj. specialize (He (j + min_level)%nat ltac:(lia)).
    unfold get_level in He.
    replace (j + min_level - min_level)%nat with j in He by lia. assumption. }
  split.
  { unfold get_level in Hc0. rewrite Nat.sub_diag in Hc0. assumption. }
  intros j Hj. specialize (Hc (j + min_level)%nat ltac:(lia)).
  unfold get_level in Hc.
  replace (j + min_level - min_level)%nat with j in Hc by lia. assumption.
Qed.

(** The two ways through [insert]: the key is in the buffer, or not. *)
Lemma insert_paths (st st' : DynamicPGMIndex) (x : Item) :
  insert st x = Some st' ->
  exists level0,
    nth_error (data st) 0 = Some level0 /\
    get_level st min_level = level0 /\
    ((exists old,
        nth_error level0 (lower_bound_pos level0 (key x)) = Some old /\
        key old = key x /\
        st' = mkIndex (used_levels st)
                (set_nth 0 (set_nth (lower_bound_pos level0 (key x)) x level0)
                   (data st)))
     \/
     ((forall y, nth_error level0 (lower_bound_pos level0 (key x)) = Some y ->
                 key y <> key x) /\
      insert_new st x level0 (lower_bound_pos level0 (key x)) = Some st')).
Proof.
  intros H. unfold insert in H.
  apply obind_Some in H as (level0 & H0 & H).
  exists level0. split; [exact H0|].
  split.
  { unfold get_level. rewrite Nat.sub_diag. apply nth_error_nth. exact H0. }
  destruct (nth_error level0 (lower_bound_pos level0 (key x))) as [y|] eqn:Hy.
  - destruct (Z.eqb_spec (key y) (key x)) as [Hk|Hk].
    + left. exists y. split; [reflexivity|]. split; [exact Hk|].
      some_inv H. reflexivity.
    + right. split; [|exact H]. intros y' Hy'. congruence.
  - right. split; [|exact H]. intros y' Hy'. discriminate.
Qed.

(** The cascade that [insert] runs on a full buffer. *)
Lemma insert_new_cascade (st st' : DynamicPGMIndex) (x : Item)
  (level0 : LevelType) :
  shaped st ->
  nth_error (data st) 0 = Some level0 ->
  length level0 = (2 ^ (min_level + 1) - 1)%nat ->
  insert_new st x level0 (lower_bound_pos level0 (key x)) = Some st' ->
  (min_level < cascade_target st <= used_levels st)%nat /\
  used_levels st' = Nat.max (used_levels st) (cascade_target st + 1) /\
  length (data st')
  = (if Nat.eqb (cascade_target st) (used_levels st)
     then S (length (data st)) else length (data st)) /\
  (forall i, (min_level <= i < cascade_target st)%nat -> get_level st' i = []) /\
  (forall i, (cascade_target st < i)%nat -> get_level st' i = get_level st i) /\
  get_level st' (cascade_target st) = cascade_output st x /\
  (length (get_level st' (cascade_target st))
   <= 2 ^ (1 + min_level)
      + sum_sizes (data st)
          (seq (1 + min_level) (cascade_target st - 1 - min_level))
      + length (get_level st (cascade_target st)))%nat /\
  (length (get_level st' (cascade_target st)) <= 2 ^ cascade_target st)%nat.
Proof.
  intros Hsh H0 Hfull H.
  assert (Hmin : min_level = 6%nat) by reflexivity.
  destruct (shaped_slots st Hsh) as (Hu & Hl & Ha & He & Hc0 & Hc).
  assert (Hlevel0 : get_level st min_level = level0).
  { unfold get_level. rewrite Nat.sub_diag. apply nth_error_nth. exact H0. }
  unfold cascade_output, cascade_run. rewrite Hlevel0.
  set (ip := lower_bound_pos level0 (key x)) in *.
  set (seeded := firstn ip level0 ++ x :: skipn ip level0).
  unfold insert_new in H. unfold cascade_target.
  destruct (Nat.ltb_spec (length level0) (2 ^ (min_level + 1) - 1))
    as [Hroom|_]; [lia|].
  assert (Hused : (1 + min_level <= used_levels st)%nat).
  { destruct (Nat.le_gt_cases (1 + min_level) (used_levels st)); [assumption|].
    specialize (He 0%nat ltac:(lia)).
    unfold get_level in Hlevel0. rewrite Nat.sub_diag in Hlevel0.
    rewrite Hlevel0 in He. rewrite He in Hfull. simpl in Hfull. lia. }
  destruct (find_free_level st (used_levels st - (min_level + 1))
              (min_level + 1) (2 ^ (min_level + 1) - 1 + 1))
    as [i req] eqn:Hfind.
  apply find_free_level_spec in Hfind as (Hi & Hreq & Hfree); [|lia|reflexivity].
  cbn [fst].
  replace (i - (min_level + 1))%nat with (i - 1 - min_level)%nat in Hreq by lia.
  change (min_level + 1)%nat with (1 + min_level)%nat in Hreq.
  change (2 ^ (1 + min_level) - 1 + 1)%nat with (2 ^ (1 + min_level))%nat
    in Hreq.
  split; [lia|].
  destruct (Nat.eqb_spec i (used_levels st)) as [Hnewlevel|Hfound].
  - (* a new level *)
    pose proof (cascade_result (mkIndex (S (used_levels st)) (data st ++ [[]]))
                  st' x (i - 1) req ip level0) as Hres.
    cbn [used_levels data] in Hres.
    destruct Hres as (Hu' & Hl' & _ & Hlow & Hhigh & Ht);
      [rewrite nth_error_app1 by lia; exact H0|exact Hfull|lia|lia|exact H|].
    replace (i - 1 + 1 - min_level)%nat with (i - min_level)%nat in * by lia.
    rewrite nth_app_nil in Ht.
    assert (Hempty : nth (i - min_level) (data st) [] = [])
      by (apply He; lia).
    rewrite Hempty in Ht. cbn [installed] in Ht.
    rewrite (running_sequence_ext (data st ++ [[]]) (data st)) in Ht
      by (intros j _; apply nth_app_nil).
    fold seeded in Ht.
    assert (Hlen : (length (nth (i - min_level) (data st') [])
                    <= 2 ^ (1 + min_level)
                       + sum_sizes (data st)
                           (seq (1 + min_level) (i - 1 - min_level)))%nat).
    { rewrite Ht.
      pose proof (running_sequence_length (data st)
                    (seq (1 + min_level) (i - 1 - min_level)) seeded) as Hr.
      assert (Hseedlen : length seeded = 128%nat).
      { unfold seeded. rewrite length_insert_at, Hfull. reflexivity. }
      rewrite Hseedlen in Hr.
      change (2 ^ (1 + min_level))%nat with 128%nat. lia. }
    split; [lia|].
    split; [rewrite Hl', length_app; simpl; lia|].
    split; [intros j Hj; unfold get_level; apply Hlow; lia|].
    split.
    { intros j Hj. unfold get_level. rewrite Hhigh by lia. apply nth_app_nil. }
    unfold get_level. rewrite Hempty. cbn [installed].
    split; [exact Ht|].
    split; [cbn [length]; lia|].
    etransitivity; [exact Hlen|].
    pose proof (full_levels_fit (data st) (i - 1 - min_level)) as Hfit.
    replace (1 + min_level + (i - 1 - min_level))%nat with i in Hfit by lia.
    apply Hfit. intros level Hlevel.
    specialize (Hc (level - min_level)%nat ltac:(lia)).
    replace (level - min_level + min_level)%nat with level in Hc by lia.
    exact Hc.
  - (* a level in use with enough free slots *)
    destruct (cascade_shape st st' x (i - 1) req ip level0 H0 Hfull
                ltac:(lia) ltac:(lia) H) as (Hu' & Hl' & Hlow & Hhigh & Hlen).
    destruct (cascade_result st st' x (i - 1) req ip level0 H0 Hfull
                ltac:(lia) ltac:(lia) H) as (_ & _ & _ & _ & _ & Ht).
    replace (i - 1 + 1 - min_level)%nat with (i - min_level)%nat in * by lia.
    replace (i - 1 + 1)%nat with i in Ht by lia.
    fold seeded in Ht.
    split; [lia|].
    split; [exact Hl'|].
    split; [intros j Hj; unfold get_level; apply Hlow; lia|].
    split; [intros j Hj; unfold get_level; apply Hhigh; lia|].
    unfold get_level.
    split; [exact Ht|].
    split; [exact Hlen|].
    specialize (Hfree ltac:(lia)).
    pose proof (Hc (i - min_level)%nat ltac:(lia)) as Hci.
    replace (i - min_level + min_level)%nat with i in Hci by lia.
    unfold get_level in Hfree.
    pose proof (size_sub_le (2 ^ Z.of_nat i)
                  (Z.of_nat (length (nth (i - min_level) (data st) [])))) as Hsub.
    assert (Hpow : Z.of_nat (2 ^ i) = 2 ^ Z.of_nat i)
      by (rewrite Nat2Z.inj_pow; reflexivity).
    lia.
Qed.

(** [insert] on a state of the right shape, sorted or not: it overwrites
    an entry of the buffer, or adds one to the buffer, or runs a cascade
    into [cascade_target], which is handed [cascade_output]. *)
Lemma insert_shape_cases (st st' : DynamicPGMIndex) (x : Item) :
  shaped st -> insert st x = Some st' ->
  (exists old,
     nth_error (get_level st min_level)
       (lower_bound_pos (get_level st min_level) (key x)) = Some old /\
     key old = key x /\
     st' = mkIndex (used_levels st)
             (set_nth 0
                (set_nth (lower_bound_pos (get_level st min_level) (key x)) x
                   (get_level st min_level))
                (data st)))
  \/
  ((forall y, nth_error (get_level st min_level)
                (lower_bound_pos (get_level st min_level) (key x)) = Some y ->
              key y <> key x) /\
   (length (get_level st min_level) < 2 ^ (min_level + 1) - 1)%nat /\
   st' = mkIndex
           (if Nat.eqb (used_levels st) min_level then (min_level + 1)%nat
            else used_levels st)
           (set_nth 0
              (firstn (lower_bound_pos (get_level st min_level) (key x))
                 (get_level st min_level)
               ++ x :: skipn (lower_bound_pos (get_level st min_level) (key x))
                         (get_level st min_level))
              (data st)))
  \/
  ((forall y, nth_error (get_level st min_level)
                (lower_bound_pos (get_level st min_level) (key x)) = Some y ->
              key y <> key x) /\
   length (get_level st min_level) = (2 ^ (min_level + 1) - 1)%nat /\
   (min_level < cascade_target st <= used_levels st)%nat /\
   used_levels st' = Nat.max (used_levels st) (cascade_target st + 1) /\
   length (data st')
   = (if Nat.eqb (cascade_target st) (used_levels st)
      then S (length (data st)) else length (data st)) /\
   (forall i, (min_level <= i < cascade_target st)%nat -> get_level st' i = []) /\
   (forall i, (cascade_target st < i)%nat -> get_level st' i = get_level st i) /\
   get_level st' (cascade_target st) = cascade_output st x /\
   (length (get_level st' (cascade_target st))
    <= 2 ^ (1 + min_level)
       + sum_sizes (data st)
           (seq (1 + min_level) (cascade_target st - 1 - min_level))
       + length (get_level st (cascade_target st)))%nat /\
   (length (get_level st' (cascade_target st)) <= 2 ^ cascade_target st)%nat).
Proof.
  intros Hsh H.
  destruct (shaped_slots st Hsh) as (Hu & Hl & Ha & He & Hc0 & Hc).
  destruct (insert_paths st st' x H)
    as (level0 & H0 & Hlevel0 & [(old & Hold & Hk & E)|[Hnew Hins]]);
    rewrite Hlevel0.
  - left. exists old. auto.
  - right.
    destruct (Nat.lt_ge_cases (length level0) (2 ^ (min_level + 1) - 1))
      as [Hroom|Hfull].
    + left. split; [exact Hnew|]. split; [exact Hroom|].
      unfold insert_new in Hins.
      destruct (Nat.ltb_spec (length level0) (2 ^ (min_level + 1) - 1));
        [|lia].
      some_inv Hins. reflexivity.
    + right. split; [exact Hnew|].
      assert (Hlen0 : length level0 = (2 ^ (min_level + 1) - 1)%nat).
      { unfold get_level in Hlevel0. rewrite Nat.sub_diag in Hlevel0.
        rewrite Hlevel0 in Hc0. lia. }
      split; [exact Hlen0|].
      exact (insert_new_cascade st st' x level0 Hsh H0 Hlen0 Hins).
Qed.

(** ** What every [insert] keeps *)

Lemma insert_shaped (st st' : DynamicPGMIndex) (x : Item) :
  shaped st -> insert st x = Some st' ->
  shaped st' /\
  (used_levels st <= used_levels st' <= S (used_levels st))%nat /\
  (length (data st) <= length (data st') <= S (length (data st)))%nat.
Proof.
  intros Hsh H.
  assert (Hmin : min_level = 6%nat) by reflexivity.
  destruct (shaped_slots st Hsh) as (Hu & Hl & Ha & He & Hc0 & Hc).
  destruct (insert_shape_cases st st' x Hsh H)
    as [(old & Hold & Hk & ->)
       |[(_ & Hroom & ->)
        |(_ & Hfull & HT & Hused & Hlen & Hlow & Hhigh & _ & _ & Hcap)]];
    unfold get_level in *; rewrite ?Nat.sub_diag in *.
  - cbn [used_levels data]. rewrite length_set_nth.
    split; [|lia].
    apply shaped_of_slots; cbn [used_levels data];
      rewrite ?length_set_nth; try assumption.
    + intros j Hj. destruct j as [|j].
      * rewrite (He 0%nat Hj) in Hold.
        destruct (lower_bound_pos [] (key x)); discriminate.
      * rewrite nth_set_nth_neq by lia. apply He. assumption.
    + rewrite nth_set_nth_eq by lia. rewrite length_set_nth. assumption.
    + intros j Hj. rewrite nth_set_nth_neq by lia. apply Hc. assumption.
  - cbn [used_levels data]. rewrite length_set_nth.
    split; [|destruct (Nat.eqb_spec (used_levels st) min_level); lia].
    apply shaped_of_slots; cbn [used_levels data];
      rewrite ?length_set_nth.
    + destruct (Nat.eqb_spec (used_levels st) min_level); lia.
    + lia.
    + destruct (Nat.eqb_spec (used_levels st) min_level); lia.
    + intros j Hj. rewrite nth_set_nth_neq.
      * apply He. destruct (Nat.eqb_spec (used_levels st) min_level); lia.
      * destruct (Nat.eqb_spec (used_levels st) min_level); lia.
    + rewrite nth_set_nth_eq by lia. rewrite length_insert_at. lia.
    + intros j Hj. rewrite nth_set_nth_neq by lia. apply Hc. assumption.
  - split.
    + apply shaped_of_slots.
      * lia.
      * destruct (Nat.eqb (cascade_target st) (used_levels st)); lia.
      * destruct (Nat.eqb_spec (cascade_target st) (used_levels st)); lia.
      * intros j Hj.
        replace j with (j + min_level - min_level)%nat by lia.
        rewrite (Hhigh (j + min_level)%nat) by lia.
        apply He. lia.
      * replace 0%nat with (min_level - min_level)%nat by lia.
        rewrite (Hlow min_level) by lia. simpl. lia.
      * intros j Hj.
        replace j with (j + min_level - min_level)%nat at 1 by lia.
        destruct (Nat.lt_trichotomy (j + min_level) (cascade_target st))
          as [Hlt|[Heq|Hgt]].
        -- rewrite (Hlow (j + min_level)%nat) by lia. simpl. lia.
        -- rewrite Heq. exact Hcap.
        -- rewrite (Hhigh (j + min_level)%nat) by lia.
           replace (j + min_level - min_level)%nat with j by lia.
           apply Hc. assumption.
    + destruct (Nat.eqb_spec (cascade_target st) (used_levels st)); lia.
Qed.

Lemma apply_ops_shaped (ops : list Op) :
  forall st st' : DynamicPGMIndex,
    shaped st -> apply_ops st ops = Some st' ->
    shaped st' /\
    (used_levels st <= used_levels st' <= used_levels st + length ops)%nat /\
    (length (data st) <= length (data st')
     <= length (data st) + length ops)%nat.
Proof.
  induction ops as [|o ops IH]; intros st st' Hsh H.
  - simpl in H. injection H as <-. simpl. split; [assumption|lia].
  - cbn [apply_ops] in H. apply obind_Some in H as (st1 & H1 & H).
    assert (H1' : insert st (item_of o) = Some st1)
      by (destruct o; exact H1).
    destruct (insert_shaped st st1 _ Hsh H1') as (Hsh1 & Hu1 & Hl1).
    destruct (IH st1 st' Hsh1 H) as (Hsh' & Hu' & Hl').
    split; [exact Hsh'|]. simpl length. lia.
Qed.

(** ** [insert] keeps states well-formed, unless it hands out a slot that
       was never written *)

(** What [hands_out_written] says in a cascade. *)
Lemma hands_out_written_cascade (st : DynamicPGMIndex) (x : Item) :
  sorted (get_level st min_level) ->
  (forall y, nth_error (get_level st min_level)
               (lower_bound_pos (get_level st min_level) (key x)) = Some y ->
             key y <> key x) ->
  length (get_level st min_level) = (2 ^ (min_level + 1) - 1)%nat ->
  hands_out_written st x ->
  get_level st (cascade_target st) = [] \/
  (length (merge (Nat.eqb (cascade_target st) (used_levels st - 1))
             (cascade_run st x) (get_level st (cascade_target st)))
   <= length (cascade_run st x))%nat.
Proof.
  intros Hs Hnew Hfull [[Hk|[Hroom|Hempty]]|Hn].
  - exfalso. revert Hk. apply absent_at_lower_bound; assumption.
  - lia.
  - left. exact Hempty.
  - right. exact Hn.
Qed.

Lemma insert_sorted (st st' : DynamicPGMIndex) (x : Item) :
  well_formed st -> hands_out_written st x -> insert st x = Some st' ->
  levels_sorted st'.
Proof.
  intros Hwf Hw H level.
  pose proof (wf_sorted Hwf) as Hs.
  destruct (well_formed_slots st Hwf) as (Hu & Hl & _).
  destruct (insert_shape_cases st st' x (well_formed_shaped st Hwf) H)
    as [(old & Hold & Hk & ->)
       |[(Hnew & Hroom & ->)
        |(Hnew & Hfull & HT & _ & _ & Hlow & Hhigh & Ht & _)]].
  - unfold get_level at 1. cbn [data].
    destruct (level - min_level)%nat as [|j] eqn:Ej.
    + rewrite nth_set_nth_eq by lia.
      eapply set_nth_sorted; [apply Hs|exact Hold|exact Hk].
    + rewrite nth_set_nth_neq by lia.
      specialize (Hs level). unfold get_level in Hs. rewrite Ej in Hs. exact Hs.
  - unfold get_level at 1. cbn [data].
    destruct (level - min_level)%nat as [|j] eqn:Ej.
    + rewrite nth_set_nth_eq by lia.
      apply insert_at_lower_bound_sorted; [apply Hs|exact Hnew].
    + rewrite nth_set_nth_neq by lia.
      specialize (Hs level). unfold get_level in Hs. rewrite Ej in Hs. exact Hs.
  - pose proof (hands_out_written_cascade st x (Hs min_level) Hnew Hfull Hw)
      as Hwritten.
    assert (E : get_level st' level = get_level st' (Nat.max level min_level)).
    { unfold get_level. f_equal. lia. }
    rewrite E.
    destruct (Nat.lt_trichotomy (Nat.max level min_level) (cascade_target st))
      as [Hlt|[Heq|Hgt]].
    + rewrite Hlow by lia. constructor.
    + rewrite Heq, Ht. unfold cascade_output.
      rewrite installed_written by exact Hwritten.
      apply sorted_firstn. unfold cascade_run.
      apply running_sequence_sorted.
      * intros j. replace j with (j + min_level - min_level)%nat by lia.
        apply (Hs (j + min_level)%nat).
      * apply insert_at_lower_bound_sorted; [apply Hs|exact Hnew].
    + rewrite Hhigh by lia. apply Hs.
Qed.

Lemma insert_wf (st st' : DynamicPGMIndex) (new_item : Item) :
  well_formed st -> hands_out_written st new_item ->
  insert st new_item = Some st' -> well_formed st'.
Proof.
  intros Hwf Hw H. apply shaped_sorted_wf.
  - apply (insert_shaped st st' new_item (well_formed_shaped st Hwf) H).
  - exact (insert_sorted st st' new_item Hwf Hw H).
Qed.

(** An insert that does not cascade into a level that holds data hands out
    written slots only. *)
Lemma insert_wf_lands (st st' : DynamicPGMIndex) (new_item : Item) :
  well_formed st -> lands_in_empty_level st new_item ->
  insert st new_item = Some st' -> well_formed st'.
Proof.
  intros Hwf Hland. apply insert_wf; [exact Hwf|left; exact Hland].
Qed.

Lemma nth_repeat_nil (n j : nat) : nth j (repeat ([] : LevelType) n) [] = [].
Proof.
  revert j; induction n as [|n IH]; intros [|j]; simpl; auto.
Qed.

Lemma empty_index_wf : well_formed empty_index.
Proof.
  apply well_formed_of_slots; unfold empty_index; cbn [used_levels data];
    rewrite ?repeat_length.
  - lia.
  - unfold init_levels, min_level. lia.
  - unfold init_levels, min_level. lia.
  - intros; apply nth_repeat_nil.
  - rewrite nth_repeat_nil. apply Nat.le_0_l.
  - intros j _. rewrite nth_repeat_nil. apply Nat.le_0_l.
  - intros j. rewrite nth_repeat_nil. constructor.
Qed.

(** ** The bulk constructor *)

Lemma copy_first_of_each_length (prev : Item) (rest : list (K * V)) :
  (length (copy_first_of_each prev rest) <= length rest)%nat.
Proof.
  revert prev; induction rest as [|p rest IH]; intros prev; simpl; [lia|].
  destruct (fst p =? key prev).
  - specialize (IH prev). lia.
  - simpl. specialize (IH (Item_pair p)). lia.
Qed.

Lemma copy_first_of_each_sorted (prev : Item) (rest : list (K * V)) :
  StronglySorted (fun p q => fst p <= fst q) rest ->
  Forall (fun q => key prev <= fst q) rest ->
  sorted (copy_first_of_each prev rest) /\
  Forall (key_lt prev) (copy_first_of_each prev rest).
Proof.
  revert prev; induction rest as [|p rest IH]; intros prev Hs Hf; simpl.
  - split; constructor.
  - apply StronglySorted_inv in Hs as [Hs Hp].
    pose proof (Forall_inv Hf) as Hprev. apply Forall_inv_tail in Hf.
    cbv beta in Hprev.
    destruct (Z.eqb_spec (fst p) (key prev)) as [E|E].
    + apply IH; assumption.
    + destruct (IH (Item_pair p) Hs) as [Hs' Hf'].
      { exact Hp. }
      split.
      * apply sorted_cons; assumption.
      * constructor.
        -- unfold key_lt, key, Item_pair; simpl. unfold key, K in *. lia.
        -- rewrite Forall_forall in *. intros y Hy. specialize (Hf' y Hy).
           unfold key_lt, key, Item_pair, K in *; simpl in *. lia.
Qed.

Lemma sorted_input_strongly (input : list (K * V)) :
  sorted_input input -> StronglySorted (fun p q => fst p <= fst q) input.
Proof.
  apply Sorted_StronglySorted. intros x y z; lia.
Qed.

(** [reserve] changes nothing and needs the level. *)
Lemma reserve_levels_Some (levels : list nat) :
  forall d d' : list LevelType,
    reserve_levels d levels = Some d' ->
    d' = d /\
    forall i, In i levels ->
              (min_level <= i)%nat /\ (i - min_level < length d)%nat.
Proof.
  induction levels as [|i levels IH]; intros d d' H; cbn [reserve_levels] in H.
  - some_inv H. split; [reflexivity|]. intros i [].
  - apply obind_Some in H as (d1 & H1 & H). unfold reserve in H1.
    destruct (Nat.ltb_spec i min_level); [discriminate|].
    destruct (nth_error d (i - min_level)) eqn:E; [|discriminate].
    some_inv H1. destruct (IH d d' H) as [-> Hin].
    split; [reflexivity|]. intros j [<-|Hj]; [|apply Hin; exact Hj].
    split; [assumption|]. apply nth_error_Some. rewrite E. discriminate.
Qed.

Lemma reserve_levels_defined (levels : list nat) (d : list LevelType) :
  (forall i, In i levels ->
             (min_level <= i)%nat /\ (i - min_level < length d)%nat) ->
  reserve_levels d levels = Some d.
Proof.
  induction levels as [|i levels IH]; intros H; cbn [reserve_levels];
    [reflexivity|].
  destruct (H i (or_introl eq_refl)) as [Hi Hlt]. unfold reserve.
  destruct (Nat.ltb_spec i min_level); [lia|].
  destruct (nth_error d (i - min_level)) eqn:E;
    [|apply nth_error_None in E; lia].
  cbn [obind]. apply IH. intros j Hj. apply H. right. exact Hj.
Qed.

(** The [reserve] statements of the constructors need a slot for level
    [max_fully_allocated_level]. *)
Lemma reserve_all_spec (d : list LevelType) :
  reserve_all d
  = if (max_fully_allocated_level - min_level <? length d)%nat
    then Some d else None.
Proof.
  unfold reserve_all.
  destruct (Nat.ltb_spec (max_fully_allocated_level - min_level) (length d))
    as [Hlt|Hge].
  - apply reserve_levels_defined. intros i Hi. apply in_seq in Hi.
    change max_fully_allocated_level with 15%nat in *.
    change min_level with 6%nat in *. lia.
  - destruct (reserve_levels d _) as [d'|] eqn:E; [|reflexivity].
    apply reserve_levels_Some in E as [_ Hin].
    specialize (Hin max_fully_allocated_level). exfalso.
    assert (Hi : In max_fully_allocated_level
                   (seq min_level (max_fully_allocated_level - min_level + 1))).
    { apply in_seq. change max_fully_allocated_level with 15%nat.
      change min_level with 6%nat. lia. }
    apply Hin in Hi. lia.
Qed.

(** The assertion of the bulk constructor orders the keys. *)
Lemma is_sorted_keys (input : list (K * V)) :
  is_sorted input = true -> sorted_input input.
Proof.
  unfold sorted_input.
  induction input as [|p t IH]; intros H; [constructor|].
  cbn [is_sorted] in H. destruct t as [|q t].
  - constructor; constructor.
  - apply andb_true_iff in H as [Hpq Ht].
    constructor; [apply IH; exact Ht|]. constructor.
    unfold pair_ltb in Hpq. apply negb_true_iff in Hpq.
    apply orb_false_iff in Hpq as [Hlt _]. apply Z.ltb_ge in Hlt. exact Hlt.
Qed.

(** The bulk constructor past its assertion and its [reserve]
    statements. *)
Lemma build_unfold (p : K * V) (rest : list (K * V)) (st : DynamicPGMIndex) :
  build (p :: rest) = Some st ->
  is_sorted (p :: rest) = true /\
  (let n := length (p :: rest) in
   let used := (Z.to_nat (Z.log2_up (Z.of_nat n)) + 1)%nat in
   let d := repeat [] (Nat.max used max_fully_allocated_level - min_level + 1) in
   let target := Item_pair p :: copy_first_of_each (Item_pair p) rest in
   d' <- assign_level d (used - 1) target ;;
   Some (mkIndex used d')) = Some st.
Proof.
  unfold build. intros H.
  destruct (is_sorted (p :: rest)); cbn [negb] in H; [|discriminate].
  split; [reflexivity|].
  apply obind_Some in H as (d0 & Hres & H).
  rewrite reserve_all_spec in Hres.
  destruct (_ <? _)%nat in Hres; [|discriminate].
  some_inv Hres. exact H.
Qed.

Lemma build_nil (st : DynamicPGMIndex) : build [] <> Some st.
Proof. unfold build. cbn. discriminate. Qed.

Lemma build_wf (input : list (K * V)) (st : DynamicPGMIndex) :
  sorted_input input -> build input = Some st -> well_formed st.
Proof.
  intros Hin H. apply sorted_input_strongly in Hin.
  assert (Hmin : min_level = 6%nat) by reflexivity.
  assert (Hmax : max_fully_allocated_level = 15%nat) by reflexivity.
  destruct input as [|p rest]; [exfalso; exact (build_nil st H)|].
  apply build_unfold in H as [_ H]. cbv zeta in H.
  set (n := length (p :: rest)) in *.
  set (used := (Z.to_nat (Z.log2_up (Z.of_nat n)) + 1)%nat) in *.
  apply obind_Some in H as (d' & Hd' & H).
  apply assign_level_Some in Hd' as (Hused & Hlt & ->).
  rewrite repeat_length in Hlt.
  match type of H with
  | Some ?s = Some _ => assert (E : s = st) by congruence; clear H; subst st
  end.
  apply StronglySorted_inv in Hin as [Hrest Hp].
  destruct (copy_first_of_each_sorted (Item_pair p) rest Hrest Hp) as [Hs Hf].
  pose proof (copy_first_of_each_length (Item_pair p) rest) as Hlen.
  assert (Hn : Z.of_nat n <= 2 ^ Z.of_nat (used - 1)).
  { unfold used. rewrite Nat.add_sub.
    rewrite Z2Nat.id by apply Z.log2_up_nonneg.
    destruct (Z.eq_dec (Z.of_nat n) 1) as [E|E].
    - rewrite E. simpl. lia.
    - assert (Hn1 : 1 < Z.of_nat n) by (unfold n in *; simpl length in *; lia).
      pose proof (Z.log2_up_spec (Z.of_nat n) Hn1). lia. }
  assert (Hpow : Z.of_nat (2 ^ (used - 1)) = 2 ^ Z.of_nat (used - 1))
    by (rewrite Nat2Z.inj_pow; reflexivity).
  rewrite <- Hpow in Hn. apply Nat2Z.inj_le in Hn. clear Hpow.
  apply well_formed_of_slots; cbn [used_levels data];
    rewrite ?length_set_nth, ?repeat_length; try lia.
  - intros j Hj. rewrite nth_set_nth_neq by lia. apply nth_repeat_nil.
  - destruct (Nat.eq_dec (used - 1 - min_level) 0) as [E|E].
    + rewrite E. rewrite nth_set_nth_eq by (rewrite repeat_length; lia).
      simpl length. unfold n in Hn. simpl length in Hn.
      replace (used - 1)%nat with 6%nat in Hn by lia.
      change (2 ^ (min_level + 1))%nat with 128%nat.
      change (2 ^ 6)%nat with 64%nat in Hn. lia.
    + rewrite nth_set_nth_neq by lia. rewrite nth_repeat_nil. simpl. lia.
  - intros j Hj.
    destruct (Nat.eq_dec (used - 1 - min_level) j) as [E|E].
    + rewrite <- E. rewrite nth_set_nth_eq by (rewrite repeat_length; lia).
      replace (used - 1 - min_level + min_level)%nat with (used - 1)%nat by lia.
      simpl length. unfold n in Hn. simpl length in Hn. lia.
    + rewrite nth_set_nth_neq by lia. rewrite nth_repeat_nil. simpl. lia.
  - intros j.
    destruct (Nat.eq_dec (used - 1 - min_level) j) as [E|E].
    + rewrite <- E. rewrite nth_set_nth_eq by (rewrite repeat_length; lia).
      apply sorted_cons; assumption.
    + rewrite nth_set_nth_neq by lia. rewrite nth_repeat_nil. constructor.
Qed.

Lemma build_well_formed (input : list (K * V)) (st : DynamicPGMIndex) :
  build input = Some st -> well_formed st.
Proof.
  intros H. apply (build_wf input st); [|exact H].
  destruct input as [|p rest]; [exfalso; exact (build_nil st H)|].
  apply is_sorted_keys. apply (build_unfold p rest st H).
Qed.

(** ** States decided to be well-formed *)

Lemma sorted_b_sound (l : LevelType) : sorted_b l = true -> sorted l.
Proof.
  intros H. apply Sorted_StronglySorted.
  { intros x y z. unfold key_lt. lia. }
  induction l as [|x t IH]; [constructor|].
  cbn [sorted_b] in H. destruct t as [|y t].
  - constructor; constructor.
  - apply andb_true_iff in H as [Hxy Ht].
    constructor; [apply IH; exact Ht|]. constructor.
    unfold key_lt. apply Z.ltb_lt. exact Hxy.
Qed.

Lemma nth_skipn_from {A : Type} (k : nat) (d : A) :
  forall (l : list A) (j : nat), nth j (skipn k l) d = nth (k + j) l d.
Proof.
  induction k as [|k IH]; intros [|a l] j; cbn [skipn Nat.add nth];
    try reflexivity.
  - destruct j; reflexivity.
  - apply IH.
Qed.

Lemma well_formed_b_sound (st : DynamicPGMIndex) :
  well_formed_b st = true -> well_formed st.
Proof.
  unfold well_formed_b. intros H.
  repeat (apply andb_true_iff in H as [H ?]).
  repeat match goal with
         | E : (_ <=? _)%nat = true |- _ => apply Nat.leb_le in E
         end.
  rewrite forallb_forall in *.
  apply well_formed_of_slots; try assumption.
  - intros j Hj.
    replace j with (used_levels st - min_level + (j - (used_levels st - min_level)))%nat
      by lia.
    rewrite <- nth_skipn_from.
    set (e := nth (j - (used_levels st - min_level))
                (skipn (used_levels st - min_level) (data st)) []).
    destruct (nth_in_or_default (j - (used_levels st - min_level))
                (skipn (used_levels st - min_level) (data st)) [])
      as [Hin|E]; [|exact E].
    fold e in Hin.
    match goal with
    | Hnil : forall x, In x (skipn _ _) -> _ |- _ =>
        pose proof (Hnil e Hin) as He
    end.
    destruct e; [reflexivity|discriminate].
  - intros j Hj.
    destruct (Nat.lt_ge_cases j (length (data st))) as [Hlt|Hge].
    + apply Nat.leb_le.
      match goal with
      | Hcap : forall x, In x (seq 1 _) -> _ |- _ => apply Hcap
      end.
      apply in_seq. lia.
    + rewrite nth_overflow by assumption. simpl. lia.
  - intros j.
    destruct (nth_in_or_default j (data st) []) as [Hin|E];
      [|rewrite E; constructor].
    apply sorted_b_sound.
    match goal with
    | Hs : forall x, In x (data st) -> _ |- _ => exact (Hs _ Hin)
    end.
Qed.

(** ** Reachable states *)

Lemma empty_index_shaped : shaped empty_index.
Proof. exact (well_formed_shaped _ empty_index_wf). Qed.

(** The default constructor returns no state: [data] has no slot for
    level [max_fully_allocated_level], which its body reserves. *)
Lemma default_constructor_undefined : default_constructor = None.
Proof.
  unfold default_constructor. rewrite reserve_all_spec. reflexivity.
Qed.

(** X30: the default constructor gives [data] the slots of the levels
    [min_level .. init_levels - 1] and then reserves the levels up to
    [max_fully_allocated_level], which is [init_levels]: the last reserve
    indexes [data] one past its end, and the constructor returns no state.
    The reserves of the bulk constructor, which allocates
    [max(used_levels, max_fully_allocated_level) - min_level + 1] slots,
    are all in range. *)
Theorem default_constructor_reserves_past_data :
  default_constructor = None /\
  length (data empty_index) = (max_fully_allocated_level - min_level)%nat /\
  (forall i, (min_level <= i < max_fully_allocated_level)%nat ->
             reserve (data empty_index) i = Some (data empty_index)) /\
  reserve (data empty_index) max_fully_allocated_level = None /\
  (forall used,
     reserve_all
       (repeat [] (Nat.max used max_fully_allocated_level - min_level + 1))
     = Some (repeat [] (Nat.max used max_fully_allocated_level
                        - min_level + 1))).
Proof.
  split; [exact default_constructor_undefined|].
  split; [reflexivity|].
  split; [|split; [reflexivity|]].
  - intros i Hi. unfold reserve.
    destruct (Nat.ltb_spec i min_level) as [Hlt|_]; [lia|].
    destruct (nth_error (data empty_index) (i - min_level)) eqn:E;
      [reflexivity|].
    apply nth_error_None in E.
    change (length (data empty_index)) with 9%nat in E.
    change max_fully_allocated_level with 15%nat in Hi.
    change min_level with 6%nat in *. lia.
  - intros used. rewrite reserve_all_spec, repeat_length.
    destruct (Nat.ltb_spec (max_fully_allocated_level - min_level)
                (Nat.max used max_fully_allocated_level - min_level + 1))
      as [_|Hge]; [reflexivity|].
    change max_fully_allocated_level with 15%nat in *.
    change min_level with 6%nat in *. lia.
Qed.

(** Every reachable state has the right shape. *)
Lemma reachable_shaped (st : DynamicPGMIndex) : reachable st -> shaped st.
Proof.
  induction 1 as [st Hd|
                 |input st Hb|st o st' _ IH Hop].
  - rewrite default_constructor_undefined in Hd. discriminate.
  - apply empty_index_shaped.
  - apply well_formed_shaped. eapply build_well_formed; eassumption.
  - destruct o as [k v|k]; simpl in Hop;
      exact (proj1 (insert_shaped st st' _ IH Hop)).
Qed.

(** C6: capacity accounting.  In every state reached by inserts and
    erases from what a constructor returns, and from the members the
    default constructor sets before its body reserves a level that [data]
    lacks, a level [L > min_level] holds at most [2^L] entries and the
    buffer, level [min_level], at most [2^(min_level+1) - 1]: also where a
    cascade into a level that holds data has handed out slots that were
    never written, which leaves the level unsorted. *)
Theorem capacity_accounting (st : DynamicPGMIndex) :
  reachable st ->
  (length (get_level st min_level) <= 2 ^ (min_level + 1) - 1)%nat /\
  (forall L, (min_level < L)%nat -> (length (get_level st L) <= 2 ^ L)%nat).
Proof.
  intros Hr. exact (sh_capacity (reachable_shaped st Hr)).
Qed.

(** ** Searches restricted to a range *)

Lemma lower_bound_pos_skipn (l : LevelType) (k : K) (lo : nat) :
  (lo <= lower_bound_pos l k)%nat ->
  lower_bound_pos (skipn lo l) k = (lower_bound_pos l k - lo)%nat.
Proof.
  revert lo; induction l as [|a l IH]; intros [|lo] H; simpl in *; try lia.
  destruct (key a <? k); simpl in *; [|lia]. apply IH. lia.
Qed.

Lemma lower_bound_pos_firstn (l : LevelType) (k : K) (m : nat) :
  lower_bound_pos (firstn m l) k = Nat.min m (lower_bound_pos l k).
Proof.
  revert m; induction l as [|a l IH]; intros [|m]; simpl; auto.
  destruct (key a <? k); simpl; [|reflexivity].
  rewrite IH. reflexivity.
Qed.

Lemma lower_bound_in_correct (l : LevelType) (k : K) (lo hi : nat) :
  (lo <= lower_bound_pos l k <= hi)%nat ->
  lower_bound_in l lo hi k = lower_bound_pos l k.
Proof.
  intros H. unfold lower_bound_in, sub_range.
  rewrite lower_bound_pos_firstn, lower_bound_pos_skipn by lia. lia.
Qed.

Lemma upper_bound_pos_skipn (l : LevelType) (k : K) (lo : nat) :
  (lo <= upper_bound_pos l k)%nat ->
  upper_bound_pos (skipn lo l) k = (upper_bound_pos l k - lo)%nat.
Proof.
  revert lo; induction l as [|a l IH]; intros [|lo] H; simpl in *; try lia.
  destruct (k <? key a); simpl in *; [lia|]. apply IH. lia.
Qed.

Lemma upper_bound_pos_firstn (l : LevelType) (k : K) (m : nat) :
  upper_bound_pos (firstn m l) k = Nat.min m (upper_bound_pos l k).
Proof.
  revert m; induction l as [|a l IH]; intros [|m]; simpl; auto.
  destruct (k <? key a); simpl; [reflexivity|].
  rewrite IH. reflexivity.
Qed.

Lemma upper_bound_in_correct (l : LevelType) (k : K) (lo hi : nat) :
  (lo <= upper_bound_pos l k <= hi)%nat ->
  upper_bound_in l lo hi k = upper_bound_pos l k.
Proof.
  intros H. unfold upper_bound_in, sub_range.
  rewrite upper_bound_pos_firstn, upper_bound_pos_skipn by lia. lia.
Qed.

Lemma lower_le_upper_bound_pos (l : LevelType) (k : K) :
  sorted l -> (lower_bound_pos l k <= upper_bound_pos l k)%nat.
Proof.
  induction l as [|a l IH]; simpl; intros Hs; [lia|].
  destruct (Z.ltb_spec (key a) k), (Z.ltb_spec k (key a)); try lia.
  apply sorted_inv in Hs as [Hs _]. specialize (IH Hs). lia.
Qed.

(** ** The entries from the lower bound on *)

(** On a sorted level the entries with a key of at least [k] are those from
    the lower bound on. *)
Lemma skipn_lower_bound_pos (l : LevelType) (k : K) (y : Item) :
  sorted l -> In y l ->
  (k <= key y <-> In y (skipn (lower_bound_pos l k) l)).
Proof.
  induction l as [|a l IH]; simpl; intros Hs Hy; [contradiction|].
  pose proof (sorted_inv Hs) as [Hs' Hf]. rewrite Forall_forall in Hf.
  destruct (Z.ltb_spec (key a) k) as [Hlt|Hge]; simpl.
  - destruct Hy as [<-|Hy].
    + split; [lia|]. intros Hin.
      assert (Hin' : In a l).
      { clear - Hin. revert Hin. generalize (lower_bound_pos l k).
        intros n; revert l; induction n as [|n IHn]; intros [|b l]; simpl; auto. }
      specialize (Hf a Hin'). unfold key_lt in Hf. lia.
    + apply IH; assumption.
  - split; [intros _; assumption|]. intros _.
    destruct Hy as [<-|Hy]; [assumption|].
    specialize (Hf y Hy). unfold key_lt in Hf. lia.
Qed.

Lemma In_skipn (n : nat) (l : LevelType) (x : Item) :
  In x (skipn n l) -> In x l.
Proof.
  revert l; induction n as [|n IH]; intros [|b l]; simpl; auto.
Qed.

(** Stepping over the leading tombstones of a sorted run stops at its first
    entry that is not a tombstone, which has the smallest key among them. *)
Lemma skip_deleted_Some (s : LevelType) (x : Item) :
  sorted s -> nth_error s (skip_deleted s) = Some x ->
  In x s /\ deleted x = false /\
  forall y, In y s -> deleted y = false -> key x <= key y.
Proof.
  induction s as [|a s IH]; simpl; intros Hs Hx; [discriminate|].
  pose proof (sorted_inv Hs) as [Hs' Hf]. rewrite Forall_forall in Hf.
  destruct (deleted a) eqn:Ed; simpl in Hx.
  - destruct (IH Hs' Hx) as (Hin & Hd & Hmin).
    split; [auto|]. split; [assumption|].
    intros y [<-|Hy] Hdy; [congruence|auto].
  - injection Hx as <-. split; [auto|]. split; [assumption|].
    intros y [<-|Hy] _; [lia|]. specialize (Hf y Hy). unfold key_lt in Hf. lia.
Qed.

Lemma skip_deleted_None (s : LevelType) (y : Item) :
  nth_error s (skip_deleted s) = None -> In y s -> deleted y = true.
Proof.
  induction s as [|a s IH]; simpl; intros Hx Hy; [contradiction|].
  destruct (deleted a) eqn:Ed; simpl in Hx; [|discriminate].
  destruct Hy as [<-|Hy]; auto.
Qed.

(** What [lower_bound] looks at in one level. *)
Lemma level_candidate_Some (level : LevelType) (k : K) (x : Item) :
  sorted level ->
  nth_error level
    (lower_bound_pos level k + skip_deleted (skipn (lower_bound_pos level k) level))
    = Some x ->
  level_lower_bound level k x.
Proof.
  intros Hs Hx. rewrite <- nth_error_skipn in Hx.
  apply skip_deleted_Some in Hx as (Hin & Hd & Hmin);
    [|apply sorted_skipn; assumption].
  pose proof (In_skipn _ _ _ Hin) as Hin'.
  split; [assumption|]. split; [assumption|].
  split; [apply (skipn_lower_bound_pos level k x Hs Hin'); assumption|].
  intros y Hy Hdy Hky. apply Hmin; [|assumption].
  apply (skipn_lower_bound_pos level k y Hs Hy). assumption.
Qed.

Lemma level_candidate_None (level : LevelType) (k : K) (y : Item) :
  sorted level ->
  nth_error level
    (lower_bound_pos level k + skip_deleted (skipn (lower_bound_pos level k) level))
    = None ->
  ~ level_lower_bound level k y.
Proof.
  intros Hs Hx (Hin & Hd & Hk & _). rewrite <- nth_error_skipn in Hx.
  apply (skipn_lower_bound_pos level k y Hs Hin) in Hk.
  pose proof (skip_deleted_None _ y Hx Hk). congruence.
Qed.

(** ** Where [insert] puts the new entry *)

Lemma written_in_buffer (st : DynamicPGMIndex) (x : Item) :
  (min_level < used_levels st)%nat ->
  sorted (get_level st min_level) ->
  In x (get_level st min_level) ->
  written_at st x min_level.
Proof.
  intros Hu Hs Hin. split; [lia|]. split; [intros i Hi; lia|].
  split; [|left; assumption].
  intros y Hy Hk. eapply sorted_key_inj; eassumption.
Qed.

(** A cascade that hands out written slots only: what the target is
    given. *)
Lemma cascade_output_written (st : DynamicPGMIndex) (x : Item) :
  well_formed st ->
  (forall y, nth_error (get_level st min_level)
               (lower_bound_pos (get_level st min_level) (key x)) = Some y ->
             key y <> key x) ->
  length (get_level st min_level) = (2 ^ (min_level + 1) - 1)%nat ->
  hands_out_written st x ->
  cascade_output st x
  = firstn (length (merge (Nat.eqb (cascade_target st) (used_levels st - 1))
                      (cascade_run st x) (get_level st (cascade_target st))))
      (cascade_run st x) /\
  sorted (cascade_run st x) /\
  In x (cascade_run st x) /\
  (get_level st (cascade_target st) <> [] /\
   cascade_target st = (used_levels st - 1)%nat \/
   cascade_output st x = cascade_run st x).
Proof.
  intros Hwf Hnew Hfull Hw.
  pose proof (wf_sorted Hwf) as Hs.
  pose proof (hands_out_written_cascade st x (Hs min_level) Hnew Hfull Hw)
    as Hwritten.
  assert (Hout : cascade_output st x
                 = firstn (length (merge (Nat.eqb (cascade_target st)
                                            (used_levels st - 1))
                                     (cascade_run st x)
                                     (get_level st (cascade_target st))))
                     (cascade_run st x)).
  { unfold cascade_output. apply installed_written. exact Hwritten. }
  split; [exact Hout|].
  split.
  { unfold cascade_run. apply running_sequence_sorted.
    - intros j. replace j with (j + min_level - min_level)%nat by lia.
      apply (Hs (j + min_level)%nat).
    - apply insert_at_lower_bound_sorted; [apply Hs|exact Hnew]. }
  split.
  { unfold cascade_run. apply running_sequence_keeps.
    apply in_or_app. right. left. reflexivity. }
  destruct (get_level st (cascade_target st)) as [|t0 tl0] eqn:Etl.
  { right. rewrite Hout, merge_nil_r. apply firstn_all. }
  destruct (Nat.eqb_spec (cascade_target st) (used_levels st - 1)) as [E|E].
  - left. split; [discriminate|exact E].
  - right. rewrite Hout.
    pose proof (merge_false_length_ge (cascade_run st x) (t0 :: tl0)).
    destruct Hwritten as [Hw'|Hw']; [discriminate|].
    replace (length (merge false (cascade_run st x) (t0 :: tl0)))
      with (length (cascade_run st x)) by lia.
    apply firstn_all.
Qed.

Lemma insert_written_at (st st' : DynamicPGMIndex) (new_item : Item) :
  well_formed st -> hands_out_written st new_item ->
  insert st new_item = Some st' ->
  exists T, written_at st' new_item T.
Proof.
  intros Hwf Hw H.
  pose proof (insert_wf st st' new_item Hwf Hw H) as Hwf'.
  destruct (well_formed_slots st Hwf) as (Hu & Hl & Ha & He & _).
  destruct (insert_shape_cases st st' new_item (well_formed_shaped st Hwf) H)
    as [(old & Hold & Hk & E)
       |[(Hnew & Hroom & E)
        |(Hnew & Hfull & HT & Hused & _ & Hlow & _ & Ht & _)]].
  - exists min_level. apply written_in_buffer.
    + subst st'. cbn [used_levels].
      destruct (Nat.le_gt_cases (used_levels st) min_level) as [Hle|]; [|lia].
      specialize (He 0%nat ltac:(lia)).
      unfold get_level in Hold. rewrite Nat.sub_diag, He in Hold.
      destruct (lower_bound_pos [] (key new_item)); discriminate.
    + apply (wf_sorted Hwf').
    + subst st'. unfold get_level at 1. cbn [data].
      rewrite Nat.sub_diag, nth_set_nth_eq by lia.
      eapply nth_error_In. apply nth_error_set_nth_eq.
      apply nth_error_Some. rewrite Hold. discriminate.
  - exists min_level. apply written_in_buffer.
    + subst st'. cbn [used_levels].
      destruct (Nat.eqb_spec (used_levels st) min_level); lia.
    + apply (wf_sorted Hwf').
    + subst st'. unfold get_level at 1. cbn [data].
      rewrite Nat.sub_diag, nth_set_nth_eq by lia.
      apply in_or_app. right. left. reflexivity.
  - destruct (cascade_output_written st new_item Hwf Hnew Hfull Hw)
      as (Hout & HsR & HinR & Hlast).
    exists (cascade_target st).
    split; [lia|]. split; [exact Hlow|].
    split.
    { intros y Hy Hky. rewrite Ht, Hout in Hy. apply In_firstn in Hy.
      exact (sorted_key_inj _ y new_item HsR Hy HinR Hky). }
    destruct Hlast as [[Hocc E]|E].
    + right.
      assert (cascade_target st < used_levels st)%nat; [|lia].
      destruct (Nat.lt_ge_cases (cascade_target st) (used_levels st));
        [assumption|].
      exfalso. apply Hocc. apply (wf_unused Hwf). assumption.
    + left. rewrite Ht, E. exact HinR.
Qed.

(** ** Lookups in runs *)

Lemma level_entry_In (l : LevelType) (k : K) (y : Item) :
  level_entry l k = Some y -> In y l /\ key y = k.
Proof.
  unfold level_entry. intros H. apply find_some in H as [Hin Hk].
  split; [assumption|]. apply Z.eqb_eq. assumption.
Qed.

Lemma level_entry_None (l : LevelType) (k : K) :
  level_entry l k = None <-> ~ has_key l k.
Proof.
  unfold level_entry. split.
  - intros H (y & Hy & Hk). pose proof (find_none _ _ H y Hy) as Hf.
    simpl in Hf. apply Z.eqb_neq in Hf. contradiction.
  - intros H. destruct (List.find _ l) as [y|] eqn:E; [|reflexivity].
    apply find_some in E as [Hin Hk]. apply Z.eqb_eq in Hk.
    exfalso. apply H. exists y. auto.
Qed.

Lemma level_entry_sorted (l : LevelType) (y : Item) :
  sorted l -> In y l -> level_entry l (key y) = Some y.
Proof.
  intros Hs Hy. destruct (level_entry l (key y)) as [z|] eqn:E.
  - apply level_entry_In in E as [Hz Hk]. f_equal.
    apply (sorted_key_inj l z y Hs Hz Hy Hk).
  - apply level_entry_None in E. exfalso. apply E. exists y. auto.
Qed.

Lemma level_entry_app (a b : LevelType) (k : K) :
  level_entry (a ++ b) k =
  match level_entry a k with
  | Some y => Some y
  | None => level_entry b k
  end.
Proof.
  unfold level_entry. induction a as [|x a IH]; simpl; [reflexivity|].
  destruct (key x =? k); [reflexivity|assumption].
Qed.

Lemma first_entry_app (r1 r2 : list LevelType) (k : K) :
  first_entry (r1 ++ r2) k =
  match first_entry r1 k with
  | Some y => Some y
  | None => first_entry r2 k
  end.
Proof.
  induction r1 as [|r r1 IH]; simpl; [reflexivity|].
  destruct (level_entry r k); [reflexivity|assumption].
Qed.

(** Inserting an entry into a run changes the lookup of its own key only. *)
Lemma level_entry_insert_other (l : LevelType) (p : nat) (x : Item) (k : K) :
  key x <> k ->
  level_entry (firstn p l ++ x :: skipn p l) k = level_entry l k.
Proof.
  intros Hk. rewrite <- (firstn_skipn p l) at 3.
  rewrite !level_entry_app. unfold level_entry at 2. simpl.
  rewrite (proj2 (Z.eqb_neq _ _) Hk). reflexivity.
Qed.

Lemma level_entry_set_nth_other (l : LevelType) (p : nat) (x : Item) (k : K) :
  (forall old, nth_error l p = Some old -> key old <> k) -> key x <> k ->
  level_entry (set_nth p x l) k = level_entry l k.
Proof.
  unfold level_entry.
  revert p; induction l as [|a l IH]; intros [|p] Hold Hk; unfold set_nth;
    fold (@set_nth Item); simpl; try reflexivity.
  - specialize (Hold a eq_refl).
    rewrite (proj2 (Z.eqb_neq _ _) Hk), (proj2 (Z.eqb_neq _ _) Hold).
    reflexivity.
  - destruct (key a =? k); [reflexivity|]. apply IH; assumption.
Qed.

(** ** Lookups in a merge without [SkipDeleted] *)

Lemma merge_false_In_l2 (l1 l2 : list Item) (x : Item) :
  sorted l1 -> sorted l2 ->
  In x l2 -> ~ has_key l1 (key x) -> In x (merge false l1 l2).
Proof.
  revert l2; induction l1 as [|x1 t1 IH1]; intros l2 H1 H2 Hx Hno.
  { rewrite merge_nil_l. assumption. }
  induction l2 as [|x2 t2 IH2]; [contradiction|].
  pose proof (sorted_inv H1) as [H1t _].
  pose proof (sorted_inv H2) as [H2t _].
  rewrite has_key_cons in Hno.
  merge_step x1 x2.
  - destruct Hx as [->|Hx]; [left; reflexivity|].
    right. apply IH2; assumption.
  - right. apply IH1; try assumption. tauto.
  - simpl andb. cbv iota.
    destruct Hx as [->|Hx]; [exfalso; apply Hno; left; lia|].
    right. apply IH1; try assumption. tauto.
Qed.

(** For every key the entry of the running sequence wins over the entry of
    the level. *)
Lemma level_entry_merge_false (l1 l2 : list Item) (k : K) :
  sorted l1 -> sorted l2 ->
  level_entry (merge false l1 l2) k =
  match level_entry l1 k with
  | Some y => Some y
  | None => level_entry l2 k
  end.
Proof.
  intros H1 H2.
  pose proof (merge_sorted false l1 l2 H1 H2) as Hm.
  destruct (level_entry l1 k) as [y|] eqn:E1.
  - apply level_entry_In in E1 as [Hy <-].
    apply level_entry_sorted; [assumption|].
    apply merge_false_In_l1. assumption.
  - apply level_entry_None in E1.
    destruct (level_entry l2 k) as [y|] eqn:E2.
    + apply level_entry_In in E2 as [Hy <-].
      apply level_entry_sorted; [assumption|].
      apply merge_false_In_l2; assumption.
    + apply level_entry_None in E2. apply level_entry_None.
      intros (y & Hy & Hk). apply merge_In in Hy as [Hy|Hy].
      * apply E1. exists y. auto.
      * apply E2. exists y. auto.
Qed.

(** ** What a cascade into an empty level installs *)

(** The running sequence is sorted and answers a lookup like the run it
    started from, then like the absorbed levels in their order. *)
Lemma running_sequence_entry (d : list LevelType) (levels : list nat) :
  (forall j, sorted (nth j d [])) ->
  forall r, sorted r ->
            sorted (running_sequence d r levels) /\
            forall k, level_entry (running_sequence d r levels) k
                      = first_entry
                          (r :: map (fun i => nth (i - min_level) d []) levels) k.
Proof.
  intros Hd. unfold running_sequence.
  induction levels as [|i levels IH]; intros r Hr.
  - split; [exact Hr|]. intros k. cbn [fold_left map first_entry].
    destruct (level_entry r k); reflexivity.
  - cbn [fold_left map].
    destruct (IH (merge false r (nth (i - min_level) d []))) as [Hs Hk].
    { apply merge_sorted; [exact Hr|apply Hd]. }
    split; [exact Hs|]. intros k. rewrite Hk. cbn [first_entry].
    rewrite level_entry_merge_false by (try exact Hr; apply Hd).
    destruct (level_entry r k); [reflexivity|].
    destruct (level_entry (nth (i - min_level) d []) k); reflexivity.
Qed.

(** A cascade into an empty level installs a sorted run in which the
    buffer with the new entry wins over level [1 + min_level], which wins
    over the next level, and so on up to [up_to_level]. *)
Lemma cascade_content (st st' : DynamicPGMIndex) (new_item : Item)
  (up_to_level size_hint : nat) (level0 : LevelType) :
  (forall j, sorted (nth j (data st) [])) ->
  nth_error (data st) 0 = Some level0 ->
  length level0 = (2 ^ (min_level + 1) - 1)%nat ->
  (forall x, nth_error level0 (lower_bound_pos level0 (key new_item)) = Some x ->
             key x <> key new_item) ->
  (min_level <= up_to_level)%nat ->
  (up_to_level + 1 < used_levels st)%nat ->
  nth (up_to_level + 1 - min_level) (data st) [] = [] ->
  pairwise_logarithmic_merge st new_item up_to_level size_hint
    (lower_bound_pos level0 (key new_item)) = Some st' ->
  forall k,
    level_entry (nth (up_to_level + 1 - min_level) (data st') []) k
    = first_entry
        ((firstn (lower_bound_pos level0 (key new_item)) level0
          ++ new_item :: skipn (lower_bound_pos level0 (key new_item)) level0)
         :: map (fun i => nth (i - min_level) (data st) [])
              (seq (1 + min_level) (up_to_level - min_level))) k.
Proof.
  intros Hsorted H0 Hlen0 Hnew Hup Hused Hempty H k.
  destruct (cascade_result st st' new_item up_to_level size_hint _ level0
              H0 Hlen0 Hup Hused H) as (_ & _ & _ & _ & _ & Ht).
  rewrite Ht, Hempty. cbn [installed].
  apply running_sequence_entry; [exact Hsorted|].
  apply insert_at_lower_bound_sorted; [|exact Hnew].
  rewrite <- (nth_error_nth _ _ [] H0). apply Hsorted.
Qed.

(** ** What an insert changes for lookups *)

Lemma first_entry_firstn_nils (d : list LevelType) (k : K) :
  forall n, (forall j, (j < n)%nat -> nth j d [] = []) ->
            first_entry (firstn n d) k = None.
Proof.
  induction d as [|a d IH]; intros [|n] H; try reflexivity.
  pose proof (H 0%nat ltac:(lia)) as Ha. simpl in Ha. subst a. simpl.
  apply IH. intros j Hj. apply (H (S j)). lia.
Qed.

Lemma first_entry_skipn_nils (d : list LevelType) (k : K) :
  forall n, (forall j, (n <= j)%nat -> nth j d [] = []) ->
            first_entry (skipn n d) k = None.
Proof.
  induction d as [|a d IH]; intros [|n] H; try reflexivity.
  - pose proof (H 0%nat ltac:(lia)) as Ha. simpl in Ha. subst a. simpl.
    apply (IH 0%nat). intros j Hj. apply (H (S j)). lia.
  - simpl. apply IH. intros j Hj. apply (H (S j)). lia.
Qed.

Lemma first_entry_split (d : list LevelType) (n : nat) (k : K) :
  first_entry d k =
  match first_entry (firstn n d) k with
  | Some y => Some y
  | None =>
      match level_entry (nth n d []) k with
      | Some y => Some y
      | None => first_entry (skipn (S n) d) k
      end
  end.
Proof.
  rewrite <- (firstn_skipn n d) at 1. rewrite first_entry_app.
  destruct (first_entry (firstn n d) k); [reflexivity|].
  revert n. induction d as [|a d IH]; intros [|n]; try reflexivity.
  apply (IH n).
Qed.

Lemma skipn_ext (n : nat) :
  forall d d' : list LevelType,
    length d = length d' ->
    (forall j, (n <= j)%nat -> nth j d [] = nth j d' []) ->
    skipn n d = skipn n d'.
Proof.
  induction n as [|n IH]; intros d d' Hlen H.
  - simpl. apply (nth_ext d d' [] [] Hlen). intros j _. apply H. lia.
  - destruct d as [|a d], d' as [|a' d']; try discriminate; [reflexivity|].
    simpl. apply IH; [simpl in Hlen; lia|].
    intros j Hj. apply (H (S j)). lia.
Qed.

Lemma firstn_map_nth (d : list LevelType) :
  forall n a, (n <= length d)%nat ->
              firstn n d = map (fun i => nth (i - a) d []) (seq a n).
Proof.
  induction d as [|x d IH]; intros [|n] a Hn; try reflexivity;
    simpl in Hn; [lia|].
  cbn [firstn seq map]. rewrite Nat.sub_diag. cbn [nth]. f_equal.
  rewrite (IH n (S a)) by lia.
  apply map_ext_in. intros i Hi. apply in_seq in Hi.
  replace (i - a)%nat with (S (i - S a)) by lia. reflexivity.
Qed.

(** The levels below [used_levels], shallowest first, answer like the whole
    vector of levels. *)
Lemma shallowest_all (st : DynamicPGMIndex) (k : K) :
  levels_allocated st -> unused_levels_empty st ->
  shallowest_entry st k (seq min_level (used_levels st - min_level))
  = first_entry (data st) k.
Proof.
  intros (Hu & Hl & Ha) He. unfold shallowest_entry.
  transitivity (first_entry (firstn (used_levels st - min_level) (data st)) k).
  { f_equal. symmetry.
    apply (firstn_map_nth (data st) (used_levels st - min_level) min_level Ha). }
  rewrite (first_entry_split (data st) (used_levels st - min_level) k).
  assert (Hhigh : forall j, (used_levels st - min_level <= j)%nat ->
                            nth j (data st) [] = []).
  { intros j Hj. specialize (He (j + min_level)%nat ltac:(lia)).
    unfold get_level in He.
    replace (j + min_level - min_level)%nat with j in He by lia. assumption. }
  rewrite (Hhigh (used_levels st - min_level)%nat) by lia.
  rewrite first_entry_skipn_nils by (intros j Hj; apply Hhigh; lia).
  destruct (first_entry _ k); reflexivity.
Qed.

(** An insert that does not cascade into a level holding data changes what
    the levels answer for the key of the new entry, and for no other key. *)
Lemma insert_first_entry (st st' : DynamicPGMIndex) (x : Item) :
  well_formed st -> lands_in_empty_level st x -> insert st x = Some st' ->
  forall k, first_entry (data st') k
            = if key x =? k then Some x else first_entry (data st) k.
Proof.
  intros Hwf Hland H k.
  assert (Hmin : min_level = 6%nat) by reflexivity.
  destruct (well_formed_slots st Hwf) as (Hu & Hl & Ha & He & Hc0 & Hc & Hs).
  unfold insert in H.
  apply obind_Some in H as (level0 & H0 & H).
  assert (Hlevel0 : nth 0 (data st) [] = level0)
    by (apply nth_error_nth; assumption).
  assert (Hs0 : sorted level0) by (rewrite <- Hlevel0; apply Hs).
  (* a write to the buffer alone *)
  assert (Hbuffer : forall level0',
            sorted level0' -> In x level0' ->
            (forall k', key x <> k' ->
                        level_entry level0' k' = level_entry level0 k') ->
            first_entry (set_nth 0 level0' (data st)) k
            = if key x =? k then Some x else first_entry (data st) k).
  { intros level0' Hs' Hin Hother.
    rewrite (first_entry_split (set_nth 0 level0' (data st)) 0 k),
            (first_entry_split (data st) 0 k).
    cbn [firstn first_entry].
    rewrite nth_set_nth_eq by lia. rewrite Hlevel0.
    rewrite (skipn_ext 1 (set_nth 0 level0' (data st)) (data st))
      by (try apply length_set_nth; intros j Hj; apply nth_set_nth_neq; lia).
    destruct (Z.eqb_spec (key x) k) as [<-|Hne].
    - rewrite (level_entry_sorted level0' x Hs' Hin). reflexivity.
    - rewrite (Hother k Hne). reflexivity. }
  (* the key is not in the buffer *)
  assert (Hnew_case :
            (forall y, nth_error level0 (lower_bound_pos level0 (key x)) = Some y ->
                       key y <> key x) ->
            insert_new st x level0 (lower_bound_pos level0 (key x)) = Some st' ->
            first_entry (data st') k
            = if key x =? k then Some x else first_entry (data st) k).
  { intros Hnew Hins.
    pose proof (insert_at_lower_bound_sorted level0 x Hs0 Hnew) as Hseeded.
    set (ip := lower_bound_pos level0 (key x)) in *.
    set (seeded := firstn ip level0 ++ x :: skipn ip level0) in *.
    assert (Hseeded_in : In x seeded)
      by (apply in_or_app; right; left; reflexivity).
    assert (Hseeded_entry :
              level_entry seeded k
              = if key x =? k then Some x else level_entry level0 k).
    { destruct (Z.eqb_spec (key x) k) as [<-|Hne].
      - apply level_entry_sorted; assumption.
      - apply level_entry_insert_other. assumption. }
    unfold insert_new in Hins.
    unfold lands_in_empty_level, cascade_target in Hland.
    change (2 ^ (min_level + 1))%nat with 128%nat in *.
    destruct (Nat.ltb_spec (length level0) (128 - 1)) as [Hroom|Hfull].
    - some_inv Hins. cbn [data]. apply Hbuffer; [assumption|assumption|].
      intros k' Hk'. apply level_entry_insert_other. assumption.
    - rewrite Hlevel0 in Hc0.
      assert (Hlen0 : length level0 = (128 - 1)%nat) by lia.
      assert (Hused : (1 + min_level <= used_levels st)%nat).
      { destruct (Nat.le_gt_cases (1 + min_level) (used_levels st));
          [assumption|].
        specialize (He 0%nat ltac:(lia)). rewrite Hlevel0 in He.
        rewrite He in Hlen0. simpl in Hlen0. lia. }
      destruct (find_free_level st (used_levels st - (min_level + 1))
                  (min_level + 1) (128 - 1 + 1)) as [i req] eqn:Hfind.
      apply find_free_level_spec in Hfind as (Hi & _ & _); [|lia|reflexivity].
      cbn [fst] in Hland.
      assert (Hempty_target : nth (i - min_level) (data st) [] = []).
      { destruct Hland as [(y & Hin & Hky)|[Hlt|Hempty]].
        - exfalso. unfold get_level in Hin. rewrite Nat.sub_diag, Hlevel0 in Hin.
          apply (Hnew y); [|assumption]. unfold ip. rewrite <- Hky.
          apply lower_bound_pos_found; assumption.
        - unfold get_level in Hlt. rewrite Nat.sub_diag, Hlevel0 in Hlt. lia.
        - exact Hempty. }
      assert (Hcascade : forall st1,
                (forall j, sorted (nth j (data st1) [])) ->
                nth_error (data st1) 0 = Some level0 ->
                (i < used_levels st1)%nat ->
                nth (i - min_level) (data st1) [] = [] ->
                (i - min_level < length (data st1))%nat ->
                pairwise_logarithmic_merge st1 x (i - 1) req ip = Some st' ->
                first_entry (data st') k
                = if key x =? k then Some x else first_entry (data st1) k).
      { intros st1 Hs1 H01 Hi1 He1 Hlen1 Hmerge.
        replace (i - min_level)%nat with (i - 1 + 1 - min_level)%nat in He1 by lia.
        pose proof (cascade_shape st1 st' x (i - 1) req ip level0 H01 Hlen0
                      ltac:(lia) ltac:(lia) Hmerge)
          as (_ & Hlen' & Hlow & Hhigh & _).
        pose proof (cascade_content st1 st' x (i - 1) req level0 Hs1 H01 Hlen0
                      Hnew ltac:(lia) ltac:(lia) He1 Hmerge k) as Hcont.
        fold ip in Hcont. fold seeded in Hcont.
        replace (i - 1 + 1 - min_level)%nat with (i - min_level)%nat in * by lia.
        rewrite (first_entry_split (data st') (i - min_level) k),
                (first_entry_split (data st1) (i - min_level) k).
        rewrite (first_entry_firstn_nils (data st') k (i - min_level) Hlow).
        rewrite Hcont, He1.
        change (level_entry [] k) with (@None Item).
        rewrite (skipn_ext (S (i - min_level)) (data st') (data st1) Hlen')
          by (intros j Hj; apply Hhigh; lia).
        rewrite (firstn_map_nth (data st1) (i - min_level) min_level) by lia.
        assert (Eseq : seq min_level (i - min_level)
                       = min_level :: seq (1 + min_level) (i - 1 - min_level)).
        { replace (i - min_level)%nat with (S (i - 1 - min_level)) by lia.
          reflexivity. }
        rewrite Eseq. cbn [map first_entry]. rewrite Nat.sub_diag.
        replace (nth 0 (data st1) []) with level0
          by (symmetry; apply nth_error_nth; exact H01).
        rewrite Hseeded_entry.
        destruct (Z.eqb_spec (key x) k); [reflexivity|].
        destruct (level_entry level0 k); reflexivity. }
      destruct (Nat.eqb_spec i (used_levels st)) as [Hnewlevel|Hfound].
      + rewrite (Hcascade (mkIndex (S (used_levels st)) (data st ++ [[]]))
                   ltac:(cbn [data]; intros j; rewrite nth_app_nil; apply Hs)
                   ltac:(cbn [data]; rewrite nth_error_app1 by lia; exact H0)
                   ltac:(cbn [used_levels]; lia)
                   ltac:(cbn [data]; rewrite nth_app_nil; exact Hempty_target)
                   ltac:(cbn [data]; rewrite length_app; simpl; lia)
                   Hins).
        cbn [data]. rewrite first_entry_app. simpl.
        destruct (first_entry (data st) k); reflexivity.
      + apply (Hcascade st Hs H0 ltac:(lia) Hempty_target ltac:(lia) Hins). }
  destruct (nth_error level0 (lower_bound_pos level0 (key x))) as [y|] eqn:Hy.
  - destruct (Z.eqb_spec (key y) (key x)) as [Hk|Hk].
    + some_inv H. cbn [data]. apply Hbuffer.
      * eapply set_nth_sorted; eassumption.
      * eapply nth_error_In. apply nth_error_set_nth_eq.
        apply nth_error_Some. rewrite Hy. discriminate.
      * intros k' Hk'. apply level_entry_set_nth_other; [|assumption].
        intros old Hold. rewrite Hy in Hold. injection Hold as <-. congruence.
    + apply Hnew_case; [|assumption]. intros y' Hy'. congruence.
  - apply Hnew_case; [|assumption]. intros y' Hy'. discriminate.
Qed.

(** ** The three paths of [insert] *)

(** [insert] on a well-formed state overwrites an entry of the buffer, or
    adds one to the buffer, or runs a cascade into [cascade_target]. *)
Lemma insert_cases (st st' : DynamicPGMIndex) (x : Item) :
  well_formed st -> insert st x = Some st' ->
  (exists old,
     nth_error (get_level st min_level)
       (lower_bound_pos (get_level st min_level) (key x)) = Some old /\
     key old = key x /\
     st' = mkIndex (used_levels st)
             (set_nth 0
                (set_nth (lower_bound_pos (get_level st min_level) (key x)) x
                   (get_level st min_level))
                (data st)))
  \/
  (~ has_key (get_level st min_level) (key x) /\
   (length (get_level st min_level) < 2 ^ (min_level + 1) - 1)%nat /\
   st' = mkIndex
           (if Nat.eqb (used_levels st) min_level then (min_level + 1)%nat
            else used_levels st)
           (set_nth 0
              (firstn (lower_bound_pos (get_level st min_level) (key x))
                 (get_level st min_level)
               ++ x :: skipn (lower_bound_pos (get_level st min_level) (key x))
                         (get_level st min_level))
              (data st)))
  \/
  (~ has_key (get_level st min_level) (key x) /\
   length (get_level st min_level) = (2 ^ (min_level + 1) - 1)%nat /\
   (min_level < cascade_target st <= used_levels st)%nat /\
   used_levels st' = Nat.max (used_levels st) (cascade_target st + 1) /\
   length (data st')
   = (if Nat.eqb (cascade_target st) (used_levels st)
      then S (length (data st)) else length (data st)) /\
   (forall i, (min_level <= i < cascade_target st)%nat -> get_level st' i = []) /\
   (forall i, (cascade_target st < i)%nat -> get_level st' i = get_level st i) /\
   get_level st' (cascade_target st) = cascade_output st x /\
   (length (get_level st' (cascade_target st))
    <= 2 ^ (1 + min_level)
       + sum_sizes (data st)
           (seq (1 + min_level) (cascade_target st - 1 - min_level))
       + length (get_level st (cascade_target st)))%nat).
Proof.
  intros Hwf H.
  pose proof (wf_sorted Hwf min_level) as Hs0.
  destruct (insert_shape_cases st st' x (well_formed_shaped st Hwf) H)
    as [Hplace
       |[(Hnew & Hroom & E)
        |(Hnew & Hfull & HT & Hused & Hlen & Hlow & Hhigh & Ht & Hsize & _)]].
  - left. exact Hplace.
  - right. left.
    split; [apply absent_at_lower_bound; assumption|]. split; assumption.
  - right. right.
    split; [apply absent_at_lower_bound; assumption|].
    repeat (split; [assumption|]). assumption.
Qed.

(** ** Updates: the properties *)

(** X12: the merge of two sorted runs is sorted, so it has no key twice;
    it is no longer than the two runs together; without [SkipDeleted] it is
    no shorter than the first run, and it answers a lookup like the first
    run where that has the key and like the second run elsewhere. *)
Theorem merge_output_sorted_and_bounded
  (SkipDeleted : bool) (l1 l2 : list Item) :
  sorted l1 -> sorted l2 ->
  sorted (merge SkipDeleted l1 l2) /\
  (length (merge SkipDeleted l1 l2) <= length l1 + length l2)%nat /\
  (length l1 <= length (merge false l1 l2))%nat /\
  forall k, level_entry (merge false l1 l2) k
            = match level_entry l1 k with
              | Some y => Some y
              | None => level_entry l2 k
              end.
Proof.
  intros H1 H2.
  split; [apply merge_sorted; assumption|].
  split; [apply merge_length_le|].
  split; [apply merge_false_length_ge|].
  intros k. apply level_entry_merge_false; assumption.
Qed.

(** X13: no operation lowers [used_levels] or shrinks [data]; an insert or
    erase raises [used_levels] by at most one and adds at most one level. *)
Theorem used_levels_never_lowered (ops : list Op) :
  forall st st' : DynamicPGMIndex,
    well_formed st -> apply_ops st ops = Some st' ->
    (used_levels st <= used_levels st' <= used_levels st + length ops)%nat /\
    (length (data st) <= length (data st') <= length (data st) + length ops)%nat.
Proof.
  intros st st' Hwf H.
  exact (proj2 (apply_ops_shaped ops st st' (well_formed_shaped st Hwf) H)).
Qed.

(** X14: an insert of a key that the buffer does not hold, into a buffer
    with a free slot, changes the buffer only: no deeper level is touched,
    the buffer gains exactly the new entry and stays sorted, and
    [used_levels] becomes [min_level + 1] if it was [min_level]. *)
Theorem insert_into_buffer_with_room (st st' : DynamicPGMIndex) (x : Item) :
  well_formed st ->
  ~ has_key (get_level st min_level) (key x) ->
  (length (get_level st min_level) < 2 ^ (min_level + 1) - 1)%nat ->
  insert st x = Some st' ->
  used_levels st' = Nat.max (used_levels st) (min_level + 1) /\
  length (data st') = length (data st) /\
  (forall i, (min_level < i)%nat -> get_level st' i = get_level st i) /\
  sorted (get_level st' min_level) /\
  length (get_level st' min_level) = S (length (get_level st min_level)) /\
  forall k, level_entry (get_level st' min_level) k
            = if key x =? k then Some x
              else level_entry (get_level st min_level) k.
Proof.
  intros Hwf Hno Hroom H.
  pose proof (insert_wf_lands st st' x Hwf (or_intror (or_introl Hroom)) H)
    as Hwf'.
  pose proof (wf_sorted Hwf' min_level) as Hs'.
  destruct (well_formed_slots st Hwf) as (Hu & Hl & _).
  destruct (insert_cases st st' x Hwf H)
    as [(old & Hold & Hk & _)
       |[(_ & _ & E)
        |(_ & Hfull & _)]].
  - exfalso. apply Hno. exists old. split; [|assumption].
    eapply nth_error_In. eassumption.
  - subst st'. cbn [used_levels data] in *.
    unfold get_level in *. cbn [data] in *.
    rewrite Nat.sub_diag in *. rewrite nth_set_nth_eq in * by lia.
    split; [destruct (Nat.eqb_spec (used_levels st) min_level); lia|].
    split; [apply length_set_nth|].
    split; [intros i Hi; apply nth_set_nth_neq; lia|].
    split; [exact Hs'|].
    split; [apply length_insert_at|].
    intros k. destruct (Z.eqb_spec (key x) k) as [<-|Hne].
    + apply level_entry_sorted; [exact Hs'|].
      apply in_or_app. right. left. reflexivity.
    + apply level_entry_insert_other. assumption.
  - lia.
Qed.

(** X15: an insert of a key that the buffer does not hold, into a full
    buffer, runs a cascade into [cascade_target]: every level above the
    target, the buffer included, is left empty; every level below the
    target is left as it was; the target is handed [cascade_output], which
    holds no more than the buffer, the new entry, the levels above it and
    the target's old content together, and no more than the target's
    capacity; the target is sorted if no slot that was never written is
    handed out; [used_levels] grows by one exactly when the target is a new
    level. *)
Theorem insert_into_full_buffer_cascades (st st' : DynamicPGMIndex) (x : Item) :
  well_formed st ->
  ~ has_key (get_level st min_level) (key x) ->
  length (get_level st min_level) = (2 ^ (min_level + 1) - 1)%nat ->
  insert st x = Some st' ->
  (min_level < cascade_target st <= used_levels st)%nat /\
  used_levels st' = Nat.max (used_levels st) (cascade_target st + 1) /\
  (forall i, (min_level <= i < cascade_target st)%nat -> get_level st' i = []) /\
  (forall i, (cascade_target st < i)%nat -> get_level st' i = get_level st i) /\
  get_level st' (cascade_target st) = cascade_output st x /\
  (hands_out_written st x -> sorted (get_level st' (cascade_target st))) /\
  (length (get_level st' (cascade_target st))
   <= 2 ^ (1 + min_level)
      + sum_sizes (data st)
          (seq (1 + min_level) (cascade_target st - 1 - min_level))
      + length (get_level st (cascade_target st)))%nat /\
  (length (get_level st' (cascade_target st)) <= 2 ^ cascade_target st)%nat.
Proof.
  intros Hwf Hno Hfull H.
  destruct (insert_shape_cases st st' x (well_formed_shaped st Hwf) H)
    as [(old & Hold & Hk & _)
       |[(_ & Hroom & _)
        |(_ & _ & HT & Hused & _ & Hlow & Hhigh & Ht & Hsize & Hcap)]].
  - exfalso. apply Hno. exists old. split; [|assumption].
    eapply nth_error_In. eassumption.
  - lia.
  - split; [exact HT|]. split; [exact Hused|]. split; [exact Hlow|].
    split; [exact Hhigh|]. split; [exact Ht|].
    split; [|split; [exact Hsize|exact Hcap]].
    intros Hw. apply (insert_sorted st st' x Hwf Hw H).
Qed.

Lemma find_free_level_first_fit (st : DynamicPGMIndex) (fuel : nat) :
  forall (i r i' r' : nat),
    find_free_level st fuel i r = (i', r') ->
    forall j, (i <= j < i')%nat ->
      size_sub (2 ^ Z.of_nat j) (Z.of_nat (length (get_level st j)))
      < Z.of_nat (r + sum_sizes (data st) (seq i (j - i))).
Proof.
  induction fuel as [|fuel IH]; intros i r i' r' H j Hj; simpl in H.
  - injection H as <- <-. lia.
  - destruct (Nat.ltb i (used_levels st)); [|injection H as <- <-; lia].
    destruct (Z.leb_spec (Z.of_nat r)
                (size_sub (2 ^ Z.of_nat i) (Z.of_nat (length (get_level st i)))))
      as [Hfit|Hfull]; [injection H as <- <-; lia|].
    destruct (Nat.eq_dec j i) as [->|Hne].
    + rewrite Nat.sub_diag. simpl. rewrite Nat.add_0_r. exact Hfull.
    + specialize (IH _ _ _ _ H j ltac:(lia)).
      replace (j - i)%nat with (S (j - S i)) by lia.
      simpl. unfold get_level in IH.
      replace (r + (length (nth (i - min_level) (data st) [])
                    + sum_sizes (data st) (seq (S i) (j - S i))))%nat
        with (r + length (nth (i - min_level) (data st) [])
              + sum_sizes (data st) (seq (S i) (j - S i)))%nat by lia.
      exact IH.
Qed.

(** X16: the level [insert] picks for a cascade is the first fit.  With
    fewer than 64 levels in use, the free slots of every level between the
    buffer and the target are fewer than the entries that would have to
    move there (the full buffer, the new entry and the levels above), and
    a target below [used_levels] has room for all that moves into it. *)
Theorem cascade_target_is_first_fit (st : DynamicPGMIndex) :
  well_formed st -> (min_level < used_levels st <= 64)%nat ->
  (min_level < cascade_target st <= used_levels st)%nat /\
  (forall j, (min_level < j < cascade_target st)%nat ->
     (2 ^ j - length (get_level st j)
      < 2 ^ (min_level + 1)
        + sum_sizes (data st) (seq (min_level + 1) (j - (min_level + 1))))%nat) /\
  ((cascade_target st < used_levels st)%nat ->
     (2 ^ (min_level + 1)
      + sum_sizes (data st)
          (seq (min_level + 1) (cascade_target st - (min_level + 1)))
      + length (get_level st (cascade_target st))
      <= 2 ^ cascade_target st)%nat).
Proof.
  intros Hwf Hused.
  assert (Hcap : forall j, (min_level < j)%nat ->
                           (length (get_level st j) <= 2 ^ j)%nat)
    by (apply (wf_capacity Hwf)).
  assert (Hpow : forall j : nat, Z.of_nat (2 ^ j) = 2 ^ Z.of_nat j)
    by (intros j; rewrite Nat2Z.inj_pow; reflexivity).
  assert (Hsub : forall j, (min_level < j < 64)%nat ->
            size_sub (2 ^ Z.of_nat j) (Z.of_nat (length (get_level st j)))
            = Z.of_nat (2 ^ j - length (get_level st j))).
  { intros j Hj. specialize (Hcap j ltac:(lia)). unfold size_sub.
    rewrite Nat2Z.inj_sub by assumption. rewrite Hpow.
    apply Nat2Z.inj_le in Hcap. rewrite Hpow in Hcap.
    apply Z.mod_small. split; [lia|].
    assert (2 ^ Z.of_nat j < 2 ^ 64) by (apply Z.pow_lt_mono_r; lia). lia. }
  unfold cascade_target.
  change (2 ^ (min_level + 1) - 1 + 1)%nat with (2 ^ (min_level + 1))%nat.
  destruct (find_free_level st (used_levels st - (min_level + 1))
              (min_level + 1) (2 ^ (min_level + 1))) as [T req] eqn:Hfind.
  cbn [fst].
  pose proof (find_free_level_first_fit st _ _ _ _ _ Hfind) as Hfirst.
  apply find_free_level_spec in Hfind as (HT & Hreq & Hfit); [|lia|reflexivity].
  split; [lia|]. split.
  - intros j Hj. specialize (Hfirst j ltac:(lia)).
    rewrite Hsub in Hfirst by lia. lia.
  - intros HTu. specialize (Hfit HTu).
    rewrite Hsub in Hfit by lia. specialize (Hcap T ltac:(lia)). lia.
Qed.

(** ** The bulk constructor *)

Lemma find_all_false {A : Type} (f : A -> bool) (l : list A) :
  (forall a, In a l -> f a = false) -> List.find f l = None.
Proof.
  intros H. destruct (List.find f l) as [a|] eqn:E; [|reflexivity].
  apply find_some in E as [Hin Hf]. rewrite (H a Hin) in Hf. discriminate.
Qed.

(** The copy loop keeps, for each key other than that of [prev], the first
    pair with the key. *)
Lemma copy_first_of_each_entry (rest : list (K * V)) :
  forall (prev : Item) (k : K),
    StronglySorted (fun p q => fst p <= fst q) rest ->
    Forall (fun q => key prev <= fst q) rest ->
    level_entry (copy_first_of_each prev rest) k
    = if k =? key prev then None
      else option_map Item_pair (List.find (fun p => fst p =? k) rest).
Proof.
  unfold K in *. induction rest as [|p t IH]; intros prev k Hs Hf.
  - simpl. destruct (k =? key prev); reflexivity.
  - apply StronglySorted_inv in Hs as [Hst Hp].
    apply Forall_inv_tail in Hf as Hft. apply Forall_inv in Hf.
    cbn [copy_first_of_each List.find]. unfold K in *.
    destruct (Z.eqb_spec (fst p) (key prev)) as [Ep|Ep].
    + rewrite (IH prev k Hst Hft).
      destruct (Z.eqb_spec k (key prev)) as [Ek|Ek]; [reflexivity|].
      destruct (Z.eqb_spec (fst p) k); [congruence|reflexivity].
    + unfold level_entry. cbn [List.find]. fold (level_entry
        (copy_first_of_each (Item_pair p) t) k).
      change (key (Item_pair p)) with (fst p).
      destruct (Z.eqb_spec (fst p) k) as [Ek|Ek].
      * subst k. destruct (Z.eqb_spec (fst p) (key prev)); [congruence|].
        reflexivity.
      * rewrite (IH (Item_pair p) k Hst Hp).
        change (key (Item_pair p)) with (fst p).
        destruct (Z.eqb_spec k (fst p)) as [E|_]; [congruence|].
        destruct (Z.eqb_spec k (key prev)) as [E|_]; [|reflexivity].
        rewrite find_all_false; [reflexivity|].
        intros q Hq. rewrite Forall_forall in Hp. specialize (Hp q Hq).
        apply Z.eqb_neq. lia.
Qed.

Lemma log2_up_small (n : nat) :
  (n <= 32)%nat -> (Z.to_nat (Z.log2_up (Z.of_nat n)) < min_level)%nat.
Proof.
  intros Hn.
  assert (H : Z.log2_up (Z.of_nat n) <= Z.log2_up 32)
    by (apply Z.log2_up_le_mono; lia).
  change (Z.log2_up 32) with 5 in H.
  pose proof (Z.log2_up_nonneg (Z.of_nat n)).
  change min_level with 6%nat. lia.
Qed.

Lemma log2_up_large (n : nat) :
  (33 <= n)%nat -> (min_level <= Z.to_nat (Z.log2_up (Z.of_nat n)))%nat.
Proof.
  intros Hn.
  assert (H : Z.log2_up 33 <= Z.log2_up (Z.of_nat n))
    by (apply Z.log2_up_le_mono; lia).
  change (Z.log2_up 33) with 6 in H.
  change min_level with 6%nat. lia.
Qed.

(** What the bulk constructor builds when it is defined. *)
Lemma build_shape (input : list (K * V)) (st : DynamicPGMIndex) :
  build input = Some st ->
  exists p rest,
    input = p :: rest /\
    (min_level <= Z.to_nat (Z.log2_up (Z.of_nat (length input))))%nat /\
    st = mkIndex (Z.to_nat (Z.log2_up (Z.of_nat (length input))) + 1)
           (set_nth (Z.to_nat (Z.log2_up (Z.of_nat (length input))) - min_level)
              (Item_pair p :: copy_first_of_each (Item_pair p) rest)
              (repeat []
                 (Nat.max (Z.to_nat (Z.log2_up (Z.of_nat (length input))) + 1)
                    max_fully_allocated_level - min_level + 1))).
Proof.
  intros H. destruct input as [|p rest]; [exfalso; exact (build_nil st H)|].
  exists p, rest. split; [reflexivity|].
  apply build_unfold in H as [_ H]. cbv zeta in H.
  apply obind_Some in H as (d' & Hd' & H).
  apply assign_level_Some in Hd' as (Hused & _ & ->).
  rewrite Nat.add_sub in *.
  split; [exact Hused|]. some_inv H. reflexivity.
Qed.

Lemma build_is_sorted (input : list (K * V)) (st : DynamicPGMIndex) :
  build input = Some st -> is_sorted input = true.
Proof.
  intros H. destruct input as [|p rest]; [reflexivity|].
  apply (build_unfold p rest st H).
Qed.

Lemma build_defined (input : list (K * V)) :
  (33 <= length input)%nat -> is_sorted input = true ->
  exists st, build input = Some st.
Proof.
  intros Hn Hsorted. destruct input as [|p rest]; [simpl in Hn; lia|].
  pose proof (log2_up_large (length (p :: rest)) Hn) as Hlog.
  unfold build. rewrite Hsorted. cbn [negb].
  rewrite reserve_all_spec, repeat_length.
  destruct (Nat.ltb_spec (max_fully_allocated_level - min_level)
              (Nat.max (Z.to_nat (Z.log2_up (Z.of_nat (length (p :: rest)))) + 1)
                 max_fully_allocated_level - min_level + 1)) as [_|Hge];
    [|change max_fully_allocated_level with 15%nat in Hge;
      change min_level with 6%nat in Hge; lia].
  cbn [obind].
  unfold assign_level. rewrite Nat.add_sub.
  destruct (Nat.ltb_spec (Z.to_nat (Z.log2_up (Z.of_nat (length (p :: rest)))))
              min_level) as [Hlt|_]; [lia|].
  destruct (nth_error _ _) eqn:E.
  - eexists. reflexivity.
  - apply nth_error_None in E. rewrite repeat_length in E. lia.
Qed.

Lemma build_first_entry (input : list (K * V)) (st : DynamicPGMIndex) (k : K) :
  sorted_input input -> build input = Some st ->
  first_entry (data st) k
  = option_map Item_pair (List.find (fun p => fst p =? k) input).
Proof.
  intros Hin H. apply sorted_input_strongly in Hin. unfold K in *.
  destruct (build_shape input st H) as (p & rest & -> & Hlog & ->).
  apply StronglySorted_inv in Hin as [Hrest Hp].
  cbn [data].
  set (j := (Z.to_nat (Z.log2_up (Z.of_nat (length (p :: rest)))) - min_level)%nat).
  set (m := (Nat.max (Z.to_nat (Z.log2_up (Z.of_nat (length (p :: rest)))) + 1)
               max_fully_allocated_level - min_level + 1)%nat).
  assert (Hj : (j < m)%nat) by (unfold j, m; lia).
  rewrite (first_entry_split _ j k).
  rewrite first_entry_firstn_nils
    by (intros i Hi; rewrite nth_set_nth_neq by lia; apply nth_repeat_nil).
  rewrite nth_set_nth_eq by (rewrite repeat_length; exact Hj).
  rewrite first_entry_skipn_nils
    by (intros i Hi; rewrite nth_set_nth_neq by lia; apply nth_repeat_nil).
  unfold level_entry. cbn [List.find].
  fold (level_entry (copy_first_of_each (Item_pair p) rest) k).
  change (key (Item_pair p)) with (fst p). unfold K in *.
  destruct (Z.eqb_spec (fst p) k) as [Ek|Ek]; [reflexivity|].
  rewrite (copy_first_of_each_entry rest (Item_pair p) k Hrest Hp).
  change (key (Item_pair p)) with (fst p).
  destruct (Z.eqb_spec k (fst p)); [congruence|].
  destruct (option_map _ _); reflexivity.
Qed.

(** X17: the bulk constructor has a result exactly on more than 32 pairs
    that pass its assertion [std::is_sorted(first, last)], which compares
    pairs, keys first and values second.  On 1 to 32 pairs it computes a
    [used_levels] of at most [min_level] and writes to a level below
    [min_level], outside [data]; on an empty range it reads [*first]. *)
Theorem build_defined_iff (input : list (K * V)) :
  build input = None <->
  (length input <= 32)%nat \/ is_sorted input = false.
Proof.
  split.
  - intros H. destruct (is_sorted input) eqn:Hs; [|right; reflexivity].
    left. destruct (Nat.le_gt_cases (length input) 32) as [|Hn];
      [assumption|].
    destruct (build_defined input Hn Hs) as (st & Hst). congruence.
  - intros [Hn|Hs]; destruct (build input) as [st|] eqn:H;
      try reflexivity; exfalso.
    + destruct (build_shape input st H) as (_ & _ & _ & Hlog & _).
      pose proof (log2_up_small (length input) Hn). lia.
    + pose proof (build_is_sorted input st H). congruence.
Qed.

(** X18: on more than 32 pairs that pass the assertion of the bulk
    constructor, [std::is_sorted] on the pairs, the constructor puts all it
    keeps into level [used_levels - 1], with
    [used_levels = ceil(log2 n) + 1], and leaves every other level empty;
    of the pairs with the same key it keeps the first, in input order, and
    no other. *)
Theorem build_keeps_first_of_each_key (input : list (K * V)) :
  is_sorted input = true -> (33 <= length input)%nat ->
  exists st,
    build input = Some st /\
    well_formed st /\
    used_levels st = (Z.to_nat (Z.log2_up (Z.of_nat (length input))) + 1)%nat /\
    (forall level, (min_level <= level)%nat -> level <> (used_levels st - 1)%nat ->
                   get_level st level = []) /\
    forall k, level_entry (get_level st (used_levels st - 1)) k
              = option_map Item_pair (List.find (fun p => fst p =? k) input).
Proof.
  intros Hsorted Hn.
  pose proof (is_sorted_keys input Hsorted) as Hin.
  destruct (build_defined input Hn Hsorted) as (st & Hst).
  exists st. split; [exact Hst|].
  split; [eapply build_wf; eassumption|].
  pose proof (fun k => build_first_entry input st k Hin Hst) as Hfirst.
  destruct (build_shape input st Hst) as (p & rest & Einput & Hlog & Est).
  set (j := (Z.to_nat (Z.log2_up (Z.of_nat (length input))) - min_level)%nat) in *.
  set (m := (Nat.max (Z.to_nat (Z.log2_up (Z.of_nat (length input))) + 1)
               max_fully_allocated_level - min_level + 1)%nat) in *.
  assert (Hj : (j < m)%nat) by (unfold j, m; lia).
  assert (Hused : used_levels st
                  = (Z.to_nat (Z.log2_up (Z.of_nat (length input))) + 1)%nat)
    by (rewrite Est; reflexivity).
  assert (Hdata : data st
                  = set_nth j (Item_pair p :: copy_first_of_each (Item_pair p) rest)
                      (repeat [] m))
    by (rewrite Est; reflexivity).
  clear Est.
  split; [exact Hused|].
  split.
  - intros level Hmin Hlevel. unfold get_level. rewrite Hdata.
    rewrite nth_set_nth_neq by (unfold j; lia). apply nth_repeat_nil.
  - intros k. rewrite <- Hfirst.
    rewrite (first_entry_split (data st) j k).
    unfold get_level. rewrite Hused, Nat.add_sub. fold j. rewrite Hdata.
    rewrite first_entry_firstn_nils
      by (intros i Hi; rewrite nth_set_nth_neq by lia; apply nth_repeat_nil).
    rewrite first_entry_skipn_nils
      by (intros i Hi; rewrite nth_set_nth_neq by lia; apply nth_repeat_nil).
    destruct (level_entry _ k); reflexivity.
Qed.

(** ** Runs *)

Lemma apply_ops_reachable (ops : list Op) :
  forall st st' : DynamicPGMIndex,
    reachable st -> apply_ops st ops = Some st' -> reachable st'.
Proof.
  induction ops as [|o ops IH]; intros st st' Hr H.
  - simpl in H. injection H as <-. assumption.
  - cbn [apply_ops] in H. apply obind_Some in H as (st1 & H1 & H).
    apply (IH st1 st'); [|assumption].
    eapply reach_op; eassumption.
Qed.

Lemma has_key_existsb (l : LevelType) (k : K) :
  has_key l k <-> existsb (fun y => key y =? k) l = true.
Proof.
  rewrite existsb_exists. split; intros (y & Hin & Hk); exists y;
    (split; [assumption|]); apply Z.eqb_eq; assumption.
Qed.

(** ** Counting the entries of a cascade *)

Lemma first_entry_In (runs : list LevelType) (k : K) (y : Item) :
  first_entry runs k = Some y -> In y (concat runs) /\ key y = k.
Proof.
  induction runs as [|r runs IH]; [discriminate|].
  cbn [first_entry concat]. destruct (level_entry r k) as [z|] eqn:E.
  - intros [= ->]. apply level_entry_In in E as [Hin Hk].
    split; [apply in_or_app; left; assumption|assumption].
  - intros H. destruct (IH H) as [Hin Hk].
    split; [apply in_or_app; right; assumption|assumption].
Qed.

Lemma first_entry_None_concat (runs : list LevelType) (k : K) :
  first_entry runs k = None -> forall y, In y (concat runs) -> key y <> k.
Proof.
  induction runs as [|r runs IH]; [intros _ y []|].
  cbn [first_entry concat]. destruct (level_entry r k) as [z|] eqn:E;
    [discriminate|].
  intros H y Hy Hk. apply in_app_or in Hy as [Hy|Hy].
  - apply level_entry_None in E. apply E. exists y. split; assumption.
  - exact (IH H y Hy Hk).
Qed.

Lemma sorted_keys_NoDup (l : LevelType) : sorted l -> NoDup (map key l).
Proof.
  induction l as [|a l IH]; intros Hs; [constructor|].
  apply sorted_inv in Hs as [Hs Hf]. simpl. constructor; [|apply IH; exact Hs].
  intros Hin. apply in_map_iff in Hin as (y & Hk & Hy).
  rewrite Forall_forall in Hf. specialize (Hf y Hy). unfold key_lt in Hf. lia.
Qed.

Lemma disjoint_runs_NoDup (runs : list LevelType) :
  Forall sorted runs -> disjoint_runs runs -> NoDup (map key (concat runs)).
Proof.
  induction runs as [|r runs IH]; intros Hs Hd; [constructor|].
  apply Forall_inv_tail in Hs as Hst. apply Forall_inv in Hs.
  destruct Hd as [Hr Hd]. cbn [concat]. rewrite map_app.
  apply NoDup_app.
  - apply sorted_keys_NoDup. exact Hs.
  - apply IH; assumption.
  - intros k Hk1 Hk2.
    apply in_map_iff in Hk1 as (y & Hy & Hiny).
    apply in_map_iff in Hk2 as (z & Hz & Hinz).
    apply (Hr y z Hiny Hinz). congruence.
Qed.

(** A sorted run that answers lookups like runs with pairwise different
    keys has as many entries as these runs together. *)
Lemma entries_length (l : LevelType) (runs : list LevelType) :
  sorted l -> Forall sorted runs -> disjoint_runs runs ->
  (forall k, level_entry l k = first_entry runs k) ->
  length l = length (concat runs) /\
  forall y, In y l -> In y (concat runs).
Proof.
  intros Hs Hrs Hd Hlook.
  assert (Hin : forall y, In y l -> In y (concat runs)).
  { intros y Hy. pose proof (level_entry_sorted l y Hs Hy) as E.
    rewrite Hlook in E. apply first_entry_In in E. tauto. }
  split; [|exact Hin].
  rewrite <- (length_map key l), <- (length_map key (concat runs)).
  apply Nat.le_antisymm; apply NoDup_incl_length.
  - apply sorted_keys_NoDup. exact Hs.
  - intros k Hk. apply in_map_iff in Hk as (y & <- & Hy).
    apply in_map. apply Hin. exact Hy.
  - apply disjoint_runs_NoDup; assumption.
  - intros k Hk. apply in_map_iff in Hk as (y & Hyk & Hy).
    destruct (level_entry l k) as [z|] eqn:E.
    + apply level_entry_In in E as [Hz Hzk]. rewrite <- Hzk.
      apply in_map. exact Hz.
    + rewrite Hlook in E.
      exfalso. exact (first_entry_None_concat runs k E y Hy Hyk).
Qed.

Lemma length_concat_levels (d : list LevelType) (levels : list nat) :
  length (concat (map (fun i => nth (i - min_level) d []) levels))
  = sum_sizes d levels.
Proof.
  induction levels as [|i levels IH]; [reflexivity|].
  cbn [map concat sum_sizes]. rewrite length_app, IH. reflexivity.
Qed.

(** A full buffer with one more entry and full levels under it fill the
    next level exactly. *)
Lemma full_levels_sum (d : list LevelType) (n : nat) :
  (forall level, (min_level < level <= min_level + n)%nat ->
     length (nth (level - min_level) d []) = (2 ^ level)%nat) ->
  (2 ^ (1 + min_level) + sum_sizes d (seq (1 + min_level) n)
   = 2 ^ (1 + min_level + n))%nat.
Proof.
  induction n as [|n IH]; intros H.
  - simpl sum_sizes. rewrite !Nat.add_0_r. reflexivity.
  - rewrite seq_S, sum_sizes_app. cbn [sum_sizes].
    rewrite Nat.add_0_r, Nat.add_assoc, IH by (intros; apply H; lia).
    rewrite (H (1 + min_level + n)%nat) by lia.
    replace (1 + min_level + S n)%nat with (S (1 + min_level + n)) by lia.
    rewrite Nat.pow_succ_r'. lia.
Qed.

Lemma In_concat_levels (st : DynamicPGMIndex) (levels : list nat) (z : Item) :
  In z (concat (map (get_level st) levels)) ->
  exists i, In i levels /\ In z (get_level st i).
Proof.
  intros H. apply in_concat in H as (r & Hr & Hz).
  apply in_map_iff in Hr as (i & <- & Hi). exists i. split; assumption.
Qed.

Lemma disjoint_levels_runs (st : DynamicPGMIndex) (levels : list nat) :
  keys_disjoint st -> NoDup levels ->
  (forall i, In i levels -> (min_level <= i)%nat) ->
  disjoint_runs (map (get_level st) levels).
Proof.
  intros Hd. induction levels as [|i levels IH]; intros Hnd Hmin; [exact I|].
  apply NoDup_cons_iff in Hnd as [Hni Hnd].
  cbn [map disjoint_runs]. split.
  - intros y z Hy Hz. apply In_concat_levels in Hz as (j & Hj & Hz).
    apply (Hd i j y z); auto with datatypes.
    intros ->. contradiction.
  - apply IH; [assumption|]. intros j Hj. apply Hmin. right. assumption.
Qed.

(** What a cascade into an empty target installs, in terms of [insert]. *)
Lemma insert_cascade_content (st st' : DynamicPGMIndex) (x : Item) :
  well_formed st ->
  ~ has_key (get_level st min_level) (key x) ->
  length (get_level st min_level) = (2 ^ (min_level + 1) - 1)%nat ->
  get_level st (cascade_target st) = [] ->
  insert st x = Some st' ->
  forall k,
    level_entry (get_level st' (cascade_target st)) k
    = first_entry
        ((firstn (lower_bound_pos (get_level st min_level) (key x))
            (get_level st min_level)
          ++ x :: skipn (lower_bound_pos (get_level st min_level) (key x))
                    (get_level st min_level))
         :: map (get_level st)
              (seq (1 + min_level) (cascade_target st - 1 - min_level))) k.
Proof.
  intros Hwf Hno Hfull Hempty H k.
  assert (Hmin : min_level = 6%nat) by reflexivity.
  destruct (well_formed_slots st Hwf) as (Hu & Hl & Ha & He & Hc0 & Hc & Hs).
  unfold insert in H.
  apply obind_Some in H as (level0 & H0 & H).
  assert (Hlevel0 : get_level st min_level = level0).
  { unfold get_level. rewrite Nat.sub_diag. apply nth_error_nth. assumption. }
  rewrite Hlevel0 in *.
  assert (Hs0 : sorted level0) by (rewrite <- Hlevel0; apply (wf_sorted Hwf)).
  pose proof (proj1 (absent_at_lower_bound level0 (key x) Hs0) Hno) as Hnew.
  assert (Hins : insert_new st x level0 (lower_bound_pos level0 (key x))
                 = Some st').
  { destruct (nth_error level0 (lower_bound_pos level0 (key x))) as [y|] eqn:Hy;
      [|exact H].
    destruct (Z.eqb_spec (key y) (key x)) as [Hk|Hk]; [|exact H].
    exfalso. exact (Hnew y eq_refl Hk). }
  clear H. unfold insert_new in Hins. unfold cascade_target in *.
  destruct (Nat.ltb_spec (length level0) (2 ^ (min_level + 1) - 1))
    as [Hroom|_]; [lia|].
  assert (Hused : (1 + min_level <= used_levels st)%nat).
  { destruct (Nat.le_gt_cases (1 + min_level) (used_levels st)); [assumption|].
    specialize (He 0%nat ltac:(lia)).
    unfold get_level in Hlevel0. rewrite Nat.sub_diag in Hlevel0.
    rewrite Hlevel0 in He. rewrite He in Hfull. simpl in Hfull. lia. }
  destruct (find_free_level st (used_levels st - (min_level + 1))
              (min_level + 1) (2 ^ (min_level + 1) - 1 + 1))
    as [i req] eqn:Hfind.
  apply find_free_level_spec in Hfind as (Hi & _ & _); [|lia|reflexivity].
  cbn [fst] in *.
  destruct (Nat.eqb_spec i (used_levels st)) as [Hnewlevel|Hfound].
  - assert (Hs1 : forall j, sorted (nth j (data st ++ [[]]) []))
      by (intros j; rewrite nth_app_nil; apply Hs).
    assert (H01 : nth_error (data st ++ [[]]) 0 = Some level0)
      by (rewrite nth_error_app1 by lia; exact H0).
    assert (He1 : nth (i - 1 + 1 - min_level) (data st ++ [[]]) [] = []).
    { rewrite nth_app_nil. unfold get_level in Hempty.
      replace (i - 1 + 1 - min_level)%nat with (i - min_level)%nat by lia.
      exact Hempty. }
    pose proof (cascade_content
                  (mkIndex (S (used_levels st)) (data st ++ [[]])) st' x
                  (i - 1) req level0 Hs1 H01 Hfull Hnew ltac:(lia)
                  ltac:(cbn [used_levels]; lia) He1 Hins k) as Hcont.
    cbn [used_levels data] in Hcont.
    replace (i - 1 + 1 - min_level)%nat with (i - min_level)%nat in Hcont by lia.
    unfold get_level at 1. rewrite Hcont.
    rewrite (map_ext (fun i0 => nth (i0 - min_level) (data st ++ [[]]) [])
               (get_level st))
      by (intros j; unfold get_level; apply nth_app_nil).
    reflexivity.
  - assert (He1 : nth (i - 1 + 1 - min_level) (data st) [] = []).
    { unfold get_level in Hempty.
      replace (i - 1 + 1 - min_level)%nat with (i - min_level)%nat by lia.
      exact Hempty. }
    pose proof (cascade_content st st' x (i - 1) req level0 Hs H0 Hfull Hnew
                  ltac:(lia) ltac:(lia) He1 Hins k) as Hcont.
    replace (i - 1 + 1 - min_level)%nat with (i - min_level)%nat in Hcont by lia.
    unfold get_level at 1. rewrite Hcont. reflexivity.
Qed.

(** ** Inserts of fresh keys *)

Lemma pow2_of_nat (j : nat) : Z.of_nat (2 ^ j) = 2 ^ Z.of_nat j.
Proof. rewrite Nat2Z.inj_pow. reflexivity. Qed.

(** Where every level is empty or full, the target of a cascade is empty
    and the levels above it are full. *)
Lemma cascade_target_empty (st : DynamicPGMIndex) :
  well_formed st -> levels_empty_or_full st ->
  (min_level < used_levels st <= 64)%nat ->
  get_level st (cascade_target st) = [] /\
  forall j, (min_level < j < cascade_target st)%nat ->
            length (get_level st j) = (2 ^ j)%nat.
Proof.
  intros Hwf Hfull Hused.
  assert (Hcap : forall j, (min_level < j)%nat ->
                           (length (get_level st j) <= 2 ^ j)%nat)
    by (apply (wf_capacity Hwf)).
  unfold cascade_target.
  change (2 ^ (min_level + 1) - 1 + 1)%nat with (2 ^ (1 + min_level))%nat.
  destruct (find_free_level st (used_levels st - (min_level + 1))
              (min_level + 1) (2 ^ (1 + min_level))) as [T req] eqn:Hfind.
  cbn [fst].
  pose proof (find_free_level_first_fit st _ _ _ _ _ Hfind) as Hfirst.
  apply find_free_level_spec in Hfind as (HT & Hreq & Hfit); [|lia|reflexivity].
  assert (Hpos : (0 < 2 ^ (1 + min_level))%nat) by (simpl; lia).
  split.
  - destruct (Nat.eq_dec T (used_levels st)) as [->|Hne].
    + apply (wf_unused Hwf). lia.
    + destruct (Hfull T ltac:(lia)) as [E|E]; [exact E|]. exfalso.
      specialize (Hfit ltac:(lia)). rewrite E in Hfit. unfold size_sub in Hfit.
      rewrite pow2_of_nat, Z.sub_diag, Z.mod_0_l in Hfit by lia. lia.
  - intros j Hj. destruct (Hfull j ltac:(lia)) as [E|E]; [|exact E]. exfalso.
    specialize (Hfirst j ltac:(lia)). rewrite E in Hfirst.
    unfold size_sub in Hfirst. simpl length in Hfirst.
    rewrite Z.sub_0_r in Hfirst.
    assert (Hj64 : 2 ^ Z.of_nat j < 2 ^ 64) by (apply Z.pow_lt_mono_r; lia).
    rewrite Z.mod_small in Hfirst by lia.
    pose proof (full_levels_fit (data st) (j - (min_level + 1)) Hcap) as Hle.
    replace (1 + min_level + (j - (min_level + 1)))%nat with j in Hle by lia.
    rewrite <- pow2_of_nat in Hfirst.
    change (min_level + 1)%nat with (1 + min_level)%nat in Hfirst, Hle. lia.
Qed.

Lemma get_level_below (st : DynamicPGMIndex) (level : nat) :
  get_level st level = get_level st (Nat.max level min_level).
Proof. unfold get_level. f_equal. lia. Qed.

Lemma In_insert_at (l : LevelType) (p : nat) (x y : Item) :
  In y (firstn p l ++ x :: skipn p l) -> y = x \/ In y l.
Proof.
  intros H. apply in_app_or in H as [H|[H|H]].
  - right. eapply In_firstn. eassumption.
  - left. symmetry. assumption.
  - right. eapply In_skipn. eassumption.
Qed.

(** The container without entries is tidy. *)
Lemma empty_index_tidy : tidy empty_index.
Proof.
  assert (Hnil : forall level, get_level (@empty_index V BI) level = []).
  { intros level. unfold get_level, empty_index. cbn [data].
    apply nth_repeat_nil. }
  constructor.
  - apply empty_index_wf.
  - intros level _. left. apply Hnil.
  - intros i j y z _ _ _ Hy. rewrite Hnil in Hy. destruct Hy.
Qed.

(** ** A cascade into an empty level is defined *)

Lemma load_defined (buf : Buf) (r : list Item) (n : nat) :
  holds buf r -> (n <= length r)%nat -> load buf n = Some (firstn n r).
Proof.
  intros Hh Hn. pose proof (holds_length buf r Hh). unfold load.
  destruct (Nat.leb_spec n (length buf)); [|lia].
  rewrite (holds_firstn buf r n Hh Hn). apply written_map_Some.
Qed.

Lemma store_defined (buf : Buf) (out : list Item) :
  (length out <= length buf)%nat ->
  exists buf', store buf out = Some buf' /\ length buf' = length buf.
Proof.
  intros Hl. unfold store. destruct (Nat.leb_spec (length out) (length buf));
    [|lia].
  eexists. split; [reflexivity|].
  rewrite length_app, length_map, length_skipn. lia.
Qed.

Lemma sum_sizes_set_nth (d : list LevelType) (j : nat) (l : LevelType)
  (levels : list nat) :
  (forall i, In i levels -> (i - min_level)%nat <> j) ->
  sum_sizes (set_nth j l d) levels = sum_sizes d levels.
Proof.
  induction levels as [|i levels IH]; intros H; [reflexivity|].
  cbn [sum_sizes]. rewrite nth_set_nth_neq, IH.
  - reflexivity.
  - intros i' Hi'. apply H. right. assumption.
  - intros E. apply (H i (or_introl eq_refl)). auto.
Qed.

(** The loop over the levels [i .. i + n - 1], none of them the deepest in
    use, goes through when the buffers have room for all it absorbs. *)
Lemma merge_levels_defined (used mod2 size : nat) :
  (mod2 < 2)%nat ->
  forall (n i : nat) (s : MergeLoop),
    (min_level <= i)%nat ->
    loop_ready mod2 size i s ->
    (i + n - min_level <= length (loop_data s))%nat ->
    (forall j, (i <= j < i + n)%nat -> j <> (used - 1)%nat) ->
    (actual_size s + sum_sizes (loop_data s) (seq i n) <= size)%nat ->
    exists s',
      merge_levels used mod2 s (seq i n) = Some s' /\
      loop_ready mod2 size (i + n) s' /\
      length (loop_data s') = length (loop_data s).
Proof.
  intros Hmod. induction n as [|n IH]; intros i s Hi Hready Hlen Hne Hsize.
  - exists s. rewrite Nat.add_0_r. split; [reflexivity|]. split; [assumption|].
    reflexivity.
  - cbn [seq merge_levels]. cbn [seq sum_sizes] in Hsize.
    destruct Hready as (R & other & HR & Hother & HlR & Hlo & Hla & Hlb).
    assert (Hslot : (i - min_level < length (loop_data s))%nat) by lia.
    destruct (nth_error (loop_data s) (i - min_level)) as [ld|] eqn:Hld;
      [|apply nth_error_None in Hld; lia].
    assert (Eld : nth (i - min_level) (loop_data s) [] = ld)
      by (apply nth_error_nth; exact Hld).
    rewrite Eld in Hsize.
    assert (Hflag : Nat.eqb i (used - 1) = false)
      by (apply Nat.eqb_neq; apply Hne; lia).
    pose proof (merge_length_le false R ld) as Hout.
    pose proof (merge_false_length_ge R ld) as Hge.
    assert (Hstep : exists s1,
      merge_level used mod2 s i = Some s1 /\
      loop_data s1 = set_nth (i - min_level) [] (loop_data s) /\
      actual_size s1 = length (merge false R ld) /\
      holds (other_buffer mod2 i s1) (merge false R ld) /\
      current_buffer mod2 i s1 = current_buffer mod2 i s /\
      (size <= length (tmp_a s1))%nat /\ (size <= length (tmp_b s1))%nat).
    { unfold merge_level. rewrite Hld. cbn [obind].
      unfold current_buffer, other_buffer in *.
      unfold assign_level. destruct (Nat.ltb_spec i min_level); [lia|].
      rewrite Hld, Hflag.
      destruct (Nat.eqb ((i - min_level) mod 2) mod2).
      - rewrite (load_defined (tmp_a s) R (actual_size s) HR) by lia.
        rewrite firstn_all2 by lia. cbn [obind].
        destruct (store_defined (tmp_b s) (merge false R ld) ltac:(lia))
          as (b & Hb & Hbl).
        rewrite Hb. cbn [obind]. eexists. split; [reflexivity|].
        cbn [loop_data actual_size tmp_a tmp_b].
        split; [reflexivity|]. split; [reflexivity|].
        split; [eapply store_holds; [exact Hother| |exact Hb]; lia|].
        split; [reflexivity|]. lia.
      - rewrite (load_defined (tmp_b s) R (actual_size s) HR) by lia.
        rewrite firstn_all2 by lia. cbn [obind].
        destruct (store_defined (tmp_a s) (merge false R ld) ltac:(lia))
          as (a & Hstore & Hal).
        rewrite Hstore. cbn [obind]. eexists. split; [reflexivity|].
        cbn [loop_data actual_size tmp_a tmp_b].
        split; [reflexivity|]. split; [reflexivity|].
        split; [eapply store_holds; [exact Hother| |exact Hstore]; lia|].
        split; [reflexivity|]. lia. }
    destruct Hstep as (s1 & Hs1 & Hd1 & Ha1 & Hh1 & Hc1 & Hla1 & Hlb1).
    rewrite Hs1. cbn [obind].
    destruct (buffers_alternate mod2 i s1 Hi Hmod) as [Ecur Eoth].
    destruct (IH (S i) s1) as (s' & Hs' & Hready' & Hlen').
    + lia.
    + exists (merge false R ld), R.
      rewrite Ecur, Eoth, Hc1.
      split; [exact Hh1|]. split; [exact HR|].
      split; [symmetry; exact Ha1|]. split; [lia|]. split; assumption.
    + rewrite Hd1, length_set_nth. lia.
    + intros j Hj. apply Hne. lia.
    + rewrite Hd1, Ha1, sum_sizes_set_nth.
      * lia.
      * intros j Hj. apply in_seq in Hj. lia.
    + exists s'. split; [exact Hs'|].
      replace (i + S n)%nat with (S i + n)%nat by lia.
      split; [exact Hready'|]. rewrite Hlen', Hd1. apply length_set_nth.
Qed.

Lemma assign_level_defined (d : list LevelType) (i : nat) (l : LevelType) :
  (min_level <= i)%nat -> (i - min_level < length d)%nat ->
  assign_level d i l = Some (set_nth (i - min_level) l d).
Proof.
  intros Hi Hlen. unfold assign_level.
  destruct (Nat.ltb_spec i min_level); [lia|].
  destruct (nth_error d (i - min_level)) eqn:E; [reflexivity|].
  apply nth_error_None in E. lia.
Qed.

(** A cascade into an empty level below level 64 goes through: no slot of
    [data] or of a scratch buffer is accessed out of range, and only
    written slots are installed. *)
Lemma cascade_defined (st : DynamicPGMIndex) (x : Item)
  (up size ip : nat) (level0 : LevelType) :
  nth_error (data st) 0 = Some level0 ->
  length level0 = (2 ^ (min_level + 1) - 1)%nat ->
  (min_level <= up)%nat -> (up + 1 < used_levels st)%nat ->
  (up + 1 < 64)%nat ->
  (up + 1 - min_level < length (data st))%nat ->
  nth (up + 1 - min_level) (data st) [] = [] ->
  (2 ^ (1 + min_level)
   + sum_sizes (data st) (seq (1 + min_level) (up - min_level)) <= size)%nat ->
  exists st', pairwise_logarithmic_merge st x up size ip = Some st'.
Proof.
  intros H0 Hlen0 Hup Hused H64 Hslot Hempty Hsize.
  unfold pairwise_logarithmic_merge.
  destruct (nth_error (data st) (up + 1 - min_level)) as [tl|] eqn:Htl;
    [|apply nth_error_None in Htl; lia].
  assert (Etl : tl = [])
    by (rewrite <- Hempty; symmetry; apply nth_error_nth; exact Htl).
  subst tl. cbn [obind length].
  assert (Hassert :
    (size_sub (2 ^ Z.of_nat (up + 1)) (Z.of_nat 0)
     <? Z.of_nat (2 ^ (1 + min_level))) = false).
  { apply Z.ltb_ge. unfold size_sub. rewrite Z.sub_0_r.
    assert (2 ^ Z.of_nat (up + 1) < 2 ^ 64) by (apply Z.pow_lt_mono_r; lia).
    rewrite Z.mod_small by lia.
    rewrite pow2_of_nat. apply Z.pow_le_mono_r; lia. }
  rewrite Hassert, H0. cbn [obind]. rewrite Nat.add_0_r.
  set (seeded := firstn ip level0 ++ x :: skipn ip level0).
  set (mod2 := ((up - min_level) mod 2)%nat).
  assert (Hmod : (mod2 < 2)%nat) by (apply Nat.mod_upper_bound; lia).
  assert (Hseeded : length seeded = (2 ^ (1 + min_level))%nat).
  { unfold seeded. rewrite length_insert_at, Hlen0.
    change (2 ^ (min_level + 1))%nat with 128%nat.
    change (2 ^ (1 + min_level))%nat with 128%nat. lia. }
  destruct (store_defined (repeat None size) seeded
              ltac:(rewrite repeat_length; lia)) as (buf & Hbuf & Hbufl).
  rewrite repeat_length in Hbufl.
  pose proof (store_fresh size seeded buf Hbuf) as Hholds.
  rewrite Hbuf.
  assert (Hinit : exists s0,
    (if Nat.eqb mod2 0
     then Some (mkLoop (repeat None size) buf (2 ^ (1 + min_level)) (data st))
     else Some (mkLoop buf (repeat None size) (2 ^ (1 + min_level)) (data st)))
    = Some s0 /\
    loop_ready mod2 size (1 + min_level) s0 /\
    actual_size s0 = (2 ^ (1 + min_level))%nat /\
    loop_data s0 = data st).
  { destruct (Nat.eqb_spec mod2 0) as [E|E]; eexists; (split; [reflexivity|]);
      (split; [|split; reflexivity]);
      exists seeded, []; unfold current_buffer, other_buffer;
      cbn [tmp_a tmp_b actual_size];
      change ((1 + min_level - min_level) mod 2)%nat with 1%nat.
    - rewrite E. cbn [Nat.eqb].
      split; [exact Hholds|]. split; [apply holds_repeat_None|].
      split; [exact Hseeded|]. split; [simpl; lia|].
      rewrite repeat_length. lia.
    - replace mod2 with 1%nat by lia. cbn [Nat.eqb].
      split; [exact Hholds|]. split; [apply holds_repeat_None|].
      split; [exact Hseeded|]. split; [simpl; lia|].
      rewrite repeat_length. lia. }
  destruct Hinit as (s0 & Hs0 & Hready0 & Hact0 & Hdata0).
  assert (Hs0' :
    (if Nat.eqb mod2 0
     then b <- Some buf ;;
          Some (mkLoop (repeat None size) b (2 ^ (1 + min_level)) (data st))
     else a <- Some buf ;;
          Some (mkLoop a (repeat None size) (2 ^ (1 + min_level)) (data st)))
    = Some s0) by exact Hs0.
  rewrite Hs0'. cbn [obind].
  destruct (merge_levels_defined (used_levels st) mod2 size Hmod
              (up - min_level) (1 + min_level) s0) as (s & Hs & Hready & Hlens).
  { lia. }
  { exact Hready0. }
  { rewrite Hdata0. lia. }
  { intros j Hj. lia. }
  { rewrite Hact0, Hdata0. exact Hsize. }
  rewrite Hs. cbn [obind]. cbv zeta.
  rewrite (assign_level_defined (loop_data s) min_level [])
    by (rewrite ?Hlens, ?Hdata0; lia).
  cbn [obind].
  rewrite assign_level_defined
    by (rewrite ?length_set_nth, ?Hlens, ?Hdata0; lia).
  cbn [obind]. eexists. reflexivity.
Qed.

(** The part of [insert] for a key that the buffer does not hold goes
    through when it does not cascade into a level that holds data. *)
Lemma insert_new_defined (st : DynamicPGMIndex) (x : Item) (level0 : LevelType) :
  well_formed st -> (used_levels st < 64)%nat ->
  lands_in_empty_level st x ->
  nth_error (data st) 0 = Some level0 ->
  insert_new st x level0 (lower_bound_pos level0 (key x)) <> None
  \/ has_key level0 (key x).
Proof.
  intros Hwf H64 Hland H0.
  destruct (well_formed_slots st Hwf) as (Hu & Hl & Ha & He & Hc0 & Hc & Hs).
  assert (Hlevel0 : get_level st min_level = level0).
  { unfold get_level. rewrite Nat.sub_diag. apply nth_error_nth. assumption. }
  destruct Hland as [Hhas|[Hroom|Hempty]].
  - right. rewrite <- Hlevel0. exact Hhas.
  - left. unfold insert_new. rewrite Hlevel0 in Hroom.
    destruct (Nat.ltb_spec (length level0) (2 ^ (min_level + 1) - 1));
      [discriminate|lia].
  - left. unfold insert_new.
    destruct (Nat.ltb_spec (length level0) (2 ^ (min_level + 1) - 1))
      as [|Hfull]; [discriminate|].
    assert (Hlen0 : length level0 = (2 ^ (min_level + 1) - 1)%nat).
    { unfold get_level in Hlevel0. rewrite Nat.sub_diag in Hlevel0.
      rewrite Hlevel0 in Hc0. lia. }
    assert (Hused : (1 + min_level <= used_levels st)%nat).
    { destruct (Nat.le_gt_cases (1 + min_level) (used_levels st));
        [assumption|].
      specialize (He 0%nat ltac:(lia)).
      unfold get_level in Hlevel0. rewrite Nat.sub_diag in Hlevel0.
      rewrite Hlevel0 in He. rewrite He in Hlen0. simpl in Hlen0. lia. }
    unfold cascade_target in Hempty.
    destruct (find_free_level st (used_levels st - (min_level + 1))
                (min_level + 1) (2 ^ (min_level + 1) - 1 + 1))
      as [i req] eqn:Hfind.
    apply find_free_level_spec in Hfind as (Hi & Hreq & _);
      [|lia|reflexivity].
    cbn [fst] in Hempty. unfold get_level in Hempty.
    assert (Hsize : (2 ^ (1 + min_level)
                     + sum_sizes (data st)
                         (seq (1 + min_level) (i - 1 - min_level))
                     <= req)%nat).
    { rewrite Hreq.
      replace (i - (min_level + 1))%nat with (i - 1 - min_level)%nat by lia.
      change (min_level + 1)%nat with (1 + min_level)%nat.
      change (2 ^ (1 + min_level) - 1 + 1)%nat with (2 ^ (1 + min_level))%nat.
      lia. }
    destruct (Nat.eqb_spec i (used_levels st)) as [Hnewlevel|Hfound].
    + assert (Hdef : exists st',
        pairwise_logarithmic_merge
          (mkIndex (S (used_levels st)) (data st ++ [[]])) x
          (i - 1) req (lower_bound_pos level0 (key x)) = Some st').
      { apply (cascade_defined _ x (i - 1) req _ level0);
          cbn [used_levels data];
          rewrite ?length_app, ?nth_app_nil, ?sum_sizes_app_nil;
          simpl length.
        - rewrite nth_error_app1 by lia. exact H0.
        - exact Hlen0.
        - lia.
        - lia.
        - lia.
        - lia.
        - replace (i - 1 + 1 - min_level)%nat with (i - min_level)%nat by lia.
          exact Hempty.
        - exact Hsize. }
      destruct Hdef as (st' & Hst'). rewrite Hst'. discriminate.
    + assert (Hdef : exists st',
        pairwise_logarithmic_merge st x (i - 1) req
          (lower_bound_pos level0 (key x)) = Some st').
      { apply (cascade_defined st x (i - 1) req _ level0).
        - exact H0.
        - exact Hlen0.
        - lia.
        - lia.
        - lia.
        - lia.
        - replace (i - 1 + 1 - min_level)%nat with (i - min_level)%nat by lia.
          exact Hempty.
        - exact Hsize. }
      destruct Hdef as (st' & Hst'). rewrite Hst'. discriminate.
Qed.

Lemma insert_defined_from_new (st : DynamicPGMIndex) (x : Item)
  (level0 : LevelType) :
  sorted level0 ->
  nth_error (data st) 0 = Some level0 ->
  insert_new st x level0 (lower_bound_pos level0 (key x)) <> None
  \/ has_key level0 (key x) ->
  exists st', insert st x = Some st'.
Proof.
  intros Hs0 H0 Hnew. unfold insert. rewrite H0. cbn [obind].
  destruct (nth_error level0 (lower_bound_pos level0 (key x))) as [y|] eqn:Hy.
  - destruct (Z.eqb_spec (key y) (key x)) as [Hk|Hk]; [eexists; reflexivity|].
    destruct Hnew as [Hnew|(z & Hz & Hzk)].
    + destruct (insert_new _ _ _ _) as [st'|]; [exists st'; reflexivity|].
      contradiction.
    + exfalso. apply Hk.
      rewrite <- Hzk in Hy. rewrite (lower_bound_pos_found level0 z Hs0 Hz) in Hy.
      injection Hy as <-. assumption.
  - destruct Hnew as [Hnew|(z & Hz & Hzk)].
    + destruct (insert_new _ _ _ _) as [st'|]; [exists st'; reflexivity|].
      contradiction.
    + exfalso.
      rewrite <- Hzk in Hy. rewrite (lower_bound_pos_found level0 z Hs0 Hz) in Hy.
      discriminate.
Qed.

Lemma first_level_sorted (st : DynamicPGMIndex) (level0 : LevelType) :
  well_formed st -> nth_error (data st) 0 = Some level0 -> sorted level0.
Proof.
  intros Hwf H0. rewrite <- (nth_error_nth _ _ [] H0).
  destruct (well_formed_slots st Hwf) as (_ & _ & _ & _ & _ & _ & Hs). apply Hs.
Qed.

Lemma insert_lands_defined (st : DynamicPGMIndex) (x : Item) :
  well_formed st -> (used_levels st < 64)%nat ->
  lands_in_empty_level st x ->
  exists st', insert st x = Some st'.
Proof.
  intros Hwf H64 Hland.
  destruct (well_formed_slots st Hwf) as (_ & Hl & _).
  destruct (nth_error (data st) 0) as [level0|] eqn:H0;
    [|apply nth_error_None in H0; lia].
  apply (insert_defined_from_new st x level0
           (first_level_sorted st level0 Hwf H0) H0).
  exact (insert_new_defined st x level0 Hwf H64 Hland H0).
Qed.

(** X22: [insert] has defined behaviour on every well-formed state with
    fewer than 64 levels in use, unless it cascades into a level that
    holds data: it overwrites or adds an entry of the buffer, or runs a
    cascade in which every read of [data] and of the scratch buffers is in
    range and [tmp_b], which is installed as the target, holds the outcome
    of the last merge. *)
Theorem insert_defined (st : DynamicPGMIndex) (x : Item) :
  well_formed st -> (used_levels st < 64)%nat ->
  lands_in_empty_level st x ->
  exists st', insert st x = Some st'.
Proof.
  intros Hwf H64 Hland.
  destruct (well_formed_slots st Hwf) as (_ & Hl & _).
  destruct (nth_error (data st) 0) as [level0|] eqn:H0;
    [|apply nth_error_None in H0; lia].
  apply (insert_defined_from_new st x level0
           (first_level_sorted st level0 Hwf H0) H0).
  exact (insert_new_defined st x level0 Hwf H64 Hland H0).
Qed.

(** ** Counting all entries *)

Lemma sum_sizes_ext (d d' : list LevelType) (levels : list nat) :
  (forall i, In i levels ->
             nth (i - min_level) d [] = nth (i - min_level) d' []) ->
  sum_sizes d levels = sum_sizes d' levels.
Proof.
  induction levels as [|i levels IH]; intros H; [reflexivity|].
  cbn [sum_sizes]. rewrite (H i (or_introl eq_refl)), IH; [reflexivity|].
  intros j Hj. apply H. right. assumption.
Qed.

Lemma sum_sizes_nil (d : list LevelType) (levels : list nat) :
  (forall i, In i levels -> nth (i - min_level) d [] = []) ->
  sum_sizes d levels = 0%nat.
Proof.
  induction levels as [|i levels IH]; intros H; [reflexivity|].
  cbn [sum_sizes]. rewrite (H i (or_introl eq_refl)), IH; [reflexivity|].
  intros j Hj. apply H. right. assumption.
Qed.

Lemma fold_sizes_seq (d : list LevelType) :
  forall n a, (length d <= n)%nat ->
    fold_right (fun l m => length l + m)%nat 0%nat d
    = fold_right (fun j m => length (nth (j - a) d []) + m)%nat 0%nat (seq a n).
Proof.
  induction d as [|x d IH]; intros n a Hn.
  - simpl. induction (seq a n) as [|j l IHl]; [reflexivity|].
    simpl. destruct (j - a)%nat; simpl; exact IHl.
  - destruct n as [|n]; [simpl in Hn; lia|].
    cbn [seq fold_right]. rewrite Nat.sub_diag. cbn [nth].
    rewrite (IH n (S a)) by (simpl in Hn; lia).
    f_equal.
    assert (H : forall l, (forall j, In j l -> (a < j)%nat) ->
      fold_right (fun j m => length (nth (j - S a) d []) + m)%nat 0%nat l
      = fold_right (fun j m => length (nth (j - a) (x :: d) []) + m)%nat 0%nat l).
    { induction l as [|j l IHl]; intros Hl; [reflexivity|].
      cbn [fold_right]. rewrite IHl by (intros; apply Hl; right; assumption).
      pose proof (Hl j (or_introl eq_refl)).
      replace (j - a)%nat with (S (j - S a)) by lia. reflexivity. }
    apply H. intros j Hj. apply in_seq in Hj. lia.
Qed.

Lemma total_size_sum (st : DynamicPGMIndex) (n : nat) :
  (length (data st) <= n)%nat ->
  total_size st = sum_sizes (data st) (seq min_level n).
Proof.
  intros Hn. unfold total_size.
  rewrite (fold_sizes_seq (data st) n min_level Hn).
  induction (seq min_level n) as [|j l IHl]; [reflexivity|].
  cbn [fold_right sum_sizes]. rewrite IHl. reflexivity.
Qed.

(** The entries, counted level by level around level [T]. *)
Lemma total_size_split (st : DynamicPGMIndex) (n T : nat) :
  (length (data st) <= n)%nat ->
  (min_level <= T)%nat -> (T - min_level < n)%nat ->
  total_size st
  = (sum_sizes (data st) (seq min_level (T - min_level))
     + length (get_level st T)
     + sum_sizes (data st) (seq (S T) (n - S (T - min_level))))%nat.
Proof.
  intros Hn HT Hlt. rewrite (total_size_sum st n Hn).
  replace n with ((T - min_level) + S (n - S (T - min_level)))%nat at 1 by lia.
  rewrite seq_app, sum_sizes_app.
  replace (min_level + (T - min_level))%nat with T by lia.
  cbn [seq sum_sizes]. unfold get_level. lia.
Qed.

(** ** Inserts of fresh keys: the step *)

(** In a tidy state no insert cascades into a level that holds data. *)
Lemma tidy_lands (st : DynamicPGMIndex) (x : Item) :
  tidy st -> (used_levels st <= 64)%nat -> lands_in_empty_level st x.
Proof.
  intros [Hwf Hfull _] H64.
  destruct (well_formed_slots st Hwf) as (Hu & Hl & Ha & He & Hc0 & _).
  destruct (Nat.lt_ge_cases (length (get_level st min_level))
              (2 ^ (min_level + 1) - 1)) as [Hroom|Hfullbuf].
  - right. left. exact Hroom.
  - right. right.
    assert (Hused : (min_level < used_levels st)%nat).
    { destruct (Nat.le_gt_cases (used_levels st) min_level) as [Hle|]; [|lia].
      pose proof (wf_unused Hwf (level := min_level) Hle) as E. rewrite E in Hfullbuf.
      change (2 ^ (min_level + 1))%nat with 128%nat in Hfullbuf.
      simpl in Hfullbuf. lia. }
    apply (cascade_target_empty st Hwf Hfull). lia.
Qed.

(** An insert of a key that no level holds keeps the state tidy, does not
    cascade into a level that holds data, stores nothing but the new entry
    and entries that were stored before, and stores one entry more than
    were stored before. *)
Lemma insert_fresh_tidy (st st' : DynamicPGMIndex) (x : Item) :
  tidy st -> (used_levels st <= 64)%nat ->
  fresh_key st (key x) -> insert st x = Some st' ->
  tidy st' /\ lands_in_empty_level st x /\
  (forall level y, In y (get_level st' level) ->
                   y = x \/ exists level', In y (get_level st level')) /\
  total_size st' = S (total_size st) /\
  (levels_bounded st -> levels_bounded st').
Proof.
  intros Ht Hused Hfresh H.
  pose proof (tidy_lands st x Ht Hused) as Hland.
  destruct Ht as [Hwf Hfull Hdis].
  pose proof (insert_wf_lands st st' x Hwf Hland H) as Hwf'.
  assert (Hfresh' : forall level z, In z (get_level st level) -> key x <> key z).
  { intros level z Hz E. apply (Hfresh level). exists z. split; auto. }
  (* it is enough to look at the levels from [min_level] on *)
  assert (Hreduce :
    (forall level y, (min_level <= level)%nat -> In y (get_level st' level) ->
                     y = x \/ exists level', In y (get_level st level')) ->
    forall level y, In y (get_level st' level) ->
                    y = x \/ exists level', In y (get_level st level')).
  { intros Hall level y Hy. rewrite get_level_below in Hy.
    apply (Hall (Nat.max level min_level) y ltac:(lia) Hy). }
  destruct (insert_cases st st' x Hwf H)
    as [(old & Hold & Hk & _)
       |[(Hno & Hroom & E)
        |(Hno & Hlen & HT & Hu' & Hlen' & Hlow & Hhigh & _ & _)]].
  - exfalso. apply (Hfresh min_level). exists old. split; [|assumption].
    eapply nth_error_In. eassumption.
  - (* the buffer has room *)
    destruct (well_formed_slots st Hwf) as (_ & Hl & _).
    set (buf' := firstn (lower_bound_pos (get_level st min_level) (key x))
                   (get_level st min_level)
                 ++ x :: skipn (lower_bound_pos (get_level st min_level) (key x))
                           (get_level st min_level)) in *.
    assert (Hbuf : get_level st' min_level = buf').
    { rewrite E. unfold get_level. cbn [data].
      rewrite Nat.sub_diag. apply nth_set_nth_eq. lia. }
    assert (Hdeep : forall i, (min_level < i)%nat ->
                              get_level st' i = get_level st i).
    { intros i Hi. rewrite E. unfold get_level. cbn [data].
      apply nth_set_nth_neq. lia. }
    assert (Hcross : forall y z j, (min_level < j)%nat ->
              In y (get_level st' min_level) -> In z (get_level st j) ->
              key y <> key z).
    { intros y z j Hj Hy Hz. rewrite Hbuf in Hy.
      apply In_insert_at in Hy as [->|Hy]; [eapply Hfresh'; eassumption|].
      apply (Hdis min_level j y z); auto; lia. }
    assert (Htotal : total_size st' = S (total_size st)).
    { assert (Hn : length (data st') = length (data st))
        by (rewrite E; cbn [data]; apply length_set_nth).
      rewrite (total_size_split st' (length (data st')) min_level),
              (total_size_split st (length (data st')) min_level) by lia.
      rewrite Nat.sub_diag. cbn [seq sum_sizes].
      rewrite Hbuf. unfold buf'. rewrite length_insert_at.
      rewrite (sum_sizes_ext (data st') (data st)); [lia|].
      intros i Hi. apply in_seq in Hi. apply (Hdeep i). lia. }
    split; [|split; [|split; [|split]]].
    + constructor; [exact Hwf'| |].
      * intros level Hlevel. rewrite Hdeep by assumption. apply Hfull. assumption.
      * intros i j y z Hi Hj Hij Hy Hz.
        destruct (Nat.eq_dec i min_level) as [->|Hi'];
          destruct (Nat.eq_dec j min_level) as [->|Hj'].
        -- contradiction.
        -- rewrite Hdeep in Hz by lia. apply (Hcross y z j); auto; lia.
        -- rewrite Hdeep in Hy by lia. intros Ek.
           apply (Hcross z y i); auto; lia.
        -- rewrite Hdeep in Hy, Hz by lia. apply (Hdis i j y z); auto.
    + right. left. exact Hroom.
    + apply Hreduce. intros level y Hlevel Hy.
      destruct (Nat.eq_dec level min_level) as [->|Hne].
      * rewrite Hbuf in Hy. apply In_insert_at in Hy as [->|Hy];
          [left; reflexivity|right; exists min_level; exact Hy].
      * rewrite Hdeep in Hy by lia. right. exists level. exact Hy.
    + exact Htotal.
    + intros Hb. unfold levels_bounded in *. rewrite Htotal, E.
      cbn [used_levels].
      destruct (Nat.eqb_spec (used_levels st) min_level); [left; lia|].
      destruct Hb as [Hb|Hb]; [left; exact Hb|right; lia].
  - (* the buffer is full: a cascade *)
    destruct (cascade_target_empty st Hwf Hfull ltac:(lia)) as [Hempty Hfulls].
    pose proof (wf_sorted Hwf' (cascade_target st)) as Hs'.
    set (T := cascade_target st) in *.
    set (buf := get_level st min_level) in *.
    set (seeded := firstn (lower_bound_pos buf (key x)) buf
                   ++ x :: skipn (lower_bound_pos buf (key x)) buf).
    set (levels := seq (1 + min_level) (T - 1 - min_level)).
    pose proof (insert_cascade_content st st' x Hwf Hno Hlen Hempty H) as Hcont.
    fold T buf seeded levels in Hcont.
    assert (Hlevels : forall i, In i levels <-> (min_level < i < T)%nat).
    { intros i. unfold levels. rewrite in_seq. lia. }
    assert (Hsbuf : sorted buf) by apply (wf_sorted Hwf).
    assert (Hsorted : Forall sorted (seeded :: map (get_level st) levels)).
    { constructor.
      - apply insert_at_lower_bound_sorted; [exact Hsbuf|].
        apply absent_at_lower_bound; assumption.
      - apply Forall_forall. intros r Hr.
        apply in_map_iff in Hr as (i & <- & _). apply (wf_sorted Hwf). }
    assert (Hdisjoint : disjoint_runs (seeded :: map (get_level st) levels)).
    { split.
      - intros y z Hy Hz. apply In_concat_levels in Hz as (i & Hi & Hz).
        apply Hlevels in Hi.
        apply In_insert_at in Hy as [->|Hy]; [eapply Hfresh'; eassumption|].
        apply (Hdis min_level i y z); auto; lia.
      - apply disjoint_levels_runs; [exact Hdis|apply seq_NoDup|].
        intros i Hi. apply Hlevels in Hi. lia. }
    destruct (entries_length (get_level st' T) _ Hs' Hsorted Hdisjoint Hcont)
      as [Hcount Hfrom].
    assert (Hsource : forall y, In y (get_level st' T) ->
              y = x \/ exists i, (min_level <= i < T)%nat /\
                                 In y (get_level st i)).
    { intros y Hy. specialize (Hfrom y Hy). cbn [concat] in Hfrom.
      apply in_app_or in Hfrom as [Hin|Hin].
      - apply In_insert_at in Hin as [->|Hin]; [left; reflexivity|].
        right. exists min_level. split; [lia|exact Hin].
      - apply In_concat_levels in Hin as (i & Hi & Hin). apply Hlevels in Hi.
        right. exists i. split; [lia|exact Hin]. }
    assert (Hcross : forall y z j, (T < j)%nat ->
              In y (get_level st' T) -> In z (get_level st j) ->
              key y <> key z).
    { intros y z j Hj Hy Hz.
      destruct (Hsource y Hy) as [->|(i & Hi & Hin)];
        [eapply Hfresh'; eassumption|].
      apply (Hdis i j y z); auto; lia. }
    assert (Hmoved : length (get_level st' T)
                     = (2 ^ (1 + min_level) + sum_sizes (data st) levels)%nat).
    { rewrite Hcount. cbn [concat]. rewrite length_app.
      pose proof (length_concat_levels (data st) levels) as Hsum.
      change (map (fun i => nth (i - min_level) (data st) []) levels)
        with (map (get_level st) levels) in Hsum.
      rewrite Hsum. unfold seeded. rewrite length_insert_at. fold buf.
      rewrite Hlen.
      change (2 ^ (min_level + 1))%nat with 128%nat.
      change (2 ^ (1 + min_level))%nat with 128%nat. lia. }
    assert (Hpow : length (get_level st' T) = (2 ^ T)%nat).
    { rewrite Hmoved.
      pose proof (full_levels_sum (data st) (T - 1 - min_level)) as Hpow.
      replace (1 + min_level + (T - 1 - min_level))%nat with T in Hpow by lia.
      apply Hpow. intros j Hj. apply (Hfulls j). lia. }
    assert (Hn : (length (data st) <= length (data st'))%nat).
    { rewrite Hlen'. destruct (Nat.eqb T (used_levels st)); lia. }
    assert (HTn : (T - min_level < length (data st'))%nat).
    { destruct (well_formed_slots st Hwf) as (_ & _ & Ha & _).
      rewrite Hlen'. destruct (Nat.eqb_spec T (used_levels st)); lia. }
    assert (Hsplit' : total_size st'
              = (length (get_level st' T)
                 + sum_sizes (data st)
                     (seq (S T) (length (data st') - S (T - min_level))))%nat).
    { rewrite (total_size_split st' (length (data st')) T) by lia.
      rewrite sum_sizes_nil.
      - rewrite (sum_sizes_ext (data st') (data st)); [lia|].
        intros i Hi. apply in_seq in Hi. apply (Hhigh i). lia.
      - intros i Hi. apply in_seq in Hi. apply (Hlow i). lia. }
    assert (Htotal : total_size st' = S (total_size st)).
    { rewrite Hsplit', Hmoved.
      rewrite (total_size_split st (length (data st')) T) by lia.
      fold T in Hempty. rewrite Hempty.
      replace (T - min_level)%nat with (S (T - 1 - min_level)) at 2 by lia.
      cbn [seq sum_sizes]. rewrite Nat.sub_diag.
      fold levels. change (nth 0 (data st) []) with (get_level st min_level).
      fold buf. rewrite Hlen.
      change (2 ^ (min_level + 1))%nat with 128%nat.
      change (2 ^ (1 + min_level))%nat with 128%nat. simpl length.
      change (seq (S min_level) (T - 1 - min_level)) with levels. lia. }
    split; [|split; [|split; [|split]]].
    + constructor; [exact Hwf'| |].
      * intros level Hlevel.
        destruct (Nat.lt_trichotomy level T) as [Hlt|[->|Hgt]].
        -- left. apply Hlow. lia.
        -- right. exact Hpow.
        -- rewrite Hhigh by assumption. apply Hfull. assumption.
      * intros i j y z Hi Hj Hij Hy Hz.
        destruct (Nat.lt_trichotomy i T) as [Hlt|[->|Hgt]];
          [rewrite Hlow in Hy by lia; destruct Hy| |];
          (destruct (Nat.lt_trichotomy j T) as [Hlt'|[->|Hgt']];
           [rewrite Hlow in Hz by lia; destruct Hz| |]).
        -- contradiction.
        -- rewrite Hhigh in Hz by assumption. apply (Hcross y z j); auto.
        -- rewrite Hhigh in Hy by assumption. intros Ek.
           apply (Hcross z y i); auto.
        -- rewrite Hhigh in Hy, Hz by assumption. apply (Hdis i j y z); auto.
    + right. right. exact Hempty.
    + apply Hreduce. intros level y Hlevel Hy.
      destruct (Nat.lt_trichotomy level T) as [Hlt|[->|Hgt]].
      * rewrite Hlow in Hy by lia. destruct Hy.
      * destruct (Hsource y Hy) as [->|(i & _ & Hin)];
          [left; reflexivity|right; exists i; exact Hin].
      * rewrite Hhigh in Hy by assumption. right. exists level. exact Hy.
    + exact Htotal.
    + intros Hb. unfold levels_bounded in *. rewrite Hu'.
      destruct (Nat.eq_dec T (used_levels st)) as [ET|ET].
      * right. replace (Nat.max (used_levels st) (T + 1) - 1)%nat with T by lia.
        rewrite <- pow2_of_nat, <- Hpow, Hsplit'. lia.
      * replace (Nat.max (used_levels st) (T + 1)) with (used_levels st) by lia.
        rewrite Htotal. destruct Hb as [Hb|Hb]; [left; exact Hb|right; lia].
Qed.

(** ** Runs on fresh keys *)

Lemma insert_tidy_defined (st : DynamicPGMIndex) (x : Item) :
  tidy st -> (used_levels st < 64)%nat -> exists st', insert st x = Some st'.
Proof.
  intros Ht H64. pose proof (tidy_wf Ht) as Hwf.
  destruct (well_formed_slots st Hwf) as (_ & Hl & _).
  destruct (nth_error (data st) 0) as [level0|] eqn:H0;
    [|apply nth_error_None in H0; lia].
  apply (insert_defined_from_new st x level0
           (first_level_sorted st level0 Hwf H0) H0).
  apply (insert_new_defined st x level0 Hwf H64); [|exact H0].
  apply tidy_lands; [exact Ht|lia].
Qed.

Lemma fresh_run_step (st st1 : DynamicPGMIndex) (o : Op) (ops : list Op) :
  fresh_run st (o :: ops) ->
  (forall level y, In y (get_level st1 level) ->
     y = item_of o \/ exists level', In y (get_level st level')) ->
  fresh_run st1 ops.
Proof.
  intros [Hnd Hfresh] Hfrom.
  cbn [map] in Hnd. apply NoDup_cons_iff in Hnd as [Hnotin Hnd].
  split; [exact Hnd|]. intros o' Ho' level (y & Hy & Hk).
  destruct (Hfrom level y Hy) as [->|(level' & Hy')].
  - apply Hnotin. rewrite Hk.
    apply (in_map (fun o => key (item_of o)) ops o' Ho').
  - apply (Hfresh o' (or_intror Ho') level'). exists y. split; assumption.
Qed.

Lemma levels_bounded_lt (st : DynamicPGMIndex) :
  levels_bounded st -> Z.of_nat (total_size st) < 2 ^ 62 ->
  (used_levels st < 64)%nat.
Proof.
  intros [Hb|Hb] Ht; [change min_level with 6%nat in Hb; lia|].
  assert (H : Z.of_nat (used_levels st - 1) < 62).
  { apply (Z.pow_lt_mono_r_iff 2); lia. }
  lia.
Qed.

(** X23: from a state in which every level under the buffer is empty or
    full and no key is held twice (the empty container is such a state), a
    run of inserts and erases on pairwise different keys that the
    container does not hold has defined behaviour throughout, as long as
    the entries stay fewer than [2^62]: no access is out of range and no
    cascade installs a slot that was never written.  The state stays of
    that kind, and every operation adds exactly one entry. *)
Theorem fresh_run_is_defined (ops : list Op) :
  forall st : DynamicPGMIndex,
    tidy st -> levels_bounded st -> fresh_run st ops ->
    Z.of_nat (total_size st + length ops) < 2 ^ 62 ->
    exists st',
      apply_ops st ops = Some st' /\
      tidy st' /\ levels_bounded st' /\
      total_size st' = (total_size st + length ops)%nat.
Proof.
  induction ops as [|o ops IH]; intros st Ht Hb Hfresh Hsize.
  - exists st. simpl. rewrite Nat.add_0_r. auto.
  - simpl length in Hsize.
    pose proof (levels_bounded_lt st Hb ltac:(lia)) as H64.
    destruct (insert_tidy_defined st (item_of o) Ht H64) as (st1 & H1).
    destruct (insert_fresh_tidy st st1 (item_of o) Ht ltac:(lia)
                (proj2 Hfresh o (or_introl eq_refl)) H1)
      as (Ht1 & _ & Hfrom & Htotal & Hb1).
    destruct (IH st1 Ht1 (Hb1 Hb) (fresh_run_step st st1 o ops Hfresh Hfrom)
                ltac:(rewrite Htotal; lia)) as (st' & Hrun & Ht' & Hb' & Hcount).
    exists st'. cbn [apply_ops].
    assert (E : apply_op st o = Some st1) by (destruct o; exact H1).
    rewrite E. cbn [obind].
    split; [exact Hrun|]. split; [exact Ht'|]. split; [exact Hb'|].
    rewrite Hcount, Htotal. simpl length. lia.
Qed.

(** A run on fresh keys keeps the state tidy. *)
Lemma apply_ops_fresh_tidy (ops : list Op) :
  forall st st' : DynamicPGMIndex,
    tidy st -> fresh_run st ops ->
    apply_ops st ops = Some st' -> (used_levels st' <= 64)%nat ->
    tidy st'.
Proof.
  induction ops as [|o ops IH]; intros st st' Ht Hfresh H Hused.
  - simpl in H. injection H as <-. exact Ht.
  - cbn [apply_ops] in H. apply obind_Some in H as (st1 & H1 & H).
    assert (H1' : insert st (item_of o) = Some st1) by (destruct o; exact H1).
    pose proof (tidy_wf Ht) as Hwf.
    destruct (insert_shaped st st1 _ (well_formed_shaped st Hwf) H1')
      as (Hsh1 & Hle & _).
    destruct (apply_ops_shaped ops st1 st' Hsh1 H) as (_ & Hle1 & _).
    destruct (insert_fresh_tidy st st1 (item_of o) Ht ltac:(lia)
                (proj2 Hfresh o (or_introl eq_refl)) H1')
      as (Ht1 & _ & Hfrom & _).
    apply (IH st1 st' Ht1 (fresh_run_step st st1 o ops Hfresh Hfrom) H Hused).
Qed.

(** [insert(x)] with a full buffer and a target that holds data: the target
    is given the first entries of the running sequence of the levels above
    it, as many as the last merge has put out, and slots that were never
    written where that sequence is shorter. *)
Lemma insert_occupied_target (st st' : DynamicPGMIndex) (x : Item) :
  well_formed st ->
  ~ has_key (get_level st min_level) (key x) ->
  length (get_level st min_level) = (2 ^ (min_level + 1) - 1)%nat ->
  get_level st (cascade_target st) <> [] ->
  insert st x = Some st' ->
  get_level st' (cascade_target st)
  = firstn
      (length
         (merge (Nat.eqb (cascade_target st) (used_levels st - 1))
            (cascade_run st x) (get_level st (cascade_target st))))
      (cascade_run st x)
    ++ map (uninit_slot st)
         (seq (length (cascade_run st x))
            (length
               (merge (Nat.eqb (cascade_target st) (used_levels st - 1))
                  (cascade_run st x) (get_level st (cascade_target st)))
             - length (cascade_run st x))).
Proof.
  intros Hwf Hno Hfull Hocc H.
  destruct (insert_cases st st' x Hwf H)
    as [(old & Hold & Hko & _)
       |[(_ & Hroom & _)
        |(_ & _ & _ & _ & _ & _ & _ & Ht & _)]].
  - exfalso. apply Hno. exists old. split; [|exact Hko].
    eapply nth_error_In. exact Hold.
  - lia.
  - rewrite Ht. unfold cascade_output, installed.
    destruct (get_level st (cascade_target st)); [congruence|reflexivity].
Qed.

(** The entries of the target after such an insert. *)
Lemma occupied_target_entries (st st' : DynamicPGMIndex) (x : Item) :
  well_formed st ->
  ~ has_key (get_level st min_level) (key x) ->
  length (get_level st min_level) = (2 ^ (min_level + 1) - 1)%nat ->
  get_level st (cascade_target st) <> [] ->
  insert st x = Some st' ->
  forall y, In y (get_level st' (cascade_target st)) ->
    In y (cascade_run st x) \/
    exists j,
      (length (cascade_run st x) <= j
       < length
           (merge (Nat.eqb (cascade_target st) (used_levels st - 1))
              (cascade_run st x) (get_level st (cascade_target st))))%nat /\
      y = uninit_slot st j.
Proof.
  intros Hwf Hno Hfull Hocc H y Hy.
  rewrite (insert_occupied_target st st' x Hwf Hno Hfull Hocc H) in Hy.
  apply in_app_or in Hy as [Hy|Hy].
  - left. apply In_firstn in Hy. exact Hy.
  - right. apply in_map_iff in Hy as (j & <- & Hj). apply in_seq in Hj.
    exists j. split; [lia|reflexivity].
Qed.

(** An entry of the running sequence for a key other than the new one
    comes from a level above the target. *)
Lemma cascade_run_lacks (st : DynamicPGMIndex) (x : Item) (k : K) :
  (min_level < cascade_target st)%nat ->
  k <> key x ->
  (forall j, (min_level <= j < cascade_target st)%nat ->
             ~ has_key (get_level st j) k) ->
  ~ has_key (cascade_run st x) k.
Proof.
  intros HT Hk Habove (y & Hy & Hyk).
  unfold cascade_run in Hy.
  apply running_sequence_In in Hy as [Hy|(j & Hj & Hy)].
  - apply In_insert_at in Hy as [->|Hy]; [congruence|].
    apply (Habove min_level); [lia|]. exists y. auto.
  - apply in_seq in Hj. apply (Habove j); [lia|].
    exists y. auto.
Qed.

Lemma cascade_target_above (st st' : DynamicPGMIndex) (x : Item) :
  well_formed st ->
  ~ has_key (get_level st min_level) (key x) ->
  length (get_level st min_level) = (2 ^ (min_level + 1) - 1)%nat ->
  insert st x = Some st' ->
  (min_level < cascade_target st)%nat.
Proof.
  intros Hwf Hno Hfull H.
  destruct (insert_cases st st' x Hwf H)
    as [(old & Hold & Hko & _)|[(_ & Hroom & _)|(_ & _ & HT & _)]].
  - exfalso. apply Hno. exists old. split; [|exact Hko].
    eapply nth_error_In. exact Hold.
  - lia.
  - lia.
Qed.

(** After such an insert that hands out written slots only, the target
    holds no entry for a key, other than the new one, that no level above
    it held. *)
Lemma occupied_target_lacks (st st' : DynamicPGMIndex) (x : Item) (k : K) :
  well_formed st ->
  ~ has_key (get_level st min_level) (key x) ->
  length (get_level st min_level) = (2 ^ (min_level + 1) - 1)%nat ->
  get_level st (cascade_target st) <> [] ->
  insert st x = Some st' ->
  (length
     (merge (Nat.eqb (cascade_target st) (used_levels st - 1))
        (cascade_run st x) (get_level st (cascade_target st)))
   <= length (cascade_run st x))%nat ->
  k <> key x ->
  (forall j, (min_level <= j < cascade_target st)%nat ->
             ~ has_key (get_level st j) k) ->
  ~ has_key (get_level st' (cascade_target st)) k.
Proof.
  intros Hwf Hno Hfull Hocc H Hn Hk Habove (y & Hy & Hyk).
  destruct (occupied_target_entries st st' x Hwf Hno Hfull Hocc H y Hy)
    as [Hin|(j & Hj & _)]; [|lia].
  apply (cascade_run_lacks st x k
           (cascade_target_above st st' x Hwf Hno Hfull H) Hk Habove).
  exists y. auto.
Qed.

Lemma first_entry_lacks (runs : list LevelType) (k : K) :
  (forall r, In r runs -> ~ has_key r k) -> first_entry runs k = None.
Proof.
  induction runs as [|r runs IH]; intros H; [reflexivity|].
  cbn [first_entry].
  rewrite (proj2 (level_entry_None r k) (H r (or_introl eq_refl))).
  apply IH. intros r' Hr'. apply H. right. exact Hr'.
Qed.

(** What the levels answer for such a key, before and after the insert. *)
Lemma occupied_target_shallowest (st st' : DynamicPGMIndex) (x : Item) (k : K) :
  well_formed st ->
  ~ has_key (get_level st min_level) (key x) ->
  length (get_level st min_level) = (2 ^ (min_level + 1) - 1)%nat ->
  get_level st (cascade_target st) <> [] ->
  insert st x = Some st' ->
  (length
     (merge (Nat.eqb (cascade_target st) (used_levels st - 1))
        (cascade_run st x) (get_level st (cascade_target st)))
   <= length (cascade_run st x))%nat ->
  k <> key x ->
  (forall j, (min_level <= j < cascade_target st)%nat ->
             ~ has_key (get_level st j) k) ->
  shallowest_entry st' k (seq min_level (used_levels st' - min_level))
  = shallowest_entry st k
      (seq (cascade_target st + 1) (used_levels st - (cascade_target st + 1)))
  /\
  shallowest_entry st k (seq min_level (used_levels st - min_level))
  = match level_entry (get_level st (cascade_target st)) k with
    | Some y => Some y
    | None =>
        shallowest_entry st k
          (seq (cascade_target st + 1)
             (used_levels st - (cascade_target st + 1)))
    end.
Proof.
  intros Hwf Hno Hfull Hocc H Hn Hk Habove.
  pose proof (occupied_target_lacks st st' x k Hwf Hno Hfull Hocc H Hn Hk Habove)
    as Hlacks.
  pose proof (wf_unused Hwf) as Hunused.
  specialize (Hunused (cascade_target st)).
  destruct (insert_cases st st' x Hwf H)
    as [(old & Hold & Hko & _)
       |[(_ & Hroom & _)
        |(_ & _ & HT & Hused & _ & Hlow & Hhigh & _)]].
  { exfalso. apply Hno. exists old. split; [|exact Hko].
    eapply nth_error_In. exact Hold. }
  { lia. }
  set (T := cascade_target st) in *.
  assert (HTu : (T < used_levels st)%nat).
  { destruct (Nat.lt_ge_cases T (used_levels st)); [assumption|].
    exfalso. apply Hocc. apply Hunused. assumption. }
  replace (used_levels st') with (used_levels st) by lia.
  assert (Eseq : seq min_level (used_levels st - min_level)
                 = seq min_level (T - min_level)
                   ++ T :: seq (T + 1) (used_levels st - (T + 1))).
  { replace (used_levels st - min_level)%nat
      with ((T - min_level) + S (used_levels st - (T + 1)))%nat by lia.
    rewrite seq_app. cbn [seq].
    replace (min_level + (T - min_level))%nat with T by lia.
    replace (S T) with (T + 1)%nat by lia. reflexivity. }
  rewrite Eseq. unfold shallowest_entry.
  rewrite !map_app. cbn [map]. rewrite !first_entry_app. cbn [first_entry].
  split.
  - rewrite first_entry_lacks.
    + rewrite (proj2 (level_entry_None _ k) Hlacks).
      f_equal. apply map_ext_in. intros j Hj. apply in_seq in Hj.
      apply Hhigh. lia.
    + intros r Hr. apply in_map_iff in Hr as (j & <- & Hj).
      apply in_seq in Hj. rewrite Hlow by lia. apply has_key_nil.
  - rewrite first_entry_lacks; [reflexivity|].
    intros r Hr. apply in_map_iff in Hr as (j & <- & Hj).
    apply in_seq in Hj. apply Habove. lia.
Qed.

(** X26: an insert of a key that the buffer does not hold, into a full
    buffer, whose cascade picks a target level that holds data.  The loop
    then merges the target as well, but its output goes to the scratch
    buffer that is not installed.  With [R] the running sequence of the
    levels above the target and [n] the length of the last merge's output,
    the target is given the first [n] entries of [R], followed, where [n]
    exceeds the length of [R], by slots [length R .. n - 1] of the scratch
    buffer, which the cascade has never written.  [R] answers a lookup like
    the buffer with the new entry, then like the levels above the target in
    their order.  So the target's old content is dropped: for a key other
    than the new one that no level above the target held, every entry the
    target holds after the insert is a slot that was never written.  Where
    [n] is at most the length of [R], the target is the first [n] entries
    of [R] and holds no entry for such a key. *)
Theorem cascade_into_occupied_level_drops_old_content
  (st st' : DynamicPGMIndex) (x : Item) :
  well_formed st ->
  ~ has_key (get_level st min_level) (key x) ->
  length (get_level st min_level) = (2 ^ (min_level + 1) - 1)%nat ->
  get_level st (cascade_target st) <> [] ->
  insert st x = Some st' ->
  get_level st' (cascade_target st)
  = firstn
      (length
         (merge (Nat.eqb (cascade_target st) (used_levels st - 1))
            (cascade_run st x) (get_level st (cascade_target st))))
      (cascade_run st x)
    ++ map (uninit_slot st)
         (seq (length (cascade_run st x))
            (length
               (merge (Nat.eqb (cascade_target st) (used_levels st - 1))
                  (cascade_run st x) (get_level st (cascade_target st)))
             - length (cascade_run st x))) /\
  (forall k,
     level_entry (cascade_run st x) k
     = first_entry
         ((firstn (lower_bound_pos (get_level st min_level) (key x))
             (get_level st min_level)
           ++ x :: skipn (lower_bound_pos (get_level st min_level) (key x))
                     (get_level st min_level))
          :: map (get_level st)
               (seq (1 + min_level) (cascade_target st - 1 - min_level))) k) /\
  (forall k,
     k <> key x ->
     (forall j, (min_level <= j < cascade_target st)%nat ->
                ~ has_key (get_level st j) k) ->
     forall y, In y (get_level st' (cascade_target st)) -> key y = k ->
       exists j,
         (length (cascade_run st x) <= j
          < length
              (merge (Nat.eqb (cascade_target st) (used_levels st - 1))
                 (cascade_run st x) (get_level st (cascade_target st))))%nat /\
         y = uninit_slot st j) /\
  ((length
      (merge (Nat.eqb (cascade_target st) (used_levels st - 1))
         (cascade_run st x) (get_level st (cascade_target st)))
    <= length (cascade_run st x))%nat ->
   get_level st' (cascade_target st)
   = firstn
       (length
          (merge (Nat.eqb (cascade_target st) (used_levels st - 1))
             (cascade_run st x) (get_level st (cascade_target st))))
       (cascade_run st x) /\
   forall k,
     k <> key x ->
     (forall j, (min_level <= j < cascade_target st)%nat ->
                ~ has_key (get_level st j) k) ->
     ~ has_key (get_level st' (cascade_target st)) k).
Proof.
  intros Hwf Hno Hfull Hocc H.
  pose proof (insert_occupied_target st st' x Hwf Hno Hfull Hocc H) as Ht.
  split; [exact Ht|].
  assert (Hsd : forall j, sorted (nth j (data st) [])).
  { intros j. replace j with (j + min_level - min_level)%nat by lia.
    apply (wf_sorted Hwf (j + min_level)%nat). }
  split; [|split].
  - intros k. unfold cascade_run.
    apply running_sequence_entry; [exact Hsd|].
    apply insert_at_lower_bound_sorted; [apply (wf_sorted Hwf)|].
    apply absent_at_lower_bound; [apply (wf_sorted Hwf)|exact Hno].
  - intros k Hk Habove y Hy Hyk.
    destruct (occupied_target_entries st st' x Hwf Hno Hfull Hocc H y Hy)
      as [Hin|Hslot]; [|exact Hslot].
    exfalso.
    apply (cascade_run_lacks st x k
             (cascade_target_above st st' x Hwf Hno Hfull H) Hk Habove).
    exists y. auto.
  - intros Hn. split.
    + rewrite Ht.
      replace (length
                 (merge (Nat.eqb (cascade_target st) (used_levels st - 1))
                    (cascade_run st x) (get_level st (cascade_target st)))
               - length (cascade_run st x))%nat with 0%nat by lia.
      cbn [seq map]. apply app_nil_r.
    + intros k Hk Habove.
      exact (occupied_target_lacks st st' x k Hwf Hno Hfull Hocc H Hn Hk Habove).
Qed.

(** ** An insert stores nothing but the new entry *)

Lemma In_set_nth {A : Type} (p : nat) (x y : A) (l : list A) :
  In y (set_nth p x l) -> y = x \/ In y l.
Proof.
  revert p; induction l as [|a l IH]; intros [|p] H; unfold set_nth in H;
    fold (@set_nth A) in H; simpl in H; try contradiction.
  - destruct H as [<-|H]; [left; reflexivity|right; right; exact H].
  - destruct H as [<-|H]; [right; left; reflexivity|].
    apply IH in H as [->|H]; [left; reflexivity|right; right; exact H].
Qed.

(** On every path of an insert, each entry stored afterwards is the new
    entry, an entry that was stored before, or a slot of a scratch buffer
    that was never written. *)
Lemma insert_entries_from (st st' : DynamicPGMIndex) (x : Item) :
  shaped st -> insert st x = Some st' ->
  forall i y, In y (get_level st' i) ->
              y = x \/ (exists j, In y (get_level st j)) \/
              exists j, In y (get_level st' (cascade_target st)) /\
                        y = uninit_slot st j.
Proof.
  intros Hsh H i y Hy.
  destruct (shaped_slots st Hsh) as (Hu & Hl & _).
  destruct (insert_shape_cases st st' x Hsh H)
    as [(old & _ & _ & E)
       |[(_ & _ & E)
        |(Hno & Hfull & HT & _ & _ & Hlow & Hhigh & Ht & _)]].
  - subst st'. unfold get_level in Hy. cbn [data] in Hy.
    destruct (i - min_level)%nat as [|m] eqn:Em.
    + rewrite nth_set_nth_eq in Hy by lia.
      apply In_set_nth in Hy as [->|Hy]; [left; reflexivity|].
      right. left. exists min_level. exact Hy.
    + rewrite nth_set_nth_neq in Hy by lia.
      right. left. exists i. unfold get_level. rewrite Em. exact Hy.
  - subst st'. unfold get_level in Hy. cbn [data] in Hy.
    destruct (i - min_level)%nat as [|m] eqn:Em.
    + rewrite nth_set_nth_eq in Hy by lia.
      apply In_insert_at in Hy as [->|Hy]; [left; reflexivity|].
      right. left. exists min_level. exact Hy.
    + rewrite nth_set_nth_neq in Hy by lia.
      right. left. exists i. unfold get_level. rewrite Em. exact Hy.
  - destruct (Nat.lt_trichotomy i (cascade_target st)) as [Hi|[->|Hi]].
    + exfalso.
      assert (E : get_level st' i = get_level st' (Nat.max i min_level)).
      { unfold get_level. f_equal. lia. }
      rewrite E, Hlow in Hy by lia. exact Hy.
    + pose proof Hy as Hy'. rewrite Ht in Hy. unfold cascade_output in Hy.
      apply In_installed in Hy as [Hy|(j & ->)].
      * unfold cascade_run in Hy.
        apply running_sequence_In in Hy as [Hy|(j & _ & Hy)].
        -- apply In_insert_at in Hy as [->|Hy]; [left; reflexivity|].
           right. left. exists min_level. exact Hy.
        -- right. left. exists j. exact Hy.
      * right. right. exists j. split; [exact Hy'|reflexivity].
    + rewrite Hhigh in Hy by lia. right. left. exists i. exact Hy.
Qed.

(** Where the insert hands out written slots only, each entry stored
    afterwards is the new entry or an entry that was stored before. *)
Lemma insert_written_entries_from (st st' : DynamicPGMIndex) (x : Item) :
  well_formed st -> hands_out_written st x -> insert st x = Some st' ->
  forall i y, In y (get_level st' i) ->
              y = x \/ exists j, In y (get_level st j).
Proof.
  intros Hwf Hw H i y Hy.
  destruct (insert_entries_from st st' x (well_formed_shaped st Hwf) H i y Hy)
    as [->|[Hold|(j & Hy' & _)]]; [left; reflexivity|right; exact Hold|].
  clear i Hy j.
  destruct (insert_shape_cases st st' x (well_formed_shaped st Hwf) H)
    as [(old & _ & _ & E)
       |[(_ & _ & E)
        |(Hno & Hfull & HT & _ & _ & _ & _ & Ht & _)]].
  - subst st'. unfold get_level in Hy'. cbn [data] in Hy'.
    destruct (cascade_target st - min_level)%nat as [|m] eqn:Em.
    + destruct (well_formed_slots st Hwf) as (_ & Hl & _).
      rewrite nth_set_nth_eq in Hy' by lia.
      apply In_set_nth in Hy' as [->|Hy']; [left; reflexivity|].
      right. exists min_level. exact Hy'.
    + rewrite nth_set_nth_neq in Hy' by lia.
      right. exists (cascade_target st). unfold get_level. rewrite Em. exact Hy'.
  - subst st'. unfold get_level in Hy'. cbn [data] in Hy'.
    destruct (cascade_target st - min_level)%nat as [|m] eqn:Em.
    + destruct (well_formed_slots st Hwf) as (_ & Hl & _).
      rewrite nth_set_nth_eq in Hy' by lia.
      apply In_insert_at in Hy' as [->|Hy']; [left; reflexivity|].
      right. exists min_level. exact Hy'.
    + rewrite nth_set_nth_neq in Hy' by lia.
      right. exists (cascade_target st). unfold get_level. rewrite Em. exact Hy'.
  - rewrite Ht in Hy'.
    destruct (cascade_output_written st x Hwf Hno Hfull Hw) as (E & _).
    rewrite E in Hy'. apply In_firstn in Hy'. unfold cascade_run in Hy'.
    apply running_sequence_In in Hy' as [Hy'|(j & _ & Hy')].
    + apply In_insert_at in Hy' as [->|Hy']; [left; reflexivity|].
      right. exists min_level. exact Hy'.
    + right. exists j. exact Hy'.
Qed.

Lemma apply_ops_entries_from (ops : list Op) :
  forall st st' : DynamicPGMIndex,
    shaped st -> apply_ops st ops = Some st' ->
    forall i y, In y (get_level st' i) ->
                In y (map item_of ops) \/ (exists j, In y (get_level st j)) \/
                exists s j, y = uninit_slot s j.
Proof.
  induction ops as [|o ops IH]; intros st st' Hsh H i y Hy.
  - simpl in H. injection H as <-. right. left. exists i. exact Hy.
  - cbn [apply_ops] in H. apply obind_Some in H as (st1 & H1 & H).
    assert (H1' : insert st (item_of o) = Some st1)
      by (destruct o; exact H1).
    destruct (insert_shaped st st1 _ Hsh H1') as (Hsh1 & _).
    destruct (IH st1 st' Hsh1 H i y Hy) as [Hin|[(j & Hj)|Hslot]].
    + left. right. exact Hin.
    + destruct (insert_entries_from st st1 _ Hsh H1' j y Hj)
        as [->|[Hold|(m & _ & ->)]].
      * left. left. reflexivity.
      * right. left. exact Hold.
      * right. right. exists st, m. reflexivity.
    + right. right. exact Hslot.
Qed.

Lemma written_run_entries_from (ops : list Op) :
  forall st st' : DynamicPGMIndex,
    well_formed st -> written_run st ops -> apply_ops st ops = Some st' ->
    forall i y, In y (get_level st' i) ->
                In y (map item_of ops) \/ exists j, In y (get_level st j).
Proof.
  induction ops as [|o ops IH]; intros st st' Hwf Hw H i y Hy.
  - simpl in H. injection H as <-. right. exists i. exact Hy.
  - cbn [apply_ops] in H. apply obind_Some in H as (st1 & H1 & H).
    destruct Hw as [Hw1 Hw].
    assert (H1' : insert st (item_of o) = Some st1)
      by (destruct o; exact H1).
    destruct (IH st1 st' (insert_wf st st1 _ Hwf Hw1 H1') (Hw st1 H1) H i y Hy)
      as [Hin|(j & Hj)].
    + left. right. exact Hin.
    + destruct (insert_written_entries_from st st1 _ Hwf Hw1 H1' j y Hj)
        as [->|Hold].
      * left. left. reflexivity.
      * right. exact Hold.
Qed.

(** X28: whatever inserts and erases run from a well-formed state, cascades
    into levels that hold data included, each entry stored afterwards is
    the entry of one of the operations, an entry that was stored before the
    run, or a slot of a scratch buffer that a cascade installed without
    ever writing it: a merge makes no entry up.  On a run no operation of
    which hands out a slot that was never written, each entry stored
    afterwards is the entry of one of the operations or an entry that was
    stored before the run. *)
Theorem stored_entries_come_from_operations (ops : list Op) :
  forall st st' : DynamicPGMIndex,
    well_formed st -> apply_ops st ops = Some st' ->
    forall i y, In y (get_level st' i) ->
      (In y (map item_of ops) \/ (exists j, In y (get_level st j)) \/
       exists s j, y = uninit_slot s j) /\
      (written_run st ops ->
       In y (map item_of ops) \/ exists j, In y (get_level st j)).
Proof.
  intros st st' Hwf H i y Hy. split.
  - exact (apply_ops_entries_from ops st st' (well_formed_shaped st Hwf) H i y Hy).
  - intros Hw.
    exact (written_run_entries_from ops st st' Hwf Hw H i y Hy).
Qed.

End Proofs.

(** * Lookups and iteration *)

Section Lookups.

Context {V : Type} {BI : BaseItem V} {U : Uninit} {VL : @ValueLess V}.
Variable MinIndexedLevel : nat.
Variable pgm_search : LevelType -> K -> nat * nat.
Variable K_min : K.

Local Open Scope Z_scope.

(** Under the contract of the learned index every level is probed at the
    lower bound of the key. *)
Lemma probe_correct (i : nat) (level : LevelType) (k : K) :
  search_brackets pgm_search -> sorted level ->
  probe MinIndexedLevel pgm_search i level k = lower_bound_pos level k.
Proof.
  intros Hc Hs. unfold probe.
  destruct (Nat.ltb i MinIndexedLevel); [reflexivity|].
  destruct (Hc level k Hs) as (Hlo & Hhi & _).
  pose proof (lower_le_upper_bound_pos level k Hs).
  destruct (pgm_search level k) as [lo hi]. simpl in *.
  apply lower_bound_in_correct. lia.
Qed.

Lemma deref_entry_at (st : DynamicPGMIndex) (i : internal_iterator) (x : Item) :
  deref st i = Some x -> entry_at st i = x.
Proof. unfold deref, entry_at. intros H. apply nth_error_nth. assumption. Qed.

(** The loop of [lower_bound]: after the levels [seen], [lo] is the best
    candidate of these levels, if one of them has a candidate. *)
Lemma lower_bound_from_spec (st : DynamicPGMIndex) (k : K) (levels : list nat) :
  search_brackets pgm_search -> levels_sorted st ->
  forall (seen : list nat) (lo : option internal_iterator),
    match lo with
    | Some l =>
        In (fst l) seen /\
        exists x, deref st l = Some x /\
          level_lower_bound (get_level st (fst l)) k x /\
          forall i y, In i seen -> level_lower_bound (get_level st i) k y ->
                      key x <= key y
    | None =>
        forall i y, In i seen -> ~ level_lower_bound (get_level st i) k y
    end ->
    match lower_bound_from MinIndexedLevel pgm_search st k levels lo with
    | Some l =>
        In (fst l) (seen ++ levels) /\
        exists x, deref st l = Some x /\
          level_lower_bound (get_level st (fst l)) k x /\
          forall i y, In i (seen ++ levels) ->
                      level_lower_bound (get_level st i) k y ->
                      key x <= key y
    | None =>
        forall i y, In i (seen ++ levels) ->
                    ~ level_lower_bound (get_level st i) k y
    end.
Proof.
  intros Hc Hsorted. induction levels as [|i levels IH]; intros seen lo Hlo.
  - simpl. rewrite app_nil_r. assumption.
  - replace (seen ++ i :: levels) with ((seen ++ [i]) ++ levels)
      by (rewrite <- app_assoc; reflexivity).
    simpl lower_bound_from.
    pose proof (Hsorted i) as Hsi.
    (* the candidate of level [i], if any *)
    assert (Hskip :
      forall lo',
        (match lo' with
         | Some l =>
             In (fst l) (seen ++ [i]) /\
             exists x, deref st l = Some x /\
               level_lower_bound (get_level st (fst l)) k x /\
               forall i' y, In i' (seen ++ [i]) ->
                            level_lower_bound (get_level st i') k y ->
                            key x <= key y
         | None =>
             forall i' y, In i' (seen ++ [i]) ->
                          ~ level_lower_bound (get_level st i') k y
         end) ->
        match lower_bound_from MinIndexedLevel pgm_search st k levels lo' with
        | Some l =>
            In (fst l) ((seen ++ [i]) ++ levels) /\
            exists x, deref st l = Some x /\
              level_lower_bound (get_level st (fst l)) k x /\
              forall i' y, In i' ((seen ++ [i]) ++ levels) ->
                           level_lower_bound (get_level st i') k y ->
                           key x <= key y
        | None =>
            forall i' y, In i' ((seen ++ [i]) ++ levels) ->
                         ~ level_lower_bound (get_level st i') k y
        end) by (intros lo'; apply IH).
    (* level [i] has no candidate: [lo] stays *)
    assert (Hkeep :
      (forall y, ~ level_lower_bound (get_level st i) k y) ->
      match lo with
      | Some l =>
          In (fst l) (seen ++ [i]) /\
          exists x, deref st l = Some x /\
            level_lower_bound (get_level st (fst l)) k x /\
            forall i' y, In i' (seen ++ [i]) ->
                         level_lower_bound (get_level st i') k y ->
                         key x <= key y
      | None =>
          forall i' y, In i' (seen ++ [i]) ->
                       ~ level_lower_bound (get_level st i') k y
      end).
    { intros Hnone. destruct lo as [l|].
      - destruct Hlo as (Hin & x & Hx & Hlb & Hminx).
        split; [apply in_or_app; auto|].
        exists x. split; [assumption|]. split; [assumption|].
        intros i' y Hi' Hy. apply in_app_or in Hi' as [Hi'|[<-|[]]].
        + eapply Hminx; eassumption.
        + exfalso. eapply Hnone; eassumption.
      - intros i' y Hi' Hy. apply in_app_or in Hi' as [Hi'|[<-|[]]].
        + eapply Hlo; eassumption.
        + eapply Hnone; eassumption. }
    destruct (get_level st i) as [|e0 level'] eqn:Elevel.
    { apply Hskip. apply Hkeep. intros y (Hin & _). contradiction. }
    rewrite <- Elevel in *. clear Elevel e0 level'.
    rewrite (probe_correct i (get_level st i) k Hc Hsi).
    set (pos := (lower_bound_pos (get_level st i) k
                 + skip_deleted (skipn (lower_bound_pos (get_level st i) k)
                                   (get_level st i)))%nat).
    destruct (nth_error (get_level st i) pos) as [x|] eqn:Hx.
    2:{ apply Hskip. apply Hkeep. intros y.
        apply level_candidate_None; assumption. }
    pose proof (level_candidate_Some _ _ _ Hsi Hx) as Hcand.
    assert (Hkx : (k <=? key x) = true)
      by (apply Z.leb_le; destruct Hcand as (_ & _ & Hk & _); exact Hk).
    rewrite Hkx. simpl andb.
    (* level [i]'s candidate is the only one of the level up to its key *)
    assert (Hlevel : forall y, level_lower_bound (get_level st i) k y ->
                               key x <= key y /\ key y <= key x).
    { intros y (Hiny & Hdy & Hky & Hminy).
      destruct Hcand as (Hinx & Hdx & Hkx' & Hminx). split; auto. }
    destruct lo as [l|].
    + destruct Hlo as (Hin & xl & Hxl & Hlb & Hminl).
      rewrite (deref_entry_at st l xl Hxl).
      destruct (Z.ltb_spec (key x) (key xl)) as [Hlt|Hge].
      * apply Hskip. split; [apply in_or_app; right; left; reflexivity|].
        exists x. split; [exact Hx|]. split; [exact Hcand|].
        intros i' y Hi' Hy. apply in_app_or in Hi' as [Hi'|[<-|[]]].
        -- specialize (Hminl i' y Hi' Hy). lia.
        -- apply Hlevel. assumption.
      * apply Hskip. split; [apply in_or_app; auto|].
        exists xl. split; [assumption|]. split; [assumption|].
        intros i' y Hi' Hy. apply in_app_or in Hi' as [Hi'|[<-|[]]].
        -- eapply Hminl; eassumption.
        -- destruct (Hlevel y Hy). lia.
    + apply Hskip. split; [apply in_or_app; right; left; reflexivity|].
      exists x. split; [exact Hx|]. split; [exact Hcand|].
      intros i' y Hi' Hy. apply in_app_or in Hi' as [Hi'|[<-|[]]].
      * exfalso. eapply Hlo; eassumption.
      * apply Hlevel. assumption.
Qed.

(** [lower_bound] returns an iterator to an entry that is not a tombstone,
    or [end()]. *)
Lemma lower_bound_live_or_end (st : DynamicPGMIndex) (k : K) :
  search_brackets pgm_search -> levels_sorted st ->
  (exists x, deref st (lower_bound MinIndexedLevel pgm_search st k) = Some x /\
             deleted x = false)
  \/ lower_bound MinIndexedLevel pgm_search st k = end_it st.
Proof.
  intros Hc Hs.
  pose proof (lower_bound_from_spec st k
                (seq min_level (used_levels st - min_level)) Hc Hs [] None) as H.
  unfold lower_bound.
  destruct (lower_bound_from MinIndexedLevel pgm_search st k _ None) as [l|].
  - left. destruct H as (_ & x & Hx & (_ & Hdel & _) & _); [intros i y []|].
    exists x. split; assumption.
  - right. reflexivity.
Qed.

(** C4: [lower_bound(k)] looks at every level below [used_levels].  Either
    it returns an iterator to an entry that is, within its level, the
    smallest entry that is not a tombstone and has a key of at least [k], and
    whose key is no larger than that of the corresponding entry of any other
    level; or no level has such an entry and it returns [end()]. *)
Theorem lower_bound_semantics (st : DynamicPGMIndex) (k : K) :
  search_brackets pgm_search -> levels_sorted st ->
  (exists x,
     (min_level <= fst (lower_bound MinIndexedLevel pgm_search st k) < used_levels st)%nat /\
     deref st (lower_bound MinIndexedLevel pgm_search st k) = Some x /\
     level_lower_bound (get_level st (fst (lower_bound MinIndexedLevel pgm_search st k))) k x /\
     forall i y, (min_level <= i < used_levels st)%nat ->
                 level_lower_bound (get_level st i) k y -> key x <= key y)
  \/
  (lower_bound MinIndexedLevel pgm_search st k = end_it st /\
   forall i y, (min_level <= i < used_levels st)%nat ->
               ~ level_lower_bound (get_level st i) k y).
Proof.
  intros Hc Hs.
  pose proof (lower_bound_from_spec st k
                (seq min_level (used_levels st - min_level)) Hc Hs [] None) as H.
  simpl app in H. unfold lower_bound.
  assert (Hseq : forall i, In i (seq min_level (used_levels st - min_level)) <->
                           (min_level <= i < used_levels st)%nat)
    by (intros i; rewrite in_seq; lia).
  destruct (lower_bound_from MinIndexedLevel pgm_search st k _ None) as [l|].
  - left. destruct H as (Hin & x & Hx & Hlb & Hmin); [intros i y []|].
    exists x. split; [apply Hseq; assumption|].
    split; [assumption|]. split; [assumption|].
    intros i y Hi. apply Hmin. apply Hseq. assumption.
  - right. split; [reflexivity|].
    intros i y Hi. apply H; [intros ? ? []|]. apply Hseq. assumption.
Qed.

(** ** The priority queue of the iterator *)

Lemma queue_top_from_In (st : DynamicPGMIndex) (q : list queue_pair)
  (best : queue_pair) :
  In (queue_top_from st best q) (best :: q).
Proof.
  revert best; induction q as [|e q IH]; intros best; simpl; [auto|].
  destruct (queue_cmp st best e).
  - destruct (IH e) as [H|H]; auto.
  - destruct (IH best) as [H|H]; auto.
Qed.

(** The top of the queue has the smallest key. *)
Lemma queue_top_from_min (st : DynamicPGMIndex) (q : list queue_pair)
  (best e : queue_pair) :
  In e (best :: q) ->
  key (entry_at st (fst (queue_top_from st best q)))
  <= key (entry_at st (fst e)).
Proof.
  revert best e; induction q as [|e' q IH]; intros best e He; simpl.
  - destruct He as [<-|[]]. lia.
  - unfold queue_cmp.
    destruct (Z.ltb_spec (key (entry_at st (fst e')))
                (key (entry_at st (fst best)))) as [Hlt|Hge]; simpl.
    + pose proof (IH e' e' (or_introl eq_refl)) as Htop.
      destruct He as [<-|[<-|He]].
      * lia.
      * assumption.
      * apply IH. right. assumption.
    + destruct (Z.eqb_spec (key (entry_at st (fst best)))
                  (key (entry_at st (fst e')))) as [Heq|Hne]; simpl.
      * destruct (Nat.ltb (snd e') (snd best)).
        -- pose proof (IH e' e' (or_introl eq_refl)) as Htop.
           destruct He as [<-|[<-|He]].
           ++ lia.
           ++ assumption.
           ++ apply IH. right. assumption.
        -- pose proof (IH best best (or_introl eq_refl)) as Htop.
           destruct He as [<-|[<-|He]].
           ++ assumption.
           ++ lia.
           ++ apply IH. right. assumption.
      * pose proof (IH best best (or_introl eq_refl)) as Htop.
        destruct He as [<-|[<-|He]].
        -- assumption.
        -- lia.
        -- apply IH. right. assumption.
Qed.

Lemma queue_pair_eqb_eq (e1 e2 : queue_pair) :
  queue_pair_eqb e1 e2 = true <-> e1 = e2.
Proof.
  destruct e1 as [[l1 p1] i1], e2 as [[l2 p2] i2]. unfold queue_pair_eqb. simpl.
  rewrite !andb_true_iff, !Nat.eqb_eq. split.
  - intros [[-> ->] ->]. reflexivity.
  - intros [= -> -> ->]. auto.
Qed.

Lemma queue_remove_In (e x : queue_pair) (q : list queue_pair) :
  In x (queue_remove e q) -> In x q.
Proof.
  induction q as [|e' q IH]; simpl; [auto|].
  destruct (queue_pair_eqb e e'); simpl; [auto|].
  intros [<-|H]; auto.
Qed.

Lemma queue_remove_weight (st : DynamicPGMIndex) (e : queue_pair)
  (q : list queue_pair) :
  In e q ->
  (queue_weight st (queue_remove e q)
   + (length (get_level st (snd e)) - snd (fst e))
   = queue_weight st q)%nat.
Proof.
  induction q as [|e' q IH]; simpl; [contradiction|].
  destruct (queue_pair_eqb e e') eqn:E.
  - apply queue_pair_eqb_eq in E as <-. intros _. lia.
  - intros [->|H].
    + rewrite (proj2 (queue_pair_eqb_eq e e) eq_refl) in E. discriminate.
    + simpl. specialize (IH H). lia.
Qed.

Lemma sorted_nth_lt (l : LevelType) (p q : nat) (d : Item) :
  sorted l -> (p < q < length l)%nat -> key (nth p l d) < key (nth q l d).
Proof.
  clear MinIndexedLevel pgm_search K_min.
  revert p q; induction l as [|a l IH]; intros p q Hs Hpq; simpl in Hpq; [lia|].
  destruct q as [|q]; [lia|]. simpl.
  destruct p as [|p].
  - apply (sorted_head_lt Hs). apply nth_In. lia.
  - apply IH; [|lia]. apply sorted_inv in Hs. tauto.
Qed.

(** One step of the queue: the entry handed out is the smallest of the
    queue, the queue left holds larger or equal keys, and the total
    distance the cursors have to go has dropped. *)
Lemma queue_step_spec (st : DynamicPGMIndex) (c : K) (q : list queue_pair) :
  levels_sorted st -> queue_valid st q -> queue_from st c q -> q <> [] ->
  exists level_it q',
    queue_step st q = Some (level_it, q') /\
    (exists top, In top q /\ level_it = fst top /\
       match q with
       | [] => True
       | e :: q0 => top = queue_top_from st e q0
       end) /\
    (snd level_it < length (get_level st (fst level_it)))%nat /\
    c <= key (entry_at st level_it) /\
    (forall e, In e q -> key (entry_at st level_it) <= key (entry_at st (fst e))) /\
    queue_valid st q' /\
    queue_from st (key (entry_at st level_it)) q' /\
    (queue_weight st q' < queue_weight st q)%nat.
Proof.
  intros Hsorted Hv Hc Hne. destruct q as [|e q0]; [congruence|].
  unfold queue_step. cbv zeta.
  set (top := queue_top_from st e q0).
  pose proof (queue_top_from_In st q0 e) as Hin. fold top in Hin.
  pose proof (fun x => queue_top_from_min st q0 e x) as Hmin. fold top in Hmin.
  destruct (Hv top Hin) as [Hlvl Hpos].
  pose proof (queue_remove_weight st top (e :: q0) Hin) as Hw.
  set (popped := queue_remove top (e :: q0)) in *.
  assert (Hpv : queue_valid st popped).
  { intros x Hx. apply Hv. eapply queue_remove_In; eassumption. }
  assert (Hpf : queue_from st (key (entry_at st (fst top))) popped).
  { intros x Hx. apply Hmin. eapply queue_remove_In; eassumption. }
  cbn [fst snd].
  destruct (Nat.eqb_spec (S (snd (fst top)))
              (length (get_level st (snd top)))) as [Hend|Hmore].
  - exists (fst top), popped. split; [reflexivity|].
    split; [exists top; auto|].
    split; [rewrite Hlvl; assumption|].
    split; [apply Hc; assumption|].
    split; [assumption|]. split; [assumption|]. split; [assumption|].
    simpl in Hw |- *. lia.
  - exists (fst top), ((fst (fst top), S (snd (fst top)), snd top) :: popped).
    split; [reflexivity|].
    split; [exists top; auto|].
    split; [rewrite Hlvl; assumption|].
    split; [apply Hc; assumption|].
    split; [assumption|].
    split.
    { intros x [<-|Hx]; [|auto]. simpl. split; [assumption|]. lia. }
    split.
    { intros x [<-|Hx]; [|auto]. simpl. unfold entry_at. simpl.
      apply Z.lt_le_incl. apply sorted_nth_lt; [apply Hsorted|].
      rewrite Hlvl. lia. }
    simpl in Hw |- *. lia.
Qed.

Lemma queue_valid_weight (st : DynamicPGMIndex) (q : list queue_pair) :
  queue_valid st q -> q <> [] -> (1 <= queue_weight st q)%nat.
Proof.
  intros Hv Hne. destruct q as [|e q]; [congruence|].
  destruct (Hv e (or_introl eq_refl)) as [_ Hpos]. simpl. lia.
Qed.

(** The inner loop of [advance] leaves only keys above [k]. *)
Lemma skip_same_key_spec (st : DynamicPGMIndex) (k : K) :
  levels_sorted st ->
  forall (fuel : nat) (q : list queue_pair),
    queue_valid st q -> queue_from st k q ->
    (queue_weight st q <= fuel)%nat ->
    exists q2,
      skip_same_key st fuel k q = Some q2 /\
      queue_valid st q2 /\ queue_above st k q2 /\
      (queue_weight st q2 <= queue_weight st q)%nat.
Proof.
  intros Hsorted. induction fuel as [|fuel IH]; intros q Hv Hf Hw.
  - destruct q as [|e q0].
    + exists []. split; [reflexivity|]. split; [intros ? []|].
      split; [intros ? []|]. simpl; lia.
    + pose proof (queue_valid_weight st (e :: q0) Hv ltac:(congruence)). lia.
  - destruct q as [|e q0].
    + exists []. split; [reflexivity|]. split; [intros ? []|].
      split; [intros ? []|]. simpl; lia.
    + cbn [skip_same_key].
      destruct (Z.eqb_spec
                  (key (entry_at st (fst (queue_top_from st e q0)))) k)
        as [Heq|Hne].
      * destruct (queue_step_spec st k (e :: q0) Hsorted Hv Hf
                    ltac:(congruence))
          as (level_it & q1 & Hstep & (top & Htin & -> & ->) & _ & _ & _
              & Hv1 & Hf1 & Hw1).
        rewrite Hstep. cbn [obind]. rewrite Heq in Hf1.
        destruct (IH q1 Hv1 Hf1 ltac:(lia)) as (q2 & H2 & Hv2 & Ha2 & Hw2).
        exists q2. split; [assumption|]. split; [assumption|].
        split; [assumption|]. lia.
      * exists (e :: q0). split; [reflexivity|]. split; [assumption|].
        split; [|lia].
        intros x Hx.
        pose proof (queue_top_from_min st q0 e x Hx).
        pose proof (Hf _ (queue_top_from_In st q0 e)). lia.
Qed.

(** The outer loop of [advance]: it stops at an entry with a key above
    [c]; the queue left holds keys above that entry's; and if the entry is
    a tombstone the queue has run empty. *)
Lemma advance_loop_spec (st : DynamicPGMIndex) :
  levels_sorted st ->
  forall (fuel : nat) (q : list queue_pair) (c : K),
    queue_valid st q -> queue_above st c q -> q <> [] ->
    (queue_weight st q < fuel)%nat ->
    exists tmp_it q2,
      advance_loop st fuel q = Some (tmp_it, q2) /\
      (snd tmp_it < length (get_level st (fst tmp_it)))%nat /\
      c < key (entry_at st tmp_it) /\
      queue_valid st q2 /\
      queue_above st (key (entry_at st tmp_it)) q2 /\
      (queue_weight st q2 < queue_weight st q)%nat /\
      (deleted (entry_at st tmp_it) = true -> q2 = []).
Proof.
  intros Hsorted. induction fuel as [|fuel IH]; intros q c Hv Ha Hne Hw; [lia|].
  assert (Hf : queue_from st c q).
  { intros e He. specialize (Ha e He). lia. }
  destruct (queue_step_spec st c q Hsorted Hv Hf Hne)
    as (tmp_it & q1 & Hstep & (top & Htin & -> & _) & Hpos & _ & _
        & Hv1 & Hf1 & Hw1).
  cbn [advance_loop]. rewrite Hstep. cbn [obind].
  destruct (skip_same_key_spec st (key (entry_at st (fst top))) Hsorted
              fuel q1 Hv1 Hf1 ltac:(lia))
    as (q2 & Hskip & Hv2 & Ha2 & Hw2).
  rewrite Hskip. cbn [obind].
  destruct q2 as [|e2 q2'].
  - exists (fst top), []. split; [reflexivity|]. split; [assumption|].
    split; [apply Ha; assumption|]. split; [assumption|].
    split; [assumption|]. split; [simpl in *; lia|]. reflexivity.
  - destruct (deleted (entry_at st (fst top))) eqn:Hdel.
    + destruct (IH (e2 :: q2') (key (entry_at st (fst top))) Hv2 Ha2
                  ltac:(congruence) ltac:(lia))
        as (tmp' & q3 & H3 & Hpos3 & Hc3 & Hv3 & Ha3 & Hw3 & Hd3).
      exists tmp', q3. split; [assumption|]. split; [assumption|].
      split; [specialize (Ha top Htin); lia|]. split; [assumption|].
      split; [assumption|]. split; [lia|]. assumption.
    + exists (fst top), (e2 :: q2'). split; [reflexivity|].
      split; [assumption|]. split; [apply Ha; assumption|].
      split; [assumption|]. split; [assumption|]. split; [lia|].
      intros; congruence.
Qed.

(** ** Positioning the cursors *)

Lemma upper_bound_pos_le (l : LevelType) (k : K) :
  (upper_bound_pos l k <= length l)%nat.
Proof.
  induction l as [|a l IH]; simpl; [lia|].
  destruct (k <? key a); simpl; lia.
Qed.

Lemma upper_bound_pos_gt (l : LevelType) (k : K) (d : Item) :
  (upper_bound_pos l k < length l)%nat ->
  k < key (nth (upper_bound_pos l k) l d).
Proof.
  induction l as [|a l IH]; simpl; [lia|].
  destruct (Z.ltb_spec k (key a)); simpl; [auto|].
  intros H'. apply IH. lia.
Qed.

Lemma initial_pairs_spec (st : DynamicPGMIndex) (cur : Item)
  (levels : list nat) :
  search_brackets pgm_search -> levels_sorted st ->
  queue_valid st (initial_pairs MinIndexedLevel pgm_search st cur levels) /\
  queue_above st (key cur)
    (initial_pairs MinIndexedLevel pgm_search st cur levels) /\
  (queue_weight st (initial_pairs MinIndexedLevel pgm_search st cur levels)
   <= sum_sizes (data st) levels)%nat.
Proof.
  intros Hc Hsorted. induction levels as [|i levels (IHv & IHa & IHw)].
  - simpl. split; [intros ? []|]. split; [intros ? []|]. lia.
  - cbn [initial_pairs sum_sizes]. fold (get_level st i).
    destruct (get_level st i) as [|e0 level'] eqn:Elevel.
    { split; [assumption|]. split; [assumption|]. simpl; lia. }
    rewrite <- Elevel in *. clear Elevel e0 level'.
    assert (Hpos : (let '(lo, hi) :=
                      if (MinIndexedLevel <=? i)%nat
                      then pgm_search (get_level st i) (key cur)
                      else (0%nat, length (get_level st i)) in
                    upper_bound_in (get_level st i) lo hi (key cur))
                   = upper_bound_pos (get_level st i) (key cur)).
    { pose proof (upper_bound_pos_le (get_level st i) (key cur)).
      destruct (MinIndexedLevel <=? i)%nat.
      - destruct (Hc (get_level st i) (key cur) (Hsorted i)) as (Hlo & Hhi & _).
        pose proof (lower_le_upper_bound_pos (get_level st i) (key cur)
                      (Hsorted i)).
        destruct (pgm_search (get_level st i) (key cur)) as [lo hi].
        simpl in *. apply upper_bound_in_correct. lia.
      - apply upper_bound_in_correct. lia. }
    destruct (if (MinIndexedLevel <=? i)%nat
              then pgm_search (get_level st i) (key cur)
              else (0%nat, length (get_level st i))) as [lo hi].
    rewrite Hpos.
    pose proof (upper_bound_pos_le (get_level st i) (key cur)) as Hle.
    destruct (Nat.eqb_spec (upper_bound_pos (get_level st i) (key cur))
                (length (get_level st i))) as [Heq|Hneq].
    { split; [assumption|]. split; [assumption|]. lia. }
    split.
    { intros e [<-|He]; [|auto]. simpl. split; [reflexivity|]. lia. }
    split.
    { intros e [<-|He]; [|auto]. simpl. unfold entry_at. simpl.
      apply upper_bound_pos_gt. lia. }
    simpl. lia.
Qed.

(** ** The traversal *)

Lemma total_size_firstn (d : list LevelType) (n : nat) :
  (fold_right (fun l m => length l + m) 0 (firstn n d)
   <= fold_right (fun l m => length l + m) 0 d)%nat.
Proof.
  revert n; induction d as [|a d IH]; intros [|n]; simpl; try lia.
  specialize (IH n). lia.
Qed.

Lemma sum_sizes_firstn (d : list LevelType) (n : nat) :
  sum_sizes d (seq min_level n)
  = fold_right (fun l m => length l + m)%nat 0%nat (firstn n d).
Proof.
  induction n as [|n IH]; [reflexivity|].
  rewrite seq_S, sum_sizes_app, IH. cbn [sum_sizes].
  replace (min_level + n - min_level)%nat with n by lia.
  clear IH. revert n; induction d as [|a d IHd]; intros [|n]; simpl; try lia.
  specialize (IHd n). simpl in IHd. lia.
Qed.

Lemma sum_sizes_total (st : DynamicPGMIndex) (n : nat) :
  (sum_sizes (data st) (seq min_level n) <= total_size st)%nat.
Proof. rewrite sum_sizes_firstn. apply total_size_firstn. Qed.

Lemma iter_eqb_end (st : DynamicPGMIndex) : iter_eqb (end_ st) (end_ st) = true.
Proof. unfold iter_eqb. rewrite !Nat.eqb_refl. reflexivity. Qed.

(** From an iterator at a live entry the traversal ends and yields strictly
    ascending keys, none of them of a tombstone, none below the current
    one. *)
Lemma traverse_from_spec (st : DynamicPGMIndex) :
  search_brackets pgm_search -> levels_sorted st ->
  forall (fuel : nat) (i : DynamicPGMIndexIterator),
    iter_eqb i (end_ st) = true \/
    ((snd (it i) < length (get_level st (fst (it i))))%nat /\
     deleted (entry_at st (it i)) = false /\
     if initialized i
     then queue_valid st (queue i) /\
          queue_above st (key (entry_at st (it i))) (queue i) /\
          (queue_weight st (queue i) < fuel)%nat
     else (sum_sizes (data st) (seq min_level (used_levels st - min_level))
           < fuel)%nat) ->
    exists l,
      traverse_from MinIndexedLevel pgm_search st fuel i = Some l /\
      sorted l /\
      Forall (fun x => deleted x = false) l /\
      Forall (fun x => key (entry_at st (it i)) <= key x) l.
Proof.
  intros Hc Hsorted. induction fuel as [|fuel IH]; intros i Hi.
  - simpl. destruct (iter_eqb i (end_ st)).
    + exists []. repeat split; constructor.
    + destruct Hi as [Hi|(_ & _ & Hi)]; [discriminate|].
      destruct (initialized i); [destruct Hi as (_ & _ & Hi)|]; lia.
  - cbn [traverse_from]. destruct (iter_eqb i (end_ st)) eqn:Hend.
    + exists []. repeat split; constructor.
    + destruct Hi as [Hi|(Hpos & Hdel & Hi)]; [discriminate|].
      (* the queue after [lazy_initialize_queue] *)
      assert (Hinit : exists q,
        lazy_initialize_queue MinIndexedLevel pgm_search st i
          = Some (mkIter (it i) true q) /\
        queue_valid st q /\
        queue_above st (key (entry_at st (it i))) q /\
        (queue_weight st q <= fuel)%nat).
      { unfold lazy_initialize_queue. destruct i as [cur ini q]; simpl in *.
        destruct ini.
        - exists q. destruct Hi as (Hv & Ha & Hw).
          split; [reflexivity|]. split; [assumption|].
          split; [assumption|]. lia.
        - unfold deref.
          destruct (nth_error (get_level st (fst cur)) (snd cur)) as [x|] eqn:Hx.
          2:{ apply nth_error_None in Hx. lia. }
          cbn [obind].
          assert (Ex : entry_at st cur = x) by (apply deref_entry_at; exact Hx).
          rewrite Ex.
          destruct (initial_pairs_spec st x
                      (seq min_level (used_levels st - min_level)) Hc Hsorted)
            as (Hv & Ha & Hw).
          eexists. split; [reflexivity|]. split; [assumption|].
          split; [assumption|]. lia. }
      destruct Hinit as (q & Hlazy & Hv & Ha & Hw).
      unfold increment. rewrite Hlazy. cbn [obind].
      unfold advance. cbn [queue initialized].
      destruct q as [|e q0].
      * (* nothing left: the iterator becomes [end()] *)
        cbn [obind]. destruct fuel as [|fuel'].
        -- simpl. rewrite iter_eqb_end. cbn [obind].
           exists [entry_at st (it i)].
           split; [reflexivity|]. split; [repeat constructor|].
           split; repeat constructor; [assumption|lia].
        -- cbn [traverse_from]. rewrite iter_eqb_end. cbn [obind].
           exists [entry_at st (it i)].
           split; [reflexivity|]. split; [repeat constructor|].
           split; repeat constructor; [assumption|lia].
      * destruct (advance_loop_spec st Hsorted
                    (S (queue_weight st (e :: q0))) (e :: q0)
                    (key (entry_at st (it i))) Hv Ha ltac:(congruence)
                    ltac:(lia))
          as (tmp_it & q2 & Hloop & Hpos2 & Hkey2 & Hv2 & Ha2 & Hw2 & Hd2).
        rewrite Hloop. cbn [obind].
        destruct (deleted (entry_at st tmp_it)) eqn:Hdel2; cbn [obind].
        -- destruct (IH (end_ st) (or_introl (iter_eqb_end st)))
             as (l & Hl & _).
           assert (El : l = []).
           { destruct fuel; simpl in Hl; rewrite iter_eqb_end in Hl;
               congruence. }
           subst l. rewrite Hl. cbn [obind].
           exists [entry_at st (it i)].
           split; [reflexivity|]. split; [repeat constructor|].
           split; repeat constructor; [assumption|lia].
        -- destruct (IH (mkIter tmp_it true q2)) as (l & Hl & Hsl & Hdl & Hkl).
           { right. cbn [it initialized queue].
             split; [assumption|]. split; [assumption|].
             split; [assumption|]. split; [assumption|]. lia. }
           rewrite Hl. cbn [obind]. cbn [it] in Hkl.
           exists (entry_at st (it i) :: l).
           split; [reflexivity|].
           split.
           { apply sorted_cons; [assumption|].
             rewrite Forall_forall in *. intros y Hy.
             specialize (Hkl y Hy). unfold key_lt. lia. }
           split; [constructor; assumption|].
           constructor; [lia|].
           rewrite Forall_forall in *. intros y Hy.
           specialize (Hkl y Hy). lia.
Qed.

Lemma sorted_NoDup_keys (l : LevelType) : sorted l -> NoDup (map key l).
Proof.
  clear MinIndexedLevel pgm_search K_min.
  induction l as [|a l IH]; simpl; intros Hs; constructor.
  - intros Hin. apply in_map_iff in Hin as (y & Hk & Hy).
    pose proof (sorted_head_lt Hs Hy). lia.
  - apply IH. apply sorted_inv in Hs. tauto.
Qed.

(** In a state whose levels are sorted the traversal from [begin()]
    to [end()] comes to an end, and the entries it yields have strictly
    ascending keys, hence no key twice, and none of them has its deletion
    flag set.  Nothing is said here of a state in which a cascade has left
    a level unsorted, nor of whether a yielded key was erased. *)
Lemma traversal_of_sorted_levels (st : DynamicPGMIndex) :
  search_brackets pgm_search -> levels_sorted st ->
  exists l,
    traverse MinIndexedLevel pgm_search K_min st = Some l /\
    StronglySorted key_lt l /\
    NoDup (map key l) /\
    Forall (fun x => deleted x = false) l.
Proof.
  intros Hc Hsorted.
  destruct (traverse_from_spec st Hc Hsorted (S (total_size st))
              (begin_ MinIndexedLevel pgm_search K_min st))
    as (l & Hl & Hs & Hd & _).
  - unfold begin_, iterator. cbn [it initialized queue].
    destruct (lower_bound_live_or_end st K_min Hc Hsorted)
      as [(x & Hx & Hdel)|Hend].
    + right. split.
      * apply nth_error_Some. unfold deref in Hx. rewrite Hx. discriminate.
      * rewrite (deref_entry_at st _ x Hx). split; [assumption|].
        pose proof (sum_sizes_total st (used_levels st - min_level)). lia.
    + left. unfold iter_eqb. cbn [it end_ iterator]. rewrite Hend.
      rewrite !Nat.eqb_refl. reflexivity.
  - exists l. split; [exact Hl|]. split; [exact Hs|].
    split; [apply sorted_NoDup_keys; exact Hs | exact Hd].
Qed.

(** ** [find] right after a write *)

Lemma nth_last (d : list LevelType) : nth (length d - 1) d [] = last d [].
Proof.
  induction d as [|a d IH]; [reflexivity|].
  destruct d as [|b d]; [reflexivity|].
  simpl length in *. replace (S (S (length d)) - 1)%nat with (S (length d)) by lia.
  replace (S (length d) - 1)%nat with (length d) in IH by lia.
  exact IH.
Qed.

(** An iterator that points at an entry is not [end()]. *)
Lemma entry_not_end (st : DynamicPGMIndex) (level pos : nat) :
  (min_level <= level)%nat ->
  (pos < length (get_level st level))%nat ->
  (Nat.eqb level (fst (end_it st)) && Nat.eqb pos (snd (end_it st))) = false.
Proof.
  intros Hl Hp. apply andb_false_iff.
  destruct (Nat.eqb_spec level (fst (end_it st))) as [E|E]; [|left; reflexivity].
  right. apply Nat.eqb_neq. unfold end_it in *. cbn [fst snd] in *.
  unfold get_level in Hp. rewrite E in Hp.
  replace (min_level + (length (data st) - 1) - min_level)%nat
    with (length (data st) - 1)%nat in Hp by lia.
  rewrite nth_last in Hp. lia.
Qed.

Lemma find_from_empty_levels (st : DynamicPGMIndex) (k : K)
  (l1 l2 : list nat) :
  (forall i, In i l1 -> get_level st i = []) ->
  find_from MinIndexedLevel pgm_search st k (l1 ++ l2)
  = find_from MinIndexedLevel pgm_search st k l2.
Proof.
  induction l1 as [|i l1 IH]; intros H; [reflexivity|].
  simpl. rewrite (H i (or_introl eq_refl)). apply IH.
  intros i' Hi'. apply H. right. assumption.
Qed.

(** After [insert(x)], [find] on the key of [x] yields [x], or nothing;
    it never yields an older entry. *)
Lemma find_entry_after_insert (st st' : DynamicPGMIndex) (x : Item) :
  search_brackets pgm_search ->
  well_formed st -> hands_out_written st x -> insert st x = Some st' ->
  find_entry MinIndexedLevel pgm_search st' (key x) = None \/
  (deleted x = false /\
   find_entry MinIndexedLevel pgm_search st' (key x) = Some x).
Proof.
  intros Hc Hwf Hw H.
  pose proof (insert_wf st st' x Hwf Hw H) as Hwf'.
  destruct (insert_written_at st st' x Hwf Hw H)
    as (T & HT & Hempty & Hkey & Hin).
  pose proof (wf_sorted Hwf' T) as HsT.
  unfold find_entry, find.
  replace (used_levels st' - min_level)%nat
    with ((T - min_level) + (1 + (used_levels st' - T - 1)))%nat by lia.
  rewrite seq_app, find_from_empty_levels
    by (intros i Hi; apply in_seq in Hi; apply Hempty; lia).
  replace (min_level + (T - min_level))%nat with T by lia.
  rewrite seq_app. cbn [seq app find_from].
  assert (Hend : (Nat.eqb (fst (end_it st')) (fst (end_it st'))
                  && Nat.eqb (snd (end_it st')) (snd (end_it st'))) = true)
    by (rewrite !Nat.eqb_refl; reflexivity).
  (* when level [T] does not hold [x], no deeper level is looked at *)
  assert (Hrest : ~ In x (get_level st' T) ->
                  seq (T + 1) (used_levels st' - T - 1) = []).
  { intros Hno. destruct Hin as [Hin|Hin]; [contradiction|].
    replace (used_levels st' - T - 1)%nat with 0%nat by lia. reflexivity. }
  destruct (get_level st' T) as [|e0 level'] eqn:Elevel.
  { rewrite Hrest by (intros []). cbn [find_from]. rewrite Hend. left; reflexivity. }
  rewrite <- Elevel in *. clear Elevel e0 level'.
  rewrite (probe_correct T (get_level st' T) (key x) Hc HsT).
  destruct (nth_error (get_level st' T) (lower_bound_pos (get_level st' T) (key x)))
    as [y|] eqn:Hy.
  - destruct (Z.eqb_spec (key y) (key x)) as [Hk|Hk].
    + assert (Ey : y = x) by (apply Hkey; [eapply nth_error_In; eassumption|assumption]).
      subst y. destruct (deleted x) eqn:Hdel.
      * rewrite Hend. left; reflexivity.
      * right. split; [reflexivity|]. cbn [fst snd].
        rewrite entry_not_end
          by (try lia; apply nth_error_Some; rewrite Hy; discriminate).
        unfold deref. cbn [fst snd]. exact Hy.
    + rewrite Hrest.
      * cbn [find_from]. rewrite Hend. left; reflexivity.
      * intros Hx. rewrite (lower_bound_pos_found _ x HsT Hx) in Hy.
        injection Hy as <-. congruence.
  - rewrite Hrest.
    + cbn [find_from]. rewrite Hend. left; reflexivity.
    + intros Hx. rewrite (lower_bound_pos_found _ x HsT Hx) in Hy. discriminate.
Qed.

(** After a tombstone has been written for a key, [find] reports the key
    absent. *)
Lemma find_entry_after_tombstone (st st' : DynamicPGMIndex) (x : Item) :
  search_brackets pgm_search ->
  well_formed st -> hands_out_written st x -> deleted x = true ->
  insert st x = Some st' ->
  find_entry MinIndexedLevel pgm_search st' (key x) = None.
Proof.
  intros Hc Hwf Hw Hdel H.
  destruct (find_entry_after_insert st st' x Hc Hwf Hw H) as [Hn|[Hd _]];
    [assumption|congruence].
Qed.

(** ** What [find] reads *)

Lemma end_test_end (st : DynamicPGMIndex) :
  (Nat.eqb (fst (end_it st)) (fst (end_it st))
   && Nat.eqb (snd (end_it st)) (snd (end_it st))) = true.
Proof. rewrite !Nat.eqb_refl. reflexivity. Qed.

(** The loop of [find] stops at [end()] or at an entry with the key that is
    not a tombstone, in one of the levels it was given. *)
Lemma find_from_cases (st : DynamicPGMIndex) (k : K) (levels : list nat) :
  find_from MinIndexedLevel pgm_search st k levels = end_it st \/
  exists y,
    In (fst (find_from MinIndexedLevel pgm_search st k levels)) levels /\
    deref st (find_from MinIndexedLevel pgm_search st k levels) = Some y /\
    key y = k /\ deleted y = false.
Proof.
  induction levels as [|i levels IH]; [left; reflexivity|].
  assert (Hrest :
    find_from MinIndexedLevel pgm_search st k levels = end_it st \/
    exists y,
      In (fst (find_from MinIndexedLevel pgm_search st k levels)) (i :: levels) /\
      deref st (find_from MinIndexedLevel pgm_search st k levels) = Some y /\
      key y = k /\ deleted y = false).
  { destruct IH as [IH|(y & Hin & Hy)]; [left; assumption|].
    right. exists y. split; [right; assumption|assumption]. }
  cbn [find_from].
  destruct (get_level st i) as [|e0 level'] eqn:Elevel; [exact Hrest|].
  rewrite <- Elevel in *.
  destruct (nth_error (get_level st i)
              (probe MinIndexedLevel pgm_search i (get_level st i) k))
    as [x|] eqn:Hx; [|exact Hrest].
  destruct (Z.eqb_spec (key x) k) as [Hk|Hk]; [|exact Hrest].
  destruct (deleted x) eqn:Hdel; [left; reflexivity|].
  right. exists x. cbn [fst]. split; [left; reflexivity|].
  split; [exact Hx|]. split; assumption.
Qed.

(** Under the contract of the learned index, on sorted levels, the loop of
    [find] reads the entry of the shallowest level that has the key. *)
Lemma find_from_first_entry (st : DynamicPGMIndex) (k : K) :
  search_brackets pgm_search -> levels_sorted st ->
  forall levels,
    (forall i, In i levels -> (min_level <= i)%nat) ->
    (if Nat.eqb (fst (find_from MinIndexedLevel pgm_search st k levels))
                (fst (end_it st))
        && Nat.eqb (snd (find_from MinIndexedLevel pgm_search st k levels))
                   (snd (end_it st))
     then None
     else deref st (find_from MinIndexedLevel pgm_search st k levels))
    = visible (shallowest_entry st k levels).
Proof.
  intros Hc Hs. unfold shallowest_entry.
  induction levels as [|i levels IH]; intros Hmin.
  - cbn [find_from map first_entry visible]. rewrite end_test_end. reflexivity.
  - specialize (IH (fun j Hj => Hmin j (or_intror Hj))).
    pose proof (Hmin i (or_introl eq_refl)) as Hi.
    pose proof (Hs i) as Hsi.
    cbn [find_from map first_entry].
    destruct (get_level st i) as [|e0 level'] eqn:Elevel; [exact IH|].
    rewrite <- Elevel in *. clear Elevel e0 level'.
    rewrite (probe_correct i (get_level st i) k Hc Hsi).
    assert (Habsent :
      (forall y, nth_error (get_level st i)
                   (lower_bound_pos (get_level st i) k) = Some y -> key y <> k) ->
      level_entry (get_level st i) k = None).
    { intros Hno. apply level_entry_None. intros (y & Hin & Hky).
      apply (Hno y); [|assumption]. rewrite <- Hky.
      apply lower_bound_pos_found; assumption. }
    destruct (nth_error (get_level st i) (lower_bound_pos (get_level st i) k))
      as [x|] eqn:Hx.
    + destruct (Z.eqb_spec (key x) k) as [Hk|Hk].
      * assert (Hentry : level_entry (get_level st i) k = Some x).
        { rewrite <- Hk. apply level_entry_sorted; [assumption|].
          eapply nth_error_In. eassumption. }
        rewrite Hentry. cbn [visible].
        destruct (deleted x) eqn:Hdel.
        -- rewrite end_test_end. reflexivity.
        -- cbn [fst snd]. rewrite entry_not_end
             by (try assumption; apply nth_error_Some; rewrite Hx; discriminate).
           exact Hx.
      * rewrite Habsent; [exact IH|].
        intros y Hy. injection Hy as <-. assumption.
    + rewrite Habsent; [exact IH|]. intros y Hy. discriminate.
Qed.

Lemma find_entry_visible (st : DynamicPGMIndex) (k : K) :
  search_brackets pgm_search -> levels_sorted st ->
  find_entry MinIndexedLevel pgm_search st k
  = visible (shallowest_entry st k (seq min_level (used_levels st - min_level))).
Proof.
  intros Hc Hs. unfold find_entry, find.
  apply find_from_first_entry; [assumption|assumption|].
  intros i Hi. apply in_seq in Hi. lia.
Qed.

(** [count] is 1 exactly when [find] yields an entry. *)
Lemma count_find_entry (st : DynamicPGMIndex) (k : K) :
  count MinIndexedLevel pgm_search st k
  = match find_entry MinIndexedLevel pgm_search st k with
    | Some _ => 1%nat
    | None => 0%nat
    end.
Proof.
  unfold count, find_entry, find.
  destruct (find_from_cases st k (seq min_level (used_levels st - min_level)))
    as [E|(y & _ & Hy & _)].
  - rewrite E, end_test_end. reflexivity.
  - destruct (_ && _); [reflexivity|]. rewrite Hy. reflexivity.
Qed.

(** After an insert that does not cascade into a level holding data,
    [find] yields the new entry for its key, unless that is a tombstone, and
    what it yielded before for every other key. *)
Lemma find_entry_insert (st st' : DynamicPGMIndex) (x : Item) (k : K) :
  search_brackets pgm_search -> well_formed st ->
  lands_in_empty_level st x -> insert st x = Some st' ->
  find_entry MinIndexedLevel pgm_search st' k
  = if key x =? k then visible (Some x)
    else find_entry MinIndexedLevel pgm_search st k.
Proof.
  intros Hc Hwf Hland H.
  pose proof (insert_wf_lands st st' x Hwf Hland H) as Hwf'.
  rewrite (find_entry_visible st' k Hc (wf_sorted Hwf')),
          (find_entry_visible st k Hc (wf_sorted Hwf)).
  rewrite (shallowest_all st' k (wf_allocated Hwf') (wf_unused Hwf')),
          (shallowest_all st k (wf_allocated Hwf) (wf_unused Hwf)).
  rewrite (insert_first_entry st st' x Hwf Hland H k).
  destruct (key x =? k); reflexivity.
Qed.

(** ** Lookups: the properties *)

(** X1: under the contract of the learned index and with sorted levels,
    [find(k)] reads the entry for [k] of the shallowest level below
    [used_levels] that has one; it yields that entry unless it is a
    tombstone, and [end()] if it is a tombstone or no level has the key.
    [count(k)] is 1 in the first case and 0 otherwise. *)
Theorem find_reads_shallowest_entry (st : DynamicPGMIndex) (k : K) :
  search_brackets pgm_search -> levels_sorted st ->
  find_entry MinIndexedLevel pgm_search st k
  = visible (shallowest_entry st k (seq min_level (used_levels st - min_level)))
  /\
  count MinIndexedLevel pgm_search st k
  = match visible (shallowest_entry st k
                     (seq min_level (used_levels st - min_level))) with
    | Some _ => 1%nat
    | None => 0%nat
    end.
Proof.
  intros Hc Hs. rewrite count_find_entry, (find_entry_visible st k Hc Hs).
  split; reflexivity.
Qed.

(** X2: whatever the learned index answers and whatever the levels hold,
    an entry that [find(k)] yields has key [k], is not a tombstone and is
    stored in a level below [used_levels]. *)
Theorem find_yields_live_entry_with_key (st : DynamicPGMIndex) (k : K)
  (y : Item) :
  find_entry MinIndexedLevel pgm_search st k = Some y ->
  key y = k /\ deleted y = false /\
  exists level, (min_level <= level < used_levels st)%nat /\
                In y (get_level st level).
Proof.
  unfold find_entry, find. intros H.
  destruct (find_from_cases st k (seq min_level (used_levels st - min_level)))
    as [E|(z & Hin & Hz & Hk & Hdel)].
  - rewrite E, end_test_end in H. discriminate.
  - destruct (_ && _) in H; [discriminate|].
    rewrite Hz in H. injection H as <-.
    split; [assumption|]. split; [assumption|].
    exists (fst (find_from MinIndexedLevel pgm_search st k
                   (seq min_level (used_levels st - min_level)))).
    split; [apply in_seq in Hin; lia|].
    unfold deref in Hz. eapply nth_error_In. exact Hz.
Qed.

(** X3: [count(k)] is 1 when [find(k)] yields an entry and 0 when it
    yields [end()]: an iterator of [find] other than [end()] always points
    at an entry. *)
Theorem count_is_one_iff_find_yields (st : DynamicPGMIndex) (k : K) :
  count MinIndexedLevel pgm_search st k
  = match find_entry MinIndexedLevel pgm_search st k with
    | Some _ => 1%nat
    | None => 0%nat
    end.
Proof.
  unfold count, find_entry, find.
  destruct (find_from_cases st k (seq min_level (used_levels st - min_level)))
    as [E|(y & _ & Hy & _)].
  - rewrite E, end_test_end. reflexivity.
  - destruct (_ && _); [reflexivity|]. rewrite Hy. reflexivity.
Qed.

(** X4: [end()] is the position of no entry, and reading through it is out
    of range; this is what makes the test [find(k) != end()] sound. *)
Theorem end_is_no_entry (st : DynamicPGMIndex) (level pos : nat) :
  (min_level <= level)%nat ->
  (pos < length (get_level st level))%nat ->
  (level, pos) <> end_it st /\ deref st (end_it st) = None.
Proof.
  intros Hl Hp. split.
  - intros E.
    pose proof (entry_not_end st level pos Hl Hp) as H.
    rewrite <- E in H. cbn [fst snd] in H.
    rewrite !Nat.eqb_refl in H. discriminate.
  - unfold deref, end_it, get_level. cbn [fst snd].
    replace (min_level + (length (data st) - 1) - min_level)%nat
      with (length (data st) - 1)%nat by lia.
    rewrite nth_last. apply nth_error_None. lia.
Qed.

(** X5: after an insert that does not cascade into a level holding data,
    [find] yields the new entry for its key (nothing, if the new entry is a
    tombstone) and, for every other key, what it yielded before. *)
Theorem insert_then_find (st st' : DynamicPGMIndex) (x : Item) (k : K) :
  search_brackets pgm_search -> well_formed st ->
  lands_in_empty_level st x -> insert st x = Some st' ->
  find_entry MinIndexedLevel pgm_search st' k
  = if key x =? k then visible (Some x)
    else find_entry MinIndexedLevel pgm_search st k.
Proof.
  intros Hc Hwf Hland H.
  pose proof (insert_wf_lands st st' x Hwf Hland H) as Hwf'.
  rewrite (find_entry_visible st' k Hc (wf_sorted Hwf')),
          (find_entry_visible st k Hc (wf_sorted Hwf)).
  rewrite (shallowest_all st' k (wf_allocated Hwf') (wf_unused Hwf')),
          (shallowest_all st k (wf_allocated Hwf) (wf_unused Hwf)).
  rewrite (insert_first_entry st st' x Hwf Hland H k).
  destruct (key x =? k); reflexivity.
Qed.

Lemma apply_op_item (st : DynamicPGMIndex) (o : Op) :
  apply_op st o = insert st (item_of o).
Proof. destruct o; reflexivity. Qed.

(** X6: over a run of inserts and erases none of which cascades into a
    level holding data, the last write to a key decides what [find] yields
    for it, and keys the run does not write keep their answer. *)
Theorem clean_run_last_write_wins (ops : list Op) :
  forall (st st' : DynamicPGMIndex) (k : K),
    search_brackets pgm_search -> well_formed st ->
    clean_run st ops -> apply_ops st ops = Some st' ->
    find_entry MinIndexedLevel pgm_search st' k
    = match last_item k ops with
      | Some x => visible (Some x)
      | None => find_entry MinIndexedLevel pgm_search st k
      end.
Proof.
  induction ops as [|o ops IH]; intros st st' k Hc Hwf Hclean H.
  - simpl in H. injection H as <-. reflexivity.
  - cbn [apply_ops] in H. apply obind_Some in H as (st1 & H1 & H).
    destruct Hclean as [Hland Hrest].
    specialize (Hrest st1 H1). rewrite apply_op_item in H1.
    rewrite (IH st1 st' k Hc (insert_wf_lands st st1 _ Hwf Hland H1) Hrest H).
    cbn [last_item]. destruct (last_item k ops); [reflexivity|].
    rewrite (find_entry_insert st st1 (item_of o) k Hc Hwf Hland H1).
    destruct (key (item_of o) =? k); reflexivity.
Qed.

(** X7: after an [insert] that hands out no slot that was never written
    (it does not cascade into a level holding data, or it does and the last
    merge of the cascade is no longer than the running sequence of the
    levels above the target), [find] on the key just written never yields
    an older entry: it yields the new entry or nothing.  This covers the
    overwrite in the buffer, the insertion into the buffer, the cascade
    into an empty or new level and the cascade into a level holding data
    whose installed part was all written. *)
Theorem find_after_insert_is_never_stale (st st' : DynamicPGMIndex) (x : Item) :
  search_brackets pgm_search -> well_formed st ->
  hands_out_written st x -> insert st x = Some st' ->
  forall y, find_entry MinIndexedLevel pgm_search st' (key x) = Some y ->
            y = x /\ deleted x = false.
Proof.
  intros Hc Hwf Hw H y Hy.
  destruct (find_entry_after_insert st st' x Hc Hwf Hw H) as [Hn|[Hd Hs]].
  - rewrite Hn in Hy. discriminate.
  - rewrite Hs in Hy. injection Hy as <-. split; [reflexivity|assumption].
Qed.

(** X8: after an [erase(k)] that hands out no slot that was never written
    (it does not cascade into a level holding data, or it does and the last
    merge of the cascade is no longer than the running sequence of the
    levels above the target), whenever the entry it writes counts as
    deleted, [find(k)] is [end()] and [count(k)] is 0. *)
Theorem erase_then_absent (st st' : DynamicPGMIndex) (k : K) :
  search_brackets pgm_search -> well_formed st ->
  hands_out_written st (Item_k k) ->
  deleted (Item_k k) = true -> erase st k = Some st' ->
  find_entry MinIndexedLevel pgm_search st' k = None /\
  count MinIndexedLevel pgm_search st' k = 0%nat.
Proof.
  intros Hc Hwf Hw Hdel H. unfold erase in H.
  pose proof (find_entry_after_tombstone st st' (Item_k k) Hc Hwf Hw Hdel H)
    as Hf.
  change (key (Item_k k)) with k in Hf.
  rewrite count_find_entry, Hf. split; reflexivity.
Qed.

Lemma lower_bound_from_empty_levels (st : DynamicPGMIndex) (k : K)
  (levels : list nat) (lo : option internal_iterator) :
  (forall i, In i levels -> get_level st i = []) ->
  lower_bound_from MinIndexedLevel pgm_search st k levels lo = lo.
Proof.
  revert lo. induction levels as [|i levels IH]; intros lo H; [reflexivity|].
  simpl. rewrite (H i (or_introl eq_refl)). apply IH.
  intros i' Hi'. apply H. right. assumption.
Qed.

(** X9: while no level below [used_levels] holds an entry, as with the
    members the default constructor sets, every key is absent, [lower_bound] is [end()],
    [empty()] holds and the traversals yield nothing. *)
Theorem lookups_without_entries (st : DynamicPGMIndex) (k : K) :
  (forall level, (min_level <= level < used_levels st)%nat ->
                 get_level st level = []) ->
  find_entry MinIndexedLevel pgm_search st k = None /\
  count MinIndexedLevel pgm_search st k = 0%nat /\
  lower_bound MinIndexedLevel pgm_search st k = end_it st /\
  empty MinIndexedLevel pgm_search K_min st = true /\
  traverse MinIndexedLevel pgm_search K_min st = Some [] /\
  scan_from MinIndexedLevel pgm_search st k = Some [].
Proof.
  intros H.
  assert (Hlevels : forall i, In i (seq min_level (used_levels st - min_level)) ->
                              get_level st i = []).
  { intros i Hi. apply in_seq in Hi. apply H. lia. }
  assert (Hlb : forall k', lower_bound MinIndexedLevel pgm_search st k'
                           = end_it st).
  { intros k'. unfold lower_bound.
    rewrite lower_bound_from_empty_levels by assumption. reflexivity. }
  assert (Hfind : find MinIndexedLevel pgm_search st k = end_it st).
  { unfold find.
    rewrite <- (app_nil_r (seq min_level (used_levels st - min_level))).
    rewrite find_from_empty_levels by assumption. reflexivity. }
  split; [unfold find_entry; rewrite Hfind, end_test_end; reflexivity|].
  split; [unfold count; rewrite Hfind, end_test_end; reflexivity|].
  split; [apply Hlb|].
  split; [unfold empty, begin_; rewrite Hlb; apply iter_eqb_end|].
  split.
  - unfold traverse, begin_. rewrite Hlb. cbn [traverse_from].
    fold (end_ st). rewrite iter_eqb_end. reflexivity.
  - unfold scan_from. rewrite Hlb. cbn [traverse_from].
    fold (end_ st). rewrite iter_eqb_end. reflexivity.
Qed.

(** X10: [empty()] tells whether [begin()] is [end()], and [begin()] looks
    for an entry that is not a tombstone, level by level.  So, with keys no
    smaller than the least key, [empty()] holds exactly when every entry of
    every level below [used_levels] is a tombstone; an entry that a
    shallower tombstone hides makes the container count as not empty. *)
Theorem empty_iff_only_tombstones (st : DynamicPGMIndex) :
  search_brackets pgm_search -> levels_sorted st ->
  (forall level x, In x (get_level st level) -> K_min <= key x) ->
  (empty MinIndexedLevel pgm_search K_min st = true <->
   forall level x, (min_level <= level < used_levels st)%nat ->
                   In x (get_level st level) -> deleted x = true).
Proof.
  intros Hc Hs Hmin.
  pose proof (lower_bound_from_spec st K_min
                (seq min_level (used_levels st - min_level)) Hc Hs [] None) as H.
  simpl app in H.
  unfold empty, begin_, end_, iter_eqb, iterator, lower_bound. cbn [it].
  destruct (lower_bound_from MinIndexedLevel pgm_search st K_min _ None)
    as [l|].
  - destruct H as (Hin & x & Hx & (Hinx & Hdel & _) & _); [intros i y []|].
    apply in_seq in Hin.
    assert (Hpos : (snd l < length (get_level st (fst l)))%nat).
    { apply nth_error_Some. unfold deref in Hx. rewrite Hx. discriminate. }
    rewrite (entry_not_end st (fst l) (snd l) ltac:(lia) Hpos).
    split; [discriminate|].
    intros Hall. rewrite (Hall (fst l) x ltac:(lia) Hinx) in Hdel. discriminate.
  - rewrite end_test_end. split; [|reflexivity]. intros _ level x Hlevel Hx.
    destruct (deleted x) eqn:Hdel; [reflexivity|]. exfalso.
    pose proof (Hs level) as Hsl.
    assert (Hx' : In x (skipn (lower_bound_pos (get_level st level) K_min)
                          (get_level st level))).
    { apply skipn_lower_bound_pos; [assumption|assumption|].
      apply (Hmin level). assumption. }
    destruct (nth_error (get_level st level)
                (lower_bound_pos (get_level st level) K_min
                 + skip_deleted (skipn (lower_bound_pos (get_level st level) K_min)
                                   (get_level st level)))) as [y|] eqn:Hy.
    + apply (H ltac:(intros ? ? []) level y).
      * apply in_seq. lia.
      * apply level_candidate_Some; assumption.
    + rewrite <- nth_error_skipn in Hy.
      rewrite (skip_deleted_None _ x Hy Hx') in Hdel. discriminate.
Qed.

(** X11: a caller's loop [for (it = lower_bound(k); it != end(); ++it)]
    comes to an end on sorted levels, and what it yields has strictly
    ascending keys, none below [k], and no tombstone. *)
Theorem scan_from_lower_bound (st : DynamicPGMIndex) (k : K) :
  search_brackets pgm_search -> levels_sorted st ->
  exists l,
    scan_from MinIndexedLevel pgm_search st k = Some l /\
    StronglySorted key_lt l /\
    Forall (fun x => deleted x = false) l /\
    Forall (fun x => k <= key x) l.
Proof.
  intros Hc Hs.
  pose proof (lower_bound_from_spec st k
                (seq min_level (used_levels st - min_level)) Hc Hs [] None) as H.
  simpl app in H. unfold scan_from.
  destruct (lower_bound_from MinIndexedLevel pgm_search st k _ None) as [l|] eqn:El.
  - destruct H as (Hin & x & Hx & (Hinx & Hdel & Hk & _) & _); [intros i y []|].
    assert (Elb : lower_bound MinIndexedLevel pgm_search st k = l)
      by (unfold lower_bound; rewrite El; reflexivity).
    destruct (traverse_from_spec st Hc Hs (S (total_size st))
                (iterator (lower_bound MinIndexedLevel pgm_search st k)))
      as (r & Hr & Hsr & Hdr & Hge).
    { right. unfold iterator. cbn [it initialized queue]. rewrite Elb.
      split; [apply nth_error_Some; unfold deref in Hx; rewrite Hx; discriminate|].
      rewrite (deref_entry_at st l x Hx). split; [assumption|].
      pose proof (sum_sizes_total st (used_levels st - min_level)). lia. }
    exists r. split; [exact Hr|]. split; [exact Hsr|]. split; [exact Hdr|].
    unfold iterator in Hge. cbn [it] in Hge. rewrite Elb in Hge.
    rewrite (deref_entry_at st l x Hx) in Hge.
    rewrite Forall_forall in *. intros z Hz. specialize (Hge z Hz). lia.
  - exists []. unfold lower_bound. rewrite El. cbn [traverse_from].
    fold (end_ st). rewrite iter_eqb_end.
    split; [reflexivity|]. split; [constructor|]. split; constructor.
Qed.

(** X19: after the bulk constructor, [find(k)] yields the first pair of
    the input with key [k], unless its value reads as a tombstone, and
    [end()] for a key the input does not have. *)
Theorem find_after_build (input : list (K * V)) (st : DynamicPGMIndex) (k : K) :
  search_brackets pgm_search -> sorted_input input -> build input = Some st ->
  find_entry MinIndexedLevel pgm_search st k
  = visible (option_map Item_pair (List.find (fun p => fst p =? k) input)).
Proof.
  intros Hc Hin H.
  pose proof (build_wf input st Hin H) as Hwf.
  rewrite (find_entry_visible st k Hc (wf_sorted Hwf)).
  rewrite (shallowest_all st k (wf_allocated Hwf) (wf_unused Hwf)).
  rewrite (build_first_entry input st k Hin H). reflexivity.
Qed.

Lemma written_run_wf (ops : list Op) :
  forall st st' : DynamicPGMIndex,
    well_formed st -> written_run st ops -> apply_ops st ops = Some st' ->
    well_formed st'.
Proof.
  clear MinIndexedLevel pgm_search K_min.
  induction ops as [|o ops IH]; intros st st' Hwf Hw H.
  - simpl in H. injection H as <-. exact Hwf.
  - cbn [apply_ops] in H. apply obind_Some in H as (st1 & H1 & H).
    destruct Hw as [Hw1 Hw].
    apply (IH st1 st'); [|exact (Hw st1 H1)|exact H].
    rewrite apply_op_item in H1.
    exact (insert_wf st st1 _ Hwf Hw1 H1).
Qed.

(** X20: after a run of inserts and erases from a well-formed state, as
    the bulk constructor leaves one: the levels from [used_levels] on are
    empty and [data] has a slot for every level below [used_levels], so
    that no lookup indexes it out of range; and, where no operation of the
    run has handed out a slot that was never written (none has cascaded
    into a level holding data with a last merge longer than the running
    sequence of the levels above it), each level is strictly sorted by key,
    so it holds no key twice. *)
Theorem levels_sorted_on_written_runs (ops : list Op) :
  forall st st' : DynamicPGMIndex,
    well_formed st -> apply_ops st ops = Some st' ->
    ((forall level, (used_levels st' <= level)%nat -> get_level st' level = []) /\
     (min_level <= used_levels st')%nat /\
     (used_levels st' - min_level <= length (data st'))%nat /\
     (1 <= length (data st'))%nat) /\
    (written_run st ops ->
     forall level, StronglySorted key_lt (get_level st' level) /\
                   NoDup (map key (get_level st' level))).
Proof.
  intros st st' Hwf H. split.
  - destruct (apply_ops_shaped ops st st' (well_formed_shaped st Hwf) H)
      as (Hsh & _).
    destruct (sh_allocated Hsh) as (Hu & Hl & Ha).
    split; [exact (sh_unused Hsh)|]. split; [exact Hu|].
    split; [exact Ha|exact Hl].
  - intros Hw level.
    pose proof (written_run_wf ops st st' Hwf Hw H) as Hwf'.
    pose proof (wf_sorted Hwf' level) as Hs.
    split; [exact Hs|apply sorted_NoDup_keys; exact Hs].
Qed.

(** X21: a run of inserts and erases on pairwise different keys, none of
    them held by the container, from a state in which every level under the
    buffer is empty or full and no key is held twice (the empty container
    is such a state): while no more than 64 levels are in use, no operation
    cascades into a level that holds data, the state stays of that kind,
    and afterwards [find] yields for every key written what was written
    (nothing for an erase), and for every other key what it yielded
    before. *)
Theorem fresh_keys_are_all_found (ops : list Op) :
  forall st st' : DynamicPGMIndex,
    search_brackets pgm_search -> tidy st -> fresh_run st ops ->
    apply_ops st ops = Some st' -> (used_levels st' <= 64)%nat ->
    tidy st' /\
    (forall o, In o ops ->
       find_entry MinIndexedLevel pgm_search st' (key (item_of o))
       = visible (Some (item_of o))) /\
    (forall k, ~ In k (map (fun o => key (item_of o)) ops) ->
       find_entry MinIndexedLevel pgm_search st' k
       = find_entry MinIndexedLevel pgm_search st k).
Proof.
  induction ops as [|o ops IH]; intros st st' Hc Ht [Hnd Hfresh] H Hused.
  - simpl in H. injection H as <-.
    split; [exact Ht|]. split; [intros o []|reflexivity].
  - cbn [apply_ops] in H. apply obind_Some in H as (st1 & H1 & H).
    rewrite apply_op_item in H1.
    pose proof (tidy_wf Ht) as Hwf.
    destruct (insert_shaped st st1 _ (well_formed_shaped st Hwf) H1)
      as (Hsh1 & Hle & _).
    destruct (apply_ops_shaped ops st1 st' Hsh1 H) as (_ & Hle1 & _).
    destruct (insert_fresh_tidy st st1 (item_of o) Ht ltac:(lia)
                (Hfresh o (or_introl eq_refl)) H1) as (Ht1 & Hland & Hfrom & _).
    cbn [map] in Hnd. apply NoDup_cons_iff in Hnd as [Hnotin Hnd].
    assert (Hfresh1 : fresh_run st1 ops).
    { split; [exact Hnd|]. intros o' Ho' level (y & Hy & Hk).
      destruct (Hfrom level y Hy) as [->|(level' & Hy')].
      - apply Hnotin. rewrite Hk.
        apply (in_map (fun o => key (item_of o)) ops o' Ho').
      - apply (Hfresh o' (or_intror Ho') level'). exists y. split; assumption. }
    destruct (IH st1 st' Hc Ht1 Hfresh1 H Hused) as (Ht' & Hfound & Hkept).
    pose proof (fun k => find_entry_insert st st1 (item_of o) k Hc Hwf Hland H1)
      as Hstep.
    split; [exact Ht'|]. split.
    + intros o' [<-|Ho']; [|apply Hfound; exact Ho'].
      rewrite (Hkept _ Hnotin), Hstep, Z.eqb_refl. reflexivity.
    + intros k Hk. cbn [map] in Hk.
      rewrite (Hkept k (fun Hin => Hk (or_intror Hin))), Hstep.
      destruct (Z.eqb_spec (key (item_of o)) k) as [E|_]; [|reflexivity].
      exfalso. apply Hk. left. exact E.
Qed.

(** ** Where the binary searches land *)

Lemma upper_bound_pos_below (l : LevelType) (c : K) (j : nat) (d : Item) :
  (j < upper_bound_pos l c)%nat -> key (nth j l d) <= c.
Proof.
  revert j. induction l as [|a l IH]; intros j; simpl; [lia|].
  destruct (Z.ltb_spec c (key a)); [lia|].
  destruct j as [|j]; [lia|]. intros Hj. apply IH. lia.
Qed.

Lemma upper_bound_pos_above (l : LevelType) (c : K) (j : nat) (d : Item) :
  sorted l -> (upper_bound_pos l c <= j < length l)%nat ->
  c < key (nth j l d).
Proof.
  intros Hs Hj.
  pose proof (upper_bound_pos_gt l c d ltac:(lia)) as Hgt.
  destruct (Nat.eq_dec j (upper_bound_pos l c)) as [->|Hne]; [exact Hgt|].
  pose proof (sorted_nth_lt l (upper_bound_pos l c) j d Hs ltac:(lia)). lia.
Qed.

Lemma lower_bound_pos_below (l : LevelType) (c : K) (j : nat) (d : Item) :
  (j < lower_bound_pos l c)%nat -> key (nth j l d) < c.
Proof.
  revert j. induction l as [|a l IH]; intros j; simpl; [lia|].
  destruct (Z.ltb_spec (key a) c); [|lia].
  destruct j as [|j]; [lia|]. intros Hj. apply IH. lia.
Qed.

Lemma lower_bound_pos_at (l : LevelType) (c : K) (d : Item) :
  (lower_bound_pos l c < length l)%nat ->
  c <= key (nth (lower_bound_pos l c) l d).
Proof.
  induction l as [|a l IH]; simpl; [lia|].
  destruct (Z.ltb_spec (key a) c); simpl; [|lia].
  intros H'. apply IH. lia.
Qed.

Lemma lower_bound_pos_above (l : LevelType) (c : K) (j : nat) (d : Item) :
  sorted l -> (lower_bound_pos l c <= j < length l)%nat ->
  c <= key (nth j l d).
Proof.
  intros Hs Hj.
  pose proof (lower_bound_pos_at l c d ltac:(lia)) as Hge.
  destruct (Nat.eq_dec j (lower_bound_pos l c)) as [->|Hne]; [exact Hge|].
  pose proof (sorted_nth_lt l (lower_bound_pos l c) j d Hs ltac:(lia)). lia.
Qed.

(** The position of an upper bound, by what is before and at it. *)
Lemma upper_bound_pos_unique (l : LevelType) (c : K) (p : nat) (d : Item) :
  sorted l -> (p <= length l)%nat ->
  (forall j, (j < p)%nat -> key (nth j l d) <= c) ->
  ((p < length l)%nat -> c < key (nth p l d)) ->
  upper_bound_pos l c = p.
Proof.
  intros Hs Hp Hbefore Hat.
  pose proof (upper_bound_pos_le l c) as Hle.
  destruct (Nat.lt_trichotomy (upper_bound_pos l c) p) as [Hlt|[E|Hgt]];
    [|exact E|].
  - pose proof (Hbefore _ Hlt).
    pose proof (upper_bound_pos_gt l c d ltac:(lia)). lia.
  - pose proof (upper_bound_pos_below l c p d Hgt).
    specialize (Hat ltac:(lia)). lia.
Qed.

Lemma lower_bound_pos_unique (l : LevelType) (c : K) (p : nat) (d : Item) :
  sorted l -> (p <= length l)%nat ->
  (forall j, (j < p)%nat -> key (nth j l d) < c) ->
  ((p < length l)%nat -> c <= key (nth p l d)) ->
  lower_bound_pos l c = p.
Proof.
  intros Hs Hp Hbefore Hat.
  pose proof (lower_bound_pos_le l c) as Hle.
  destruct (Nat.lt_trichotomy (lower_bound_pos l c) p) as [Hlt|[E|Hgt]];
    [|exact E|].
  - pose proof (Hbefore _ Hlt).
    pose proof (lower_bound_pos_at l c d ltac:(lia)). lia.
  - pose proof (lower_bound_pos_below l c p d Hgt).
    specialize (Hat ltac:(lia)). lia.
Qed.

(** An entry with key [k] at position [j]. *)
Lemma has_key_nth (l : LevelType) (k : K) (d : Item) :
  has_key l k <-> exists j, (j < length l)%nat /\ key (nth j l d) = k.
Proof.
  split.
  - intros (y & Hy & Hk). apply (In_nth l y d) in Hy as (j & Hj & E).
    exists j. split; [exact Hj|]. rewrite E. exact Hk.
  - intros (j & Hj & Hk). exists (nth j l d). split; [|exact Hk].
    apply nth_In. exact Hj.
Qed.

Lemma upper_bound_pos_end (l : LevelType) (c k : K) :
  sorted l -> upper_bound_pos l c = length l -> c < k -> ~ has_key l k.
Proof.
  intros Hs Hub Hck Hhas.
  apply (has_key_nth l k (mkItem base_default 0)) in Hhas as (j & Hj & Hk).
  pose proof (upper_bound_pos_below l c j (mkItem base_default 0) ltac:(lia)).
  lia.
Qed.

(** ** The queue, cursor by cursor *)

(** The top of the queue has the smallest key and, among the cursors with
    that key, the shallowest level. *)
Lemma queue_top_from_lex (st : DynamicPGMIndex) (q : list queue_pair)
  (best e : queue_pair) :
  In e (best :: q) ->
  key (entry_at st (fst (queue_top_from st best q)))
  < key (entry_at st (fst e))
  \/ (key (entry_at st (fst (queue_top_from st best q)))
      = key (entry_at st (fst e))
      /\ (snd (queue_top_from st best q) <= snd e)%nat).
Proof.
  revert best e; induction q as [|e' q IH]; intros best e He.
  - destruct He as [<-|[]]. simpl. right. split; [reflexivity|lia].
  - cbn [queue_top_from]. unfold queue_cmp.
    destruct (Z.ltb_spec (key (entry_at st (fst e')))
                (key (entry_at st (fst best)))) as [Hlt|Hge];
      cbn [orb].
    + pose proof (IH e' e' (or_introl eq_refl)) as Htop.
      destruct He as [<-|[<-|He]].
      * lia.
      * exact Htop.
      * apply IH. right. exact He.
    + destruct (Z.eqb_spec (key (entry_at st (fst best)))
                  (key (entry_at st (fst e')))) as [Heq|Hne]; cbn [andb].
      * destruct (Nat.ltb_spec (snd e') (snd best)).
        -- pose proof (IH e' e' (or_introl eq_refl)) as Htop.
           destruct He as [<-|[<-|He]].
           ++ lia.
           ++ exact Htop.
           ++ apply IH. right. exact He.
        -- pose proof (IH best best (or_introl eq_refl)) as Htop.
           destruct He as [<-|[<-|He]].
           ++ exact Htop.
           ++ lia.
           ++ apply IH. right. exact He.
      * pose proof (IH best best (or_introl eq_refl)) as Htop.
        destruct He as [<-|[<-|He]].
        -- exact Htop.
        -- lia.
        -- apply IH. right. exact He.
Qed.

(** Popping a cursor leaves the cursors of the other levels. *)
Lemma queue_remove_levels (top : queue_pair) (q : list queue_pair) :
  NoDup (map snd q) -> In top q ->
  (forall x, In x (queue_remove top q) <-> In x q /\ snd x <> snd top) /\
  NoDup (map snd (queue_remove top q)).
Proof.
  clear MinIndexedLevel pgm_search K_min.
  induction q as [|e q IH]; intros Hnd Hin; [destruct Hin|].
  cbn [map] in Hnd. apply NoDup_cons_iff in Hnd as [Hnotin Hnd].
  cbn [queue_remove]. destruct (queue_pair_eqb top e) eqn:E.
  - apply queue_pair_eqb_eq in E. subst e. split; [|exact Hnd].
    intros x. split.
    + intros Hx. split; [right; exact Hx|].
      intros Ex. apply Hnotin. rewrite <- Ex. apply in_map. exact Hx.
    + intros [[->|Hx] Hne]; [congruence|exact Hx].
  - destruct Hin as [->|Hin].
    { rewrite (proj2 (queue_pair_eqb_eq top top) eq_refl) in E. discriminate. }
    destruct (IH Hnd Hin) as [IHin IHnd].
    assert (Hne : snd e <> snd top).
    { intros Ex. apply Hnotin. rewrite Ex. apply in_map. exact Hin. }
    split.
    + intros x. cbn [In]. rewrite IHin. split.
      * intros [<-|[Hx Hx']]; [split; [left; reflexivity|exact Hne]|].
        split; [right; exact Hx|exact Hx'].
      * intros [[<-|Hx] Hx']; [left; reflexivity|right; split; assumption].
    + cbn [map]. constructor; [|exact IHnd].
      intros Hx. apply in_map_iff in Hx as (x & Ex & Hx).
      apply IHin in Hx as [Hx _]. apply Hnotin. rewrite <- Ex.
      apply in_map. exact Hx.
Qed.

(** The key under a cursor is at least the key the queue passes. *)
Lemma cursor_at_key (st : DynamicPGMIndex) (c : K) (e : queue_pair) :
  levels_sorted st -> cursor_at st c e ->
  c <= key (entry_at st (fst e)).
Proof.
  intros Hs (Hlvl & _ & Hpos & [Hlb|Hub]); unfold entry_at; rewrite Hlvl.
  - rewrite Hlb. apply lower_bound_pos_at. lia.
  - rewrite Hub. apply Z.lt_le_incl. apply upper_bound_pos_gt. lia.
Qed.

(** A cursor with a key above [c] stands at the upper bound of [c]. *)
Lemma cursor_at_above (st : DynamicPGMIndex) (c : K) (e : queue_pair) :
  levels_sorted st -> cursor_at st c e ->
  c < key (entry_at st (fst e)) ->
  snd (fst e) = upper_bound_pos (get_level st (snd e)) c.
Proof.
  intros Hs (Hlvl & _ & Hpos & [Hlb|Hub]) Hgt; [|exact Hub].
  unfold entry_at in Hgt. rewrite Hlvl in Hgt. symmetry.
  apply (upper_bound_pos_unique _ c _ (mkItem base_default 0) (Hs (snd e)));
    [lia| |intros _; exact Hgt].
  intros j Hj. rewrite Hlb in Hj.
  pose proof (lower_bound_pos_below _ c j (mkItem base_default 0) Hj). lia.
Qed.

(** A cursor at the key [c] itself stands one before the upper bound. *)
Lemma cursor_at_equal (st : DynamicPGMIndex) (c : K) (e : queue_pair) :
  levels_sorted st -> cursor_at st c e ->
  key (entry_at st (fst e)) = c ->
  upper_bound_pos (get_level st (snd e)) c = S (snd (fst e)).
Proof.
  intros Hs (Hlvl & _ & Hpos & Hor) Heq.
  unfold entry_at in Heq. rewrite Hlvl in Heq.
  apply (upper_bound_pos_unique _ c _ (mkItem base_default 0) (Hs (snd e)));
    [lia| |].
  - intros j Hj. destruct (Nat.eq_dec j (snd (fst e))) as [->|Hne]; [lia|].
    pose proof (sorted_nth_lt _ j (snd (fst e)) (mkItem base_default 0)
                  (Hs (snd e)) ltac:(lia)). lia.
  - intros Hlt.
    pose proof (sorted_nth_lt _ (snd (fst e)) (S (snd (fst e)))
                  (mkItem base_default 0) (Hs (snd e)) ltac:(lia)). lia.
Qed.

(** One step of the queue at a cursor with the key [c] moves that cursor
    past [c] and leaves the others. *)
Lemma queue_step_at (st : DynamicPGMIndex) (c : K) (e : queue_pair)
  (q0 : list queue_pair) :
  levels_sorted st -> queue_at st c (e :: q0) ->
  key (entry_at st (fst (queue_top_from st e q0))) = c ->
  exists q1,
    queue_step st (e :: q0) = Some (fst (queue_top_from st e q0), q1) /\
    queue_at st c q1 /\
    (queue_weight st q1 < queue_weight st (e :: q0))%nat.
Proof.
  intros Hs (Hnd & Hcur & Hcomplete) Hkey.
  pose proof (queue_top_from_In st q0 e) as Hin.
  set (top := queue_top_from st e q0) in *.
  pose proof (Hcur top Hin) as Htop.
  pose proof (cursor_at_equal st c top Hs Htop Hkey) as Hub.
  destruct Htop as (Hlvl & Hrange & Hpos & _).
  destruct (queue_remove_levels top (e :: q0) Hnd Hin) as [Hrem Hnd'].
  pose proof (queue_remove_weight st top (e :: q0) Hin) as Hw.
  unfold queue_step. cbv zeta. fold top. cbn [fst snd].
  set (popped := queue_remove top (e :: q0)) in *.
  assert (Hothers : forall i, i <> snd top ->
            (forall x, In x popped -> snd x <> i) ->
            forall x, In x (e :: q0) -> snd x <> i).
  { intros i Hi Hno x Hx Ex. apply (Hno x); [|exact Ex].
    apply Hrem. split; [exact Hx|congruence]. }
  destruct (Nat.eqb_spec (S (snd (fst top)))
              (length (get_level st (snd top)))) as [Hend|Hmore].
  - exists popped. split; [reflexivity|]. split; [|lia].
    split; [exact Hnd'|]. split.
    + intros x Hx. apply Hcur. apply Hrem in Hx. tauto.
    + intros i Hi Hno. destruct (Nat.eq_dec i (snd top)) as [->|Hne].
      * lia.
      * apply Hcomplete; [exact Hi|]. apply Hothers; assumption.
  - exists ((fst (fst top), S (snd (fst top)), snd top) :: popped).
    split; [reflexivity|].
    split; [|cbn [queue_weight fst snd] in Hw |- *; lia].
    split; [|split].
    + cbn [map snd]. constructor; [|exact Hnd'].
      intros Hx. apply in_map_iff in Hx as (x & Ex & Hx).
      apply Hrem in Hx. tauto.
    + intros x [<-|Hx].
      * unfold cursor_at. cbn [fst snd].
        split; [exact Hlvl|]. split; [exact Hrange|]. split; [lia|].
        right. symmetry. exact Hub.
      * apply Hcur. apply Hrem in Hx. tauto.
    + intros i Hi Hno.
      assert (Hne : i <> snd top).
      { intros ->. apply (Hno _ (or_introl eq_refl)). reflexivity. }
      apply Hcomplete; [exact Hi|]. apply Hothers; [exact Hne|].
      intros x Hx. apply Hno. right. exact Hx.
Qed.

Lemma queue_at_valid (st : DynamicPGMIndex) (c : K) (q : list queue_pair) :
  queue_at st c q -> queue_valid st q.
Proof.
  intros (_ & Hcur & _) e He. destruct (Hcur e He) as (Hlvl & _ & Hpos & _).
  split; assumption.
Qed.

(** The inner loop of [advance] moves every cursor past the key [c]. *)
Lemma skip_same_key_at (st : DynamicPGMIndex) (c : K) :
  levels_sorted st ->
  forall (fuel : nat) (q : list queue_pair),
    queue_at st c q -> (queue_weight st q <= fuel)%nat ->
    exists q2,
      skip_same_key st fuel c q = Some q2 /\
      queue_at st c q2 /\ queue_above st c q2 /\
      (queue_weight st q2 <= queue_weight st q)%nat.
Proof.
  intros Hs. induction fuel as [|fuel IH]; intros q Hat Hw.
  - destruct q as [|e q0].
    + exists []. split; [reflexivity|]. split; [exact Hat|].
      split; [intros ? []|lia].
    + pose proof (queue_valid_weight st (e :: q0) (queue_at_valid st c _ Hat)
                    ltac:(congruence)). lia.
  - destruct q as [|e q0].
    + exists []. split; [reflexivity|]. split; [exact Hat|].
      split; [intros ? []|lia].
    + cbn [skip_same_key].
      destruct (Z.eqb_spec
                  (key (entry_at st (fst (queue_top_from st e q0)))) c)
        as [Heq|Hne].
      * destruct (queue_step_at st c e q0 Hs Hat Heq) as (q1 & Hstep & Hat1 & Hw1).
        rewrite Hstep. cbn [obind].
        destruct (IH q1 Hat1 ltac:(lia)) as (q2 & H2 & Hat2 & Ha2 & Hw2).
        exists q2. split; [exact H2|]. split; [exact Hat2|].
        split; [exact Ha2|lia].
      * exists (e :: q0). split; [reflexivity|]. split; [exact Hat|].
        split; [|lia].
        intros x Hx.
        pose proof (queue_top_from_min st q0 e x Hx).
        destruct Hat as (_ & Hcur & _).
        pose proof (cursor_at_key st c _ Hs
                      (Hcur _ (queue_top_from_In st q0 e))). lia.
Qed.

(** ** The keys between two stops of the iterator *)

Lemma shallowest_none (st : DynamicPGMIndex) (k : K) (levels : list nat) :
  (forall i, In i levels -> ~ has_key (get_level st i) k) ->
  shallowest_entry st k levels = None.
Proof.
  clear MinIndexedLevel pgm_search K_min.
  unfold shallowest_entry. induction levels as [|i levels IH]; intros H;
    [reflexivity|].
  cbn [map first_entry].
  rewrite (proj2 (level_entry_None (get_level st i) k) (H i (or_introl eq_refl))).
  apply IH. intros j Hj. apply H. right. exact Hj.
Qed.

Lemma shallowest_at (st : DynamicPGMIndex) (k : K) (y : Item) (a n i0 : nat) :
  (a <= i0 < a + n)%nat ->
  level_entry (get_level st i0) k = Some y ->
  (forall i, (a <= i < i0)%nat -> ~ has_key (get_level st i) k) ->
  shallowest_entry st k (seq a n) = Some y.
Proof.
  clear MinIndexedLevel pgm_search K_min.
  intros Hi Hy Hno.
  replace n with ((i0 - a) + S (n - S (i0 - a)))%nat by lia.
  rewrite seq_app. replace (a + (i0 - a))%nat with i0 by lia.
  unfold shallowest_entry. rewrite map_app, first_entry_app.
  fold (shallowest_entry st k (seq a (i0 - a))).
  rewrite shallowest_none by (intros i Hin; apply in_seq in Hin; apply Hno; lia).
  cbn [seq map first_entry]. rewrite Hy. reflexivity.
Qed.

(** One round of the loop of [advance]: the queue hands out the entry of
    the shallowest level for the least key above [c], and every cursor
    moves past that key. *)
Lemma queue_round (st : DynamicPGMIndex) (c : K) (e : queue_pair)
  (q0 : list queue_pair) (fuel : nat) :
  levels_sorted st ->
  queue_at st c (e :: q0) -> queue_above st c (e :: q0) ->
  (queue_weight st (e :: q0) <= S fuel)%nat ->
  exists q1 q2,
    queue_step st (e :: q0) = Some (fst (queue_top_from st e q0), q1) /\
    skip_same_key st fuel
      (key (entry_at st (fst (queue_top_from st e q0)))) q1 = Some q2 /\
    c < key (entry_at st (fst (queue_top_from st e q0))) /\
    (min_level <= fst (fst (queue_top_from st e q0)) < used_levels st)%nat /\
    (snd (fst (queue_top_from st e q0))
     < length (get_level st (fst (fst (queue_top_from st e q0)))))%nat /\
    queue_at st (key (entry_at st (fst (queue_top_from st e q0)))) q2 /\
    queue_above st (key (entry_at st (fst (queue_top_from st e q0)))) q2 /\
    (queue_weight st q2 < queue_weight st (e :: q0))%nat /\
    (forall k i,
       c < k < key (entry_at st (fst (queue_top_from st e q0))) ->
       (min_level <= i < used_levels st)%nat ->
       ~ has_key (get_level st i) k) /\
    shallowest_entry st (key (entry_at st (fst (queue_top_from st e q0))))
      (seq min_level (used_levels st - min_level))
    = Some (entry_at st (fst (queue_top_from st e q0))).
Proof.
  intros Hs Hat Habove Hfuel.
  pose proof (queue_top_from_In st q0 e) as Hin.
  pose proof (fun x => queue_top_from_min st q0 e x) as Hmin.
  pose proof (fun x => queue_top_from_lex st q0 e x) as Hlex.
  set (top := queue_top_from st e q0) in *.
  set (c' := key (entry_at st (fst top))) in *.
  set (d := mkItem base_default 0 : Item).
  destruct Hat as (Hnd & Hcur & Hcomplete).
  assert (Hcc : c < c') by (apply Habove; exact Hin).
  (* every cursor stands at the upper bound of [c] *)
  assert (Hub : forall x, In x (e :: q0) ->
            snd (fst x) = upper_bound_pos (get_level st (snd x)) c).
  { intros x Hx. apply cursor_at_above; [exact Hs|apply Hcur; exact Hx|].
    apply Habove. exact Hx. }
  assert (Hentry : forall x, In x (e :: q0) ->
            entry_at st (fst x)
            = nth (upper_bound_pos (get_level st (snd x)) c)
                (get_level st (snd x)) d).
  { intros x Hx. unfold entry_at. destruct (Hcur x Hx) as (-> & _).
    rewrite (Hub x Hx). reflexivity. }
  (* a level that holds a key above [c] has a cursor *)
  assert (Hcursor : forall i j,
            (min_level <= i < used_levels st)%nat ->
            (j < length (get_level st i))%nat ->
            c < key (nth j (get_level st i) d) ->
            exists x, In x (e :: q0) /\ snd x = i /\
              (upper_bound_pos (get_level st i) c <= j)%nat).
  { intros i j Hi Hj Hk.
    assert (Hle : (upper_bound_pos (get_level st i) c <= j)%nat).
    { destruct (Nat.le_gt_cases (upper_bound_pos (get_level st i) c) j)
        as [|Hlt]; [assumption|].
      pose proof (upper_bound_pos_below _ c j d Hlt). lia. }
    destruct (in_dec Nat.eq_dec i (map snd (e :: q0))) as [Hyes|Hno].
    - apply in_map_iff in Hyes as (x & Ex & Hx). exists x. auto.
    - exfalso.
      assert (Hend : upper_bound_pos (get_level st i) c
                     = length (get_level st i)).
      { apply Hcomplete; [exact Hi|]. intros x Hx Ex. apply Hno.
        rewrite <- Ex. apply in_map. exact Hx. }
      lia. }
  (* the keys at and after a cursor *)
  assert (Hafter : forall x j, In x (e :: q0) ->
            (upper_bound_pos (get_level st (snd x)) c <= j
             < length (get_level st (snd x)))%nat ->
            (j = upper_bound_pos (get_level st (snd x)) c
             /\ key (nth j (get_level st (snd x)) d)
                = key (entry_at st (fst x)))
            \/ c' < key (nth j (get_level st (snd x)) d)).
  { intros x j Hx Hj. specialize (Hmin x Hx). rewrite (Hentry x Hx) in *.
    destruct (Nat.eq_dec j (upper_bound_pos (get_level st (snd x)) c))
      as [->|Hne]; [left; split; reflexivity|].
    right.
    pose proof (sorted_nth_lt _ (upper_bound_pos (get_level st (snd x)) c) j d
                  (Hs (snd x)) ltac:(lia)). lia. }
  (* the queue seen from [c'] *)
  assert (Hat' : queue_at st c' (e :: q0)).
  { split; [exact Hnd|]. split.
    - intros x Hx. destruct (Hcur x Hx) as (Hlvl & Hrange & Hpos & _).
      split; [exact Hlvl|]. split; [exact Hrange|]. split; [exact Hpos|].
      left. symmetry. rewrite (Hub x Hx) in *.
      apply (lower_bound_pos_unique _ c' _ d (Hs (snd x))); [lia| |].
      + intros j Hj. pose proof (upper_bound_pos_below _ c j d Hj). lia.
      + intros _. specialize (Hmin x Hx). rewrite (Hentry x Hx) in Hmin.
        exact Hmin.
    - intros i Hi Hno. pose proof (Hcomplete i Hi Hno) as Hend.
      apply (upper_bound_pos_unique _ c' _ d (Hs i)); [lia| |lia].
      intros j Hj.
      pose proof (upper_bound_pos_below (get_level st i) c j d ltac:(lia)).
      lia. }
  destruct (queue_step_at st c' e q0 Hs Hat' eq_refl) as (q1 & Hstep & Hat1 & Hw1).
  destruct (skip_same_key_at st c' Hs fuel q1 Hat1 ltac:(lia))
    as (q2 & Hskip & Hat2 & Ha2 & Hw2).
  exists q1, q2. split; [exact Hstep|]. split; [exact Hskip|].
  split; [exact Hcc|].
  destruct (Hcur top Hin) as (Hlvl & Hrange & Hpos & _).
  split; [rewrite Hlvl; exact Hrange|].
  split; [rewrite Hlvl; exact Hpos|].
  split; [exact Hat2|]. split; [exact Ha2|]. split; [lia|].
  split.
  - intros k i Hk Hi Hhas.
    apply (has_key_nth _ k d) in Hhas as (j & Hj & Hjk).
    destruct (Hcursor i j Hi Hj ltac:(lia)) as (x & Hx & <- & Hle).
    destruct (Hafter x j Hx ltac:(lia)) as [[_ E]|Hgt]; [|lia].
    specialize (Hmin x Hx). lia.
  - apply (shallowest_at st c' (entry_at st (fst top)) min_level
             (used_levels st - min_level) (snd top)); [lia| |].
    + rewrite (Hentry top Hin).
      unfold c'. rewrite (Hentry top Hin).
      apply level_entry_sorted; [apply Hs|]. apply nth_In.
      rewrite <- (Hub top Hin). exact Hpos.
    + intros i Hi Hhas.
      apply (has_key_nth _ c' d) in Hhas as (j & Hj & Hjk).
      destruct (Hcursor i j ltac:(lia) Hj ltac:(lia)) as (x & Hx & Ex & Hle).
      subst i.
      destruct (Hafter x j Hx ltac:(lia)) as [[_ E]|Hgt]; [|lia].
      destruct (Hlex x Hx) as [Hlt|[_ Hlevel]]; [fold c' in Hlt; lia|].
      lia.
Qed.

Lemma shown_none (st : DynamicPGMIndex) (k : K) :
  (forall i, (min_level <= i < used_levels st)%nat ->
             ~ has_key (get_level st i) k) ->
  shown st k = None.
Proof.
  intros H. unfold shown. rewrite shallowest_none; [reflexivity|].
  intros i Hi. apply in_seq in Hi. apply H. lia.
Qed.

(** A queue without cursors: no level has a key above [c]. *)
Lemma queue_at_nil (st : DynamicPGMIndex) (c k : K) :
  levels_sorted st -> queue_at st c [] -> c < k -> shown st k = None.
Proof.
  intros Hs (_ & _ & Hcomplete) Hk. apply shown_none. intros i Hi.
  apply (upper_bound_pos_end _ c k (Hs i)); [|exact Hk].
  apply Hcomplete; [exact Hi|]. intros e [].
Qed.

(** The loop of [advance] stops at the entry that a lookup reads for its
    key; the keys it has passed show nothing in a lookup. *)
Lemma advance_loop_at (st : DynamicPGMIndex) :
  levels_sorted st ->
  forall (fuel : nat) (q : list queue_pair) (c : K),
    queue_at st c q -> queue_above st c q -> q <> [] ->
    (queue_weight st q < fuel)%nat ->
    exists tmp_it q2,
      advance_loop st fuel q = Some (tmp_it, q2) /\
      (min_level <= fst tmp_it < used_levels st)%nat /\
      (snd tmp_it < length (get_level st (fst tmp_it)))%nat /\
      c < key (entry_at st tmp_it) /\
      queue_at st (key (entry_at st tmp_it)) q2 /\
      queue_above st (key (entry_at st tmp_it)) q2 /\
      (queue_weight st q2 < queue_weight st q)%nat /\
      (deleted (entry_at st tmp_it) = true -> q2 = []) /\
      (forall k, c < k < key (entry_at st tmp_it) -> shown st k = None) /\
      shallowest_entry st (key (entry_at st tmp_it))
        (seq min_level (used_levels st - min_level))
      = Some (entry_at st tmp_it).
Proof.
  intros Hs. induction fuel as [|fuel IH]; intros q c Hat Ha Hne Hw; [lia|].
  destruct q as [|e q0]; [congruence|].
  destruct (queue_round st c e q0 fuel Hs Hat Ha ltac:(lia))
    as (q1 & q2 & Hstep & Hskip & Hcc & Hrange & Hpos & Hat2 & Ha2 & Hw2
        & Hgap & Hshallow).
  set (top := queue_top_from st e q0) in *.
  cbn [advance_loop]. rewrite Hstep. cbn [obind]. rewrite Hskip. cbn [obind].
  assert (Hgap' : forall k, c < k < key (entry_at st (fst top)) ->
                            shown st k = None).
  { intros k Hk. apply shown_none. intros i Hi. exact (Hgap k i Hk Hi). }
  destruct q2 as [|e2 q2'].
  - exists (fst top), []. split; [reflexivity|]. split; [exact Hrange|].
    split; [exact Hpos|]. split; [exact Hcc|]. split; [exact Hat2|].
    split; [exact Ha2|]. split; [exact Hw2|]. split; [reflexivity|].
    split; [exact Hgap'|exact Hshallow].
  - destruct (deleted (entry_at st (fst top))) eqn:Hdel.
    + destruct (IH (e2 :: q2') (key (entry_at st (fst top))) Hat2 Ha2
                  ltac:(congruence) ltac:(lia))
        as (tmp' & q3 & H3 & Hrange3 & Hpos3 & Hc3 & Hat3 & Ha3 & Hw3 & Hd3
            & Hgap3 & Hshallow3).
      exists tmp', q3. split; [exact H3|]. split; [exact Hrange3|].
      split; [exact Hpos3|]. split; [lia|]. split; [exact Hat3|].
      split; [exact Ha3|]. split; [lia|]. split; [exact Hd3|].
      split; [|exact Hshallow3].
      intros k Hk.
      destruct (Z.lt_trichotomy k (key (entry_at st (fst top))))
        as [Hlt|[->|Hgt]].
      * apply Hgap'. lia.
      * unfold shown. rewrite Hshallow. cbn [visible]. rewrite Hdel. reflexivity.
      * apply Hgap3. lia.
    + exists (fst top), (e2 :: q2'). split; [reflexivity|].
      split; [exact Hrange|].
      split; [exact Hpos|]. split; [exact Hcc|]. split; [exact Hat2|].
      split; [exact Ha2|]. split; [exact Hw2|]. split; [congruence|].
      split; [exact Hgap'|exact Hshallow].
Qed.

(** The cursors that [lazy_initialize_queue] makes stand at the upper
    bound of the current key, one for every level that has a key above
    it. *)
Lemma initial_pairs_at (st : DynamicPGMIndex) (cur : Item) :
  search_brackets pgm_search -> levels_sorted st ->
  forall levels : list nat,
    NoDup levels ->
    (forall i, In i levels -> (min_level <= i < used_levels st)%nat) ->
    (forall e, In e (initial_pairs MinIndexedLevel pgm_search st cur levels) ->
       In (snd e) levels /\ cursor_at st (key cur) e) /\
    NoDup (map snd (initial_pairs MinIndexedLevel pgm_search st cur levels)) /\
    (forall i, In i levels ->
       (forall e, In e (initial_pairs MinIndexedLevel pgm_search st cur levels) ->
                  snd e <> i) ->
       upper_bound_pos (get_level st i) (key cur) = length (get_level st i)).
Proof.
  intros Hc Hsorted. induction levels as [|i levels IH]; intros Hnd Hrange.
  - simpl. split; [intros ? []|]. split; [constructor|]. intros ? [].
  - apply NoDup_cons_iff in Hnd as [Hnotin Hnd].
    destruct (IH Hnd (fun j Hj => Hrange j (or_intror Hj)))
      as (IHcur & IHnd & IHcomplete).
    assert (Hskip :
      upper_bound_pos (get_level st i) (key cur) = length (get_level st i) ->
      (forall e, In e (initial_pairs MinIndexedLevel pgm_search st cur levels) ->
         In (snd e) (i :: levels) /\ cursor_at st (key cur) e) /\
      NoDup (map snd (initial_pairs MinIndexedLevel pgm_search st cur levels)) /\
      (forall j, In j (i :: levels) ->
         (forall e, In e (initial_pairs MinIndexedLevel pgm_search st cur levels)
                    -> snd e <> j) ->
         upper_bound_pos (get_level st j) (key cur) = length (get_level st j))).
    { intros Hend. split; [|split; [exact IHnd|]].
      - intros e He. destruct (IHcur e He). split; [right|]; assumption.
      - intros j [<-|Hj] Hno; [exact Hend|]. apply IHcomplete; assumption. }
    cbn [initial_pairs]. fold (get_level st i).
    destruct (get_level st i) as [|e0 level'] eqn:Elevel.
    { apply Hskip. reflexivity. }
    rewrite <- Elevel in *. clear Elevel e0 level'.
    assert (Hpos : (let '(lo, hi) :=
                      if (MinIndexedLevel <=? i)%nat
                      then pgm_search (get_level st i) (key cur)
                      else (0%nat, length (get_level st i)) in
                    upper_bound_in (get_level st i) lo hi (key cur))
                   = upper_bound_pos (get_level st i) (key cur)).
    { pose proof (upper_bound_pos_le (get_level st i) (key cur)).
      destruct (MinIndexedLevel <=? i)%nat.
      - destruct (Hc (get_level st i) (key cur) (Hsorted i)) as (Hlo & Hhi & _).
        pose proof (lower_le_upper_bound_pos (get_level st i) (key cur)
                      (Hsorted i)).
        destruct (pgm_search (get_level st i) (key cur)) as [lo hi].
        simpl in *. apply upper_bound_in_correct. lia.
      - apply upper_bound_in_correct. lia. }
    destruct (if (MinIndexedLevel <=? i)%nat
              then pgm_search (get_level st i) (key cur)
              else (0%nat, length (get_level st i))) as [lo hi].
    rewrite Hpos.
    pose proof (upper_bound_pos_le (get_level st i) (key cur)) as Hle.
    destruct (Nat.eqb_spec (upper_bound_pos (get_level st i) (key cur))
                (length (get_level st i))) as [Heq|Hneq].
    { apply Hskip. exact Heq. }
    split; [|split].
    + intros e [<-|He].
      * cbn [snd]. split; [left; reflexivity|].
        unfold cursor_at. cbn [fst snd]. split; [reflexivity|].
        split; [apply Hrange; left; reflexivity|]. split; [lia|].
        right. reflexivity.
      * destruct (IHcur e He). split; [right|]; assumption.
    + cbn [map snd]. constructor; [|exact IHnd].
      intros Hin. apply in_map_iff in Hin as (e & Ee & He).
      destruct (IHcur e He) as [Hlevel _]. rewrite Ee in Hlevel. contradiction.
    + intros j [<-|Hj] Hno.
      * exfalso. apply (Hno _ (or_introl eq_refl)). reflexivity.
      * apply IHcomplete; [exact Hj|]. intros e He. apply Hno. right. exact He.
Qed.

Lemma traverse_from_end (st : DynamicPGMIndex) (fuel : nat) :
  traverse_from MinIndexedLevel pgm_search st fuel (end_ st) = Some [].
Proof. destruct fuel; simpl; rewrite iter_eqb_end; reflexivity. Qed.

(** From an iterator at an entry, the traversal yields that entry and then
    exactly the entries that lookups show for the keys above it. *)
Lemma traverse_from_at (st : DynamicPGMIndex) :
  search_brackets pgm_search -> levels_sorted st ->
  forall (fuel : nat) (i : DynamicPGMIndexIterator),
    (min_level <= fst (it i))%nat ->
    (snd (it i) < length (get_level st (fst (it i))))%nat ->
    (if initialized i
     then queue_at st (key (entry_at st (it i))) (queue i) /\
          queue_above st (key (entry_at st (it i))) (queue i) /\
          (queue_weight st (queue i) < fuel)%nat
     else (sum_sizes (data st) (seq min_level (used_levels st - min_level))
           < fuel)%nat) ->
    exists rest,
      traverse_from MinIndexedLevel pgm_search st fuel i
      = Some (entry_at st (it i) :: rest) /\
      forall y, In y rest <->
                key (entry_at st (it i)) < key y /\ shown st (key y) = Some y.
Proof.
  intros Hc Hsorted. induction fuel as [|fuel IH]; intros i Hlevel Hpos Hi.
  { destruct (initialized i); [destruct Hi as (_ & _ & Hi)|]; lia. }
  cbn [traverse_from].
  assert (Hnotend : iter_eqb i (end_ st) = false).
  { unfold iter_eqb, end_, iterator. cbn [it].
    apply entry_not_end; assumption. }
  rewrite Hnotend.
  set (c := key (entry_at st (it i))) in *.
  (* the queue after [lazy_initialize_queue] *)
  assert (Hinit : exists q,
    lazy_initialize_queue MinIndexedLevel pgm_search st i
      = Some (mkIter (it i) true q) /\
    queue_at st c q /\ queue_above st c q /\
    (queue_weight st q <= fuel)%nat).
  { unfold lazy_initialize_queue. subst c. clear Hnotend.
    destruct i as [cur ini q]; simpl in *.
    destruct ini.
    - exists q. destruct Hi as (Hat & Ha & Hw).
      split; [reflexivity|]. split; [assumption|]. split; [assumption|]. lia.
    - unfold deref.
      destruct (nth_error (get_level st (fst cur)) (snd cur)) as [x|] eqn:Hx.
      2:{ apply nth_error_None in Hx. lia. }
      cbn [obind].
      assert (Ex : entry_at st cur = x) by (apply deref_entry_at; exact Hx).
      rewrite Ex.
      destruct (initial_pairs_spec st x
                  (seq min_level (used_levels st - min_level)) Hc Hsorted)
        as (_ & Ha & Hw).
      destruct (initial_pairs_at st x Hc Hsorted
                  (seq min_level (used_levels st - min_level))
                  (seq_NoDup _ _)
                  ltac:(intros j Hj; apply in_seq in Hj; lia))
        as (Hcur & Hnd & Hcomplete).
      eexists. split; [reflexivity|]. split.
      + split; [exact Hnd|]. split.
        * intros e He. apply Hcur. exact He.
        * intros j Hj. apply Hcomplete. apply in_seq. lia.
      + split; [exact Ha|]. lia. }
  destruct Hinit as (q & Hlazy & Hat & Ha & Hw).
  unfold increment. rewrite Hlazy. cbn [obind].
  unfold advance. cbn [queue initialized].
  destruct q as [|e q0].
  - (* nothing left: the iterator becomes [end()] *)
    cbn [obind]. rewrite traverse_from_end. cbn [obind].
    exists []. split; [reflexivity|].
    intros y. split; [intros []|]. intros [Hk Hy].
    rewrite (queue_at_nil st c (key y) Hsorted Hat Hk) in Hy. discriminate.
  - destruct (advance_loop_at st Hsorted (S (queue_weight st (e :: q0)))
                (e :: q0) c Hat Ha ltac:(congruence) ltac:(lia))
      as (tmp_it & q2 & Hloop & Hrange2 & Hpos2 & Hkey2 & Hat2 & Ha2 & Hw2
          & Hd2 & Hgap & Hshallow).
    rewrite Hloop. cbn [obind].
    destruct (deleted (entry_at st tmp_it)) eqn:Hdel2; cbn [obind].
    + rewrite traverse_from_end. cbn [obind].
      exists []. split; [reflexivity|].
      intros y. split; [intros []|]. intros [Hk Hy]. exfalso.
      destruct (Z.lt_trichotomy (key y) (key (entry_at st tmp_it)))
        as [Hlt|[E|Hgt]].
      * rewrite Hgap in Hy by lia. discriminate.
      * unfold shown in Hy. rewrite E, Hshallow in Hy. cbn [visible] in Hy.
        rewrite Hdel2 in Hy. discriminate.
      * rewrite (Hd2 eq_refl) in Hat2.
        rewrite (queue_at_nil st _ (key y) Hsorted Hat2 Hgt) in Hy.
        discriminate.
    + destruct (IH (mkIter tmp_it true q2)) as (rest & Hrest & Hin).
      { cbn [it]. lia. }
      { cbn [it]. exact Hpos2. }
      { cbn [it initialized queue].
        split; [exact Hat2|]. split; [exact Ha2|]. lia. }
      rewrite Hrest. cbn [obind]. cbn [it] in Hin.
      exists (entry_at st tmp_it :: rest). split; [reflexivity|].
      assert (Hshown2 : shown st (key (entry_at st tmp_it))
                        = Some (entry_at st tmp_it)).
      { unfold shown. rewrite Hshallow. cbn [visible]. rewrite Hdel2.
        reflexivity. }
      intros y. split.
      * intros [<-|Hy]; [split; [exact Hkey2|exact Hshown2]|].
        apply Hin in Hy as [Hk Hy]. split; [lia|exact Hy].
      * intros [Hk Hy].
        destruct (Z.lt_trichotomy (key y) (key (entry_at st tmp_it)))
          as [Hlt|[E|Hgt]].
        -- rewrite Hgap in Hy by lia. discriminate.
        -- left. rewrite E, Hshown2 in Hy. congruence.
        -- right. apply Hin. split; [exact Hgt|exact Hy].
Qed.

Lemma shown_find_entry (st : DynamicPGMIndex) (k : K) :
  search_brackets pgm_search -> levels_sorted st ->
  find_entry MinIndexedLevel pgm_search st k = shown st k.
Proof. intros Hc Hs. apply find_entry_visible; assumption. Qed.

(** X24: an iteration that starts at [lower_bound(k)] (for [begin()], at
    [lower_bound] of the least key) yields first the entry [lower_bound]
    found and after it exactly the entries that [find] yields for the keys
    above that entry's key: each key with the entry of its shallowest
    level, no key that a tombstone hides, none twice.  Only the first
    entry is chosen without regard to shallower levels. *)
Theorem iteration_follows_find (st : DynamicPGMIndex) (k : K)
  (e0 : Item) (rest : list Item) :
  search_brackets pgm_search -> levels_sorted st ->
  scan_from MinIndexedLevel pgm_search st k = Some (e0 :: rest) ->
  deref st (lower_bound MinIndexedLevel pgm_search st k) = Some e0 /\
  forall y, In y rest <->
            key e0 < key y /\
            find_entry MinIndexedLevel pgm_search st (key y) = Some y.
Proof.
  intros Hc Hs Hscan.
  pose proof (lower_bound_from_spec st k
                (seq min_level (used_levels st - min_level)) Hc Hs [] None) as H.
  simpl app in H. unfold scan_from in Hscan.
  assert (Elb : lower_bound MinIndexedLevel pgm_search st k
                = match lower_bound_from MinIndexedLevel pgm_search st k
                          (seq min_level (used_levels st - min_level)) None with
                  | Some lo => lo
                  | None => end_it st
                  end) by reflexivity.
  destruct (lower_bound_from MinIndexedLevel pgm_search st k _ None) as [l|].
  - destruct H as (Hin & x & Hx & _); [intros i y []|].
    apply in_seq in Hin. rewrite Elb in *.
    destruct (traverse_from_at st Hc Hs (S (total_size st)) (iterator l))
      as (rest' & Hrest & Hiff).
    { cbn [iterator it]. lia. }
    { cbn [iterator it]. apply nth_error_Some. unfold deref in Hx.
      rewrite Hx. discriminate. }
    { cbn [iterator initialized].
      pose proof (sum_sizes_total st (used_levels st - min_level)). lia. }
    rewrite Hrest in Hscan. cbn [iterator it] in *.
    rewrite (deref_entry_at st l x Hx) in *.
    injection Hscan as <- <-. split; [exact Hx|].
    intros y. rewrite (shown_find_entry st (key y) Hc Hs). apply Hiff.
  - rewrite Elb in Hscan. fold (end_ st) in Hscan.
    rewrite traverse_from_end in Hscan. discriminate.
Qed.

(** A level with an entry that is not a tombstone and has a key of at
    least [k] has a least such entry. *)
Lemma live_entry_has_candidate (level : LevelType) (k : K) (x : Item) :
  sorted level -> In x level -> deleted x = false -> k <= key x ->
  exists y, level_lower_bound level k y.
Proof.
  clear MinIndexedLevel pgm_search K_min.
  intros Hs Hx Hdel Hk.
  assert (Hx' : In x (skipn (lower_bound_pos level k) level))
    by (apply skipn_lower_bound_pos; assumption).
  destruct (nth_error level
              (lower_bound_pos level k
               + skip_deleted (skipn (lower_bound_pos level k) level)))
    as [y|] eqn:Hy.
  - exists y. apply level_candidate_Some; assumption.
  - rewrite <- nth_error_skipn in Hy.
    rewrite (skip_deleted_None _ x Hy Hx') in Hdel. discriminate.
Qed.

(** X25: where no key is held by two levels, the iteration from [begin()]
    yields exactly the entries of the levels below [used_levels] that are
    not tombstones. *)
Theorem iteration_yields_live_entries (st : DynamicPGMIndex) (l : list Item) :
  search_brackets pgm_search -> levels_sorted st -> keys_disjoint st ->
  (forall level x, In x (get_level st level) -> K_min <= key x) ->
  traverse MinIndexedLevel pgm_search K_min st = Some l ->
  forall y, In y l <->
            deleted y = false /\
            exists level, (min_level <= level < used_levels st)%nat /\
                          In y (get_level st level).
Proof.
  intros Hc Hs Hdis Hmin Htr.
  pose proof (lower_bound_from_spec st K_min
                (seq min_level (used_levels st - min_level)) Hc Hs [] None) as H.
  simpl app in H. unfold traverse, begin_ in Htr.
  assert (Elb : lower_bound MinIndexedLevel pgm_search st K_min
                = match lower_bound_from MinIndexedLevel pgm_search st K_min
                          (seq min_level (used_levels st - min_level)) None with
                  | Some lo => lo
                  | None => end_it st
                  end) by reflexivity.
  assert (Hseq : forall i, In i (seq min_level (used_levels st - min_level)) <->
                           (min_level <= i < used_levels st)%nat)
    by (intros i; rewrite in_seq; lia).
  destruct (lower_bound_from MinIndexedLevel pgm_search st K_min _ None) as [lo|].
  - destruct H as (Hin & x & Hx & (Hinx & Hdelx & _ & _) & Hleast);
      [intros i y []|].
    apply Hseq in Hin. rewrite Elb in Htr.
    destruct (traverse_from_at st Hc Hs (S (total_size st)) (iterator lo))
      as (rest & Hrest & Hiff).
    { cbn [iterator it]. lia. }
    { cbn [iterator it]. apply nth_error_Some. unfold deref in Hx.
      rewrite Hx. discriminate. }
    { cbn [iterator initialized].
      pose proof (sum_sizes_total st (used_levels st - min_level)). lia. }
    rewrite Hrest in Htr. cbn [iterator it] in *.
    rewrite (deref_entry_at st lo x Hx) in *.
    injection Htr as <-. intros y. split.
    + intros [<-|Hy].
      * split; [exact Hdelx|]. exists (fst lo). split; [exact Hin|exact Hinx].
      * apply Hiff in Hy as [_ Hy]. unfold shown in Hy.
        destruct (shallowest_entry st (key y) _) as [z|] eqn:Ez;
          [|discriminate].
        cbn [visible] in Hy. destruct (deleted z) eqn:Hdz; [discriminate|].
        injection Hy as ->. split; [exact Hdz|].
        apply first_entry_In in Ez as [Hz _].
        apply In_concat_levels in Hz as (i & Hi & Hz).
        exists i. split; [apply Hseq; exact Hi|exact Hz].
    + intros (Hdel & i & Hi & Hy).
      destruct (live_entry_has_candidate (get_level st i) K_min y (Hs i) Hy
                  Hdel (Hmin i y Hy)) as (y' & Hy').
      pose proof (Hleast i y' (proj2 (Hseq i) Hi) Hy') as Hle.
      destruct Hy' as (_ & _ & _ & Hy'min).
      specialize (Hy'min y Hy Hdel (Hmin i y Hy)).
      destruct (Z.eq_dec (key x) (key y)) as [E|Hne].
      * left. destruct (Nat.eq_dec (fst lo) i) as [Ei|Ei].
        -- subst i. apply (sorted_key_inj (get_level st (fst lo)) x y (Hs _));
             assumption.
        -- exfalso. apply (Hdis (fst lo) i x y); auto; lia.
      * right. apply Hiff. split; [lia|].
        unfold shown.
        rewrite (shallowest_at st (key y) y min_level
                   (used_levels st - min_level) i).
        -- cbn [visible]. rewrite Hdel. reflexivity.
        -- lia.
        -- apply level_entry_sorted; [apply Hs|exact Hy].
        -- intros j Hj (z & Hz & Hzk).
           apply (Hdis j i z y); auto; lia.
  - rewrite Elb in Htr. fold (end_ st) in Htr.
    rewrite traverse_from_end in Htr. injection Htr as <-.
    intros y. split; [intros []|]. intros (Hdel & i & Hi & Hy). exfalso.
    destruct (live_entry_has_candidate (get_level st i) K_min y (Hs i) Hy
                Hdel (Hmin i y Hy)) as (y' & Hy').
    apply (H ltac:(intros ? ? []) i y'); [apply Hseq; exact Hi|exact Hy'].
Qed.

(** X27: an insert whose cascade picks a target level that holds data,
    where the output of the cascade's last merge is no longer than the
    running sequence of the levels above the target, so that the target is
    given written entries only.  After it a lookup of a key, other than the
    new one, that no level above the target held is answered by the levels
    below the target alone, whereas before the insert it was answered by
    the target first: an entry that only the target held is no longer
    found, and a deeper, older entry for its key shows again.  Nothing is
    said here of a cascade whose last merge is longer than the running
    sequence. *)
Theorem find_skips_occupied_target (st st' : DynamicPGMIndex) (x : Item) (k : K) :
  search_brackets pgm_search ->
  well_formed st ->
  ~ has_key (get_level st min_level) (key x) ->
  length (get_level st min_level) = (2 ^ (min_level + 1) - 1)%nat ->
  get_level st (cascade_target st) <> [] ->
  (length
     (merge (Nat.eqb (cascade_target st) (used_levels st - 1))
        (cascade_run st x) (get_level st (cascade_target st)))
   <= length (cascade_run st x))%nat ->
  insert st x = Some st' ->
  k <> key x ->
  (forall j, (min_level <= j < cascade_target st)%nat ->
             ~ has_key (get_level st j) k) ->
  find_entry MinIndexedLevel pgm_search st' k
  = visible
      (shallowest_entry st k
         (seq (cascade_target st + 1)
            (used_levels st - (cascade_target st + 1))))
  /\
  find_entry MinIndexedLevel pgm_search st k
  = visible
      (match level_entry (get_level st (cascade_target st)) k with
       | Some y => Some y
       | None =>
           shallowest_entry st k
             (seq (cascade_target st + 1)
                (used_levels st - (cascade_target st + 1)))
       end).
Proof.
  intros Hc Hwf Hno Hfull Hocc Hn H Hk Habove.
  pose proof (insert_wf st st' x Hwf (or_intror Hn) H) as Hwf'.
  destruct (occupied_target_shallowest st st' x k Hwf Hno Hfull Hocc H Hn
              Hk Habove) as [Hafter Hbefore].
  rewrite (find_entry_visible st' k Hc (wf_sorted Hwf')),
          (find_entry_visible st k Hc (wf_sorted Hwf)).
  rewrite Hafter, Hbefore. split; reflexivity.
Qed.

(** ** The order of the queue *)

(** X29: [queue_cmp], the comparison the iterator gives to
    [std::priority_queue], is a strict weak order, as the queue requires:
    it is irreflexive and transitive, and two cursors that it does not
    order either way are at entries with the same key in the same level,
    which makes being unordered transitive as well.  It puts a cursor
    after another one when its entry has the larger key or, for equal
    keys, when its level is the deeper one. *)
Theorem queue_cmp_strict_weak_order (st : DynamicPGMIndex) :
  (forall e, queue_cmp st e e = false) /\
  (forall e1 e2 e3,
     queue_cmp st e1 e2 = true -> queue_cmp st e2 e3 = true ->
     queue_cmp st e1 e3 = true) /\
  (forall e1 e2,
     queue_cmp st e1 e2 = false /\ queue_cmp st e2 e1 = false <->
     key (entry_at st (fst e1)) = key (entry_at st (fst e2)) /\
     snd e1 = snd e2) /\
  (forall e1 e2,
     queue_cmp st e1 e2 = true <->
     (key (entry_at st (fst e2)) < key (entry_at st (fst e1)))%Z \/
     (key (entry_at st (fst e1)) = key (entry_at st (fst e2)) /\
      (snd e2 < snd e1)%nat)).
Proof.
  clear MinIndexedLevel pgm_search K_min.
  assert (Hspec : forall e1 e2,
    queue_cmp st e1 e2 = true <->
    (key (entry_at st (fst e2)) < key (entry_at st (fst e1)))%Z \/
    (key (entry_at st (fst e1)) = key (entry_at st (fst e2)) /\
     (snd e2 < snd e1)%nat)).
  { intros e1 e2. unfold queue_cmp.
    rewrite orb_true_iff, andb_true_iff, Z.ltb_lt, Z.eqb_eq, Nat.ltb_lt.
    reflexivity. }
  assert (Hneg : forall e1 e2,
    queue_cmp st e1 e2 = false <->
    ~ ((key (entry_at st (fst e2)) < key (entry_at st (fst e1)))%Z \/
       (key (entry_at st (fst e1)) = key (entry_at st (fst e2)) /\
        (snd e2 < snd e1)%nat))).
  { intros e1 e2. rewrite <- Hspec.
    destruct (queue_cmp st e1 e2); split; intros H;
      try reflexivity; try discriminate; try (intros E; discriminate).
    exfalso. apply H. reflexivity. }
  split; [intros e; apply Hneg; lia|].
  split.
  { intros e1 e2 e3 H12 H23. apply Hspec in H12, H23. apply Hspec. lia. }
  split; [|exact Hspec].
  intros e1 e2. rewrite !Hneg. lia.
Qed.

End Lookups.

(** * The model at concrete inputs *)

(** C2, a merge in which a tombstone takes part and stays: with
    [SkipDeleted] set, a tombstone of the running sequence whose key the
    level does not hold is in the output. *)
Lemma merge_keeps_unmatched_tombstone :
  ~ (forall (l1 l2 : list (@Item Z Run.BI)) (t : Item),
        sorted l1 -> sorted l2 -> In t l1 \/ In t l2 -> deleted t = true ->
        ~ In t (merge true l1 l2)).
Proof.
  intros H.
  apply (H [Item_k 1%Z] [Item_kv 2%Z 7%Z] (Item_k 1%Z)).
  - repeat constructor.
  - repeat constructor.
  - left; left; reflexivity.
  - reflexivity.
  - left; reflexivity.
Qed.

(** A cascade that opens a new level absorbs the deepest populated level
    without [SkipDeleted]: after inserting the keys 1..128 and erasing them
    again, level 8 holds 128 entries, all of them tombstones. *)
Lemma new_level_cascade_keeps_tombstones :
  option_map (fun st => (used_levels st, Run.level_sizes st,
                         live_count (get_level st 8)))
    (Run.run (Run.insert_range 1 128 1 ++ Run.erase_range 1 128))
  = Some (9, [0; 0; 128; 0; 0; 0; 0; 0; 0; 0; 0], 0)%nat.
Proof. vm_compute. reflexivity. Qed.

(** The characterisation at the merge of a lone tombstone with a lone
    live entry of another key. *)
Lemma merge_drops_only_cancelled_tombstones_witness :
  sorted [@Item_k Z Run.BI 1%Z] /\
  sorted [@Item_kv Z Run.BI 2%Z 7%Z] /\
  (In (Item_k 1%Z) (merge true [@Item_k Z Run.BI 1%Z] [Item_kv 2%Z 7%Z]) <->
   (In (Item_k 1%Z) [@Item_k Z Run.BI 1%Z] /\
    ~ (true = true /\ deleted (@Item_k Z Run.BI 1%Z) = true /\
       has_key [@Item_kv Z Run.BI 2%Z 7%Z] (key (@Item_k Z Run.BI 1%Z))))
   \/ (In (Item_k 1%Z) [@Item_kv Z Run.BI 2%Z 7%Z] /\
       ~ has_key [@Item_k Z Run.BI 1%Z] (key (@Item_k Z Run.BI 1%Z)))) /\
  (forall (used mod2 : nat) (s s' : @MergeLoop Z Run.BI) (i : nat),
     merge_level used mod2 s i = Some s' ->
     exists level_data run,
       nth_error (loop_data s) (i - min_level) = Some level_data /\
       (load (tmp_a s) (actual_size s) = Some run \/
        load (tmp_b s) (actual_size s) = Some run) /\
       actual_size s'
       = length (merge (Nat.eqb i (used - 1)) run level_data)).
Proof.
  split; [repeat constructor|].
  split; [repeat constructor|].
  apply (merge_drops_only_cancelled_tombstones true
           [@Item_k Z Run.BI 1%Z] [@Item_kv Z Run.BI 2%Z 7%Z] (Item_k 1%Z));
    repeat constructor.
Defined.

(** C7, evaluated: after seven rounds of inserting the keys 1..128 and one
    round of erasing them, every level is empty, [used_levels] is 10, and
    the documented value is [min_level]. *)
Theorem used_levels_after_erasing_everything :
  option_map (fun st => (used_levels st, Run.level_sizes st,
                         documented_used_levels st))
    (Run.run Run.erase_everything)
  = Some (10, [0; 0; 0; 0; 0; 0; 0; 0; 0; 0; 0; 0], min_level)%nat.
Proof. vm_compute. reflexivity. Qed.

(** C1, evaluated: the last write to key 100 in [into_occupied_target] is
    [insert(100, 4)]; before the last operation of the sequence [find(100)]
    yields 4, after it [find(100)] is [end()]. *)
Theorem find_loses_key_merged_into_occupied_target :
  last_write 100%Z Run.into_occupied_target = Some (Some 4%Z) /\
  last_write 100%Z (removelast Run.into_occupied_target) = Some (Some 4%Z) /\
  option_map (fun st => Run.find_value st 100%Z)
    (Run.run (removelast Run.into_occupied_target)) = Some (Some 4%Z) /\
  option_map (fun st => Run.find_value st 100%Z)
    (Run.run Run.into_occupied_target) = Some None.
Proof. vm_compute. repeat split; reflexivity. Qed.

(** C5, evaluated: the last operation of [into_occupied_target] is
    [insert(264, 8)], it triggers a cascade, and key 264 is live before it;
    full iteration yields 128 entries before the cascade and 64 after it. *)
Theorem cascade_into_occupied_target_loses_live_entries :
  last Run.into_occupied_target (OpErase 0%Z) = OpInsert 264%Z 8%Z /\
  option_map (fun st => (Run.level_sizes st, Run.find_value st 264%Z,
                         option_map (@length _) (Run.iterate st)))
    (Run.run (removelast Run.into_occupied_target))
  = Some ([127; 128; 128; 128; 0; 0; 0; 0; 0; 0; 0; 0], Some 7%Z, Some 128)%nat /\
  option_map (fun st => (Run.level_sizes st, Run.find_value st 264%Z,
                         option_map (@length _) (Run.iterate st)))
    (Run.run Run.into_occupied_target)
  = Some ([0; 0; 0; 128; 0; 0; 0; 0; 0; 0; 0; 0], Some 8%Z, Some 64)%nat.
Proof. vm_compute. repeat split; reflexivity. Qed.

(** C8, evaluated: on the three pairs [(1,a), (1,b), (2,c)] the bulk
    constructor computes [used_levels = 3] and indexes [data] below its
    first element, so there is no state to run [find] on.  On forty pairs
    that start with the same two, the constructor fills level [min_level]
    and [find(1)] yields the value of the first pair. *)
Theorem build_small_input_undefined :
  @build String.string Bulk.BI Bulk.VL Bulk.duplicated_input = None /\
  option_map (fun st => (used_levels st, length (get_level st min_level),
                         Bulk.find_value st 1%Z))
    (@build String.string Bulk.BI Bulk.VL Bulk.long_duplicated_input)
  = Some (7%nat, 39%nat, hd_error (map snd Bulk.duplicated_input)).
Proof. split; vm_compute; reflexivity. Qed.

(** The learned index that returns the whole level meets the contract. *)
Lemma whole_level_brackets : search_brackets Run.whole_level.
Proof.
  intros level k _. simpl. split; [lia|]. split; [|lia].
  induction level as [|a level IH]; simpl; [lia|].
  destruct (k <? key a)%Z; simpl; lia.
Qed.

(** Capacity accounting after the 1024 inserts of [Run.plain_inserts], the
    last of which has cascaded into level 9 and handed it 128 slots that
    were never written, and after the bulk constructor and 89 inserts, the
    last of which has cascaded into a new level 7 and filled it. *)
Lemma capacity_accounting_witness :
  (reachable Shapes.after_unwritten /\
   Run.level_sizes Shapes.after_unwritten
   = [0; 0; 0; 256; 0; 0; 0; 0; 0; 0; 0; 0]%nat /\
   (length (get_level Shapes.after_unwritten min_level)
    <= 2 ^ (min_level + 1) - 1)%nat /\
   (forall L, (min_level < L)%nat ->
      (length (get_level Shapes.after_unwritten L) <= 2 ^ L)%nat)) /\
  (reachable Shapes.bulk_cascaded /\
   map (@length _) (data Shapes.bulk_cascaded)
   = [0; 128; 0; 0; 0; 0; 0; 0; 0; 0; 0]%nat /\
   (length (get_level Shapes.bulk_cascaded min_level)
    <= 2 ^ (min_level + 1) - 1)%nat /\
   (forall L, (min_level < L)%nat ->
      (length (get_level Shapes.bulk_cascaded L) <= 2 ^ L)%nat)).
Proof.
  assert (Hr1 : reachable Shapes.after_unwritten).
  { apply (apply_ops_reachable Run.plain_inserts empty_index).
    - apply reach_empty.
    - vm_compute. reflexivity. }
  assert (Hr2 : reachable Shapes.bulk_cascaded).
  { apply (apply_ops_reachable Bulk.more_inserts Shapes.bulk_loaded).
    - apply (reach_build Bulk.long_duplicated_input). vm_compute. reflexivity.
    - vm_compute. reflexivity. }
  split.
  - split; [exact Hr1|]. split; [vm_compute; reflexivity|].
    exact (capacity_accounting Shapes.after_unwritten Hr1).
  - split; [exact Hr2|]. split; [vm_compute; reflexivity|].
    exact (capacity_accounting Shapes.bulk_cascaded Hr2).
Defined.

(** C3, evaluated: the bulk constructor on the pairs
    [(1, 1), ..., (128, 1)] puts the keys 1..128 into level 7, and
    [erase(1)] then writes a tombstone for key 1 into the buffer.  In that
    state [find(1)] is [end()], yet the traversal from [begin()] yields 128
    entries, the first of which is the entry of level 7 for the erased key
    1, with its deletion flag clear.  The same holds after
    [insert(1, 1) ... insert(128, 1)] and [erase(1)] on [empty_index]. *)
Theorem begin_yields_shadowed_entry :
  option_map (fun st => (Run.level_sizes st, Run.find_value st 1%Z,
                         option_map (fun l => (length l, hd_error (map key l),
                                               hd_error (map deleted l)))
                           (Run.iterate st)))
    (st <- build Run.ascending_pairs ;; erase st 1%Z)
  = Some ([1; 128; 0; 0; 0; 0; 0; 0; 0; 0]%nat, None,
          Some (128%nat, Some 1%Z, Some false)) /\
  option_map (fun st => (Run.level_sizes st, Run.find_value st 1%Z,
                         option_map (fun l => (length l, hd_error (map key l),
                                               hd_error (map deleted l)))
                           (Run.iterate st)))
    (Run.run (Run.insert_range 1 128 1 ++ [OpErase 1%Z]))
  = Some ([1; 128; 0; 0; 0; 0; 0; 0; 0; 0]%nat, None,
          Some (128%nat, Some 1%Z, Some false)).
Proof. split; vm_compute; reflexivity. Qed.

Lemma two_levels_sorted : levels_sorted Run.two_levels.
Proof.
  intros level. unfold get_level.
  assert (H : Forall sorted (data Run.two_levels))
    by (repeat constructor).
  destruct (nth_in_or_default (level - min_level) (data Run.two_levels) [])
    as [Hin | Heq]; [|rewrite Heq; constructor].
  rewrite Forall_forall in H. apply H. exact Hin.
Qed.

(** [lower_bound(1)] in a state whose buffer shadows key 1 of level 7. *)
Lemma lower_bound_semantics_witness :
  search_brackets Run.whole_level /\
  levels_sorted Run.two_levels /\
  ((exists x,
      (min_level
       <= fst (lower_bound Run.MinIndexedLevel Run.whole_level Run.two_levels 1%Z)
       < used_levels Run.two_levels)%nat /\
      deref Run.two_levels
        (lower_bound Run.MinIndexedLevel Run.whole_level Run.two_levels 1%Z)
        = Some x /\
      level_lower_bound
        (get_level Run.two_levels
           (fst (lower_bound Run.MinIndexedLevel Run.whole_level
                   Run.two_levels 1%Z))) 1%Z x /\
      forall i y, (min_level <= i < used_levels Run.two_levels)%nat ->
                  level_lower_bound (get_level Run.two_levels i) 1%Z y ->
                  (key x <= key y)%Z)
   \/
   (lower_bound Run.MinIndexedLevel Run.whole_level Run.two_levels 1%Z
      = end_it Run.two_levels /\
    forall i y, (min_level <= i < used_levels Run.two_levels)%nat ->
                ~ level_lower_bound (get_level Run.two_levels i) 1%Z y)).
Proof.
  split; [exact whole_level_brackets|].
  split; [exact two_levels_sorted|].
  apply (lower_bound_semantics Run.MinIndexedLevel Run.whole_level
           Run.two_levels 1%Z whole_level_brackets two_levels_sorted).
Defined.

(** [insert(5, 9)] into the state that holds key 5 in its buffer. *)
Lemma insert_existing_key_updates_in_place_witness :
  nth_error (data Run.one_entry) 0 = Some [@Item_kv Z Run.BI 5%Z 1%Z] /\
  sorted [@Item_kv Z Run.BI 5%Z 1%Z] /\
  has_key [@Item_kv Z Run.BI 5%Z 1%Z] (key (@Item_kv Z Run.BI 5%Z 9%Z)) /\
  exists (pos : nat) (old : Item) (st' : Run.Index),
    nth_error [@Item_kv Z Run.BI 5%Z 1%Z] pos = Some old /\
    key old = key (@Item_kv Z Run.BI 5%Z 9%Z) /\
    insert Run.one_entry (Item_kv 5%Z 9%Z) = Some st' /\
    used_levels st' = used_levels Run.one_entry /\
    length (data st') = length (data Run.one_entry) /\
    (forall level, (min_level < level)%nat ->
       get_level st' level = get_level Run.one_entry level) /\
    length (get_level st' min_level) = length [@Item_kv Z Run.BI 5%Z 1%Z] /\
    nth_error (get_level st' min_level) pos = Some (Item_kv 5%Z 9%Z) /\
    (forall j, j <> pos ->
       nth_error (get_level st' min_level) j
       = nth_error [@Item_kv Z Run.BI 5%Z 1%Z] j).
Proof.
  assert (H0 : nth_error (data Run.one_entry) 0
               = Some [@Item_kv Z Run.BI 5%Z 1%Z]) by reflexivity.
  assert (Hs : sorted [@Item_kv Z Run.BI 5%Z 1%Z]) by (repeat constructor).
  assert (Hk : has_key [@Item_kv Z Run.BI 5%Z 1%Z]
                 (key (@Item_kv Z Run.BI 5%Z 9%Z))).
  { exists (Item_kv 5%Z 1%Z). split; [left; reflexivity | reflexivity]. }
  split; [exact H0|]. split; [exact Hs|]. split; [exact Hk|].
  apply (insert_existing_key_updates_in_place Run.one_entry
           (Item_kv 5%Z 9%Z) [Item_kv 5%Z 1%Z] H0 Hs Hk).
Defined.

(** * Values that double as the deletion marker *)

(** C10: with [BaseItemA], the representation chosen for pointer values,
    an entry built from the reserved sentinel value is the very entry that
    [erase] writes, and it reads as deleted, so that [insert(k, sentinel)]
    and [erase(k)] are one operation on every state.  On a well-formed
    state with fewer than 64 levels in use, where the operation does not
    cascade into a level that holds data, the two calls return the same
    state, and in it [find(k)] is [end()] and [count(k)] is 0; the same
    holds in every state that the operation returns without handing out a
    slot that was never written. *)
Theorem sentinel_insert_is_erase
  (V : Type) (V_eqb : V -> V -> bool) (tombstone indet : V)
  (U : @Uninit V (BaseItemA V_eqb tombstone indet))
  (st : @DynamicPGMIndex V (BaseItemA V_eqb tombstone indet)) (k : K)
  (MinIndexedLevel : nat)
  (pgm_search : @LevelType V (BaseItemA V_eqb tombstone indet)
                -> K -> nat * nat) :
  V_eqb tombstone tombstone = true ->
  search_brackets pgm_search -> well_formed st ->
  (used_levels st < 64)%nat ->
  @Item_kv V (BaseItemA V_eqb tombstone indet) k tombstone = Item_k k /\
  deleted (@Item_kv V (BaseItemA V_eqb tombstone indet) k tombstone) = true /\
  insert_kv st k tombstone = erase st k /\
  (lands_in_empty_level st (Item_k k) ->
   exists st',
     insert_kv st k tombstone = Some st' /\
     erase st k = Some st' /\
     find_entry MinIndexedLevel pgm_search st' k = None /\
     count MinIndexedLevel pgm_search st' k = 0%nat) /\
  (forall st',
     hands_out_written st (Item_k k) ->
     insert_kv st k tombstone = Some st' ->
     erase st k = Some st' /\
     find_entry MinIndexedLevel pgm_search st' k = None /\
     count MinIndexedLevel pgm_search st' k = 0%nat).
Proof.
  intros Hrefl Hc Hwf H64.
  assert (Hafter : forall st',
            hands_out_written st (Item_k k) ->
            insert_kv st k tombstone = Some st' ->
            erase st k = Some st' /\
            find_entry MinIndexedLevel pgm_search st' k = None /\
            count MinIndexedLevel pgm_search st' k = 0%nat).
  { intros st' Hw H. split; [exact H|].
    pose proof (find_entry_after_tombstone MinIndexedLevel pgm_search st st'
                  (@Item_kv V (BaseItemA V_eqb tombstone indet) k tombstone)
                  Hc Hwf Hw Hrefl H) as Hf.
    change (key (@Item_kv V (BaseItemA V_eqb tombstone indet) k tombstone))
      with k in Hf.
    rewrite count_find_entry, Hf. split; reflexivity. }
  split; [reflexivity|].
  split; [exact Hrefl|].
  split; [reflexivity|].
  split; [|exact Hafter].
  intros Hland.
  destruct (insert_lands_defined st (Item_k k) Hwf H64 Hland) as (st' & H).
  exists st'. split; [exact H|].
  exact (Hafter st' (or_introl Hland) H).
Qed.

(** The learned index that returns the whole level meets the contract. *)
Lemma pointers_whole_level_brackets : search_brackets Pointers.whole_level.
Proof.
  intros level k _. simpl. split; [lia|]. split; [|lia].
  induction level as [|a level IH]; simpl; [lia|].
  destruct (k <? key a)%Z; simpl; lia.
Qed.

Lemma pointers_full_buffer_wf : well_formed Pointers.full_buffer.
Proof. apply well_formed_b_sound. vm_compute. reflexivity. Qed.

(** [insert(200, sentinel)] into a full buffer of live entries: the call
    cascades into a new level 7, which then holds 128 entries, and
    [find(200)] is [end()], as after [erase(200)]. *)
Lemma sentinel_insert_is_erase_witness :
  Nat.eqb Pointers.sentinel Pointers.sentinel = true /\
  search_brackets Pointers.whole_level /\
  well_formed Pointers.full_buffer /\
  (used_levels Pointers.full_buffer < 64)%nat /\
  lands_in_empty_level Pointers.full_buffer (Item_k 200%Z) /\
  option_map (fun st' => (used_levels st', map (@length _) (data st'),
                          find_entry 18 Pointers.whole_level st' 200%Z,
                          count 18 Pointers.whole_level st' 200%Z,
                          count 18 Pointers.whole_level st' 100%Z))
    (insert_kv Pointers.full_buffer 200%Z Pointers.sentinel)
  = Some (8%nat, [0; 128; 0; 0; 0; 0; 0; 0; 0; 0]%nat, None, 0%nat, 1%nat) /\
  (@Item_kv nat Pointers.BI 200%Z Pointers.sentinel = Item_k 200%Z /\
   deleted (@Item_kv nat Pointers.BI 200%Z Pointers.sentinel) = true /\
   insert_kv Pointers.full_buffer 200%Z Pointers.sentinel
   = erase Pointers.full_buffer 200%Z /\
   (lands_in_empty_level Pointers.full_buffer (Item_k 200%Z) ->
    exists st',
      insert_kv Pointers.full_buffer 200%Z Pointers.sentinel = Some st' /\
      erase Pointers.full_buffer 200%Z = Some st' /\
      find_entry 18 Pointers.whole_level st' 200%Z = None /\
      count 18 Pointers.whole_level st' 200%Z = 0%nat) /\
   (forall st',
      hands_out_written Pointers.full_buffer (Item_k 200%Z) ->
      insert_kv Pointers.full_buffer 200%Z Pointers.sentinel = Some st' ->
      erase Pointers.full_buffer 200%Z = Some st' /\
      find_entry 18 Pointers.whole_level st' 200%Z = None /\
      count 18 Pointers.whole_level st' 200%Z = 0%nat)).
Proof.
  split; [reflexivity|].
  split; [exact pointers_whole_level_brackets|].
  split; [exact pointers_full_buffer_wf|].
  split; [vm_compute; lia|].
  split; [right; right; vm_compute; reflexivity|].
  split; [vm_compute; reflexivity|].
  apply (@sentinel_insert_is_erase nat Nat.eqb Pointers.sentinel 0%nat
           Pointers.U Pointers.full_buffer 200%Z 18 Pointers.whole_level).
  - reflexivity.
  - exact pointers_whole_level_brackets.
  - exact pointers_full_buffer_wf.
  - vm_compute. lia.
Defined.

(** * The further properties on concrete states *)

Lemma one_entry_wf : well_formed Run.one_entry.
Proof. apply well_formed_b_sound. vm_compute. reflexivity. Qed.

Lemma full_buffer_wf : well_formed Shapes.full_buffer.
Proof. apply well_formed_b_sound. vm_compute. reflexivity. Qed.

Lemma after_cascade_wf : well_formed Shapes.after_cascade.
Proof. apply well_formed_b_sound. vm_compute. reflexivity. Qed.

Lemma occupied_target_wf : well_formed Shapes.occupied_target.
Proof. apply well_formed_b_sound. vm_compute. reflexivity. Qed.

Lemma before_unwritten_wf : well_formed Shapes.before_unwritten.
Proof. apply well_formed_b_sound. vm_compute. reflexivity. Qed.

Lemma before_last_erase_wf : well_formed Shapes.before_last_erase.
Proof. apply well_formed_b_sound. vm_compute. reflexivity. Qed.

Lemma occupied_target_lacks_264 :
  ~ has_key (get_level Shapes.occupied_target min_level)
      (key (@Item_kv Z Run.BI 264%Z 8%Z)).
Proof. intros H. apply has_key_existsb in H. vm_compute in H. discriminate. Qed.

Lemma occupied_target_holds_data :
  get_level Shapes.occupied_target (cascade_target Shapes.occupied_target) <> [].
Proof. vm_compute. discriminate. Qed.

Lemma occupied_target_written :
  (length
     (merge (Nat.eqb (cascade_target Shapes.occupied_target)
               (used_levels Shapes.occupied_target - 1))
        (cascade_run Shapes.occupied_target (@Item_kv Z Run.BI 264%Z 8%Z))
        (get_level Shapes.occupied_target
           (cascade_target Shapes.occupied_target)))
   <= length (cascade_run Shapes.occupied_target (@Item_kv Z Run.BI 264%Z 8%Z)))%nat.
Proof. vm_compute. lia. Qed.

Lemma before_unwritten_lacks_328 :
  ~ has_key (get_level Shapes.before_unwritten min_level)
      (key (@Item_kv Z Run.BI 328%Z 8%Z)).
Proof. intros H. apply has_key_existsb in H. vm_compute in H. discriminate. Qed.

Lemma before_unwritten_holds_data :
  get_level Shapes.before_unwritten (cascade_target Shapes.before_unwritten)
  <> [].
Proof. vm_compute. discriminate. Qed.

Lemma two_levels_above_least (level : nat) (x : Item) :
  In x (get_level Run.two_levels level) -> (Run.K_min <= key x)%Z.
Proof.
  unfold get_level.
  assert (H : Forall (Forall (fun y => (Run.K_min <= key y)%Z))
                (data Run.two_levels)).
  { repeat constructor; vm_compute; discriminate. }
  destruct (nth_in_or_default (level - min_level) (data Run.two_levels) [])
    as [Hin | Heq]; [|rewrite Heq; intros []].
  rewrite Forall_forall in H. specialize (H _ Hin).
  rewrite Forall_forall in H. apply H.
Qed.

(** [find(1)] where the buffer holds a tombstone for 1 above level 7. *)
Lemma find_reads_shallowest_entry_witness :
  search_brackets Run.whole_level /\
  levels_sorted Run.two_levels /\
  find_entry Run.MinIndexedLevel Run.whole_level Run.two_levels 1%Z
  = visible (shallowest_entry Run.two_levels 1%Z
               (seq min_level (used_levels Run.two_levels - min_level))) /\
  count Run.MinIndexedLevel Run.whole_level Run.two_levels 1%Z
  = match visible (shallowest_entry Run.two_levels 1%Z
                     (seq min_level (used_levels Run.two_levels - min_level)))
    with
    | Some _ => 1%nat
    | None => 0%nat
    end.
Proof.
  split; [exact whole_level_brackets|].
  split; [exact two_levels_sorted|].
  apply (find_reads_shallowest_entry Run.MinIndexedLevel Run.whole_level
           Run.two_levels 1%Z whole_level_brackets two_levels_sorted).
Defined.

(** [find(3)] yields the entry of level 7. *)
Lemma find_yields_live_entry_with_key_witness :
  find_entry Run.MinIndexedLevel Run.whole_level Run.two_levels 3%Z
  = Some (Item_kv 3%Z 30%Z) /\
  key (@Item_kv Z Run.BI 3%Z 30%Z) = 3%Z /\
  deleted (@Item_kv Z Run.BI 3%Z 30%Z) = false /\
  exists level, (min_level <= level < used_levels Run.two_levels)%nat /\
                In (Item_kv 3%Z 30%Z) (get_level Run.two_levels level).
Proof.
  split; [reflexivity|].
  apply (find_yields_live_entry_with_key Run.MinIndexedLevel Run.whole_level
           Run.two_levels 3%Z (Item_kv 3%Z 30%Z)).
  reflexivity.
Defined.

(** The second entry of level 7 is not [end()]. *)
Lemma end_is_no_entry_witness :
  (min_level <= 7)%nat /\
  (1 < length (get_level Run.two_levels 7))%nat /\
  (7%nat, 1%nat) <> end_it Run.two_levels /\
  deref Run.two_levels (end_it Run.two_levels) = None.
Proof.
  assert (H1 : (min_level <= 7)%nat) by (vm_compute; lia).
  assert (H2 : (1 < length (get_level Run.two_levels 7))%nat)
    by (vm_compute; lia).
  split; [exact H1|]. split; [exact H2|].
  apply (end_is_no_entry Run.two_levels 7 1 H1 H2).
Defined.

Lemma one_entry_has_room :
  lands_in_empty_level Run.one_entry (@Item_kv Z Run.BI 7%Z 2%Z).
Proof. right. left. vm_compute. lia. Qed.

(** [insert(7, 2)] into the state that holds the key 5, then [find(7)]. *)
Lemma insert_then_find_witness :
  search_brackets Run.whole_level /\
  well_formed Run.one_entry /\
  lands_in_empty_level Run.one_entry (@Item_kv Z Run.BI 7%Z 2%Z) /\
  insert Run.one_entry (Item_kv 7%Z 2%Z)
  = Some (mkIndex 7 ([Item_kv 5%Z 1%Z; Item_kv 7%Z 2%Z] :: repeat [] 8)) /\
  find_entry Run.MinIndexedLevel Run.whole_level
    (mkIndex 7 ([@Item_kv Z Run.BI 5%Z 1%Z; Item_kv 7%Z 2%Z] :: repeat [] 8)) 7%Z
  = if (key (@Item_kv Z Run.BI 7%Z 2%Z) =? 7)%Z
    then visible (Some (Item_kv 7%Z 2%Z))
    else find_entry Run.MinIndexedLevel Run.whole_level Run.one_entry 7%Z.
Proof.
  assert (H : insert Run.one_entry (Item_kv 7%Z 2%Z)
              = Some (mkIndex 7 ([Item_kv 5%Z 1%Z; Item_kv 7%Z 2%Z]
                                 :: repeat [] 8))) by reflexivity.
  split; [exact whole_level_brackets|].
  split; [exact one_entry_wf|].
  split; [exact one_entry_has_room|].
  split; [exact H|].
  apply (insert_then_find Run.MinIndexedLevel Run.whole_level Run.one_entry _
           (Item_kv 7%Z 2%Z) 7%Z whole_level_brackets one_entry_wf
           one_entry_has_room H).
Defined.

Lemma short_run_clean :
  clean_run Run.one_entry [OpInsert 7%Z 2%Z; OpErase 5%Z].
Proof.
  split; [exact one_entry_has_room|].
  intros st1 H1. vm_compute in H1. injection H1 as <-.
  split; [right; left; vm_compute; lia|].
  intros st2 H2. exact I.
Qed.

(** [insert(7, 2); erase(5)] on the state that holds the key 5. *)
Lemma clean_run_last_write_wins_witness :
  search_brackets Run.whole_level /\
  well_formed Run.one_entry /\
  clean_run Run.one_entry [OpInsert 7%Z 2%Z; OpErase 5%Z] /\
  apply_ops Run.one_entry [OpInsert 7%Z 2%Z; OpErase 5%Z]
  = Some (mkIndex 7 ([Item_k 5%Z; Item_kv 7%Z 2%Z] :: repeat [] 8)) /\
  find_entry Run.MinIndexedLevel Run.whole_level
    (mkIndex 7 ([@Item_k Z Run.BI 5%Z; Item_kv 7%Z 2%Z] :: repeat [] 8)) 5%Z
  = match last_item 5%Z [OpInsert 7%Z 2%Z; @OpErase Z 5%Z] with
    | Some x => visible (Some x)
    | None => find_entry Run.MinIndexedLevel Run.whole_level Run.one_entry 5%Z
    end.
Proof.
  assert (H : apply_ops Run.one_entry [OpInsert 7%Z 2%Z; OpErase 5%Z]
              = Some (mkIndex 7 ([Item_k 5%Z; Item_kv 7%Z 2%Z]
                                 :: repeat [] 8))) by reflexivity.
  split; [exact whole_level_brackets|].
  split; [exact one_entry_wf|].
  split; [exact short_run_clean|].
  split; [exact H|].
  apply (clean_run_last_write_wins Run.MinIndexedLevel Run.whole_level
           [OpInsert 7%Z 2%Z; OpErase 5%Z] Run.one_entry _ 5%Z
           whole_level_brackets one_entry_wf short_run_clean H).
Defined.

(** [insert(264, 8)], the last insert of [Run.into_occupied_target]: the
    cascade goes into level 9, which holds data, its last merge is as long
    as the running sequence, and [find(264)] yields the new entry. *)
Lemma find_after_insert_is_never_stale_witness :
  search_brackets Run.whole_level /\
  well_formed Shapes.occupied_target /\
  hands_out_written Shapes.occupied_target (@Item_kv Z Run.BI 264%Z 8%Z) /\
  get_level Shapes.occupied_target (cascade_target Shapes.occupied_target)
  <> [] /\
  insert Shapes.occupied_target (Item_kv 264%Z 8%Z)
  = Some Shapes.after_occupied_cascade /\
  find_entry Run.MinIndexedLevel Run.whole_level Shapes.after_occupied_cascade
    (key (@Item_kv Z Run.BI 264%Z 8%Z)) = Some (Item_kv 264%Z 8%Z) /\
  @Item_kv Z Run.BI 264%Z 8%Z = Item_kv 264%Z 8%Z /\
  deleted (@Item_kv Z Run.BI 264%Z 8%Z) = false.
Proof.
  assert (Hw : hands_out_written Shapes.occupied_target
                 (@Item_kv Z Run.BI 264%Z 8%Z))
    by (right; exact occupied_target_written).
  assert (H : insert Shapes.occupied_target (Item_kv 264%Z 8%Z)
              = Some Shapes.after_occupied_cascade) by (vm_compute; reflexivity).
  assert (Hf : find_entry Run.MinIndexedLevel Run.whole_level
                 Shapes.after_occupied_cascade
                 (key (@Item_kv Z Run.BI 264%Z 8%Z))
               = Some (Item_kv 264%Z 8%Z)) by (vm_compute; reflexivity).
  split; [exact whole_level_brackets|].
  split; [exact occupied_target_wf|]. split; [exact Hw|].
  split; [exact occupied_target_holds_data|].
  split; [exact H|]. split; [exact Hf|].
  apply (find_after_insert_is_never_stale Run.MinIndexedLevel Run.whole_level
           Shapes.occupied_target Shapes.after_occupied_cascade
           (Item_kv 264%Z 8%Z) whole_level_brackets occupied_target_wf Hw H
           (Item_kv 264%Z 8%Z) Hf).
Defined.

(** [erase(128)], the last erase of [Run.erase_everything]: the buffer is
    full, the cascade goes into level 9, the deepest level, which holds
    data, and its last merge puts out nothing. *)
Lemma erase_then_absent_witness :
  search_brackets Run.whole_level /\
  well_formed Shapes.before_last_erase /\
  hands_out_written Shapes.before_last_erase (@Item_k Z Run.BI 128%Z) /\
  get_level Shapes.before_last_erase (cascade_target Shapes.before_last_erase)
  <> [] /\
  length (get_level Shapes.before_last_erase min_level)
  = (2 ^ (min_level + 1) - 1)%nat /\
  deleted (@Item_k Z Run.BI 128%Z) = true /\
  erase Shapes.before_last_erase 128%Z = Some Shapes.after_last_erase /\
  find_entry Run.MinIndexedLevel Run.whole_level Shapes.after_last_erase 128%Z
  = None /\
  count Run.MinIndexedLevel Run.whole_level Shapes.after_last_erase 128%Z
  = 0%nat.
Proof.
  assert (Hw : hands_out_written Shapes.before_last_erase
                 (@Item_k Z Run.BI 128%Z))
    by (right; vm_compute; lia).
  assert (H : erase Shapes.before_last_erase 128%Z
              = Some Shapes.after_last_erase) by (vm_compute; reflexivity).
  split; [exact whole_level_brackets|].
  split; [exact before_last_erase_wf|]. split; [exact Hw|].
  split; [vm_compute; discriminate|].
  split; [vm_compute; reflexivity|].
  split; [reflexivity|]. split; [exact H|].
  apply (erase_then_absent Run.MinIndexedLevel Run.whole_level
           Shapes.before_last_erase Shapes.after_last_erase 128%Z
           whole_level_brackets before_last_erase_wf Hw eq_refl H).
Defined.

Lemma empty_index_no_entries (level : nat) :
  (min_level <= level < used_levels (@empty_index Z Run.BI))%nat ->
  get_level (@empty_index Z Run.BI) level = [].
Proof. cbn [used_levels empty_index]. lia. Qed.

(** The container without entries, [empty_index]. *)
Lemma lookups_without_entries_witness :
  (forall level,
     (min_level <= level < used_levels (@empty_index Z Run.BI))%nat ->
     get_level (@empty_index Z Run.BI) level = []) /\
  find_entry Run.MinIndexedLevel Run.whole_level (@empty_index Z Run.BI) 5%Z = None /\
  count Run.MinIndexedLevel Run.whole_level (@empty_index Z Run.BI) 5%Z = 0%nat /\
  lower_bound Run.MinIndexedLevel Run.whole_level (@empty_index Z Run.BI) 5%Z
  = end_it (@empty_index Z Run.BI) /\
  empty Run.MinIndexedLevel Run.whole_level Run.K_min (@empty_index Z Run.BI) = true /\
  traverse Run.MinIndexedLevel Run.whole_level Run.K_min (@empty_index Z Run.BI) = Some [] /\
  scan_from Run.MinIndexedLevel Run.whole_level (@empty_index Z Run.BI) 5%Z = Some [].
Proof.
  split; [exact empty_index_no_entries|].
  apply (lookups_without_entries Run.MinIndexedLevel Run.whole_level Run.K_min
           (@empty_index Z Run.BI) 5%Z empty_index_no_entries).
Defined.

(** A state with a tombstone and entries that are not tombstones. *)
Lemma empty_iff_only_tombstones_witness :
  search_brackets Run.whole_level /\
  levels_sorted Run.two_levels /\
  (forall level x, In x (get_level Run.two_levels level) ->
                   (Run.K_min <= key x)%Z) /\
  (empty Run.MinIndexedLevel Run.whole_level Run.K_min Run.two_levels = true <->
   forall level x, (min_level <= level < used_levels Run.two_levels)%nat ->
                   In x (get_level Run.two_levels level) -> deleted x = true).
Proof.
  split; [exact whole_level_brackets|].
  split; [exact two_levels_sorted|].
  split; [exact two_levels_above_least|].
  apply (empty_iff_only_tombstones Run.MinIndexedLevel Run.whole_level Run.K_min
           Run.two_levels whole_level_brackets two_levels_sorted
           two_levels_above_least).
Defined.

(** The scan from [lower_bound(2)] over two levels. *)
Lemma scan_from_lower_bound_witness :
  search_brackets Run.whole_level /\
  levels_sorted Run.two_levels /\
  exists l,
    scan_from Run.MinIndexedLevel Run.whole_level Run.two_levels 2%Z = Some l /\
    StronglySorted key_lt l /\
    Forall (fun x => deleted x = false) l /\
    Forall (fun x => (2 <= key x)%Z) l.
Proof.
  split; [exact whole_level_brackets|].
  split; [exact two_levels_sorted|].
  apply (scan_from_lower_bound Run.MinIndexedLevel Run.whole_level
           Run.two_levels 2%Z whole_level_brackets two_levels_sorted).
Defined.

(** A run with a tombstone for 2 merged with a level that holds 2 and 3. *)
Lemma merge_output_sorted_and_bounded_witness :
  sorted [@Item_kv Z Run.BI 1%Z 10%Z; Item_k 2%Z] /\
  sorted [@Item_kv Z Run.BI 2%Z 20%Z; Item_kv 3%Z 30%Z] /\
  sorted (merge true [@Item_kv Z Run.BI 1%Z 10%Z; Item_k 2%Z]
            [Item_kv 2%Z 20%Z; Item_kv 3%Z 30%Z]) /\
  (length (merge true [@Item_kv Z Run.BI 1%Z 10%Z; Item_k 2%Z]
             [Item_kv 2%Z 20%Z; Item_kv 3%Z 30%Z])
   <= length [@Item_kv Z Run.BI 1%Z 10%Z; Item_k 2%Z]
      + length [@Item_kv Z Run.BI 2%Z 20%Z; Item_kv 3%Z 30%Z])%nat /\
  (length [@Item_kv Z Run.BI 1%Z 10%Z; Item_k 2%Z]
   <= length (merge false [@Item_kv Z Run.BI 1%Z 10%Z; Item_k 2%Z]
                [Item_kv 2%Z 20%Z; Item_kv 3%Z 30%Z]))%nat /\
  forall k,
    level_entry (merge false [@Item_kv Z Run.BI 1%Z 10%Z; Item_k 2%Z]
                   [Item_kv 2%Z 20%Z; Item_kv 3%Z 30%Z]) k
    = match level_entry [@Item_kv Z Run.BI 1%Z 10%Z; Item_k 2%Z] k with
      | Some y => Some y
      | None => level_entry [@Item_kv Z Run.BI 2%Z 20%Z; Item_kv 3%Z 30%Z] k
      end.
Proof.
  assert (H1 : sorted [@Item_kv Z Run.BI 1%Z 10%Z; Item_k 2%Z])
    by (repeat constructor).
  assert (H2 : sorted [@Item_kv Z Run.BI 2%Z 20%Z; Item_kv 3%Z 30%Z])
    by (repeat constructor).
  split; [exact H1|]. split; [exact H2|].
  apply (merge_output_sorted_and_bounded true _ _ H1 H2).
Defined.

(** One insert on the empty container. *)
Lemma used_levels_never_lowered_witness :
  well_formed (@empty_index Z Run.BI) /\
  apply_ops (@empty_index Z Run.BI) [OpInsert 5%Z 1%Z] = Some Run.one_entry /\
  (used_levels (@empty_index Z Run.BI) <= used_levels Run.one_entry
   <= used_levels (@empty_index Z Run.BI) + length [OpInsert 5%Z 1%Z])%nat /\
  (length (data (@empty_index Z Run.BI)) <= length (data Run.one_entry)
   <= length (data (@empty_index Z Run.BI)) + length [OpInsert 5%Z 1%Z])%nat.
Proof.
  assert (H : apply_ops (@empty_index Z Run.BI) [OpInsert 5%Z 1%Z] = Some Run.one_entry)
    by reflexivity.
  split; [exact empty_index_wf|]. split; [exact H|].
  apply (used_levels_never_lowered [OpInsert 5%Z 1%Z] (@empty_index Z Run.BI) Run.one_entry
           empty_index_wf H).
Defined.

Lemma one_entry_lacks_7 :
  ~ has_key (get_level Run.one_entry min_level) (key (@Item_kv Z Run.BI 7%Z 2%Z)).
Proof. intros H. apply has_key_existsb in H. vm_compute in H. discriminate. Qed.

(** [insert(7, 2)] into a buffer that holds the key 5 only. *)
Lemma insert_into_buffer_with_room_witness :
  well_formed Run.one_entry /\
  ~ has_key (get_level Run.one_entry min_level) (key (@Item_kv Z Run.BI 7%Z 2%Z)) /\
  (length (get_level Run.one_entry min_level) < 2 ^ (min_level + 1) - 1)%nat /\
  insert Run.one_entry (Item_kv 7%Z 2%Z)
  = Some (mkIndex 7 ([Item_kv 5%Z 1%Z; Item_kv 7%Z 2%Z] :: repeat [] 8)) /\
  let st' : Run.Index :=
    mkIndex 7 ([Item_kv 5%Z 1%Z; Item_kv 7%Z 2%Z] :: repeat [] 8) in
  used_levels st' = Nat.max (used_levels Run.one_entry) (min_level + 1) /\
  length (data st') = length (data Run.one_entry) /\
  (forall i, (min_level < i)%nat -> get_level st' i = get_level Run.one_entry i) /\
  sorted (get_level st' min_level) /\
  length (get_level st' min_level)
  = S (length (get_level Run.one_entry min_level)) /\
  forall k, level_entry (get_level st' min_level) k
            = if (key (@Item_kv Z Run.BI 7%Z 2%Z) =? k)%Z
              then Some (Item_kv 7%Z 2%Z)
              else level_entry (get_level Run.one_entry min_level) k.
Proof.
  assert (Hroom : (length (get_level Run.one_entry min_level)
                   < 2 ^ (min_level + 1) - 1)%nat) by (vm_compute; lia).
  assert (H : insert Run.one_entry (Item_kv 7%Z 2%Z)
              = Some (mkIndex 7 ([Item_kv 5%Z 1%Z; Item_kv 7%Z 2%Z]
                                 :: repeat [] 8))) by reflexivity.
  split; [exact one_entry_wf|]. split; [exact one_entry_lacks_7|].
  split; [exact Hroom|]. split; [exact H|].
  apply (insert_into_buffer_with_room Run.one_entry _ (Item_kv 7%Z 2%Z)
           one_entry_wf one_entry_lacks_7 Hroom H).
Defined.

Lemma full_buffer_lacks_128 :
  ~ has_key (get_level Shapes.full_buffer min_level)
      (key (@Item_kv Z Run.BI 128%Z 1%Z)).
Proof. intros H. apply has_key_existsb in H. vm_compute in H. discriminate. Qed.

(** [insert(128, 1)] into the full buffer of [Shapes.full_buffer], the
    first cascade, which opens level 7; and [insert(328, 8)], the last
    insert of [Run.plain_inserts], whose cascade goes into level 9, which
    holds data, and hands it 256 entries, 128 of them slots that were never
    written, so that the level is left unsorted. *)
Lemma insert_into_full_buffer_cascades_witness :
  (well_formed Shapes.full_buffer /\
   ~ has_key (get_level Shapes.full_buffer min_level) (key (@Item_kv Z Run.BI 128%Z 1%Z)) /\
   length (get_level Shapes.full_buffer min_level) = (2 ^ (min_level + 1) - 1)%nat /\
   insert Shapes.full_buffer (@Item_kv Z Run.BI 128%Z 1%Z) = Some Shapes.after_cascade /\
   (min_level < cascade_target Shapes.full_buffer <= used_levels Shapes.full_buffer)%nat /\
   used_levels Shapes.after_cascade
   = Nat.max (used_levels Shapes.full_buffer) (cascade_target Shapes.full_buffer + 1) /\
   (forall i, (min_level <= i < cascade_target Shapes.full_buffer)%nat ->
              get_level Shapes.after_cascade i = []) /\
   (forall i, (cascade_target Shapes.full_buffer < i)%nat ->
              get_level Shapes.after_cascade i = get_level Shapes.full_buffer i) /\
   get_level Shapes.after_cascade (cascade_target Shapes.full_buffer)
   = cascade_output Shapes.full_buffer (@Item_kv Z Run.BI 128%Z 1%Z) /\
   (hands_out_written Shapes.full_buffer (@Item_kv Z Run.BI 128%Z 1%Z) ->
    sorted (get_level Shapes.after_cascade (cascade_target Shapes.full_buffer))) /\
   (length (get_level Shapes.after_cascade (cascade_target Shapes.full_buffer))
    <= 2 ^ (1 + min_level)
       + sum_sizes (data Shapes.full_buffer)
           (seq (1 + min_level) (cascade_target Shapes.full_buffer - 1 - min_level))
       + length (get_level Shapes.full_buffer (cascade_target Shapes.full_buffer)))%nat /\
   (length (get_level Shapes.after_cascade (cascade_target Shapes.full_buffer))
    <= 2 ^ cascade_target Shapes.full_buffer)%nat) /\
  (well_formed Shapes.before_unwritten /\
   ~ has_key (get_level Shapes.before_unwritten min_level) (key (@Item_kv Z Run.BI 328%Z 8%Z)) /\
   length (get_level Shapes.before_unwritten min_level) = (2 ^ (min_level + 1) - 1)%nat /\
   insert Shapes.before_unwritten (@Item_kv Z Run.BI 328%Z 8%Z) = Some Shapes.after_unwritten /\
   (min_level < cascade_target Shapes.before_unwritten <= used_levels Shapes.before_unwritten)%nat /\
   used_levels Shapes.after_unwritten
   = Nat.max (used_levels Shapes.before_unwritten) (cascade_target Shapes.before_unwritten + 1) /\
   (forall i, (min_level <= i < cascade_target Shapes.before_unwritten)%nat ->
              get_level Shapes.after_unwritten i = []) /\
   (forall i, (cascade_target Shapes.before_unwritten < i)%nat ->
              get_level Shapes.after_unwritten i = get_level Shapes.before_unwritten i) /\
   get_level Shapes.after_unwritten (cascade_target Shapes.before_unwritten)
   = cascade_output Shapes.before_unwritten (@Item_kv Z Run.BI 328%Z 8%Z) /\
   (hands_out_written Shapes.before_unwritten (@Item_kv Z Run.BI 328%Z 8%Z) ->
    sorted (get_level Shapes.after_unwritten (cascade_target Shapes.before_unwritten))) /\
   (length (get_level Shapes.after_unwritten (cascade_target Shapes.before_unwritten))
    <= 2 ^ (1 + min_level)
       + sum_sizes (data Shapes.before_unwritten)
           (seq (1 + min_level) (cascade_target Shapes.before_unwritten - 1 - min_level))
       + length (get_level Shapes.before_unwritten (cascade_target Shapes.before_unwritten)))%nat /\
   (length (get_level Shapes.after_unwritten (cascade_target Shapes.before_unwritten))
    <= 2 ^ cascade_target Shapes.before_unwritten)%nat) /\
  (cascade_target Shapes.before_unwritten = 9%nat /\
   length (get_level Shapes.after_unwritten 9) = 256%nat /\
   sorted_b (get_level Shapes.after_unwritten 9) = false /\
   skipn 128 (get_level Shapes.after_unwritten 9)
   = map (uninit_slot Shapes.before_unwritten) (seq 128 128)).
Proof.
  assert (Hfull : length (get_level Shapes.full_buffer min_level)
                  = (2 ^ (min_level + 1) - 1)%nat) by (vm_compute; reflexivity).
  assert (H : insert Shapes.full_buffer (Item_kv 128%Z 1%Z)
              = Some Shapes.after_cascade) by (vm_compute; reflexivity).
  assert (Hfull' : length (get_level Shapes.before_unwritten min_level)
                   = (2 ^ (min_level + 1) - 1)%nat)
    by (vm_compute; reflexivity).
  assert (H' : insert Shapes.before_unwritten (Item_kv 328%Z 8%Z)
               = Some Shapes.after_unwritten) by (vm_compute; reflexivity).
  split; [|split].
  - split; [exact full_buffer_wf|]. split; [exact full_buffer_lacks_128|].
    split; [exact Hfull|]. split; [exact H|].
    apply (insert_into_full_buffer_cascades Shapes.full_buffer
             Shapes.after_cascade (Item_kv 128%Z 1%Z)
             full_buffer_wf full_buffer_lacks_128 Hfull H).
  - split; [exact before_unwritten_wf|].
    split; [exact before_unwritten_lacks_328|].
    split; [exact Hfull'|]. split; [exact H'|].
    apply (insert_into_full_buffer_cascades Shapes.before_unwritten
             Shapes.after_unwritten (Item_kv 328%Z 8%Z)
             before_unwritten_wf before_unwritten_lacks_328 Hfull' H').
  - repeat split; vm_compute; reflexivity.
Defined.

(** The target in the state after the first cascade, where level 7 is
    full. *)
Lemma cascade_target_is_first_fit_witness :
  well_formed Shapes.after_cascade /\
  (min_level < used_levels Shapes.after_cascade <= 64)%nat /\
  (min_level < cascade_target Shapes.after_cascade
   <= used_levels Shapes.after_cascade)%nat /\
  (forall j, (min_level < j < cascade_target Shapes.after_cascade)%nat ->
     (2 ^ j - length (get_level Shapes.after_cascade j)
      < 2 ^ (min_level + 1)
        + sum_sizes (data Shapes.after_cascade)
            (seq (min_level + 1) (j - (min_level + 1))))%nat) /\
  ((cascade_target Shapes.after_cascade
    < used_levels Shapes.after_cascade)%nat ->
     (2 ^ (min_level + 1)
      + sum_sizes (data Shapes.after_cascade)
          (seq (min_level + 1)
             (cascade_target Shapes.after_cascade - (min_level + 1)))
      + length (get_level Shapes.after_cascade
                  (cascade_target Shapes.after_cascade))
      <= 2 ^ cascade_target Shapes.after_cascade)%nat).
Proof.
  assert (Hu : (min_level < used_levels Shapes.after_cascade <= 64)%nat)
    by (vm_compute; lia).
  split; [exact after_cascade_wf|]. split; [exact Hu|].
  apply (cascade_target_is_first_fit Shapes.after_cascade after_cascade_wf Hu).
Defined.

Lemma long_duplicated_input_sorted :
  @sorted_input String.string Bulk.long_duplicated_input.
Proof.
  unfold sorted_input, Bulk.long_duplicated_input. cbn [map seq].
  repeat (constructor; try (cbn; lia)).
Qed.

Lemma long_duplicated_input_is_sorted :
  is_sorted Bulk.long_duplicated_input = true.
Proof. vm_compute. reflexivity. Qed.

(** The bulk constructor on forty pairs, the key 1 twice. *)
Lemma build_keeps_first_of_each_key_witness :
  is_sorted Bulk.long_duplicated_input = true /\
  (33 <= length Bulk.long_duplicated_input)%nat /\
  exists st,
    @build String.string Bulk.BI Bulk.VL Bulk.long_duplicated_input = Some st /\
    well_formed st /\
    used_levels st
    = (Z.to_nat (Z.log2_up (Z.of_nat (length Bulk.long_duplicated_input))) + 1)%nat /\
    (forall level, (min_level <= level)%nat ->
                   level <> (used_levels st - 1)%nat ->
                   get_level st level = []) /\
    forall k, level_entry (get_level st (used_levels st - 1)) k
              = option_map Item_pair
                  (List.find (fun p => (fst p =? k)%Z)
                     Bulk.long_duplicated_input).
Proof.
  assert (Hn : (33 <= length Bulk.long_duplicated_input)%nat)
    by (vm_compute; lia).
  split; [exact long_duplicated_input_is_sorted|]. split; [exact Hn|].
  apply (@build_keeps_first_of_each_key String.string Bulk.BI Bulk.VL
           Bulk.long_duplicated_input long_duplicated_input_is_sorted Hn).
Defined.

Lemma bulk_brackets :
  @search_brackets String.string Bulk.BI (fun l _ => (0%nat, length l)).
Proof.
  intros level k _. simpl. split; [lia|]. split; [|lia].
  induction level as [|a level IH]; simpl; [lia|].
  destruct (k <? key a)%Z; simpl; lia.
Qed.

(** [find(1)] after the bulk constructor has seen the key 1 twice. *)
Lemma find_after_build_witness :
  @search_brackets String.string Bulk.BI (fun l _ => (0%nat, length l)) /\
  @sorted_input String.string Bulk.long_duplicated_input /\
  @build String.string Bulk.BI Bulk.VL Bulk.long_duplicated_input
  = Some Shapes.bulk_loaded /\
  find_entry Run.MinIndexedLevel (fun l _ => (0%nat, length l))
    Shapes.bulk_loaded 1%Z
  = visible (option_map Item_pair
               (List.find (fun p => (fst p =? 1)%Z) Bulk.long_duplicated_input)).
Proof.
  assert (H : @build String.string Bulk.BI Bulk.VL Bulk.long_duplicated_input
              = Some Shapes.bulk_loaded) by (vm_compute; reflexivity).
  split; [exact bulk_brackets|].
  split; [exact long_duplicated_input_sorted|]. split; [exact H|].
  apply (@find_after_build String.string Bulk.BI Bulk.VL Run.MinIndexedLevel
           (fun l _ => (0%nat, length l)) Bulk.long_duplicated_input
           Shapes.bulk_loaded 1%Z bulk_brackets long_duplicated_input_sorted H).
Defined.

(** The last insert of [Run.into_occupied_target], which cascades into
    level 9 and hands it written slots only. *)
Lemma levels_sorted_on_written_runs_witness :
  well_formed Shapes.occupied_target /\
  apply_ops Shapes.occupied_target [OpInsert 264%Z 8%Z]
  = Some Shapes.after_occupied_cascade /\
  written_run Shapes.occupied_target [OpInsert 264%Z 8%Z] /\
  ((forall level,
      (used_levels Shapes.after_occupied_cascade <= level)%nat ->
      get_level Shapes.after_occupied_cascade level = []) /\
   (min_level <= used_levels Shapes.after_occupied_cascade)%nat /\
   (used_levels Shapes.after_occupied_cascade - min_level
    <= length (data Shapes.after_occupied_cascade))%nat /\
   (1 <= length (data Shapes.after_occupied_cascade))%nat) /\
  (written_run Shapes.occupied_target [OpInsert 264%Z 8%Z] ->
   forall level,
     StronglySorted key_lt (get_level Shapes.after_occupied_cascade level) /\
     NoDup (map key (get_level Shapes.after_occupied_cascade level))).
Proof.
  assert (H : apply_ops Shapes.occupied_target [OpInsert 264%Z 8%Z]
              = Some Shapes.after_occupied_cascade) by (vm_compute; reflexivity).
  assert (Hw : written_run Shapes.occupied_target [OpInsert 264%Z 8%Z]).
  { split; [right; exact occupied_target_written|]. intros st1 _. exact I. }
  split; [exact occupied_target_wf|]. split; [exact H|]. split; [exact Hw|].
  apply (levels_sorted_on_written_runs [OpInsert 264%Z 8%Z]
           Shapes.occupied_target Shapes.after_occupied_cascade
           occupied_target_wf H).
Defined.

Lemma NoDup_map_of_nat (l : list nat) : NoDup l -> NoDup (map Z.of_nat l).
Proof.
  induction 1 as [|a l Hnotin _ IH]; [constructor|].
  simpl. constructor; [|exact IH].
  intros Hin. apply in_map_iff in Hin as (b & Hb & Hin).
  apply Nat2Z.inj in Hb. subst b. contradiction.
Qed.

Lemma insert_range_fresh (from n : nat) (v : Z) :
  fresh_run (@empty_index Z Run.BI) (Run.insert_range from n v).
Proof.
  split.
  - unfold Run.insert_range. rewrite map_map. cbn [item_of key Item_kv first].
    apply NoDup_map_of_nat. apply seq_NoDup.
  - intros o _ level.
    assert (E : get_level (@empty_index Z Run.BI) level = [])
      by (unfold get_level, empty_index; cbn [data]; apply nth_repeat_nil).
    rewrite E. apply has_key_nil.
Qed.

(** Three hundred inserts of new keys into the empty container. *)
Lemma fresh_keys_are_all_found_witness :
  search_brackets Run.whole_level /\
  tidy (@empty_index Z Run.BI) /\
  fresh_run (@empty_index Z Run.BI) (Run.insert_range 1 300 1) /\
  apply_ops (@empty_index Z Run.BI) (Run.insert_range 1 300 1)
  = Some Shapes.after_fresh_run /\
  (used_levels Shapes.after_fresh_run <= 64)%nat /\
  tidy Shapes.after_fresh_run /\
  (forall o, In o (Run.insert_range 1 300 1) ->
     find_entry Run.MinIndexedLevel Run.whole_level Shapes.after_fresh_run
       (key (@item_of Z Run.BI o))
     = visible (Some (@item_of Z Run.BI o))) /\
  (forall k, ~ In k (map (fun o => key (@item_of Z Run.BI o)) (Run.insert_range 1 300 1)) ->
     find_entry Run.MinIndexedLevel Run.whole_level Shapes.after_fresh_run k
     = find_entry Run.MinIndexedLevel Run.whole_level (@empty_index Z Run.BI) k).
Proof.
  assert (H : apply_ops (@empty_index Z Run.BI) (Run.insert_range 1 300 1)
              = Some Shapes.after_fresh_run) by (vm_compute; reflexivity).
  assert (Hu : (used_levels Shapes.after_fresh_run <= 64)%nat)
    by (vm_compute; lia).
  split; [exact whole_level_brackets|].
  split; [exact empty_index_tidy|].
  split; [exact (insert_range_fresh 1 300 1)|].
  split; [exact H|]. split; [exact Hu|].
  apply (fresh_keys_are_all_found Run.MinIndexedLevel Run.whole_level
           (Run.insert_range 1 300 1) empty_index Shapes.after_fresh_run
           whole_level_brackets empty_index_tidy (insert_range_fresh 1 300 1)
           H Hu).
Defined.

Lemma full_buffer_lands :
  lands_in_empty_level Shapes.full_buffer (@Item_kv Z Run.BI 128%Z 1%Z).
Proof. right. right. vm_compute. reflexivity. Qed.

(** [insert(128, 1)] into the full buffer. *)
Lemma insert_defined_witness :
  well_formed Shapes.full_buffer /\
  (used_levels Shapes.full_buffer < 64)%nat /\
  lands_in_empty_level Shapes.full_buffer (@Item_kv Z Run.BI 128%Z 1%Z) /\
  exists st', insert Shapes.full_buffer (Item_kv 128%Z 1%Z) = Some st'.
Proof.
  assert (Hu : (used_levels Shapes.full_buffer < 64)%nat) by (vm_compute; lia).
  split; [exact full_buffer_wf|]. split; [exact Hu|].
  split; [exact full_buffer_lands|].
  apply (insert_defined Shapes.full_buffer (Item_kv 128%Z 1%Z)
           full_buffer_wf Hu full_buffer_lands).
Defined.

Lemma empty_index_levels_bounded : levels_bounded (@empty_index Z Run.BI).
Proof. left. vm_compute. lia. Qed.

(** Three hundred inserts of new keys into the empty container. *)
Lemma fresh_run_is_defined_witness :
  tidy (@empty_index Z Run.BI) /\
  levels_bounded (@empty_index Z Run.BI) /\
  fresh_run (@empty_index Z Run.BI) (Run.insert_range 1 300 1) /\
  (Z.of_nat (total_size (@empty_index Z Run.BI)
             + length (Run.insert_range 1 300 1)) < 2 ^ 62)%Z /\
  exists st',
    apply_ops (@empty_index Z Run.BI) (Run.insert_range 1 300 1) = Some st' /\
    tidy st' /\ levels_bounded st' /\
    total_size st'
    = (total_size (@empty_index Z Run.BI)
       + length (Run.insert_range 1 300 1))%nat.
Proof.
  assert (Hsize : (Z.of_nat (total_size (@empty_index Z Run.BI)
                             + length (Run.insert_range 1 300 1)) < 2 ^ 62)%Z)
    by (vm_compute; reflexivity).
  split; [exact empty_index_tidy|].
  split; [exact empty_index_levels_bounded|].
  split; [exact (insert_range_fresh 1 300 1)|]. split; [exact Hsize|].
  apply (fresh_run_is_defined (Run.insert_range 1 300 1) empty_index
           empty_index_tidy empty_index_levels_bounded
           (insert_range_fresh 1 300 1) Hsize).
Defined.

(** The scan from [lower_bound(1)] where the buffer holds a tombstone for
    the key 1 above level 7: the first entry is the one of level 7. *)
Lemma iteration_follows_find_witness :
  search_brackets Run.whole_level /\
  levels_sorted Run.two_levels /\
  scan_from Run.MinIndexedLevel Run.whole_level Run.two_levels 1%Z
  = Some (Item_kv 1%Z 10%Z :: [Item_kv 2%Z 20%Z; Item_kv 3%Z 30%Z]) /\
  deref Run.two_levels
    (lower_bound Run.MinIndexedLevel Run.whole_level Run.two_levels 1%Z)
  = Some (Item_kv 1%Z 10%Z) /\
  forall y, In y [@Item_kv Z Run.BI 2%Z 20%Z; Item_kv 3%Z 30%Z] <->
            (key (@Item_kv Z Run.BI 1%Z 10%Z) < key y)%Z /\
            find_entry Run.MinIndexedLevel Run.whole_level Run.two_levels (key y)
            = Some y.
Proof.
  assert (H : scan_from Run.MinIndexedLevel Run.whole_level Run.two_levels 1%Z
              = Some (Item_kv 1%Z 10%Z :: [Item_kv 2%Z 20%Z; Item_kv 3%Z 30%Z]))
    by (vm_compute; reflexivity).
  split; [exact whole_level_brackets|].
  split; [exact two_levels_sorted|]. split; [exact H|].
  apply (iteration_follows_find Run.MinIndexedLevel Run.whole_level
           Run.two_levels 1%Z (Item_kv 1%Z 10%Z)
           [Item_kv 2%Z 20%Z; Item_kv 3%Z 30%Z]
           whole_level_brackets two_levels_sorted H).
Defined.

Lemma after_fresh_run_tidy : tidy Shapes.after_fresh_run.
Proof.
  apply (apply_ops_fresh_tidy (Run.insert_range 1 300 1) empty_index).
  - exact empty_index_tidy.
  - exact (insert_range_fresh 1 300 1).
  - vm_compute. reflexivity.
  - vm_compute. lia.
Qed.

Lemma after_fresh_run_above_least (level : nat) (x : Item) :
  In x (get_level Shapes.after_fresh_run level) -> (Run.K_min <= key x)%Z.
Proof.
  unfold get_level.
  assert (H : forallb (forallb (fun y => (Run.K_min <=? key y)%Z))
                (data Shapes.after_fresh_run) = true)
    by (vm_compute; reflexivity).
  destruct (nth_in_or_default (level - min_level)
              (data Shapes.after_fresh_run) [])
    as [Hin | Heq]; [|rewrite Heq; intros []].
  rewrite forallb_forall in H. specialize (H _ Hin).
  rewrite forallb_forall in H. intros Hx. apply Z.leb_le. apply H. exact Hx.
Qed.

(** The iteration after three hundred inserts of new keys. *)
Lemma iteration_yields_live_entries_witness :
  search_brackets Run.whole_level /\
  levels_sorted Shapes.after_fresh_run /\
  keys_disjoint Shapes.after_fresh_run /\
  (forall level x, In x (get_level Shapes.after_fresh_run level) ->
                   (Run.K_min <= key x)%Z) /\
  traverse Run.MinIndexedLevel Run.whole_level Run.K_min Shapes.after_fresh_run
  = Some (map (fun i => Item_kv (Z.of_nat i) 1%Z) (seq 1 300)) /\
  forall y,
    In y (map (fun i => @Item_kv Z Run.BI (Z.of_nat i) 1%Z) (seq 1 300)) <->
    deleted y = false /\
    exists level,
      (min_level <= level < used_levels Shapes.after_fresh_run)%nat /\
      In y (get_level Shapes.after_fresh_run level).
Proof.
  assert (Hs : levels_sorted Shapes.after_fresh_run)
    by exact (wf_sorted (tidy_wf after_fresh_run_tidy)).
  assert (Hd : keys_disjoint Shapes.after_fresh_run)
    by exact (tidy_disjoint after_fresh_run_tidy).
  assert (H : traverse Run.MinIndexedLevel Run.whole_level Run.K_min
                Shapes.after_fresh_run
              = Some (map (fun i => Item_kv (Z.of_nat i) 1%Z) (seq 1 300)))
    by (vm_compute; reflexivity).
  split; [exact whole_level_brackets|]. split; [exact Hs|].
  split; [exact Hd|]. split; [exact after_fresh_run_above_least|].
  split; [exact H|].
  apply (iteration_yields_live_entries Run.MinIndexedLevel Run.whole_level
           Run.K_min Shapes.after_fresh_run _ whole_level_brackets Hs Hd
           after_fresh_run_above_least H).
Defined.

Lemma occupied_target_lacks_100_above (j : nat) :
  (min_level <= j < cascade_target Shapes.occupied_target)%nat ->
  ~ has_key (get_level Shapes.occupied_target j) 100%Z.
Proof.
  assert (ET : cascade_target Shapes.occupied_target = 9%nat)
    by (vm_compute; reflexivity).
  rewrite ET. unfold min_level. intros Hj H. apply has_key_existsb in H.
  assert (E : j = 6%nat \/ j = 7%nat \/ j = 8%nat) by lia.
  destruct E as [->|[->| ->]]; vm_compute in H; discriminate.
Qed.

(** The last insert of [Run.into_occupied_target], where the last merge
    is as long as the running sequence and level 9 is given that sequence;
    and the last insert of [Run.plain_inserts], where the last merge puts
    out 256 entries over a running sequence of 128, and level 9 is given
    that sequence and 128 slots that were never written. *)
Lemma cascade_into_occupied_level_drops_old_content_witness :
  (well_formed Shapes.occupied_target /\
   ~ has_key (get_level Shapes.occupied_target min_level) (key (@Item_kv Z Run.BI 264%Z 8%Z)) /\
   length (get_level Shapes.occupied_target min_level) = (2 ^ (min_level + 1) - 1)%nat /\
   get_level Shapes.occupied_target (cascade_target Shapes.occupied_target) <> [] /\
   insert Shapes.occupied_target (@Item_kv Z Run.BI 264%Z 8%Z) = Some Shapes.after_occupied_cascade /\
   get_level Shapes.after_occupied_cascade (cascade_target Shapes.occupied_target)
   = firstn
      (length
         (merge (Nat.eqb (cascade_target Shapes.occupied_target) (used_levels Shapes.occupied_target - 1))
            (cascade_run Shapes.occupied_target (@Item_kv Z Run.BI 264%Z 8%Z))
            (get_level Shapes.occupied_target (cascade_target Shapes.occupied_target))))
      (cascade_run Shapes.occupied_target (@Item_kv Z Run.BI 264%Z 8%Z))
     ++ map (uninit_slot Shapes.occupied_target)
          (seq (length (cascade_run Shapes.occupied_target (@Item_kv Z Run.BI 264%Z 8%Z)))
             ((length
         (merge (Nat.eqb (cascade_target Shapes.occupied_target) (used_levels Shapes.occupied_target - 1))
            (cascade_run Shapes.occupied_target (@Item_kv Z Run.BI 264%Z 8%Z))
            (get_level Shapes.occupied_target (cascade_target Shapes.occupied_target))))
              - length (cascade_run Shapes.occupied_target (@Item_kv Z Run.BI 264%Z 8%Z)))) /\
   (forall k,
      level_entry (cascade_run Shapes.occupied_target (@Item_kv Z Run.BI 264%Z 8%Z)) k
      = first_entry
          ((firstn (lower_bound_pos (get_level Shapes.occupied_target min_level) (key (@Item_kv Z Run.BI 264%Z 8%Z)))
              (get_level Shapes.occupied_target min_level)
            ++ (@Item_kv Z Run.BI 264%Z 8%Z)
               :: skipn (lower_bound_pos (get_level Shapes.occupied_target min_level)
                           (key (@Item_kv Z Run.BI 264%Z 8%Z)))
                    (get_level Shapes.occupied_target min_level))
           :: map (get_level Shapes.occupied_target)
                (seq (1 + min_level) (cascade_target Shapes.occupied_target - 1 - min_level))) k) /\
   (forall k,
      k <> key (@Item_kv Z Run.BI 264%Z 8%Z) ->
      (forall j, (min_level <= j < cascade_target Shapes.occupied_target)%nat ->
                 ~ has_key (get_level Shapes.occupied_target j) k) ->
      forall y, In y (get_level Shapes.after_occupied_cascade (cascade_target Shapes.occupied_target)) -> key y = k ->
        exists j,
          (length (cascade_run Shapes.occupied_target (@Item_kv Z Run.BI 264%Z 8%Z)) <= j
           < (length
         (merge (Nat.eqb (cascade_target Shapes.occupied_target) (used_levels Shapes.occupied_target - 1))
            (cascade_run Shapes.occupied_target (@Item_kv Z Run.BI 264%Z 8%Z))
            (get_level Shapes.occupied_target (cascade_target Shapes.occupied_target)))))%nat /\
          y = uninit_slot Shapes.occupied_target j) /\
   (((length
         (merge (Nat.eqb (cascade_target Shapes.occupied_target) (used_levels Shapes.occupied_target - 1))
            (cascade_run Shapes.occupied_target (@Item_kv Z Run.BI 264%Z 8%Z))
            (get_level Shapes.occupied_target (cascade_target Shapes.occupied_target))))
     <= length (cascade_run Shapes.occupied_target (@Item_kv Z Run.BI 264%Z 8%Z)))%nat ->
    get_level Shapes.after_occupied_cascade (cascade_target Shapes.occupied_target)
    = firstn
       (length
         (merge (Nat.eqb (cascade_target Shapes.occupied_target) (used_levels Shapes.occupied_target - 1))
            (cascade_run Shapes.occupied_target (@Item_kv Z Run.BI 264%Z 8%Z))
            (get_level Shapes.occupied_target (cascade_target Shapes.occupied_target))))
       (cascade_run Shapes.occupied_target (@Item_kv Z Run.BI 264%Z 8%Z)) /\
    forall k,
      k <> key (@Item_kv Z Run.BI 264%Z 8%Z) ->
      (forall j, (min_level <= j < cascade_target Shapes.occupied_target)%nat ->
                 ~ has_key (get_level Shapes.occupied_target j) k) ->
      ~ has_key (get_level Shapes.after_occupied_cascade (cascade_target Shapes.occupied_target)) k)) /\
  (well_formed Shapes.before_unwritten /\
   ~ has_key (get_level Shapes.before_unwritten min_level) (key (@Item_kv Z Run.BI 328%Z 8%Z)) /\
   length (get_level Shapes.before_unwritten min_level) = (2 ^ (min_level + 1) - 1)%nat /\
   get_level Shapes.before_unwritten (cascade_target Shapes.before_unwritten) <> [] /\
   insert Shapes.before_unwritten (@Item_kv Z Run.BI 328%Z 8%Z) = Some Shapes.after_unwritten /\
   get_level Shapes.after_unwritten (cascade_target Shapes.before_unwritten)
   = firstn
      (length
         (merge (Nat.eqb (cascade_target Shapes.before_unwritten) (used_levels Shapes.before_unwritten - 1))
            (cascade_run Shapes.before_unwritten (@Item_kv Z Run.BI 328%Z 8%Z))
            (get_level Shapes.before_unwritten (cascade_target Shapes.before_unwritten))))
      (cascade_run Shapes.before_unwritten (@Item_kv Z Run.BI 328%Z 8%Z))
     ++ map (uninit_slot Shapes.before_unwritten)
          (seq (length (cascade_run Shapes.before_unwritten (@Item_kv Z Run.BI 328%Z 8%Z)))
             ((length
         (merge (Nat.eqb (cascade_target Shapes.before_unwritten) (used_levels Shapes.before_unwritten - 1))
            (cascade_run Shapes.before_unwritten (@Item_kv Z Run.BI 328%Z 8%Z))
            (get_level Shapes.before_unwritten (cascade_target Shapes.before_unwritten))))
              - length (cascade_run Shapes.before_unwritten (@Item_kv Z Run.BI 328%Z 8%Z)))) /\
   (forall k,
      level_entry (cascade_run Shapes.before_unwritten (@Item_kv Z Run.BI 328%Z 8%Z)) k
      = first_entry
          ((firstn (lower_bound_pos (get_level Shapes.before_unwritten min_level) (key (@Item_kv Z Run.BI 328%Z 8%Z)))
              (get_level Shapes.before_unwritten min_level)
            ++ (@Item_kv Z Run.BI 328%Z 8%Z)
               :: skipn (lower_bound_pos (get_level Shapes.before_unwritten min_level)
                           (key (@Item_kv Z Run.BI 328%Z 8%Z)))
                    (get_level Shapes.before_unwritten min_level))
           :: map (get_level Shapes.before_unwritten)
                (seq (1 + min_level) (cascade_target Shapes.before_unwritten - 1 - min_level))) k) /\
   (forall k,
      k <> key (@Item_kv Z Run.BI 328%Z 8%Z) ->
      (forall j, (min_level <= j < cascade_target Shapes.before_unwritten)%nat ->
                 ~ has_key (get_level Shapes.before_unwritten j) k) ->
      forall y, In y (get_level Shapes.after_unwritten (cascade_target Shapes.before_unwritten)) -> key y = k ->
        exists j,
          (length (cascade_run Shapes.before_unwritten (@Item_kv Z Run.BI 328%Z 8%Z)) <= j
           < (length
         (merge (Nat.eqb (cascade_target Shapes.before_unwritten) (used_levels Shapes.before_unwritten - 1))
            (cascade_run Shapes.before_unwritten (@Item_kv Z Run.BI 328%Z 8%Z))
            (get_level Shapes.before_unwritten (cascade_target Shapes.before_unwritten)))))%nat /\
          y = uninit_slot Shapes.before_unwritten j) /\
   (((length
         (merge (Nat.eqb (cascade_target Shapes.before_unwritten) (used_levels Shapes.before_unwritten - 1))
            (cascade_run Shapes.before_unwritten (@Item_kv Z Run.BI 328%Z 8%Z))
            (get_level Shapes.before_unwritten (cascade_target Shapes.before_unwritten))))
     <= length (cascade_run Shapes.before_unwritten (@Item_kv Z Run.BI 328%Z 8%Z)))%nat ->
    get_level Shapes.after_unwritten (cascade_target Shapes.before_unwritten)
    = firstn
       (length
         (merge (Nat.eqb (cascade_target Shapes.before_unwritten) (used_levels Shapes.before_unwritten - 1))
            (cascade_run Shapes.before_unwritten (@Item_kv Z Run.BI 328%Z 8%Z))
            (get_level Shapes.before_unwritten (cascade_target Shapes.before_unwritten))))
       (cascade_run Shapes.before_unwritten (@Item_kv Z Run.BI 328%Z 8%Z)) /\
    forall k,
      k <> key (@Item_kv Z Run.BI 328%Z 8%Z) ->
      (forall j, (min_level <= j < cascade_target Shapes.before_unwritten)%nat ->
                 ~ has_key (get_level Shapes.before_unwritten j) k) ->
      ~ has_key (get_level Shapes.after_unwritten (cascade_target Shapes.before_unwritten)) k)) /\
  ((cascade_target Shapes.occupied_target,
    length (cascade_run Shapes.occupied_target (@Item_kv Z Run.BI 264%Z 8%Z)),
    length (merge (Nat.eqb (cascade_target Shapes.occupied_target)
                     (used_levels Shapes.occupied_target - 1))
              (cascade_run Shapes.occupied_target (@Item_kv Z Run.BI 264%Z 8%Z))
              (get_level Shapes.occupied_target
                 (cascade_target Shapes.occupied_target))))
   = (9, 128, 128)%nat /\
   (cascade_target Shapes.before_unwritten,
    length (cascade_run Shapes.before_unwritten (@Item_kv Z Run.BI 328%Z 8%Z)),
    length (merge (Nat.eqb (cascade_target Shapes.before_unwritten)
                     (used_levels Shapes.before_unwritten - 1))
              (cascade_run Shapes.before_unwritten (@Item_kv Z Run.BI 328%Z 8%Z))
              (get_level Shapes.before_unwritten
                 (cascade_target Shapes.before_unwritten))))
   = (9, 128, 256)%nat).
Proof.
  assert (Hfull : length (get_level Shapes.occupied_target min_level)
                  = (2 ^ (min_level + 1) - 1)%nat) by (vm_compute; reflexivity).
  assert (H : insert Shapes.occupied_target (Item_kv 264%Z 8%Z)
              = Some Shapes.after_occupied_cascade) by (vm_compute; reflexivity).
  assert (Hfull' : length (get_level Shapes.before_unwritten min_level)
                   = (2 ^ (min_level + 1) - 1)%nat)
    by (vm_compute; reflexivity).
  assert (H' : insert Shapes.before_unwritten (Item_kv 328%Z 8%Z)
               = Some Shapes.after_unwritten) by (vm_compute; reflexivity).
  split; [|split].
  - split; [exact occupied_target_wf|].
    split; [exact occupied_target_lacks_264|].
    split; [exact Hfull|]. split; [exact occupied_target_holds_data|].
    split; [exact H|].
    apply (cascade_into_occupied_level_drops_old_content
             Shapes.occupied_target Shapes.after_occupied_cascade
             (Item_kv 264%Z 8%Z) occupied_target_wf occupied_target_lacks_264
             Hfull occupied_target_holds_data H).
  - split; [exact before_unwritten_wf|].
    split; [exact before_unwritten_lacks_328|].
    split; [exact Hfull'|]. split; [exact before_unwritten_holds_data|].
    split; [exact H'|].
    apply (cascade_into_occupied_level_drops_old_content
             Shapes.before_unwritten Shapes.after_unwritten
             (Item_kv 328%Z 8%Z) before_unwritten_wf
             before_unwritten_lacks_328 Hfull' before_unwritten_holds_data H').
  - split; vm_compute; reflexivity.
Defined.

(** The key 100, which only level 9 held: found before the insert, and
    not after it. *)
Lemma find_skips_occupied_target_witness :
  search_brackets Run.whole_level /\
  well_formed Shapes.occupied_target /\
  ~ has_key (get_level Shapes.occupied_target min_level)
      (key (@Item_kv Z Run.BI 264%Z 8%Z)) /\
  length (get_level Shapes.occupied_target min_level)
  = (2 ^ (min_level + 1) - 1)%nat /\
  get_level Shapes.occupied_target (cascade_target Shapes.occupied_target)
  <> [] /\
  (length
     (merge (Nat.eqb (cascade_target Shapes.occupied_target)
               (used_levels Shapes.occupied_target - 1))
        (cascade_run Shapes.occupied_target (@Item_kv Z Run.BI 264%Z 8%Z))
        (get_level Shapes.occupied_target
           (cascade_target Shapes.occupied_target)))
   <= length (cascade_run Shapes.occupied_target
                (@Item_kv Z Run.BI 264%Z 8%Z)))%nat /\
  insert Shapes.occupied_target (Item_kv 264%Z 8%Z)
  = Some Shapes.after_occupied_cascade /\
  100%Z <> key (@Item_kv Z Run.BI 264%Z 8%Z) /\
  (forall j, (min_level <= j < cascade_target Shapes.occupied_target)%nat ->
             ~ has_key (get_level Shapes.occupied_target j) 100%Z) /\
  (Run.find_value Shapes.occupied_target 100%Z,
   Run.find_value Shapes.after_occupied_cascade 100%Z) = (Some 4%Z, None) /\
  find_entry Run.MinIndexedLevel Run.whole_level
    Shapes.after_occupied_cascade 100%Z
  = visible
      (shallowest_entry Shapes.occupied_target 100%Z
         (seq (cascade_target Shapes.occupied_target + 1)
            (used_levels Shapes.occupied_target
             - (cascade_target Shapes.occupied_target + 1)))) /\
  find_entry Run.MinIndexedLevel Run.whole_level Shapes.occupied_target 100%Z
  = visible
      (match level_entry
               (get_level Shapes.occupied_target
                  (cascade_target Shapes.occupied_target)) 100%Z with
       | Some y => Some y
       | None =>
           shallowest_entry Shapes.occupied_target 100%Z
             (seq (cascade_target Shapes.occupied_target + 1)
                (used_levels Shapes.occupied_target
                 - (cascade_target Shapes.occupied_target + 1)))
       end).
Proof.
  assert (Hfull : length (get_level Shapes.occupied_target min_level)
                  = (2 ^ (min_level + 1) - 1)%nat) by (vm_compute; reflexivity).
  assert (H : insert Shapes.occupied_target (Item_kv 264%Z 8%Z)
              = Some Shapes.after_occupied_cascade) by (vm_compute; reflexivity).
  assert (Hk : 100%Z <> key (@Item_kv Z Run.BI 264%Z 8%Z))
    by (vm_compute; discriminate).
  split; [exact whole_level_brackets|].
  split; [exact occupied_target_wf|]. split; [exact occupied_target_lacks_264|].
  split; [exact Hfull|]. split; [exact occupied_target_holds_data|].
  split; [exact occupied_target_written|].
  split; [exact H|]. split; [exact Hk|].
  split; [exact occupied_target_lacks_100_above|].
  split; [vm_compute; reflexivity|].
  apply (find_skips_occupied_target Run.MinIndexedLevel Run.whole_level
           Shapes.occupied_target Shapes.after_occupied_cascade
           (Item_kv 264%Z 8%Z) 100%Z whole_level_brackets
           occupied_target_wf occupied_target_lacks_264 Hfull
           occupied_target_holds_data occupied_target_written H Hk
           occupied_target_lacks_100_above).
Defined.

(** The entry with key 264 in level 9 after the last insert of
    [Run.into_occupied_target], which hands out written slots only; and
    the last entry of level 9 after the last insert of [Run.plain_inserts],
    a slot that was never written. *)
Lemma stored_entries_come_from_operations_witness :
  (well_formed Shapes.occupied_target /\
   apply_ops Shapes.occupied_target [OpInsert 264%Z 8%Z]
   = Some Shapes.after_occupied_cascade /\
   written_run Shapes.occupied_target [OpInsert 264%Z 8%Z] /\
   In (@Item_kv Z Run.BI 264%Z 8%Z) (get_level Shapes.after_occupied_cascade 9) /\
   (In (@Item_kv Z Run.BI 264%Z 8%Z) (map item_of [OpInsert 264%Z 8%Z]) \/
    (exists j, In (@Item_kv Z Run.BI 264%Z 8%Z)
                 (get_level Shapes.occupied_target j)) \/
    exists s j, @Item_kv Z Run.BI 264%Z 8%Z = uninit_slot s j) /\
   (written_run Shapes.occupied_target [OpInsert 264%Z 8%Z] ->
    In (@Item_kv Z Run.BI 264%Z 8%Z) (map item_of [OpInsert 264%Z 8%Z]) \/
    exists j, In (@Item_kv Z Run.BI 264%Z 8%Z)
                (get_level Shapes.occupied_target j))) /\
  (well_formed Shapes.before_unwritten /\
   apply_ops Shapes.before_unwritten [OpInsert 328%Z 8%Z]
   = Some Shapes.after_unwritten /\
   nth 255 (get_level Shapes.after_unwritten 9) (@Item_k Z Run.BI 1%Z)
   = uninit_slot Shapes.before_unwritten 255 /\
   In (uninit_slot Shapes.before_unwritten 255)
     (get_level Shapes.after_unwritten 9) /\
   (In (uninit_slot Shapes.before_unwritten 255)
      (map item_of [OpInsert 328%Z 8%Z]) \/
    (exists j, In (uninit_slot Shapes.before_unwritten 255)
                 (get_level Shapes.before_unwritten j)) \/
    exists s j, uninit_slot Shapes.before_unwritten 255 = uninit_slot s j) /\
   (written_run Shapes.before_unwritten [OpInsert 328%Z 8%Z] ->
    In (uninit_slot Shapes.before_unwritten 255)
      (map item_of [OpInsert 328%Z 8%Z]) \/
    exists j, In (uninit_slot Shapes.before_unwritten 255)
                (get_level Shapes.before_unwritten j))).
Proof.
  assert (H : apply_ops Shapes.occupied_target [OpInsert 264%Z 8%Z]
              = Some Shapes.after_occupied_cascade) by (vm_compute; reflexivity).
  assert (Hw : written_run Shapes.occupied_target [OpInsert 264%Z 8%Z]).
  { split; [right; exact occupied_target_written|]. intros st1 _. exact I. }
  assert (Hin : In (@Item_kv Z Run.BI 264%Z 8%Z)
                  (get_level Shapes.after_occupied_cascade 9)).
  { assert (E : nth 127 (get_level Shapes.after_occupied_cascade 9)
                  (@Item_kv Z Run.BI 0%Z 0%Z)
                = Item_kv 264%Z 8%Z) by (vm_compute; reflexivity).
    rewrite <- E. apply nth_In. vm_compute. lia. }
  assert (H' : apply_ops Shapes.before_unwritten [OpInsert 328%Z 8%Z]
               = Some Shapes.after_unwritten) by (vm_compute; reflexivity).
  assert (E' : nth 255 (get_level Shapes.after_unwritten 9)
                 (@Item_k Z Run.BI 1%Z)
               = uninit_slot Shapes.before_unwritten 255)
    by (vm_compute; reflexivity).
  assert (Hin' : In (uninit_slot Shapes.before_unwritten 255)
                   (get_level Shapes.after_unwritten 9)).
  { rewrite <- E'. apply nth_In. vm_compute. lia. }
  split.
  - split; [exact occupied_target_wf|]. split; [exact H|].
    split; [exact Hw|]. split; [exact Hin|].
    apply (stored_entries_come_from_operations [OpInsert 264%Z 8%Z]
             Shapes.occupied_target Shapes.after_occupied_cascade
             occupied_target_wf H 9%nat (Item_kv 264%Z 8%Z) Hin).
  - split; [exact before_unwritten_wf|]. split; [exact H'|].
    split; [exact E'|]. split; [exact Hin'|].
    apply (stored_entries_come_from_operations [OpInsert 328%Z 8%Z]
             Shapes.before_unwritten Shapes.after_unwritten
             before_unwritten_wf H' 9%nat
             (uninit_slot Shapes.before_unwritten 255) Hin').
Defined.
